(* ===== verification/_CoqProject ===== *)
-Q . S2P
Prelude.v
Script.v
Text.v
BTree.v
Domain.v
PriceLevel.v
FifoLevel.v
Book.v
BookSpec.v
BookInv.v
BookMatch.v
BookOps.v
BookReplace.v
BookCanon.v
Messages.v
Display.v
Ids.v
Risk.v
Engine.v
EngineInv.v
EngineFills.v
EngineOrders.v
EngineStep.v
EngineL2.v
EngineRun.v
EngineBounds.v
Bytes.v
Framing.v
WireInbound.v
WireOutbound.v
MarketData.v
Channels.v
EngineFeed.v
EngineAnswers.v
EngineFaults.v
Recorder.v
Listener.v
Client.v
Replay.v
EngineLockstep.v
ReplayTotal.v
EngineCanon.v
BookTests.v
BookRuns.v
WireTests.v
DomainTests.v
RiskTests.v
EngineTests.v
IntegrationTests.v
EngineSnapshot.v
GatewayTests.v
PropTests.v
Fixture.v
Workload.v
Bench.v
Server.v
ServerInv.v
Serving.v
Scenarios.v
TcpTests.v
Demo.v
BookProps.v
RiskProps.v
EngineProps.v
WireProps.v
SessionProps.v
ServerProps.v
SuiteProps.v
