(* ===== verification/Prelude.v ===== *)
(** * A verified model of the hft-clob-core matching engine

    The program is a single-symbol central limit order book.  A client sends framed
    commands over TCP ([crates/clob-client], [crates/gateway]); the listener decodes
    them ([crates/wire]) and forwards them to one engine thread ([crates/engine]),
    which checks them against risk limits ([crates/risk]), matches them on the book
    ([crates/matching]) and emits numbered reports, trades and book updates, which
    are encoded ([crates/marketdata]) and broadcast.  Every accepted frame can be
    logged and a log replayed ([gateway/src/recorder.rs], [engine/src/bin/replay.rs]).
    Benchmark programs, a fixture generator and client examples drive these parts.

    ** Files and what they model

    - [Prelude]: machine integers as [Z] with their wraps and checked operations,
      [Result] as [result], panics and loops as [outcome] ([loop] runs a body with
      fuel), the total-correctness judgement [wp], shared list lemmas.
    - [Script]: a test or script as a computation over a state with assertions
      ([passes]), and programs over two states side by side.  [Text]: parsing decimal numbers.
    - [BTree]: [BTreeMap] and [BTreeSet] as strictly sorted association lists.
    - [Domain]: [crates/domain]: ids, prices, quantities, the wire-stable enums, and
      the [Clock] and [IdGenerator] traits as type classes.
    - [PriceLevel]: the third-party crate [pricelevel] as a class of operations
      ([PriceLevelOps]), with its documented behaviour as laws ([PriceLevelLaws]:
      contents of add, cancel and update; [SnapshotSucceeds]: the snapshot buffer can
      be reserved).  [FifoLevel] holds two executable instances of both, a queue and
      the same queue stored back to front.
    - [Book]: [matching/src/book.rs], operation by operation.  [BookSpec] is the
      abstract book: one queue per side in price-time priority, [spec_match],
      [spec_insert], [spec_cancel], [spec_set_qty].  [BookInv] holds the
      representation invariant [book_ok] and the abstraction [side_queue]; [BookMatch],
      [BookOps] and [BookReplace] prove that the operations refine the abstract ones.
      [BookCanon]: the book over any lawful level behaves as its copy over FIFO levels
      ([canon]).
    - [Messages]: the inbound commands and outbound reports, the sinks.  [Ids]:
      [engine/src/ids.rs] and [clock.rs], and the laws the engine relies on.
      [Display]: the [Display] implementations and a reader that inverts them.
    - [Risk]: [risk/src/state.rs].
    - [Engine]: [engine/src/engine.rs], every handler with its emissions and its
      book-keeping.  [EngineInv] (the registry and the risk counters mirror the book;
      [stream], what was emitted), [EngineFills], [EngineOrders], [EngineStep] (the
      invariant [einv] handler by handler), [EngineL2] (the delta merge), [EngineRun]
      (one step, one session), [EngineSnapshot] (what a snapshot answers, and a
      subscriber that joins with one in the middle of a session).
    - [EngineBounds]: the risk limits bound the book, so sessions up to [MAX_SESSION]
      commands need no further condition.  [EngineFeed]: what the engine emits fits
      the wire.  [EngineAnswers]: what a command is answered with.  [EngineFaults]: what
      a partial fill does to the risk counters, and an id in use to a new order.
    - [Bytes], [Framing], [WireInbound], [WireOutbound]: [crates/wire], byte for byte;
      a packed struct is the list of its field widths, read little-endian.
    - [MarketData]: [marketdata/src/encoder.rs].  [Channels]: the interfaces of the two
      tokio channels ([MpscLaws], [BroadcastLaws]: their documented behaviour) with
      instances, and the channel sink of [gateway/src/sink.rs] over them.
    - [Recorder]: [gateway/src/recorder.rs], the buffered writer included.
      [Listener]: the decoder of [gateway/src/listener.rs].  [Client]:
      [clob-client/src/lib.rs] over the calls of a socket.
    - [Replay]: [engine/src/bin/replay.rs] with its command line.  [EngineLockstep]:
      two engines that differ in their books' representation, clocks or sinks run in
      lockstep.  [EngineCanon]: so does an engine over any lawful price level with one
      over FIFO levels.
      [ReplayTotal]: replaying any log, and the log of a live session.
    - [Fixture]: [engine/src/bin/gen_fixture.rs] and the two files of [fixtures/], byte
      for byte.  [Workload]: the benchmark programs, with the instants they read, the
      samples they record and the paced schedule of [co_bench]; the histogram and the
      heap statistics are interfaces.  [Bench]: a histogram that keeps its samples, and
      what every benchmark records.
    - [Server]: [engine/src/bin/engine.rs] and [gateway/src/listener.rs] as a transition
      system ([server_step], each transition an executable function and labelled with
      the task that takes it) of the accept loop, the readers and writers, the forwarder
      and the engine thread, and the start-up, core pinning and exit of the binary's
      [main] over the affinity library as a parameter.  [ServerInv]: its invariant.
      [Serving]: a client's program against that system, under any schedule that serves
      it ([serves]; [greedy] is one), and its refinement of a small world that is easy to
      compute in.
    - [BookTests], [BookRuns], [WireTests], [DomainTests], [RiskTests], [EngineTests],
      [GatewayTests]: the unit and property tests of the source files, test by test,
      and the command driver of [matching/tests/props_book_not_crossed.rs].
      [IntegrationTests]: [engine/tests/integration.rs].  [PropTests]: the property
      tests of [wire/tests], [engine/tests/replay_equality.rs] and
      [matching/tests/invariants.rs], their generators as predicates.
    - [Scenarios]: the scripts of [clob-client/examples] as programs over the client
      interface of [Serving].  [TcpTests]: [engine/tests/tcp_surface.rs] and
      [gateway/tests/end_to_end.rs] in the same way.
    - [Demo]: concrete books and engines.  [BookProps], [RiskProps], [EngineProps],
      [WireProps], [SessionProps], [ServerProps], [SuiteProps]: the properties, and
      their instances at concrete inputs.

    ** What the theorems show

    - Book (C1-C11): matching returns and is exactly price-time matching with
      cancel-both self-trade prevention; it conserves quantity and is atomic for
      post-only orders; no list of new orders, cancels and replaces leaves a crossed
      market (C6); resting, cancelling, replacing and mass-cancelling do what the queue
      functions say, on every branch.
    - Risk (C12-C13): the gate accepts exactly within the band and the limits, and
      names the first check that fails.
    - Engine (C14-C24): a step keeps the invariant when the id source and, for a
      replace, the level have room (C14).  A session of up to 2^27 valid commands from a
      fresh engine always has: it cannot fail (C16), the registry and the notional
      counters agree with the book (C15), its messages are numbered without a gap and fit
      the wire (C16), they answer the commands one by one (C18: a mass cancel with one
      report per order, a kill-switch command with none), and the level-2 deltas
      reconstruct the depth, from the start of the session or from any snapshot in it
      (C17).  Kill switch, ownership and time-in-force rules (C19-C22); and two
      behaviours the documentation does not announce, in every state (C23: a partial
      fill lowers the open-order counter of an order that keeps resting; C24: an order
      with an id in use trades before it is refused).
    - Wire and tools (C25-C33): what a client sends is what the engine is handed (C25),
      round trips, sound and canonical decoding, independence from how bytes are cut;
      the log survives a crash at any byte; replaying the log of a live session of up to
      2^27 commands reproduces its feed under any clock (C31); two lawful price levels give
      the same session (C32), and so the committed fixture and its golden output come
      out byte for byte over any of them (C33).  [replay_exit_codes]: no log of up to
      2^27 bytes can crash the replay tool, whose exit codes mean what they say.
    - Server (C34-C37): under every interleaving and whatever bytes the clients send, as
      long as no more than 2^27 commands have been accepted, the engine thread does not
      crash and is the sequential run of the commands it took; each connection's commands
      are the decoding of its bytes; each client's bytes are a contiguous piece of the
      feed, up to a part of the next frame while its write is under way or after it was
      cut off; the forwarder and the engine thread can always process what was accepted.
    - Programs and tests (C38-C40): the property tests that assert something hold for
      every input of their generators (C38).  The benchmarks run to the end, and the
      times they report run from a reading of the clock before the work to one after it
      (C39, save [co_bench] at a target rate of zero, which panics, and on a clock that
      stands still; [workload_wellformed] bounds the operations they generate).  The
      client examples, the socket tests, the unit tests and the integration tests pass
      over every lawful price level (C40); the examples and socket tests also over every
      lawful ring and broadcast channel, every cut of the response, and every schedule
      that brings the server to rest before the client reads again.

    ** Modelling choices

    A [&mut self] method returns its new state; [debug_assert!] is compiled out.
    Arithmetic that wraps in a release build wraps in the model.  Loops take fuel: the
    level walk the snapshot length plus two, the book walk the number of levels plus
    two, the delta merge the two lengths plus one, byte loops the length plus one;
    theorems of the form [wp False _ _] or [_ = Ret _] show that this is enough.  The
    id source has a capacity ([id_cap]); [step_budget] bounds what one step can spend.
    A replace whose residual cannot be inserted (sequence or level-total overflow) is
    excluded from the step theorem by [replace_room]; C11 describes that branch, and
    [EngineBounds] shows that within [MAX_SESSION] commands it does not occur: with
    2^27 commands the sequence numbers stay below 6 * 2^54 and a level total below
    2^27 times the notional limit of one account, both within 64 bits.
    A snapshot of a level's orders can be taken ([SnapshotSucceeds]): the early exit of
    [match_aggressive] when the allocation fails is in the model but outside the claims.
    A socket is the list of its reads.  The tokio runtime of the binary is
    single-threaded, so a task runs undisturbed between two awaits: a read and the
    decoding of all it completes is one transition, taking a frame another, and each
    piece of it the socket takes another.  The engine thread runs beside the tasks and
    shares the command queue and the broadcast channel with them: taking a command and
    computing its step is one transition, sending each of its frames another, so a client
    may subscribe between two frames of a step.  When the engine thread panics in the
    middle of a step the model drops the frames of that step; C34 shows that within its
    bound it does not panic.  Wall-clock readings are an arbitrary function.
    Integer fields of packed structs are little-endian, as on every supported target.

    ** Not modelled

    The report a benchmark prints and the floating-point rates in it; the inside of the
    histogram and of the heap profiler; logging and the texts of error messages; how long
    a client's read may wait and how long a test sleeps; the random choice of a property
    test's inputs, whose ranges are predicates; the internals of the tokio runtime and of
    the channels.  Accessors that return a field are the record projections. *)

From stdpp Require Export base tactics numbers list gmap sorting.

#[global] Open Scope Z_scope.

(** ** Fixed-width integers

    A Rust integer is a [Z] together with the range of its width.  Unchecked
    arithmetic of a release build wraps; [checked_*] returns an option;
    [saturating_sub] clamps at zero. *)

Definition u8_max : Z := 2 ^ 8 - 1.
Definition u32_max : Z := 2 ^ 32 - 1.
Definition u64_max : Z := 2 ^ 64 - 1.
Definition u128_max : Z := 2 ^ 128 - 1.
Definition i64_max : Z := 2 ^ 63 - 1.
Definition i64_min : Z := - 2 ^ 63.

Definition is_u8 (z : Z) : Prop := 0 <= z <= u8_max.
Definition is_u32 (z : Z) : Prop := 0 <= z <= u32_max.
Definition is_u64 (z : Z) : Prop := 0 <= z <= u64_max.
Definition is_u128 (z : Z) : Prop := 0 <= z <= u128_max.
Definition is_i64 (z : Z) : Prop := i64_min <= z <= i64_max.

Definition wrap_u64 (z : Z) : Z := z mod 2 ^ 64.
Definition wrap_u128 (z : Z) : Z := z mod 2 ^ 128.
Definition wrap_i64 (z : Z) : Z := (z + 2 ^ 63) mod 2 ^ 64 - 2 ^ 63.

(** Bit-preserving [as] casts. *)
Definition i64_as_u64 (z : Z) : Z := wrap_u64 z.
Definition u64_as_i64 (z : Z) : Z := wrap_i64 z.
Definition i64_as_u128 (z : Z) : Z := wrap_u128 z.

Definition checked_add (max a b : Z) : option Z :=
  if decide (a + b <= max) then Some (a + b) else None.
Definition checked_mul (max a b : Z) : option Z :=
  if decide (a * b <= max) then Some (a * b) else None.
Definition saturating_sub (a b : Z) : Z := Z.max 0 (a - b).

(** Unchecked [u64] subtraction, wrapping as in a release build. *)
Definition u64_sub (a b : Z) : Z := wrap_u64 (a - b).

(** ** Rust's [Result] *)

Inductive result (A E : Type) : Type :=
| Ok (a : A)
| Err (e : E).
Arguments Ok {A E} a.
Arguments Err {A E} e.

Definition result_bind {A B E} (m : result A E) (k : A → result B E) : result B E :=
  match m with Ok a => k a | Err e => Err e end.
Definition map_err {A E F} (f : E → F) (m : result A E) : result A F :=
  match m with Ok a => Ok a | Err e => Err (f e) end.
Definition result_ok {A E} (m : result A E) : option A :=
  match m with Ok a => Some a | Err _ => None end.
Definition unwrap_or {A E} (m : result A E) (d : A) : A :=
  match m with Ok a => a | Err _ => d end.
Definition is_ok {A E} (m : result A E) : bool :=
  match m with Ok _ => true | Err _ => false end.
Definition ok_or {A E} (o : option A) (e : E) : result A E :=
  match o with Some a => Ok a | None => Err e end.

(** ** Outcomes of running code

    [Ret a] is a normal return, [Panic] an unwinding [expect] / [panic!],
    [Diverge] a loop that did not stop within the fuel it was given.  A theorem
    that some code returns is a theorem that its outcome is [Ret]. *)

Inductive outcome (A : Type) : Type :=
| Ret (a : A)
| Panic
| Diverge.
Arguments Ret {A} a.
Arguments Panic {A}.
Arguments Diverge {A}.

Definition outcome_bind {A B} (m : outcome A) (k : A → outcome B) : outcome B :=
  match m with Ret a => k a | Panic => Panic | Diverge => Diverge end.

(** [Option::expect] and [Result::expect]. *)
Definition expect {A} (o : option A) : outcome A :=
  match o with Some a => Ret a | None => Panic end.

Definition expect_ok {A E} (r : result A E) : outcome A :=
  match r with Ok a => Ret a | Err _ => Panic end.

Declare Scope rust_scope.
Delimit Scope rust_scope with rust.
Notation "'let?' x ':=' m 'in' k" := (result_bind m (λ x, k))
  (at level 10, x binder, m at level 100, k at level 200) : rust_scope.
Notation "'let!' x ':=' m 'in' k" := (outcome_bind m (λ x, k))
  (at level 10, x binder, m at level 100, k at level 200) : rust_scope.
#[global] Open Scope rust_scope.

(** A Rust [loop] / [while]: the body returns [inl] to go round again and [inr]
    to break with a value.  [fuel] bounds the number of iterations. *)
Fixpoint loop {St R : Type} (fuel : nat) (body : St → outcome (St + R)) (s : St) : outcome R :=
  match fuel with
  | O => Diverge
  | S n =>
      let! r := body s in
      match r with
      | inl s' => loop n body s'
      | inr v => Ret v
      end
  end.

Lemma u64_sub_exact a b : 0 <= b <= a → a <= u64_max → u64_sub a b = a - b.
Proof. unfold u64_sub, wrap_u64, u64_max. intros. apply Z.mod_small. lia. Qed.

(** ** Reasoning about outcomes

    [wp P o Q]: the computation [o] does not diverge, panics only if [P], and
    its return value satisfies [Q].  [wp False o Q] is total correctness. *)

Definition wp {A} (P : Prop) (o : outcome A) (Q : A → Prop) : Prop :=
  match o with Ret a => Q a | Panic => P | Diverge => False end.

Lemma wp_ret {A} P (a : A) (Q : A → Prop) : Q a → wp P (Ret a) Q.
Proof. done. Qed.

Lemma wp_bind {A B} P (m : outcome A) (k : A → outcome B) Q :
  wp P m (λ a, wp P (k a) Q) → wp P (outcome_bind m k) Q.
Proof. by destruct m. Qed.

Lemma wp_mono {A} (P P' : Prop) (o : outcome A) (Q Q' : A → Prop) :
  wp P o Q → (P → P') → (∀ a, Q a → Q' a) → wp P' o Q'.
Proof. destruct o; simpl; auto. Qed.

Lemma wp_conseq {A} (P : Prop) (o : outcome A) (Q Q' : A → Prop) :
  wp P o Q → (∀ a, Q a → Q' a) → wp P o Q'.
Proof. intros H ?. eapply wp_mono; eauto. Qed.

Lemma wp_and {A} (P : Prop) (o : outcome A) (Q1 Q2 : A → Prop) :
  wp P o Q1 → wp P o Q2 → wp P o (λ a, Q1 a ∧ Q2 a).
Proof. destruct o; simpl; auto. Qed.

Lemma wp_frame {A} (P : Prop) (o : outcome A) (Q : A → Prop) (R : Prop) :
  R → wp P o Q → wp P o (λ a, R ∧ Q a).
Proof. destruct o; simpl; auto. Qed.

Lemma wp_ret_inv {A} P (o : outcome A) Q a : wp P o Q → o = Ret a → Q a.
Proof. by intros H ->. Qed.

Lemma wp_total {A} (o : outcome A) Q : wp False o Q ↔ ∃ a, o = Ret a ∧ Q a.
Proof.
  split.
  - destruct o; naive_solver.
  - by intros (a & -> & ?).
Qed.

Lemma wp_returns {A} (o : outcome A) : wp False o (λ _, True) → ∃ a, o = Ret a.
Proof. destruct o; naive_solver. Qed.

(** The loop rule: an invariant and a measure that decreases on every round
    give termination within [measure + 1] rounds. *)
Lemma wp_loop {St R} P (I : St → Prop) (m : St → nat) (body : St → outcome (St + R)) (Q : R → Prop) :
  (∀ s, I s → wp P (body s) (λ r, match r with
                                  | inl s' => I s' ∧ (m s' < m s)%nat
                                  | inr v => Q v
                                  end)) →
  ∀ fuel s, I s → (m s < fuel)%nat → wp P (loop fuel body s) Q.
Proof.
  intros Hbody fuel. induction fuel as [|n IH]; intros s Hs Hm; [lia|].
  simpl. apply wp_bind. eapply wp_conseq; [by apply Hbody|].
  intros [s'|v]; [|done]. intros [? ?]. apply IH; [done|lia].
Qed.

(** Fuel monotonicity: a loop that returned keeps its value with more fuel. *)
Lemma loop_mono {St R} (body : St → outcome (St + R)) fuel fuel' s v :
  loop fuel body s = Ret v → (fuel <= fuel')%nat → loop fuel' body s = Ret v.
Proof.
  revert fuel' s. induction fuel as [|n IH]; intros [|n'] s H Hle; try done; try lia.
  simpl in *. destruct (body s) as [[s'|r]| |]; try done; simpl in *.
  apply IH; [done|lia].
Qed.

(** ** Lists *)

Lemma cons_inj {A} (x y : A) l k : x :: l = y :: k → x = y ∧ l = k.
Proof. by intros [= -> ->]. Qed.

Lemma Forall_filter_sub {A} (P Q : A → Prop) `{∀ x, Decision (P x)} l :
  Forall Q l → Forall Q (filter P l).
Proof.
  rewrite !Forall_forall. intros H' x [_ Hx]%list_elem_of_filter. auto.
Qed.

Lemma NoDup_fmap_inj_on {A B} (f : A → B) l x y :
  NoDup (f <$> l) → x ∈ l → y ∈ l → f x = f y → x = y.
Proof.
  induction l as [|a l IH]; csimpl; [set_solver|].
  rewrite NoDup_cons, !elem_of_cons. intros [Ha Hnd] [->|Hx] [->|Hy] Hf; try done.
  - exfalso. apply Ha. rewrite Hf. by apply list_elem_of_fmap_2.
  - exfalso. apply Ha. rewrite <-Hf. by apply list_elem_of_fmap_2.
  - auto.
Qed.

Lemma NoDup_fmap_filter {A B} (f : A → B) (P : A → Prop) `{∀ x, Decision (P x)} l :
  NoDup (f <$> l) → NoDup (f <$> filter P l).
Proof.
  induction l as [|a l IH]; csimpl; [done|].
  rewrite NoDup_cons. intros [Ha Hnd]. rewrite filter_cons. case_decide; csimpl; [|auto].
  apply NoDup_cons. split; [|auto].
  intros (x & ? & [_ Hx]%list_elem_of_filter)%list_elem_of_fmap. apply Ha.
  apply list_elem_of_fmap. eauto.
Qed.

Lemma filter_id {A} (P : A → Prop) `{∀ x, Decision (P x)} l :
  Forall P l → filter P l = l.
Proof.
  induction 1; [done|]. rewrite filter_cons. case_decide; [congruence|done].
Qed.

Lemma list_filter_iff' {A} (P Q : A → Prop) `{∀ x, Decision (P x)} `{∀ x, Decision (Q x)} (l : list A) :
  (∀ x, x ∈ l → (P x ↔ Q x)) → filter P l = filter Q l.
Proof.
  induction l as [|a l IH]; intros H'; [done|]. rewrite !filter_cons.
  rewrite (IH (λ x Hx, H' x (list_elem_of_further _ _ _ Hx))).
  pose proof (H' a (list_elem_of_here _ _)). repeat case_decide; tauto.
Qed.

Lemma list_bind_ext_in {A B} (f g : A → list B) l :
  (∀ x, x ∈ l → f x = g x) → l ≫= f = l ≫= g.
Proof.
  induction l as [|a l IH]; intros H; [done|]. csimpl.
  rewrite H, IH; [done| |]; set_solver.
Qed.

Lemma filter_bind {A B} (P : B → Prop) `{∀ x, Decision (P x)} (f : A → list B) l :
  filter P (l ≫= f) = l ≫= λ x, filter P (f x).
Proof. induction l as [|a l IH]; [done|]. csimpl. by rewrite filter_app, IH. Qed.

Lemma fmap_bind_list {A B C} (g : B → C) (f : A → list B) l :
  g <$> (l ≫= f) = l ≫= λ x, g <$> f x.
Proof. induction l as [|a l IH]; [done|]. csimpl. by rewrite fmap_app, IH. Qed.

Lemma fmap_filter_comm {A B} (f g : A → B) (P : A → Prop) (Q : B → Prop)
    `{∀ x, Decision (P x)} `{∀ x, Decision (Q x)} (l : list A) :
  (∀ x, x ∈ l → (P x ↔ Q (f x))) → (∀ x, x ∈ l → P x → g x = f x) →
  g <$> filter P l = filter Q (f <$> l).
Proof.
  induction l as [|a l IH]; intros HPQ Hfg; [done|]. csimpl. rewrite !filter_cons.
  assert (g <$> filter P l = filter Q (f <$> l)) as IH'.
  { apply IH; intros x Hx; [apply HPQ|apply Hfg]; set_solver. }
  destruct (decide (P a)) as [HP|HP].
  - rewrite decide_True by (apply HPQ; [set_solver|done]). csimpl.
    rewrite Hfg, IH'; [done|set_solver|done].
  - rewrite decide_False; [done|]. rewrite <-HPQ; [done|set_solver].
Qed.
