(* ===== verification/Script.v ===== *)
(** * Script: programs over a state, and two runs side by side

    Outcomes related by [orel] and mapped by [outcome_map]; programs that read and
    write a state and may panic ([script], written with [let*]), which the client
    examples and the unit tests are; and the relation [same_script] between programs
    over two representations of the state: from related states they return the same
    value and leave related states; [refines_script] asks so only where the second
    returns. *)

From S2P Require Import Prelude.

(** ** Related outcomes *)

Definition orel {A B} (R : A → B → Prop) (o1 : outcome A) (o2 : outcome B) : Prop :=
  match o1, o2 with
  | Ret a, Ret b => R a b
  | Panic, Panic | Diverge, Diverge => True
  | _, _ => False
  end.

Lemma orel_bind {A B A' B'} (R : A → B → Prop) (Q : A' → B' → Prop) o1 o2 k1 k2 :
  orel R o1 o2 → (∀ a b, R a b → orel Q (k1 a) (k2 b)) →
  orel Q (outcome_bind o1 k1) (outcome_bind o2 k2).
Proof. destruct o1, o2; simpl; auto; done. Qed.

Lemma orel_eq_bind {A A' B'} (Q : A' → B' → Prop) (o : outcome A) k1 k2 :
  (∀ a, orel Q (k1 a) (k2 a)) → orel Q (outcome_bind o k1) (outcome_bind o k2).
Proof. destruct o; simpl; auto. Qed.

Lemma orel_loop {S1 S2 R1 R2} (RS : S1 → S2 → Prop) (RR : R1 → R2 → Prop)
    (body1 : S1 → outcome (S1 + R1)) (body2 : S2 → outcome (S2 + R2)) fuel s1 s2 :
  (∀ s1 s2, RS s1 s2 → orel (λ r1 r2, match r1, r2 with
                                    | inl s1, inl s2 => RS s1 s2
                                    | inr v1, inr v2 => RR v1 v2
                                    | _, _ => False
                                    end) (body1 s1) (body2 s2)) →
  RS s1 s2 → orel RR (loop fuel body1 s1) (loop fuel body2 s2).
Proof.
  intros Hb. revert s1 s2. induction fuel as [|n IH]; intros s1 s2 Hs; simpl; [done|].
  eapply orel_bind; [by apply Hb|]. intros [t1|v1] [t2|v2]; try done. apply IH.
Qed.

Lemma orel_refl {A} (R : A → A → Prop) o : (∀ a, R a a) → orel R o o.
Proof. by destruct o; simpl. Qed.

(** ** Mapping outcomes, and loops that simulate each other *)

Definition outcome_map {A B} (f : A → B) (o : outcome A) : outcome B := let! a := o in Ret (f a).

Lemma outcome_map_bind {A B B'} (f : B → B') (o : outcome A) (k : A → outcome B) :
  outcome_map f (outcome_bind o k) = outcome_bind o (λ a, outcome_map f (k a)).
Proof. by destruct o. Qed.

Lemma outcome_bind_map {A A' B} (f : A → A') (o : outcome A) (k : A' → outcome B) :
  outcome_bind (outcome_map f o) k = outcome_bind o (λ a, k (f a)).
Proof. by destruct o. Qed.

Lemma outcome_bind_ext {A B} (o : outcome A) (k k' : A → outcome B) :
  (∀ a, k a = k' a) → outcome_bind o k = outcome_bind o k'.
Proof. intros H. by destruct o; simpl. Qed.

(** Continuations need to agree only where the first computation can end. *)
Lemma outcome_bind_wp {A B} P (Q : A → Prop) (o : outcome A) (k k' : A → outcome B) :
  wp P o Q → (∀ a, Q a → k a = k' a) → outcome_bind o k = outcome_bind o k'.
Proof. intros Hw H. destruct o; simpl in *; auto. Qed.

Lemma loop_map {St St' R R'} (f : St → St') (g : R → R') (P : Prop) (Inv : St → Prop)
    (body : St → outcome (St + R)) (body' : St' → outcome (St' + R')) fuel s :
  (∀ s, Inv s → body' (f s) = outcome_map (sum_map f g) (body s)) →
  (∀ s, Inv s → wp P (body s) (λ r, match r with inl s' => Inv s' | inr _ => True end)) →
  Inv s → loop fuel body' (f s) = outcome_map g (loop fuel body s).
Proof.
  intros Hb Hi. revert s. induction fuel as [|n IH]; intros s Hs; [done|]. simpl. rewrite Hb by done.
  pose proof (Hi s Hs) as Hw. destruct (body s) as [[s'|v]| |]; simpl in *; auto.
Qed.

Lemma orel_map {A B} (Q : A → B → Prop) (P : Prop) (V : A → Prop) (f : A → B) (o : outcome A) (o' : outcome B) :
  o' = outcome_map f o → wp P o V → (∀ a, V a → Q a (f a)) → orel Q o o'.
Proof. intros -> Hw H. destruct o; simpl in *; auto. Qed.

(** ** Assertions

    A unit test that needs no state is a computation that returns or panics. *)

Definition assert (b : bool) : outcome unit := if b then Ret tt else Panic.
Abbreviation assert_eq a b := (assert (bool_decide (a = b))).
Definition passed (test : outcome unit) : bool := match test with Ret _ => true | _ => false end.

(** [buf[i] = v]: panics out of range. *)
Definition set_at {A} (buf : list A) (i : nat) (v : A) : outcome (list A) :=
  if decide (i < length buf)%nat then Ret (<[i := v]> buf) else Panic.

(** [buf[from..to].fill(v)], byte by byte. *)
Fixpoint fill_range {A} (buf : list A) (from n : nat) (v : A) : outcome (list A) :=
  match n with O => Ret buf | S n => let! buf := set_at buf from v in fill_range buf (S from) n v end.

(** ** Scripts *)

Section Script.
Context {S : Type}.

Definition script (A : Type) : Type := S → outcome (A * S).
Definition script_ret {A} (a : A) : script A := λ s, Ret (a, s).
Definition script_bind {A B} (m : script A) (k : A → script B) : script B :=
  λ s, let! x := m s in k x.1 x.2.

(** A computation that does not touch the state, and [.expect(..)]. *)
Definition lift {A} (o : outcome A) : script A := λ s, let! a := o in Ret (a, s).
Definition expected {A E} (r : result A E) : script A := lift (expect_ok r).

(** [for a in l]. *)
Fixpoint for_each {A} (l : list A) (body : A → script unit) : script unit :=
  match l with [] => script_ret tt | a :: l => script_bind (body a) (λ _, for_each l body) end.

(** [assert!]. *)
Definition check (b : bool) : script unit := λ s, if b then Ret (tt, s) else Panic.

(** Run from [s] and keep the value. *)
Definition value_from {A} (m : script A) (s : S) : outcome A := let! x := m s in Ret x.1.

(** A test passes when it returns. *)
Definition passes (s : S) (t : script unit) : bool :=
  match value_from t s with Ret _ => true | _ => false end.
End Script.
Arguments script : clear implicits.

Notation "'let*' x ':=' m 'in' k" := (script_bind m (λ x, k))
  (at level 10, x binder, m at level 100, k at level 200) : rust_scope.
(** [assert_eq!]. *)
Abbreviation check_eq a b := (check (bool_decide (a = b))).

Section Same.
Context {S1 S2 : Type} (R : S1 → S2 → Prop).

Definition same_script {A} (m1 : script S1 A) (m2 : script S2 A) : Prop :=
  ∀ s1 s2, R s1 s2 → orel (λ x1 x2, x1.1 = x2.1 ∧ R x1.2 x2.2) (m1 s1) (m2 s2).

Lemma same_ret {A} (a : A) : same_script (script_ret a) (script_ret a).
Proof. by intros s1 s2 Hs. Qed.

Lemma same_bind {A B} (m1 : script S1 A) m2 (k1 : A → script S1 B) k2 :
  same_script m1 m2 → (∀ a, same_script (k1 a) (k2 a)) → same_script (script_bind m1 k1) (script_bind m2 k2).
Proof.
  intros Hm Hk s1 s2 Hs. eapply orel_bind; [by apply Hm|]. intros [a t1] [a' t2] [Ha Ht]. simpl in *. subst a'.
  by apply Hk.
Qed.

Lemma same_for_each {A} (l : list A) (f : A → script S1 unit) g :
  (∀ a, a ∈ l → same_script (f a) (g a)) → same_script (for_each l f) (for_each l g).
Proof.
  induction l as [|a l IH]; intros H; [apply same_ret|]. simpl. apply same_bind; [apply H; set_solver|].
  intros _. apply IH. set_solver.
Qed.

Lemma same_lift {A} (o : outcome A) : same_script (lift o) (lift o).
Proof. intros s1 s2 Hs. by apply orel_eq_bind. Qed.

Lemma same_expected {A E} (r : result A E) : same_script (expected r) (expected r).
Proof. apply same_lift. Qed.

Lemma same_check b : same_script (check b) (check b).
Proof. intros s1 s2 Hs. by destruct b. Qed.

(** What a computation can return is known to the rest of the script. *)
Lemma same_lift_bind {A B} P (V : A → Prop) (o : outcome A) (k1 : A → script S1 B) k2 :
  wp P o V → (∀ a, V a → same_script (k1 a) (k2 a)) → same_script (script_bind (lift o) k1) (script_bind (lift o) k2).
Proof. intros Hw Hk s1 s2 Hs. unfold script_bind, lift. destruct o; simpl in *; [by apply Hk|done..]. Qed.

Lemma same_value {A} (m1 : script S1 A) m2 s1 s2 :
  same_script m1 m2 → R s1 s2 → value_from m1 s1 = value_from m2 s2.
Proof.
  intros Hm Hs. specialize (Hm _ _ Hs). unfold value_from.
  destruct (m1 s1) as [[a t1]| |], (m2 s2) as [[a' t2]| |]; try done. destruct Hm as [Ha _]. simpl in *. by rewrite Ha.
Qed.

(** The verdicts of a suite of tests. *)
Lemma same_passes ts1 ts2 s1 s2 :
  Forall2 same_script ts1 ts2 → R s1 s2 → forallb (passes s1) ts1 = forallb (passes s2) ts2.
Proof.
  intros H Hs. induction H as [|t1 t2 ts1 ts2 Ht _ IH]; [done|]. simpl. rewrite IH. f_equal. unfold passes.
  by rewrite (same_value _ _ _ _ Ht Hs).
Qed.
End Same.

(** ** Simulation in one direction

    The first program does what the second does, wherever the second returns. *)

Section Refines.
Context {S1 S2 : Type} (R : S1 → S2 → Prop).

Definition refines_script {A} (m1 : script S1 A) (m2 : script S2 A) : Prop :=
  ∀ s1 s2 a t2, R s1 s2 → m2 s2 = Ret (a, t2) → ∃ t1, m1 s1 = Ret (a, t1) ∧ R t1 t2.

Lemma refines_ret {A} (a : A) : refines_script (script_ret a) (script_ret a).
Proof. intros s1 s2 b t2 Hs [= <- <-]. by exists s1. Qed.

Lemma refines_bind {A B} (m1 : script S1 A) m2 (k1 : A → script S1 B) k2 :
  refines_script m1 m2 → (∀ a, refines_script (k1 a) (k2 a)) → refines_script (script_bind m1 k1) (script_bind m2 k2).
Proof.
  intros Hm Hk s1 s2 b t2 Hs. unfold script_bind. destruct (m2 s2) as [[a u2]| |] eqn:E; [|done|done]. cbn [outcome_bind].
  destruct (Hm s1 s2 a u2 Hs E) as (u1 & -> & Hu). intros H. by apply (Hk a u1 u2).
Qed.

Lemma refines_lift {A} (o : outcome A) : refines_script (lift o) (lift o).
Proof. intros s1 s2 a t2 Hs. unfold lift. destruct o; [|done|done]. intros [= <- <-]. by exists s1. Qed.

Lemma refines_expected {A E} (r : result A E) : refines_script (expected r) (expected r).
Proof. apply refines_lift. Qed.

Lemma refines_check b : refines_script (check b) (check b).
Proof. intros s1 s2 a t2 Hs. unfold check. destruct b; [|done]. intros [= <- <-]. by exists s1. Qed.

Lemma refines_value {A} (m1 : script S1 A) m2 s1 s2 a :
  refines_script m1 m2 → R s1 s2 → value_from m2 s2 = Ret a → value_from m1 s1 = Ret a.
Proof.
  intros Hm Hs. unfold value_from. destruct (m2 s2) as [[b t2]| |] eqn:E; [|done|done].
  destruct (Hm s1 s2 b t2 Hs E) as (t1 & -> & _). done.
Qed.

Lemma refines_verdicts {A} (ts1 : list (script S1 A)) ts2 s1 s2 a :
  Forall2 refines_script ts1 ts2 → R s1 s2 → Forall (λ t, value_from t s2 = Ret a) ts2 → Forall (λ t, value_from t s1 = Ret a) ts1.
Proof.
  intros H Hs. induction H as [|t1 t2 ts1 ts2 Ht _ IH]; [done|]. rewrite !Forall_cons. intros [H1 H2].
  split; [by eapply refines_value|by apply IH].
Qed.

Lemma refines_passes ts1 ts2 s1 s2 :
  Forall2 refines_script ts1 ts2 → R s1 s2 → forallb (passes s2) ts2 = true → forallb (passes s1) ts1 = true.
Proof.
  intros H Hs. induction H as [|t1 t2 ts1 ts2 Ht _ IH]; [done|]. cbn [forallb]. rewrite !andb_true_iff.
  intros [Hp Hps]. split; [|by apply IH]. unfold passes in *. destruct (value_from t2 s2) as [a| |] eqn:E; [|done|done].
  by rewrite (refines_value _ _ _ _ _ Ht Hs E).
Qed.
End Refines.
