(* ===== verification/Text.v ===== *)
(** * Text: parsing command-line numbers

    [str::parse] at an unsigned integer type, as the binaries use it on arguments
    and environment variables. *)

From Stdlib Require Import Ascii String.
From S2P Require Import Prelude.
#[local] Open Scope Z_scope.

(** The value of a decimal digit. *)
Definition digit (c : ascii) : option Z :=
  let d := Z.of_nat (nat_of_ascii c) - 48 in
  if decide (0 <= d <= 9) then Some d else None.

Fixpoint parse_digits (max acc : Z) (s : string) : option Z :=
  match s with
  | EmptyString => Some acc
  | String c s =>
      match digit c with
      | None => None
      | Some d => if decide (acc * 10 + d <= max) then parse_digits max (acc * 10 + d) s else None
      end
  end.

(** [s.parse::<uN>().ok()]: an optional plus sign and at least one digit, without
    overflow. *)
Definition parse_uint (max : Z) (s : string) : option Z :=
  match s with
  | EmptyString => None
  | String c rest =>
      if decide (c = "+"%char)
      then match rest with EmptyString => None | _ => parse_digits max 0 rest end
      else parse_digits max 0 s
  end.

Lemma digit_range c d : digit c = Some d → 0 <= d <= 9.
Proof. unfold digit. case_decide; intros [=]; lia. Qed.

Lemma parse_digits_range max acc s n : 0 <= acc <= max → parse_digits max acc s = Some n → 0 <= n <= max.
Proof.
  revert acc. induction s as [|c s IH]; simpl; intros acc Hacc; [by intros [= <-]|].
  destruct (digit c) as [d|] eqn:Hd; [|done]. apply digit_range in Hd. case_decide; [|done]. apply IH. lia.
Qed.

Lemma parse_uint_range max s n : 0 <= max → parse_uint max s = Some n → 0 <= n <= max.
Proof.
  intros Hm. unfold parse_uint. destruct s as [|c rest]; [done|].
  case_decide; [destruct rest; [done|]|]; apply parse_digits_range; lia.
Qed.
