(* ===== verification/BTree.v ===== *)
(** * Ordered maps and sets

    [std::collections::BTreeMap] with an integer key, as an association list
    whose keys increase strictly; [BTreeSet] is a map to [unit], as in the
    standard library.  Iteration order, first key and last key are what the
    book and the engine observe of these containers. *)

From S2P Require Import Prelude.

Abbreviation btree V := (list (Z * V)) (only parsing).
Abbreviation btset := (list (Z * unit)) (only parsing).

Section BTree.
Context {V : Type}.
Implicit Types (m : list (Z * V)) (k : Z) (v : V).

Fixpoint bt_get m k : option V :=
  match m with
  | [] => None
  | (k', v) :: m' => if k =? k' then Some v else bt_get m' k
  end.

Fixpoint bt_insert m k v : list (Z * V) :=
  match m with
  | [] => [(k, v)]
  | (k', v') :: m' =>
      if k <? k' then (k, v) :: (k', v') :: m'
      else if k =? k' then (k, v) :: m'
      else (k', v') :: bt_insert m' k v
  end.

Fixpoint bt_remove m k : list (Z * V) :=
  match m with
  | [] => []
  | (k', v') :: m' => if k =? k' then m' else (k', v') :: bt_remove m' k
  end.

(** [keys().next()] and [keys().next_back()]. *)
Definition bt_keys m : list Z := m.*1.
Definition bt_first_key m : option Z := head (bt_keys m).
Definition bt_last_key m : option Z := last (bt_keys m).

(** The representation invariant: strictly increasing keys. *)
Definition bt_ok m : Prop := StronglySorted Z.lt (bt_keys m).

(** ** Membership and lookup *)

Lemma bt_get_Some_elem m k v : bt_get m k = Some v → (k, v) ∈ m.
Proof.
  induction m as [|[k' v'] m IH]; simpl; [done|].
  destruct (Z.eqb_spec k k') as [->|]; intros; simplify_eq; set_solver.
Qed.

Lemma bt_get_None m k : bt_get m k = None ↔ k ∉ bt_keys m.
Proof.
  induction m as [|[k' v'] m IH]; simpl; [set_solver|].
  destruct (Z.eqb_spec k k') as [->|]; rewrite ?IH; set_solver.
Qed.

Lemma bt_ok_nil : bt_ok [].
Proof. constructor. Qed.

Lemma bt_ok_cons k v m : bt_ok ((k, v) :: m) ↔ bt_ok m ∧ Forall (λ e, k < e.1) m.
Proof.
  unfold bt_ok, bt_keys. simpl. rewrite StronglySorted_cons, Forall_fmap. tauto.
Qed.

Lemma bt_get_elem m k v : bt_ok m → (k, v) ∈ m → bt_get m k = Some v.
Proof.
  induction m as [|[k' v'] m IH]; [set_solver|].
  rewrite bt_ok_cons, elem_of_cons. intros [Hok Hall] [?|Hin]; simplify_eq/=.
  - by rewrite Z.eqb_refl.
  - rewrite Forall_forall in Hall. specialize (Hall _ Hin). simpl in Hall.
    destruct (Z.eqb_spec k k'); [lia|auto].
Qed.

Lemma bt_get_insert m k v k' :
  bt_get (bt_insert m k v) k' = if k' =? k then Some v else bt_get m k'.
Proof.
  induction m as [|[k1 v1] m IH]; simpl; [done|].
  destruct (Z.ltb_spec k k1); [done|].
  destruct (Z.eqb_spec k k1) as [->|]; simpl; [by destruct (_ =? _)|].
  rewrite IH. destruct (Z.eqb_spec k' k1), (Z.eqb_spec k' k); try done; lia.
Qed.

Lemma bt_get_remove m k k' :
  bt_ok m → bt_get (bt_remove m k) k' = if k' =? k then None else bt_get m k'.
Proof.
  induction m as [|[k1 v1] m IH]; simpl; [by destruct (_ =? _)|].
  rewrite bt_ok_cons. intros [Hok Hall].
  destruct (Z.eqb_spec k k1) as [->|]; simpl.
  - destruct (Z.eqb_spec k' k1) as [Heq|]; [rewrite Heq|done].
    apply bt_get_None. intros Hin. unfold bt_keys in Hin.
    apply list_elem_of_fmap in Hin as ([k2 v2] & -> & Hin).
    rewrite Forall_forall in Hall. specialize (Hall _ Hin). simpl in *. lia.
  - rewrite IH by done. destruct (Z.eqb_spec k' k1), (Z.eqb_spec k' k); try done; lia.
Qed.

(** ** The representation invariant is preserved *)

Lemma bt_insert_Forall (P : Z * V → Prop) m k v :
  P (k, v) → Forall P m → Forall P (bt_insert m k v).
Proof.
  intros Hk. induction 1 as [|[k1 v1] m H1 H IH]; simpl; [by constructor|].
  destruct (k <? k1), (k =? k1); repeat constructor; auto.
Qed.

Lemma bt_remove_sublist m k : bt_remove m k `sublist_of` m.
Proof.
  induction m as [|[k1 v1] m IH]; simpl; [done|].
  destruct (k =? k1); [by apply sublist_cons|by apply sublist_skip].
Qed.

Lemma bt_insert_ok m k v : bt_ok m → bt_ok (bt_insert m k v).
Proof.
  induction m as [|[k1 v1] m IH]; simpl.
  { intros _. apply bt_ok_cons. split; [apply bt_ok_nil|constructor]. }
  intros Hok. pose proof Hok as Hok0. rewrite bt_ok_cons in Hok. destruct Hok as [Hok Hall].
  destruct (Z.ltb_spec k k1).
  { apply bt_ok_cons. split; [done|]. constructor; [done|].
    eapply Forall_impl; [done|]. simpl. intros; lia. }
  destruct (Z.eqb_spec k k1) as [->|]; [by apply bt_ok_cons|].
  apply bt_ok_cons. split; [auto|]. apply bt_insert_Forall; simpl; [lia|done].
Qed.

Lemma bt_remove_ok m k : bt_ok m → bt_ok (bt_remove m k).
Proof.
  induction m as [|[k1 v1] m IH]; simpl; [done|].
  rewrite bt_ok_cons. intros [Hok Hall]. destruct (k =? k1); [done|].
  apply bt_ok_cons. split; [auto|]. rewrite Forall_forall in *. intros e He. apply Hall.
  eapply elem_of_sublist; [done|apply bt_remove_sublist].
Qed.
(** ** Splitting an ordered map at a key *)

Lemma bt_split m k :
  bt_ok m →
  ∃ pre post, m = pre ++ from_option (λ v, [(k, v)]) [] (bt_get m k) ++ post ∧
    (∀ v, bt_insert m k v = pre ++ (k, v) :: post) ∧
    bt_remove m k = pre ++ post ∧
    Forall (λ e, e.1 < k) pre ∧ Forall (λ e, k < e.1) post.
Proof.
  induction m as [|[k1 v1] m IH].
  { intros _. exists [], []. simpl. repeat split; constructor. }
  rewrite bt_ok_cons. intros [Hok Hall]. simpl.
  destruct (Z.eqb_spec k k1) as [->|Hne].
  { exists [], m. simpl. repeat split; [|by constructor|done].
    intros v. rewrite Z.ltb_irrefl. done. }
  destruct (IH Hok) as (pre & post & Hm & Hins & Hrem & Hpre & Hpost).
  destruct (Z.ltb_spec k k1) as [Hlt|Hge].
  - assert (Hall' : Forall (λ e, k < e.1) m).
    { eapply Forall_impl; [done|]. simpl. intros. lia. }
    assert (bt_get m k = None) as ->.
    { apply bt_get_None. intros (e & -> & He)%list_elem_of_fmap.
      rewrite Forall_forall in Hall'. specialize (Hall' _ He). lia. }
    assert (bt_remove m k = m) as ->.
    { clear -Hall'. induction Hall' as [|[k2 v2] m2 H2 ? IH]; simpl in *; [done|].
      destruct (Z.eqb_spec k k2); [lia|by rewrite IH]. }
    exists [], ((k1, v1) :: m). simpl. repeat split; by constructor.
  - exists ((k1, v1) :: pre), post. simpl. rewrite Hrem, <-Hm.
    repeat split; [|constructor; [simpl; lia|done]|done].
    intros v. by rewrite Hins.
Qed.

Lemma bt_split_Some m k v :
  bt_ok m → bt_get m k = Some v →
  ∃ pre post, m = pre ++ (k, v) :: post ∧
    (∀ v', bt_insert m k v' = pre ++ (k, v') :: post) ∧
    bt_remove m k = pre ++ post ∧
    Forall (λ e, e.1 < k) pre ∧ Forall (λ e, k < e.1) post.
Proof.
  intros Hok Hget. destruct (bt_split m k Hok) as (pre & post & Hm & ?).
  rewrite Hget in Hm. simpl in Hm. by exists pre, post.
Qed.

Lemma bt_keys_NoDup m : bt_ok m → NoDup (bt_keys m).
Proof.
  unfold bt_ok. induction 1 as [|k ks Hs IH Hall]; constructor; [|done].
  rewrite Forall_forall in Hall. intros Hin. specialize (Hall _ Hin). lia.
Qed.

Lemma bt_ext m1 m2 :
  bt_ok m1 → bt_ok m2 → (∀ k, bt_get m1 k = bt_get m2 k) → m1 = m2.
Proof.
  intros H1 H2 Hext.
  assert (Hp : m1 ≡ₚ m2).
  { apply NoDup_Permutation.
    - by eapply (NoDup_fmap_1 fst), bt_keys_NoDup.
    - by eapply (NoDup_fmap_1 fst), bt_keys_NoDup.
    - intros [k v]. split; intros Hin; apply bt_get_Some_elem.
      + rewrite <-Hext. by apply bt_get_elem.
      + rewrite Hext. by apply bt_get_elem. }
  assert (Hk : bt_keys m1 = bt_keys m2).
  { apply (StronglySorted_unique_strong Z.lt); [lia|done|done|].
    unfold bt_keys. by rewrite Hp. }
  clear Hp. revert m2 H2 Hext Hk. induction m1 as [|[k v] m1 IH]; intros [|[k2 v2] m2] H2 Hext Hk; try done.
  injection Hk as <- Hk. apply bt_ok_cons in H1 as [H1 Ha1]. apply bt_ok_cons in H2 as [H2 Ha2].
  pose proof (Hext k) as Hv. simpl in Hv. rewrite Z.eqb_refl in Hv. simplify_eq.
  f_equal. apply IH; [done|done| |done].
  intros k'. specialize (Hext k'). simpl in Hext.
  destruct (Z.eqb_spec k' k) as [Heq|]; [rewrite Heq|done].
  transitivity (@None V); [|symmetry]; apply bt_get_None;
    intros (e & -> & He)%list_elem_of_fmap; rewrite Forall_forall in Ha1, Ha2.
  - specialize (Ha1 _ He). lia.
  - specialize (Ha2 _ He). lia.
Qed.

Lemma bt_insert_remove_fresh m k v :
  bt_ok m → bt_get m k = None → bt_remove (bt_insert m k v) k = m.
Proof.
  intros Hok Hk. apply bt_ext; [by apply bt_remove_ok, bt_insert_ok|done|].
  intros k'. rewrite bt_get_remove, bt_get_insert by by apply bt_insert_ok.
  destruct (Z.eqb_spec k' k) as [Heq|]; [by rewrite Heq|done].
Qed.

Lemma bt_remove_insert_same m k v v' :
  bt_ok m → bt_get m k = Some v → bt_insert (bt_insert m k v') k v = m.
Proof.
  intros Hok Hk. apply bt_ext; [by repeat apply bt_insert_ok|done|].
  intros k'. rewrite !bt_get_insert. destruct (Z.eqb_spec k' k) as [Heq|]; [by rewrite Heq|done].
Qed.

Lemma bt_insert_twice m k v v' :
  bt_ok m → bt_insert (bt_insert m k v) k v' = bt_insert m k v'.
Proof.
  intros Hok. apply bt_ext; [by repeat apply bt_insert_ok|by apply bt_insert_ok|].
  intros k'. rewrite !bt_get_insert. by destruct (k' =? k).
Qed.

(** ** First and last key *)

Lemma bt_first_key_spec m k :
  bt_ok m → bt_first_key m = Some k →
  is_Some (bt_get m k) ∧ ∀ k' v', bt_get m k' = Some v' → k <= k'.
Proof.
  destruct m as [|[k1 v1] m]; [done|]. rewrite bt_ok_cons. intros [Hok Hall] [= <-]. simpl.
  rewrite Z.eqb_refl. split; [done|]. intros k' v'.
  destruct (Z.eqb_spec k' k1); [lia|]. intros Hin%bt_get_Some_elem.
  rewrite Forall_forall in Hall. specialize (Hall _ Hin). simpl in Hall. lia.
Qed.

Lemma bt_last_key_spec m k :
  bt_ok m → bt_last_key m = Some k →
  is_Some (bt_get m k) ∧ ∀ k' v', bt_get m k' = Some v' → k' <= k.
Proof.
  unfold bt_last_key, bt_keys. rewrite fmap_last. intros Hok Hl.
  destruct (last m) as [[k1 v1]|] eqn:Hm; simplify_eq/=.
  apply last_Some in Hm as [m' ->].
  assert (Hin : (k, v1) ∈ m' ++ [(k, v1)]) by set_solver.
  split; [exists v1; by apply bt_get_elem|]. intros k' v' Hk'.
  apply bt_get_Some_elem in Hk'. apply elem_of_app in Hk' as [Hk'|?]; [|set_solver by lia].
  unfold bt_ok, bt_keys in Hok. rewrite fmap_app in Hok.
  apply StronglySorted_app_1_elem_of with (x1 := k') (x2 := k) in Hok; [lia| |set_solver].
  apply list_elem_of_fmap. by exists (k', v').
Qed.

Lemma bt_first_key_None m : bt_first_key m = None ↔ m = [].
Proof. by destruct m as [|[] ?]. Qed.

Lemma bt_last_key_None m : bt_last_key m = None ↔ m = [].
Proof.
  unfold bt_last_key, bt_keys. rewrite fmap_last.
  split; [|by intros ->]. destruct (last m) eqn:Hl; [done|]. by apply last_None in Hl.
Qed.

End BTree.
