(* ===== verification/Domain.v ===== *)
(** * Domain: validated primitives, wire enums and injected traits

    The crate [domain]: named constants ([consts.rs]), the integer newtypes and
    their constructors, the wire-stable enums with their discriminants, the
    aggregated error type and the two traits the engine injects.

    A newtype over an integer is its integer; the predicate [X_ok] is the
    invariant its Rust constructor establishes, because the inner field is
    private. *)

From S2P Require Import Prelude.

Abbreviation Price := Z (only parsing).
Abbreviation Qty := Z (only parsing).
Abbreviation OrderId := Z (only parsing).
Abbreviation AccountId := Z (only parsing).
Abbreviation EngineSeq := Z (only parsing).
Abbreviation TradeId := Z (only parsing).
Abbreviation RecvTs := Z (only parsing).
Abbreviation ClientTs := Z (only parsing).

(** ** Constants ([consts.rs]) *)

Definition TICK_SIZE : Z := 1.
Definition LOT_SIZE : Z := 1.
Definition PRICE_BAND_BPS : Z := 500.
Definition MAX_OPEN_ORDERS_PER_ACCT : Z := 1000.
Definition MAX_NOTIONAL_PER_ACCT : Z := 10000000000.

(** ** Validation errors *)

Inductive PriceError := PriceNonPositive | PriceTickViolation.
Inductive QtyError := QtyZero | QtyLotViolation.
Inductive OrderIdError := OrderIdZero.
Inductive AccountIdError := AccountIdZero.
Inductive EngineSeqError := EngineSeqOverflow.
Inductive TradeIdError := TradeIdOverflow.
Inductive SideError := SideUnknown (v : Z).
Inductive OrderTypeError := OrderTypeUnknown (v : Z).
Inductive TifError := TifUnknown (v : Z).
Inductive RejectReasonError := RejectReasonUnknown (v : Z).
Inductive CancelReasonError := CancelReasonUnknown (v : Z).
Inductive ExecStateError := ExecStateUnknown (v : Z).

Inductive DomainError :=
| DE_Price (e : PriceError)
| DE_Qty (e : QtyError)
| DE_OrderId (e : OrderIdError)
| DE_AccountId (e : AccountIdError)
| DE_EngineSeq (e : EngineSeqError)
| DE_TradeId (e : TradeIdError)
| DE_Side (e : SideError)
| DE_OrderType (e : OrderTypeError)
| DE_Tif (e : TifError)
| DE_RejectReason (e : RejectReasonError)
| DE_CancelReason (e : CancelReasonError)
| DE_ExecState (e : ExecStateError).

(** ** Constructors of the newtypes *)

Definition Price_MIN : Price := TICK_SIZE.
Definition Price_MAX : Price := i64_max - Z.rem i64_max TICK_SIZE.
Definition Price_new (ticks : Z) : result Price PriceError :=
  if ticks <=? 0 then Err PriceNonPositive
  else if negb (Z.rem ticks TICK_SIZE =? 0) then Err PriceTickViolation
  else Ok ticks.

Definition Qty_MIN : Qty := LOT_SIZE.
Definition Qty_MAX : Qty := u64_max - Z.rem u64_max LOT_SIZE.
Definition Qty_new (lots : Z) : result Qty QtyError :=
  if lots =? 0 then Err QtyZero
  else if negb (Z.rem lots LOT_SIZE =? 0) then Err QtyLotViolation
  else Ok lots.

Definition OrderId_new (id : Z) : result OrderId OrderIdError :=
  if id =? 0 then Err OrderIdZero else Ok id.

Definition AccountId_new (id : Z) : result AccountId AccountIdError :=
  if id =? 0 then Err AccountIdZero else Ok id.

Definition EngineSeq_INITIAL : EngineSeq := 0.
Definition EngineSeq_next (s : EngineSeq) : result EngineSeq EngineSeqError :=
  match checked_add u64_max s 1 with Some v => Ok v | None => Err EngineSeqOverflow end.

Definition TradeId_INITIAL : TradeId := 0.
Definition TradeId_next (t : TradeId) : result TradeId TradeIdError :=
  match checked_add u64_max t 1 with Some v => Ok v | None => Err TradeIdOverflow end.

(** The fallible conversions are the constructors. *)
Definition Price_try_from (v : Z) : result Price PriceError := Price_new v.
Definition Qty_try_from (v : Z) : result Qty QtyError := Qty_new v.
Definition OrderId_try_from (v : Z) : result OrderId OrderIdError := OrderId_new v.
Definition AccountId_try_from (v : Z) : result AccountId AccountIdError := AccountId_new v.

(** The unvalidated newtypes: constructors and accessors keep the integer. *)
Definition EngineSeq_new (v : Z) : EngineSeq := v.
Definition TradeId_new (v : Z) : TradeId := v.
Definition ClientTs_ZERO : ClientTs := 0.
Definition ClientTs_new (nanos : Z) : ClientTs := nanos.
Definition ClientTs_from (v : Z) : ClientTs := ClientTs_new v.
Definition RecvTs_ZERO : RecvTs := 0.
Definition RecvTs_new (nanos : Z) : RecvTs := nanos.
Definition RecvTs_from (v : Z) : RecvTs := RecvTs_new v.

Definition Price_as_ticks (p : Price) : Z := p.
Definition Qty_as_lots (q : Qty) : Z := q.
Definition OrderId_as_raw (id : OrderId) : Z := id.
Definition AccountId_as_raw (id : AccountId) : Z := id.
Definition EngineSeq_as_raw (s : EngineSeq) : Z := s.
Definition TradeId_as_raw (t : TradeId) : Z := t.
Definition ClientTs_as_nanos (t : ClientTs) : Z := t.
Definition RecvTs_as_nanos (t : RecvTs) : Z := t.

(** The type invariants the constructors establish on values of the wire width. *)
Definition price_ok (p : Price) : Prop := 0 < p <= i64_max ∧ Z.rem p TICK_SIZE = 0.
Definition qty_ok (q : Qty) : Prop := 0 < q <= u64_max ∧ Z.rem q LOT_SIZE = 0.
Definition order_id_ok (i : OrderId) : Prop := 0 < i <= u64_max.
Definition account_id_ok (a : AccountId) : Prop := 0 < a <= u32_max.

(** ** Wire-stable enums *)

Inductive Side := Bid | Ask.
Definition Side_as_u8 (s : Side) : Z := match s with Bid => 1 | Ask => 2 end.
Definition Side_opposite (s : Side) : Side := match s with Bid => Ask | Ask => Bid end.
Definition Side_try_from (v : Z) : result Side SideError :=
  match v with 1 => Ok Bid | 2 => Ok Ask | other => Err (SideUnknown other) end.

Inductive OrderType := Limit | Market.
Definition OrderType_as_u8 (t : OrderType) : Z := match t with Limit => 1 | Market => 2 end.
Definition OrderType_try_from (v : Z) : result OrderType OrderTypeError :=
  match v with 1 => Ok Limit | 2 => Ok Market | other => Err (OrderTypeUnknown other) end.

Inductive Tif := Gtc | Ioc | PostOnly.
Definition Tif_as_u8 (t : Tif) : Z := match t with Gtc => 1 | Ioc => 2 | PostOnly => 3 end.
Definition Tif_try_from (v : Z) : result Tif TifError :=
  match v with 1 => Ok Gtc | 2 => Ok Ioc | 3 => Ok PostOnly | other => Err (TifUnknown other) end.

Inductive RejectReason :=
| KillSwitched | InvalidPrice | InvalidQty | TickViolation | LotViolation
| PriceBand | MaxOpenOrders | MaxNotional | UnknownOrderIdReason
| DuplicateOrderIdReason | PostOnlyWouldCross | SelfTradePreventedReject
| MarketOrderInEmptyBook | UnknownAccount | MalformedMessage.

Definition RejectReason_as_u8 (r : RejectReason) : Z :=
  match r with
  | KillSwitched => 1 | InvalidPrice => 2 | InvalidQty => 3 | TickViolation => 4
  | LotViolation => 5 | PriceBand => 6 | MaxOpenOrders => 7 | MaxNotional => 8
  | UnknownOrderIdReason => 9 | DuplicateOrderIdReason => 10 | PostOnlyWouldCross => 11
  | SelfTradePreventedReject => 12 | MarketOrderInEmptyBook => 13
  | UnknownAccount => 14 | MalformedMessage => 15
  end.

Definition RejectReason_try_from (v : Z) : result RejectReason RejectReasonError :=
  match v with
  | 1 => Ok KillSwitched | 2 => Ok InvalidPrice | 3 => Ok InvalidQty
  | 4 => Ok TickViolation | 5 => Ok LotViolation | 6 => Ok PriceBand
  | 7 => Ok MaxOpenOrders | 8 => Ok MaxNotional | 9 => Ok UnknownOrderIdReason
  | 10 => Ok DuplicateOrderIdReason | 11 => Ok PostOnlyWouldCross
  | 12 => Ok SelfTradePreventedReject | 13 => Ok MarketOrderInEmptyBook
  | 14 => Ok UnknownAccount | 15 => Ok MalformedMessage
  | other => Err (RejectReasonUnknown other)
  end.

Inductive CancelReason :=
| UserRequested | MassCancelReason | IocRemaining | SelfTradePrevented | ReplacedReason.

Definition CancelReason_as_u8 (r : CancelReason) : Z :=
  match r with
  | UserRequested => 1 | MassCancelReason => 2 | IocRemaining => 3
  | SelfTradePrevented => 4 | ReplacedReason => 5
  end.

Definition CancelReason_try_from (v : Z) : result CancelReason CancelReasonError :=
  match v with
  | 1 => Ok UserRequested | 2 => Ok MassCancelReason | 3 => Ok IocRemaining
  | 4 => Ok SelfTradePrevented | 5 => Ok ReplacedReason
  | other => Err (CancelReasonUnknown other)
  end.

Inductive ExecState :=
| Accepted | Rejected | PartiallyFilled | Filled | Cancelled | Replaced.

Definition ExecState_as_u8 (s : ExecState) : Z :=
  match s with
  | Accepted => 1 | Rejected => 2 | PartiallyFilled => 3
  | Filled => 4 | Cancelled => 5 | Replaced => 6
  end.

Definition ExecState_try_from (v : Z) : result ExecState ExecStateError :=
  match v with
  | 1 => Ok Accepted | 2 => Ok Rejected | 3 => Ok PartiallyFilled
  | 4 => Ok Filled | 5 => Ok Cancelled | 6 => Ok Replaced
  | other => Err (ExecStateUnknown other)
  end.

#[global] Instance Side_eq_dec : EqDecision Side.
Proof. solve_decision. Defined.
#[global] Instance Side_countable : Countable Side.
Proof.
  refine (inj_countable' (λ s, match s with Bid => true | Ask => false end)
            (λ b : bool, if b then Bid else Ask) _). by intros [].
Defined.
#[global] Instance OrderType_eq_dec : EqDecision OrderType.
Proof. solve_decision. Defined.
#[global] Instance Tif_eq_dec : EqDecision Tif.
Proof. solve_decision. Defined.
#[global] Instance RejectReason_eq_dec : EqDecision RejectReason.
Proof. solve_decision. Defined.
#[global] Instance CancelReason_eq_dec : EqDecision CancelReason.
Proof. solve_decision. Defined.
#[global] Instance ExecState_eq_dec : EqDecision ExecState.
Proof. solve_decision. Defined.

(** ** Injected traits ([traits.rs])

    [Clock::now] takes [&self]; successive readings of a wall clock differ, so a
    reading returns the clock's next state.  [IdGenerator] methods take
    [&mut self] and may panic (the counter implementation does on overflow). *)

Class Clock (C : Type) := {
  now : C → RecvTs * C;
}.

Class IdGenerator (I : Type) := {
  next_trade_id : I → outcome (TradeId * I);
  next_engine_seq : I → outcome (EngineSeq * I);
}.

(** ** Lemmas on the constructors and discriminants *)

Lemma Price_new_Ok z p : Price_new z = Ok p ↔ p = z ∧ 0 < z ∧ Z.rem z TICK_SIZE = 0.
Proof.
  unfold Price_new. destruct (Z.leb_spec z 0), (Z.eqb_spec (Z.rem z TICK_SIZE) 0); simpl;
    split; try (intros [= ->]); try (intros (-> & ? & ?)); try lia; auto.
Qed.

Lemma Qty_new_Ok z q : 0 <= z → Qty_new z = Ok q ↔ q = z ∧ 0 < z ∧ Z.rem z LOT_SIZE = 0.
Proof.
  intros Hz. unfold Qty_new.
  destruct (Z.eqb_spec z 0), (Z.eqb_spec (Z.rem z LOT_SIZE) 0); simpl;
    split; try (intros [= ->]); try (intros (-> & ? & ?)); try lia; repeat split; auto; lia.
Qed.

Lemma Qty_new_pos z : 0 < z → Qty_new z = Ok z.
Proof.
  intros. apply Qty_new_Ok; [lia|]. unfold LOT_SIZE. rewrite Z.rem_1_r. auto with lia.
Qed.

Lemma Price_new_pos z : 0 < z → Price_new z = Ok z.
Proof. intros. apply Price_new_Ok. unfold TICK_SIZE. rewrite Z.rem_1_r. auto with lia. Qed.

Lemma price_ok_pos p : price_ok p ↔ 0 < p <= i64_max.
Proof. unfold price_ok, TICK_SIZE. rewrite Z.rem_1_r. tauto. Qed.

Lemma qty_ok_pos q : qty_ok q ↔ 0 < q <= u64_max.
Proof. unfold qty_ok, LOT_SIZE. rewrite Z.rem_1_r. tauto. Qed.

Lemma Price_new_ok p : price_ok p → Price_new p = Ok p.
Proof. rewrite price_ok_pos. intros. apply Price_new_pos. lia. Qed.

Lemma Qty_new_ok q : qty_ok q → Qty_new q = Ok q.
Proof. rewrite qty_ok_pos. intros. apply Qty_new_pos. lia. Qed.

Lemma OrderId_new_ok i : order_id_ok i → OrderId_new i = Ok i.
Proof. unfold order_id_ok, OrderId_new. intros. destruct (Z.eqb_spec i 0); [lia|done]. Qed.

Lemma AccountId_new_ok a : account_id_ok a → AccountId_new a = Ok a.
Proof. unfold account_id_ok, AccountId_new. intros. destruct (Z.eqb_spec a 0); [lia|done]. Qed.

Lemma Side_opposite_involutive s : Side_opposite (Side_opposite s) = s.
Proof. by destruct s. Qed.

Lemma Side_opposite_ne s : Side_opposite s ≠ s.
Proof. by destruct s. Qed.

Lemma Side_u8_roundtrip s : Side_try_from (Side_as_u8 s) = Ok s.
Proof. by destruct s. Qed.

Lemma OrderType_u8_roundtrip t : OrderType_try_from (OrderType_as_u8 t) = Ok t.
Proof. by destruct t. Qed.

Lemma Tif_u8_roundtrip t : Tif_try_from (Tif_as_u8 t) = Ok t.
Proof. by destruct t. Qed.

Lemma RejectReason_u8_roundtrip r : RejectReason_try_from (RejectReason_as_u8 r) = Ok r.
Proof. by destruct r. Qed.

Lemma CancelReason_u8_roundtrip r : CancelReason_try_from (CancelReason_as_u8 r) = Ok r.
Proof. by destruct r. Qed.

Lemma ExecState_u8_roundtrip s : ExecState_try_from (ExecState_as_u8 s) = Ok s.
Proof. by destruct s. Qed.
