(* ===== verification/PriceLevel.v ===== *)
(** * PriceLevel: the interface of the per-level order container

    The book keeps its resting orders in [pricelevel::PriceLevel], a third-party
    crate.  This file states what the book relies on: [PriceLevelOps] is the
    record of operations the book calls, [PriceLevelLaws] the documented
    behaviour of those operations.  The book is proved against the interface;
    [FifoLevel] is a concrete instance that satisfies it.

    What the laws say, all through the observable [pl_iter_orders], whose order
    is unspecified (it iterates a hash map): a fresh level is empty; [add_order]
    refuses a duplicate id or a counter overflow and otherwise adds the order;
    [Cancel] removes the order with the given id; [UpdateQuantity] to a smaller
    quantity replaces the quantity of that order and nothing else;
    [snapshot_orders], when its buffer can be reserved, returns the orders sorted
    by timestamp; the two counters agree with the contents. *)

From S2P Require Import Prelude Domain.

Inductive PlId := Sequential (raw : Z) | OtherPlId (raw : Z).
Inductive PlSide := Buy | Sell.

#[global] Instance PlId_eq_dec : EqDecision PlId.
Proof. solve_decision. Defined.
#[global] Instance PlSide_eq_dec : EqDecision PlSide.
Proof. solve_decision. Defined.

(** [pricelevel::OrderType::Standard].  The fields the book always sets to the
    same constant ([user_id], [time_in_force], [extra_fields]) are left out. *)
Record PlOrder := mkPlOrder {
  pl_id : PlId;
  pl_price : Z;
  pl_quantity : Z;
  pl_side : PlSide;
  pl_timestamp : Z;
}.

#[global] Instance PlOrder_eq_dec : EqDecision PlOrder.
Proof. solve_decision. Defined.

Definition with_quantity (o : PlOrder) (q : Z) : PlOrder :=
  mkPlOrder (pl_id o) (pl_price o) q (pl_side o) (pl_timestamp o).

Inductive PlOrderUpdate :=
| PlCancel (order_id : PlId)
| PlUpdateQuantity (order_id : PlId) (new_quantity : Z).

Inductive PriceLevelError := PlDuplicateOrderId | PlOtherError.

Class PriceLevelOps (L : Type) := {
  pl_new : Z → L;
  pl_add_order : L → PlOrder → result L PriceLevelError;
  pl_update_order : L → PlOrderUpdate → L;
  pl_order_count : L → Z;
  pl_total_quantity : L → option Z;
  pl_iter_orders : L → list PlOrder;
  pl_snapshot_orders : L → option (list PlOrder);
}.

(** ** Contents of a level *)

Definition sum_qty (os : list PlOrder) : Z := foldr Z.add 0 (pl_quantity <$> os).

Definition ts_le (o1 o2 : PlOrder) : Prop := pl_timestamp o1 <= pl_timestamp o2.

#[global] Instance ts_le_dec : RelDecision ts_le.
Proof. intros o1 o2. unfold ts_le. apply _. Defined.
#[global] Instance ts_le_trans : Transitive ts_le.
Proof. intros o1 o2 o3. unfold ts_le. lia. Qed.
#[global] Instance ts_le_total : Total ts_le.
Proof. intros o1 o2. unfold ts_le. lia. Qed.

(** What an update does to the contents. *)
Definition apply_update (u : PlOrderUpdate) (os : list PlOrder) : list PlOrder :=
  match u with
  | PlCancel i => filter (λ o, pl_id o ≠ i) os
  | PlUpdateQuantity i q => (λ o, if decide (pl_id o = i) then with_quantity o q else o) <$> os
  end.

(** Updates the book is allowed to make: a cancel, or a quantity that does not
    grow and stays positive. *)
Definition update_allowed (u : PlOrderUpdate) (os : list PlOrder) : Prop :=
  match u with
  | PlCancel _ => True
  | PlUpdateQuantity i q => 0 < q ∧ ∀ o, o ∈ os → pl_id o = i → q <= pl_quantity o
  end.

Class PriceLevelLaws (L : Type) `{!PriceLevelOps L} : Prop := {
  pl_new_empty p : pl_iter_orders (pl_new p) = [];
  pl_add_ok l o l' :
    pl_add_order l o = Ok l' →
    pl_id o ∉ pl_id <$> pl_iter_orders l ∧ pl_iter_orders l' ≡ₚ o :: pl_iter_orders l ∧
    sum_qty (pl_iter_orders l) + pl_quantity o <= u64_max;
  pl_add_duplicate l o :
    pl_add_order l o = Err PlDuplicateOrderId → pl_id o ∈ pl_id <$> pl_iter_orders l;
  pl_add_succeeds l o :
    pl_id o ∉ pl_id <$> pl_iter_orders l →
    sum_qty (pl_iter_orders l) + pl_quantity o <= u64_max →
    Z.of_nat (length (pl_iter_orders l)) < u64_max →
    ∃ l', pl_add_order l o = Ok l';
  pl_update_contents l u :
    update_allowed u (pl_iter_orders l) →
    pl_iter_orders (pl_update_order l u) ≡ₚ apply_update u (pl_iter_orders l);
  pl_order_count_spec l : pl_order_count l = Z.of_nat (length (pl_iter_orders l));
  pl_total_quantity_spec l :
    sum_qty (pl_iter_orders l) <= u64_max →
    pl_total_quantity l = Some (sum_qty (pl_iter_orders l));
  pl_snapshot_sorted l s :
    pl_snapshot_orders l = Some s → s ≡ₚ pl_iter_orders l ∧ StronglySorted ts_le s;
}.

(** The snapshot buffer can always be reserved. *)
Class SnapshotSucceeds (L : Type) `{!PriceLevelOps L} : Prop :=
  snapshot_succeeds l : is_Some (pl_snapshot_orders l).

(** ** Time priority: the contents in timestamp order *)

Definition level_queue {L} `{!PriceLevelOps L} (l : L) : list PlOrder :=
  merge_sort ts_le (pl_iter_orders l).

(** Ids and timestamps are unique within a level, so time priority is strict. *)
Definition unique_orders (os : list PlOrder) : Prop :=
  NoDup (pl_id <$> os) ∧ NoDup (pl_timestamp <$> os).

Lemma sum_qty_app os1 os2 : sum_qty (os1 ++ os2) = sum_qty os1 + sum_qty os2.
Proof. unfold sum_qty. induction os1; csimpl; lia. Qed.

Lemma sum_qty_perm os1 os2 : os1 ≡ₚ os2 → sum_qty os1 = sum_qty os2.
Proof. unfold sum_qty. induction 1; csimpl; lia. Qed.

#[global] Instance sum_qty_proper : Proper ((≡ₚ) ==> eq) sum_qty.
Proof. intros ???. by apply sum_qty_perm. Qed.

#[global] Instance unique_orders_proper : Proper ((≡ₚ) ==> iff) unique_orders.
Proof. intros os1 os2 Hp. unfold unique_orders. by rewrite Hp. Qed.

#[global] Instance apply_update_proper u : Proper ((≡ₚ) ==> (≡ₚ)) (apply_update u).
Proof. intros os1 os2 Hp. destruct u; simpl; by rewrite Hp. Qed.

Lemma apply_update_sorted u os : StronglySorted ts_le os → StronglySorted ts_le (apply_update u os).
Proof.
  destruct u as [i|i q]; simpl.
  - induction 1 as [|o os Hs IH Hall]; simpl; [constructor|].
    rewrite filter_cons. case_decide; [|done]. constructor; [done|].
    by apply Forall_filter_sub.
  - apply (StronglySorted_fmap _ ts_le ts_le). intros o1 o2. unfold ts_le.
    repeat case_decide; done.
Qed.

Lemma sorted_perm_unique os1 os2 :
  NoDup (pl_timestamp <$> os1) → os1 ≡ₚ os2 →
  StronglySorted ts_le os1 → StronglySorted ts_le os2 → os1 = os2.
Proof.
  intros Hnd Hp H1 H2. eapply (StronglySorted_unique_strong ts_le); try done.
  intros o1 o2 Ho1 Ho2 Hle1 Hle2. rewrite <-Hp in Ho2. unfold ts_le in *.
  eapply (NoDup_fmap_inj_on pl_timestamp); eauto; lia.
Qed.

Lemma apply_update_unique u os : unique_orders os → unique_orders (apply_update u os).
Proof.
  intros [Hid Hts]. split; destruct u as [i|i q]; simpl; try by apply NoDup_fmap_filter.
  - rewrite <-list_fmap_compose. erewrite list_fmap_ext; [exact Hid|].
    intros k o _. simpl. by case_decide.
  - rewrite <-list_fmap_compose. erewrite list_fmap_ext; [exact Hts|].
    intros k o _. simpl. by case_decide.
Qed.

Lemma apply_update_cancel_head o os :
  o.(pl_id) ∉ pl_id <$> os → apply_update (PlCancel (pl_id o)) (o :: os) = os.
Proof.
  intros Ho. simpl. rewrite filter_cons, decide_False by naive_solver. apply filter_id.
  rewrite Forall_forall. intros o' Ho' Heq. apply Ho. rewrite <-Heq. by apply list_elem_of_fmap_2.
Qed.

Lemma apply_update_qty_head o os q :
  o.(pl_id) ∉ pl_id <$> os →
  apply_update (PlUpdateQuantity (pl_id o) q) (o :: os) = with_quantity o q :: os.
Proof.
  intros Ho. simpl. rewrite decide_True by done. f_equal.
  erewrite (list_fmap_ext _ id), list_fmap_id; [done|].
  intros k o' Ho'. simpl. rewrite decide_False; [done|]. intros Heq. apply Ho.
  rewrite <-Heq. apply list_elem_of_fmap_2. by eapply list_elem_of_lookup_2.
Qed.

Lemma sum_qty_nonneg os : Forall (λ o, 0 <= pl_quantity o) os → 0 <= sum_qty os.
Proof. unfold sum_qty. induction 1; csimpl; lia. Qed.

Lemma sum_qty_update u os :
  Forall (λ o, 0 <= pl_quantity o) os → update_allowed u os →
  sum_qty (apply_update u os) <= sum_qty os.
Proof.
  intros Hpos Hu. destruct u as [i|i q]; simpl in *.
  - clear Hu. unfold sum_qty. induction Hpos; csimpl; [lia|]. rewrite filter_cons.
    case_decide; csimpl; lia.
  - destruct Hu as [_ Hq]. unfold sum_qty. induction Hpos as [|o os Ho Hpos IH]; csimpl; [lia|].
    assert (∀ o, o ∈ os → pl_id o = i → q <= pl_quantity o) by set_solver.
    specialize (IH H). case_decide; csimpl; [|lia].
    assert (q <= pl_quantity o) by set_solver. lia.
Qed.

Section Queue.
Context {L : Type} `{!PriceLevelOps L} `{!PriceLevelLaws L}.
Implicit Types (l : L) (o : PlOrder) (u : PlOrderUpdate).

Lemma level_queue_perm l : level_queue l ≡ₚ pl_iter_orders l.
Proof. apply merge_sort_Permutation. Qed.

Lemma level_queue_sorted l : StronglySorted ts_le (level_queue l).
Proof. apply (StronglySorted_merge_sort ts_le). Qed.

Lemma level_queue_new p : level_queue (pl_new p) = [].
Proof. unfold level_queue. by rewrite pl_new_empty. Qed.

Lemma level_queue_nil l : level_queue l = [] ↔ pl_iter_orders l = [].
Proof.
  split; intros H.
  - apply Permutation_nil_r. by rewrite <-H, level_queue_perm.
  - apply Permutation_nil_r. by rewrite level_queue_perm, H.
Qed.

Lemma level_count_queue l : pl_order_count l = Z.of_nat (length (level_queue l)).
Proof. by rewrite pl_order_count_spec, level_queue_perm. Qed.

Lemma snapshot_is_queue l s :
  unique_orders (level_queue l) → pl_snapshot_orders l = Some s → s = level_queue l.
Proof.
  intros [_ Hts] [Hp Hs]%pl_snapshot_sorted. symmetry.
  apply sorted_perm_unique; try done; [by rewrite level_queue_perm|apply level_queue_sorted].
Qed.

Lemma level_queue_update l u :
  unique_orders (level_queue l) → update_allowed u (level_queue l) →
  level_queue (pl_update_order l u) = apply_update u (level_queue l).
Proof.
  intros Huniq Hu.
  assert (Hp : apply_update u (level_queue l) ≡ₚ level_queue (pl_update_order l u)).
  { rewrite (level_queue_perm (pl_update_order l u)), pl_update_contents.
    - by rewrite level_queue_perm.
    - destruct u; simpl in *; [done|]. destruct Hu as [? Hu]. split; [done|].
      intros o Ho. apply Hu. by rewrite level_queue_perm. }
  symmetry. apply sorted_perm_unique; [by apply apply_update_unique|done| |apply level_queue_sorted].
  apply apply_update_sorted, level_queue_sorted.
Qed.

Lemma level_queue_add l o l' :
  pl_add_order l o = Ok l' → unique_orders (level_queue l) →
  Forall (λ o', pl_timestamp o' < pl_timestamp o) (level_queue l) →
  level_queue l' = level_queue l ++ [o] ∧ pl_id o ∉ pl_id <$> level_queue l ∧
  sum_qty (level_queue l) + pl_quantity o <= u64_max.
Proof.
  intros (Hid & Hp & Hsum)%pl_add_ok [Hids Hts] Hlt. rewrite <-level_queue_perm in Hid, Hp, Hsum.
  split; [|done]. symmetry. apply sorted_perm_unique.
  - rewrite fmap_app. apply NoDup_app. split; [done|]. split; [|apply NoDup_singleton].
    intros t (o' & -> & Ho')%list_elem_of_fmap Ht. rewrite Forall_forall in Hlt.
    specialize (Hlt _ Ho'). set_solver by lia.
  - rewrite level_queue_perm, Hp. by rewrite Permutation_app_comm.
  - apply StronglySorted_app_2; [|apply level_queue_sorted|repeat constructor].
    intros o1 o2 Ho1 ->%list_elem_of_singleton. rewrite Forall_forall in Hlt.
    specialize (Hlt _ Ho1). unfold ts_le. lia.
  - apply level_queue_sorted.
Qed.

Lemma level_total_queue l :
  sum_qty (level_queue l) <= u64_max → pl_total_quantity l = Some (sum_qty (level_queue l)).
Proof. rewrite level_queue_perm. apply pl_total_quantity_spec. Qed.

End Queue.
