(* ===== verification/FifoLevel.v ===== *)
(** * FifoLevel: concrete price levels

    A list of orders in arrival order.  It satisfies [PriceLevelLaws], so the
    hypotheses the book is proved under can hold, and it makes every definition
    of the development executable.  [StackLevel] is a second one, which iterates
    newest first. *)

From S2P Require Import Prelude Domain PriceLevel.

Record FifoLevel := mkFifo { fl_orders : list PlOrder }.

Definition fifo_add (l : FifoLevel) (o : PlOrder) : result FifoLevel PriceLevelError :=
  if decide (pl_id o ∈ pl_id <$> fl_orders l) then Err PlDuplicateOrderId
  else if decide (u64_max < sum_qty (fl_orders l) + pl_quantity o) then Err PlOtherError
  else if decide (u64_max <= Z.of_nat (length (fl_orders l))) then Err PlOtherError
  else Ok (mkFifo (fl_orders l ++ [o])).

#[global] Instance FifoLevel_ops : PriceLevelOps FifoLevel := {
  pl_new _ := mkFifo [];
  pl_add_order := fifo_add;
  pl_update_order l u := mkFifo (apply_update u (fl_orders l));
  pl_order_count l := Z.of_nat (length (fl_orders l));
  pl_total_quantity l :=
    if decide (sum_qty (fl_orders l) <= u64_max) then Some (sum_qty (fl_orders l)) else None;
  pl_iter_orders := fl_orders;
  pl_snapshot_orders l := Some (merge_sort ts_le (fl_orders l));
}.

#[global] Instance FifoLevel_laws : PriceLevelLaws FifoLevel.
Proof.
  split; simpl.
  - done.
  - intros l o l'. unfold fifo_add. repeat case_decide; [done..|]. intros [= <-]. simpl.
    split; [done|]. split; [by rewrite Permutation_app_comm|lia].
  - intros l o. unfold fifo_add. by repeat case_decide.
  - intros l o Hid Hsum Hlen. unfold fifo_add.
    rewrite decide_False, decide_False, decide_False by (done || lia). eauto.
  - done.
  - done.
  - intros l Hl. by rewrite decide_True.
  - intros l s [= <-]. split; [apply merge_sort_Permutation|].
    apply (StronglySorted_merge_sort ts_le).
Qed.

#[global] Instance FifoLevel_snapshot : SnapshotSucceeds FifoLevel.
Proof. intros l. simpl. eauto. Qed.

(** ** A level that iterates newest first *)

Record StackLevel := mkStack { sk_orders : list PlOrder }.

Definition stack_add (l : StackLevel) (o : PlOrder) : result StackLevel PriceLevelError :=
  let? f := fifo_add (mkFifo (sk_orders l)) o in Ok (mkStack (o :: sk_orders l)).

#[global] Instance StackLevel_ops : PriceLevelOps StackLevel | 100 := {
  pl_new _ := mkStack [];
  pl_add_order := stack_add;
  pl_update_order l u := mkStack (apply_update u (sk_orders l));
  pl_order_count l := Z.of_nat (length (sk_orders l));
  pl_total_quantity l := pl_total_quantity (mkFifo (sk_orders l));
  pl_iter_orders := sk_orders;
  pl_snapshot_orders l := pl_snapshot_orders (mkFifo (sk_orders l));
}.

#[global] Instance StackLevel_laws : PriceLevelLaws StackLevel | 100.
Proof.
  split; simpl.
  - done.
  - intros l o l'. unfold stack_add, fifo_add. repeat case_decide; [done..|]. intros [= <-]. simpl.
    split; [done|]. split; [done|simpl in *; lia].
  - intros l o. unfold stack_add, fifo_add. by repeat case_decide.
  - intros l o Hid Hsum Hlen. unfold stack_add, fifo_add. simpl.
    rewrite decide_False, decide_False, decide_False by (done || lia). simpl. eauto.
  - done.
  - done.
  - intros l Hl. by rewrite decide_True.
  - intros l s [= <-]. split; [apply merge_sort_Permutation|].
    apply (StronglySorted_merge_sort ts_le).
Qed.

#[global] Instance StackLevel_snapshot : SnapshotSucceeds StackLevel | 100.
Proof. intros l. simpl. eauto. Qed.
