(* ===== verification/Book.v ===== *)
(** * Book: the single-symbol order book

    [crates/matching/src/book.rs], [fill.rs] and [error.rs], operation by
    operation.  A level is reached through the [Arc] stored in the price index
    and mutated in place, so the model updates the entry of the index; the level
    type is any instance of [PriceLevelOps]. *)

From S2P Require Import Prelude BTree Domain PriceLevel.

(** ** Data *)

Record OrderMeta := mkMeta {
  om_side : Side;
  om_price : Price;
  om_account_id : AccountId;
  om_tif : Tif;
}.

Record RestingOrder := mkResting {
  ro_order_id : OrderId;
  ro_account_id : AccountId;
  ro_side : Side;
  ro_price : Price;
  ro_qty : Qty;
  ro_tif : Tif;
}.

Record AggressiveOrder := mkAggressive {
  ao_order_id : OrderId;
  ao_account_id : AccountId;
  ao_side : Side;
  ao_price : option Price;
  ao_qty : Qty;
  ao_tif : Tif;
}.

Record Fill := mkFill {
  f_trade_id : TradeId;
  f_maker_order_id : OrderId;
  f_taker_order_id : OrderId;
  f_maker_side : Side;
  f_price : Price;
  f_qty : Qty;
  f_maker_fully_filled : bool;
}.

Record StpCancellation := mkStp {
  stp_order_id : OrderId;
  stp_account_id : AccountId;
  stp_side : Side;
  stp_price : Price;
  stp_qty : Qty;
}.

Record MassCancellation := mkMass {
  mc_order_id : OrderId;
  mc_account_id : AccountId;
  mc_side : Side;
  mc_price : Price;
  mc_qty : Qty;
}.

Record MatchResult := mkMatchResult {
  mr_fills_count : Z;
  mr_stp_cancellations : Z;
  mr_taker_remaining : option Qty;
  mr_taker_stp_cancelled : bool;
  mr_taker_post_only_rejected : bool;
}.

Record ReplaceOutcome := mkReplaceOutcome {
  rp_kept_priority : bool;
  rp_match_result : option MatchResult;
}.

Inductive BookError := UnknownOrderId | DuplicateOrderId | SeqOverflow | LevelRejected.

#[global] Instance OrderMeta_eq_dec : EqDecision OrderMeta.
Proof. solve_decision. Defined.
#[global] Instance BookError_eq_dec : EqDecision BookError.
Proof. solve_decision. Defined.

Record Book (L : Type) := mkBook {
  bids : list (Z * L);
  asks : list (Z * L);
  index : gmap OrderId OrderMeta;
  by_account : gmap AccountId (list (Z * unit));
  seq : Z;
}.
Arguments mkBook {L} _ _ _ _ _.
Arguments bids {L} _.
Arguments asks {L} _.
Arguments index {L} _.
Arguments by_account {L} _.
Arguments seq {L} _.

Section Operations.
Context {L : Type} `{!PriceLevelOps L}.
Implicit Types (b : Book L).

(** [Book::new]. *)
Definition book_new : Book L := mkBook [] [] ∅ ∅ 0.

(** The price index of a side ([match side { Bid => self.bids, Ask => self.asks }]). *)
Definition levels b (s : Side) : list (Z * L) :=
  match s with Bid => bids b | Ask => asks b end.

Definition set_levels b (s : Side) (m : list (Z * L)) : Book L :=
  match s with
  | Bid => mkBook m (asks b) (index b) (by_account b) (seq b)
  | Ask => mkBook (bids b) m (index b) (by_account b) (seq b)
  end.

Definition set_seq b (n : Z) : Book L := mkBook (bids b) (asks b) (index b) (by_account b) n.

Definition level_at b (s : Side) (p : Price) : option L := bt_get (levels b s) p.

(** [level.update_order(u)] through the shared handle of the level at [p]. *)
Definition update_level b (s : Side) (p : Price) (u : PlOrderUpdate) : Book L :=
  match level_at b s p with
  | Some l => set_levels b s (bt_insert (levels b s) p (pl_update_order l u))
  | None => b
  end.

(** [if level.order_count() == 0 { levels.remove(&price) }]. *)
Definition prune_level b (s : Side) (p : Price) : Book L :=
  match level_at b s p with
  | Some l => if pl_order_count l =? 0 then set_levels b s (bt_remove (levels b s) p) else b
  | None => b
  end.

Definition domain_to_pl_side (s : Side) : PlSide := match s with Bid => Buy | Ask => Sell end.

(** [pl_id_to_domain]: panics on an id the book never inserts. *)
Definition pl_id_to_domain (i : PlId) : outcome OrderId :=
  match i with
  | Sequential raw => expect (result_ok (OrderId_new raw))
  | OtherPlId _ => Panic
  end.

(** The per-account part of [Book::drop_from_indices]: take the id out of the
    account's set and drop the set when it becomes empty. *)
Definition account_remove (ba : gmap AccountId (list (Z * unit))) (acct : AccountId)
    (order_id : OrderId) : gmap AccountId (list (Z * unit)) :=
  match ba !! acct with
  | Some set =>
      let set' := bt_remove set order_id in
      match set' with
      | [] => delete acct ba
      | _ :: _ => <[acct := set']> ba
      end
  | None => ba
  end.

(** [self.by_account.entry(account).or_default().insert(order_id)]. *)
Definition account_insert (ba : gmap AccountId (list (Z * unit))) (acct : AccountId)
    (order_id : OrderId) : gmap AccountId (list (Z * unit)) :=
  <[acct := bt_insert (default [] (ba !! acct)) order_id tt]> ba.

(** [Book::drop_from_indices]. *)
Definition drop_from_indices b (order_id : OrderId) : Book L :=
  match index b !! order_id with
  | None => b
  | Some meta =>
      mkBook (bids b) (asks b) (delete order_id (index b))
        (account_remove (by_account b) (om_account_id meta) order_id) (seq b)
  end.

(** [Book::add_resting].  A [&mut self] method returns the book beside its
    result; [debug_assert!] is compiled out of a release build. *)
Definition add_resting b (order : RestingOrder) : Book L * result unit BookError :=
  match index b !! ro_order_id order with
  | Some _ => (b, Err DuplicateOrderId)
  | None =>
      match checked_add u64_max (seq b) 1 with
      | None => (b, Err SeqOverflow)
      | Some seq' =>
          let b := set_seq b seq' in
          let price_u128 := i64_as_u128 (ro_price order) in
          let pl_order :=
            mkPlOrder (Sequential (ro_order_id order)) price_u128 (ro_qty order)
              (domain_to_pl_side (ro_side order)) seq' in
          (* levels.entry(price).or_insert_with(PriceLevel::new) *)
          let lvls := levels b (ro_side order) in
          let level :=
            match bt_get lvls (ro_price order) with Some l => l | None => pl_new price_u128 end in
          let lvls :=
            match bt_get lvls (ro_price order) with
            | Some _ => lvls
            | None => bt_insert lvls (ro_price order) level
            end in
          match pl_add_order level pl_order with
          | Err e =>
              let lvls :=
                if pl_order_count level =? 0 then bt_remove lvls (ro_price order) else lvls in
              (set_seq (set_levels b (ro_side order) lvls) (u64_sub (seq b) 1),
               Err (match e with
                    | PlDuplicateOrderId => DuplicateOrderId
                    | PlOtherError => LevelRejected
                    end))
          | Ok level' =>
              let b := set_levels b (ro_side order) (bt_insert lvls (ro_price order) level') in
              let meta :=
                mkMeta (ro_side order) (ro_price order) (ro_account_id order) (ro_tif order) in
              (mkBook (bids b) (asks b) (<[ro_order_id order := meta]> (index b))
                 (account_insert (by_account b) (ro_account_id order) (ro_order_id order))
                 (seq b),
               Ok tt)
          end
      end
  end.

(** [Book::cancel]. *)
Definition cancel b (order_id : OrderId) : Book L * result (Side * Price) BookError :=
  match index b !! order_id with
  | None => (b, Err UnknownOrderId)
  | Some meta =>
      let side := om_side meta in
      let price := om_price meta in
      match level_at b side price with
      | None => (b, Err UnknownOrderId)
      | Some _ =>
          let b := update_level b side price (PlCancel (Sequential order_id)) in
          let b := prune_level b side price in
          (drop_from_indices b order_id, Ok (side, price))
      end
  end.

(** [Book::best_bid], [Book::best_ask], [Book::would_cross]. *)
Definition best_bid b : option Price := bt_last_key (bids b).
Definition best_ask b : option Price := bt_first_key (asks b).

Definition would_cross b (taker_side : Side) (taker_price : option Price) : bool :=
  let best_opp := match taker_side with Bid => best_ask b | Ask => best_bid b end in
  match taker_price, best_opp with
  | None, Some _ => true
  | None, None => false
  | Some _, None => false
  | Some p, Some opp => match taker_side with Bid => opp <=? p | Ask => p <=? opp end
  end.

(** ** The matching walk *)

Section Match.
Context {I : Type} `{!IdGenerator I}.

(** The mutable state of [match_aggressive]: the book, the id source, the two
    output buffers and the locals. *)
Record Walk := mkWalk {
  w_book : Book L;
  w_ids : I;
  w_fills : list Fill;
  w_stp : list StpCancellation;
  w_remaining : Z;
  w_stp_cancelled : bool;
}.

(** How the inner loop ends: [break 'level] or [break 'walk]. *)
Inductive LevelExit := BreakLevel (w : Walk) | BreakWalk (w : Walk).

(** One round of ['level: loop]: the state is the walk and [snap_idx]. *)
Definition level_round (taker : AggressiveOrder) (level_price : Price) (snapshot : list PlOrder)
    (st : Walk * nat) : outcome (Walk * nat + LevelExit) :=
  let '(w, snap_idx) := st in
  if w_remaining w =? 0 then Ret (inr (BreakLevel w)) else
  match snapshot !! snap_idx with
  | None => Ret (inr (BreakLevel w))
  | Some hd =>
      let head_pl_id := pl_id hd in
      let! head_order_id := pl_id_to_domain head_pl_id in
      match index (w_book w) !! head_order_id with
      | None => Ret (inr (BreakWalk w))
      | Some head_meta =>
          let maker_side := Side_opposite (ao_side taker) in
          let head_qty_raw := pl_quantity hd in
          if om_account_id head_meta =? ao_account_id taker then
            let b := update_level (w_book w) maker_side level_price (PlCancel head_pl_id) in
            let b := drop_from_indices b head_order_id in
            let b := prune_level b maker_side level_price in
            let stp :=
              mkStp head_order_id (om_account_id head_meta) (om_side head_meta) level_price
                (unwrap_or (Qty_new head_qty_raw) Qty_MIN) in
            Ret (inr (BreakWalk
              (mkWalk b (w_ids w) (w_fills w) (w_stp w ++ [stp]) (w_remaining w) true)))
          else if head_qty_raw =? 0 then Ret (inr (BreakWalk w))
          else
            let fill_qty_raw := Z.min (w_remaining w) head_qty_raw in
            let new_head_qty_raw := u64_sub head_qty_raw fill_qty_raw in
            let maker_fully_filled := new_head_qty_raw =? 0 in
            let '(b, snap_idx) :=
              if maker_fully_filled then
                (drop_from_indices
                   (update_level (w_book w) maker_side level_price (PlCancel head_pl_id))
                   head_order_id, S snap_idx)
              else
                (update_level (w_book w) maker_side level_price
                   (PlUpdateQuantity head_pl_id new_head_qty_raw), snap_idx) in
            match Qty_new fill_qty_raw with
            | Err _ =>
                Ret (inr (BreakWalk (mkWalk b (w_ids w) (w_fills w) (w_stp w) (w_remaining w)
                                       (w_stp_cancelled w))))
            | Ok fill_qty =>
                let! '(trade_id, ids) := next_trade_id (w_ids w) in
                let fill :=
                  mkFill trade_id head_order_id (ao_order_id taker) maker_side level_price
                    fill_qty maker_fully_filled in
                Ret (inl (mkWalk b ids (w_fills w ++ [fill]) (w_stp w)
                            (u64_sub (w_remaining w) fill_qty_raw) (w_stp_cancelled w), snap_idx))
            end
      end
  end.

(** One round of ['walk: while remaining > 0]. *)
Definition walk_round (taker : AggressiveOrder) (w : Walk) : outcome (Walk + Walk) :=
  if negb (0 <? w_remaining w) then Ret (inr w) else
  let maker_side := Side_opposite (ao_side taker) in
  let best :=
    match ao_side taker with
    | Bid => bt_first_key (asks (w_book w))
    | Ask => bt_last_key (bids (w_book w))
    end in
  match best with
  | None => Ret (inr w)
  | Some level_price =>
      let crosses :=
        match ao_price taker with
        | None => true
        | Some taker_price =>
            match ao_side taker with
            | Bid => level_price <=? taker_price
            | Ask => taker_price <=? level_price
            end
        end in
      if negb crosses then Ret (inr w) else
      match level_at (w_book w) maker_side level_price with
      | None => Ret (inr w)
      | Some level =>
          match pl_snapshot_orders level with
          | None => Ret (inr w)
          | Some snapshot =>
              let! exit :=
                loop (length snapshot + 2) (level_round taker level_price snapshot) (w, O) in
              match exit with
              | BreakWalk w => Ret (inr w)
              | BreakLevel w =>
                  Ret (inl (mkWalk (prune_level (w_book w) maker_side level_price) (w_ids w)
                              (w_fills w) (w_stp w) (w_remaining w) (w_stp_cancelled w)))
              end
          end
      end
  end.

(** [Book::match_aggressive]: the book, the id source, the two buffers and the
    summary.  The walk visits each level of the maker side at most once, hence
    the fuel. *)
Definition match_aggressive b (taker : AggressiveOrder) (ids : I)
    (out_fills : list Fill) (out_stp : list StpCancellation)
  : outcome (Book L * I * list Fill * list StpCancellation * MatchResult) :=
  if bool_decide (ao_tif taker = PostOnly) && would_cross b (ao_side taker) (ao_price taker) then
    Ret (b, ids, out_fills, out_stp, mkMatchResult 0 0 (Some (ao_qty taker)) false true)
  else
    let w0 := mkWalk b ids out_fills out_stp (ao_qty taker) false in
    let! w :=
      loop (length (levels b (Side_opposite (ao_side taker))) + 2) (walk_round taker) w0 in
    Ret (w_book w, w_ids w, w_fills w, w_stp w,
         mkMatchResult (Z.of_nat (length (w_fills w)) - Z.of_nat (length out_fills))
           (Z.of_nat (length (w_stp w)) - Z.of_nat (length out_stp))
           (result_ok (Qty_new (w_remaining w))) (w_stp_cancelled w) false).

(** ** Cancel-replace *)

(** [level.iter_orders().find(|o| o.id() == PlId::Sequential(order_id))]. *)
Definition find_order (l : L) (order_id : OrderId) : option PlOrder :=
  List.find (λ o, bool_decide (pl_id o = Sequential order_id)) (pl_iter_orders l).

(** [Book::resting_qty]. *)
Definition resting_qty b (order_id : OrderId) : option Qty :=
  meta ← index b !! order_id;
  level ← level_at b (om_side meta) (om_price meta);
  order ← find_order level order_id;
  result_ok (Qty_new (pl_quantity order)).

(** [Book::replace]. *)
Definition replace b (order_id : OrderId) (new_price : Price) (new_qty : Qty) (ids : I)
    (out_fills : list Fill) (out_stp : list StpCancellation)
  : outcome (Book L * I * list Fill * list StpCancellation * result ReplaceOutcome BookError) :=
  match index b !! order_id with
  | None => Ret (b, ids, out_fills, out_stp, Err UnknownOrderId)
  | Some meta =>
      let current_qty := default Qty_MIN (resting_qty b order_id) in
      let price_changed := negb (new_price =? om_price meta) in
      let qty_increased := current_qty <? new_qty in
      let kept_priority := negb price_changed && negb qty_increased in
      if kept_priority then
        match level_at b (om_side meta) (om_price meta) with
        | None => Ret (b, ids, out_fills, out_stp, Err UnknownOrderId)
        | Some _ =>
            Ret (update_level b (om_side meta) (om_price meta)
                   (PlUpdateQuantity (Sequential order_id) new_qty),
                 ids, out_fills, out_stp, Ok (mkReplaceOutcome true None))
        end
      else if bool_decide (om_tif meta = PostOnly) && would_cross b (om_side meta) (Some new_price) then
        Ret (b, ids, out_fills, out_stp,
             Ok (mkReplaceOutcome false (Some (mkMatchResult 0 0 (Some new_qty) false true))))
      else
        match cancel b order_id with
        | (b, Err e) => Ret (b, ids, out_fills, out_stp, Err e)
        | (b, Ok _) =>
            let taker :=
              mkAggressive order_id (om_account_id meta) (om_side meta) (Some new_price) new_qty
                (om_tif meta) in
            let! '(b, ids, out_fills, out_stp, res) :=
              match_aggressive b taker ids out_fills out_stp in
            let done := Ok (mkReplaceOutcome false (Some res)) in
            match mr_taker_stp_cancelled res, mr_taker_remaining res with
            | false, Some remaining =>
                match add_resting b (mkResting order_id (om_account_id meta) (om_side meta)
                                       new_price remaining (om_tif meta)) with
                | (b, Err e) => Ret (b, ids, out_fills, out_stp, Err e)
                | (b, Ok _) => Ret (b, ids, out_fills, out_stp, done)
                end
            | _, _ => Ret (b, ids, out_fills, out_stp, done)
            end
        end
  end.
End Match.

(** ** Mass cancel *)

(** One round of the [for order_id in ids] loop of [Book::mass_cancel]. *)
Definition mass_cancel_one (st : Book L * list MassCancellation) (order_id : OrderId)
  : Book L * list MassCancellation :=
  let '(b, out) := st in
  match index b !! order_id with
  | None => (b, out)
  | Some meta =>
      let level := level_at b (om_side meta) (om_price meta) in
      let qty :=
        default Qty_MIN
          (l ← level; o ← find_order l order_id; result_ok (Qty_new (pl_quantity o))) in
      let b :=
        match level with
        | Some _ =>
            prune_level
              (update_level b (om_side meta) (om_price meta) (PlCancel (Sequential order_id)))
              (om_side meta) (om_price meta)
        | None => b
        end in
      let b := drop_from_indices b order_id in
      (b, out ++ [mkMass order_id (om_account_id meta) (om_side meta) (om_price meta) qty])
  end.

(** [Book::mass_cancel]: the ids are a snapshot of the account's [BTreeSet]. *)
Definition mass_cancel b (account : AccountId) (out : list MassCancellation)
  : Book L * list MassCancellation * Z :=
  match by_account b !! account with
  | None => (b, out, 0)
  | Some set =>
      let '(b', out') := foldl mass_cancel_one (b, out) (bt_keys set) in
      (b', out', Z.of_nat (length out') - Z.of_nat (length out))
  end.

(** ** Level queries *)

Definition level_total (l : L) : Z := default 0 (pl_total_quantity l).

(** [Book::qty_at_level]. *)
Definition qty_at_level b (s : Side) (p : Price) : Z :=
  match level_at b s p with Some l => level_total l | None => 0 end.

(** [Book::bid_levels] and [Book::ask_levels]: best price first. *)
Definition bid_levels b : list (Price * Z) :=
  (λ e, (e.1, level_total e.2)) <$> reverse (bids b).
Definition ask_levels b : list (Price * Z) :=
  (λ e, (e.1, level_total e.2)) <$> asks b.

(** [Book::side_qty]: a [u64] sum, wrapping in a release build. *)
Definition side_qty b (s : Side) : Z :=
  foldl (λ acc e, wrap_u64 (acc + level_total e.2)) 0 (levels b s).

(** [Book::side_order_count]. *)
Definition side_order_count b (s : Side) : Z :=
  foldl (λ acc e, wrap_u64 (acc + pl_order_count e.2)) 0 (levels b s).

End Operations.

Arguments Walk : clear implicits.
#[global] Arguments would_cross : simpl never.
