(* ===== verification/BookSpec.v ===== *)
(** * BookSpec: the abstract book

    A side of the book as one queue in price-time priority, and what the book
    promises of it: matching consumes the queue from its head, resting inserts
    behind every order of an equal or better price, cancelling removes one entry.
    [BookMatch] and [BookOps] prove that the operations of [Book] implement
    these functions. *)

From S2P Require Import Prelude BTree Domain PriceLevel Book.

Record QOrder := mkQ {
  q_id : OrderId;
  q_account : AccountId;
  q_price : Price;
  q_qty : Qty;
}.

#[global] Instance QOrder_eq_dec : EqDecision QOrder.
Proof. solve_decision. Defined.

Definition q_with_qty (q : QOrder) (n : Qty) : QOrder :=
  mkQ (q_id q) (q_account q) (q_price q) n.

(** A fill as the abstract book sees it: no trade id. *)
Record QFill := mkQFill {
  qf_maker : OrderId;
  qf_price : Price;
  qf_qty : Qty;
  qf_full : bool;
}.

Record QMatch := mkQMatch {
  qm_fills : list QFill;
  qm_stp : option QOrder;
  qm_remaining : Z;
  qm_rest : list QOrder;
}.

(** The taker's limit against a resting price on the opposite side. *)
Definition crosses (side : Side) (limit : option Price) (p : Price) : bool :=
  match limit with
  | None => true
  | Some t => match side with Bid => p <=? t | Ask => t <=? p end
  end.

Definition prepend_fill (f : QFill) (r : QMatch) : QMatch :=
  mkQMatch (f :: qm_fills r) (qm_stp r) (qm_remaining r) (qm_rest r).

Definition prepend_fills (fs : list QFill) (r : QMatch) : QMatch :=
  mkQMatch (fs ++ qm_fills r) (qm_stp r) (qm_remaining r) (qm_rest r).

(** Price-time matching with cancel-both self-trade prevention. *)
Fixpoint spec_match (side : Side) (limit : option Price) (account : AccountId)
    (remaining : Z) (queue : list QOrder) : QMatch :=
  match queue with
  | [] => mkQMatch [] None remaining []
  | h :: rest =>
      if (remaining =? 0) || negb (crosses side limit (q_price h)) then
        mkQMatch [] None remaining queue
      else if q_account h =? account then mkQMatch [] (Some h) remaining rest
      else if q_qty h <=? remaining then
        prepend_fill (mkQFill (q_id h) (q_price h) (q_qty h) true)
          (spec_match side limit account (remaining - q_qty h) rest)
      else
        mkQMatch [mkQFill (q_id h) (q_price h) remaining false] None 0
          (q_with_qty h (q_qty h - remaining) :: rest)
  end.

(** Orders a taker of this account may trade with. *)
Definition tradable (side : Side) (limit : option Price) (account : AccountId) (q : QOrder) : Prop :=
  q_account q ≠ account ∧ crosses side limit (q_price q) = true.

(** [better_eq s p p']: price [p] has priority over, or ties with, [p'] on side [s]. *)
Definition better_eq (s : Side) (p p' : Price) : Prop :=
  match s with Bid => p' <= p | Ask => p <= p' end.

#[global] Instance better_eq_dec s p p' : Decision (better_eq s p p').
Proof. destruct s; simpl; apply _. Defined.

(** Resting: behind every order of an equal or better price. *)
Fixpoint spec_insert (s : Side) (q : QOrder) (queue : list QOrder) : list QOrder :=
  match queue with
  | [] => [q]
  | h :: rest =>
      if decide (better_eq s (q_price h) (q_price q)) then h :: spec_insert s q rest
      else q :: queue
  end.

Definition spec_cancel (id : OrderId) (queue : list QOrder) : list QOrder :=
  filter (λ q, q_id q ≠ id) queue.

Definition spec_set_qty (id : OrderId) (n : Qty) (queue : list QOrder) : list QOrder :=
  (λ q, if decide (q_id q = id) then q_with_qty q n else q) <$> queue.

Definition queue_qty (queue : list QOrder) : Z := foldr Z.add 0 (q_qty <$> queue).
Definition fills_qty (fs : list QFill) : Z := foldr Z.add 0 (qf_qty <$> fs).

(** Orders of a queue in priority order. *)
Definition queue_sorted (s : Side) (queue : list QOrder) : Prop :=
  StronglySorted (λ a b, better_eq s (q_price a) (q_price b)) queue.

(** ** Properties of the abstract matching *)

Section SpecMatch.
Context (side : Side) (limit : option Price) (account : AccountId).
Implicit Types (queue : list QOrder) (r : Z).

Lemma prepend_fills_app fs1 fs2 m :
  prepend_fills fs1 (prepend_fills fs2 m) = prepend_fills (fs1 ++ fs2) m.
Proof. unfold prepend_fills. simpl. by rewrite app_assoc. Qed.

Lemma prepend_fills_snoc fs f m :
  prepend_fills fs (prepend_fill f m) = prepend_fills (fs ++ [f]) m.
Proof. unfold prepend_fills, prepend_fill. simpl. by rewrite <-app_assoc. Qed.

(** Quantity is conserved: what the taker does not keep was filled, and what the
    queue lost was filled or cancelled by self-trade prevention. *)
Lemma spec_match_conserves r queue m :
  0 <= r → Forall (λ q, 0 < q_qty q) queue →
  spec_match side limit account r queue = m →
  fills_qty (qm_fills m) + qm_remaining m = r ∧ 0 <= qm_remaining m ∧
  queue_qty queue =
    fills_qty (qm_fills m) + queue_qty (qm_rest m) + from_option q_qty 0 (qm_stp m).
Proof.
  intros Hr Hq <-. revert r Hr. induction Hq as [|h rest Hh Hq IH]; intros r Hr; simpl.
  { unfold fills_qty, queue_qty. simpl. lia. }
  destruct (Z.eqb_spec r 0), (crosses side limit (q_price h)); simpl;
    try (unfold fills_qty, queue_qty; csimpl; lia).
  destruct (q_account h =? account); [unfold fills_qty, queue_qty; csimpl; lia|].
  destruct (Z.leb_spec (q_qty h) r); [|unfold fills_qty, queue_qty; csimpl; lia].
  destruct (IH (r - q_qty h)) as (? & ? & ?); [lia|].
  unfold fills_qty, queue_qty in *. csimpl in *. lia.
Qed.

Lemma spec_match_fills_pos r queue :
  0 <= r → Forall (λ q, 0 < q_qty q) queue →
  Forall (λ f, 0 < qf_qty f) (qm_fills (spec_match side limit account r queue)).
Proof.
  intros Hr Hq. revert r Hr. induction Hq as [|h rest Hh Hq IH]; intros r Hr; simpl; [constructor|].
  destruct (Z.eqb_spec r 0), (crosses side limit (q_price h)); simpl; try constructor.
  destruct (q_account h =? account); simpl; [constructor|].
  destruct (Z.leb_spec (q_qty h) r); simpl; repeat constructor; simpl; try lia.
  apply IH. lia.
Qed.

Lemma fills_qty_nonneg fs : Forall (λ f, 0 < qf_qty f) fs → 0 <= fills_qty fs.
Proof. unfold fills_qty. induction 1; csimpl; lia. Qed.

(** Why the walk stopped: the taker is exhausted, self-trade prevention fired,
    or the best remaining resting order does not cross. *)
Lemma spec_match_stops r queue m :
  spec_match side limit account r queue = m →
  qm_remaining m = 0 ∨ is_Some (qm_stp m) ∨
  match qm_rest m with [] => True | h :: _ => crosses side limit (q_price h) = false end.
Proof.
  intros <-. revert r. induction queue as [|h rest IH]; intros r; simpl; [auto|].
  destruct (Z.eqb_spec r 0), (crosses side limit (q_price h)) eqn:Hc; simpl; rewrite ?Hc; auto.
  destruct (q_account h =? account); simpl; [eauto|].
  destruct (q_qty h <=? r); simpl; auto.
Qed.

(** Every fill is at a resting price the taker's limit accepts, against an order
    of another account, in queue order: the makers are a prefix of the queue. *)
Lemma spec_match_makers r queue m :
  spec_match side limit account r queue = m →
  ∃ makers tail, queue = makers ++ tail ∧ q_id <$> makers = qf_maker <$> qm_fills m ∧
    q_price <$> makers = qf_price <$> qm_fills m ∧
    Forall (λ q, q_account q ≠ account ∧ crosses side limit (q_price q) = true) makers ∧
    (qm_rest m = tail ∨ (∃ h, qm_stp m = Some h ∧ tail = h :: qm_rest m ∧ q_account h = account) ∨
     ∃ n mk, qm_rest m = q_with_qty mk n :: tail ∧ last makers = Some mk).
Proof.
  intros <-. revert r. induction queue as [|h rest IH]; intros r; simpl.
  { exists [], []. simpl. repeat split; auto. }
  destruct (Z.eqb_spec r 0), (crosses side limit (q_price h)) eqn:Hc; simpl;
    try (exists [], (h :: rest); simpl; by repeat split; auto).
  destruct (Z.eqb_spec (q_account h) account) as [Ha|Ha].
  { exists [], (h :: rest). simpl. repeat split; auto. right. left. eauto. }
  destruct (Z.leb_spec (q_qty h) r).
  - destruct (IH (r - q_qty h)) as (mk & tl & -> & Hid & Hp & Hall & Hcase).
    exists (h :: mk), tl. csimpl. rewrite Hid, Hp. repeat split; auto.
    destruct Hcase as [?|[?|(n0 & m0 & ? & ?)]]; auto. right. right. exists n0, m0.
    split; [done|]. destruct mk; [done|]. by rewrite last_cons_cons.
  - exists [h], rest. csimpl. repeat split; auto. right. right. eauto.
Qed.

Lemma spec_match_length r queue :
  (length (qm_rest (spec_match side limit account r queue)) <= length queue)%nat.
Proof.
  revert r. induction queue as [|h rest IH]; intros r; simpl; [done|].
  destruct (Z.eqb_spec r 0), (crosses side limit (q_price h)); simpl; try lia.
  destruct (q_account h =? account); simpl; [lia|].
  destruct (q_qty h <=? r); simpl; [|lia]. specialize (IH (r - q_qty h)). lia.
Qed.

Lemma spec_match_zero queue :
  spec_match side limit account 0 queue = mkQMatch [] None 0 queue.
Proof. by destruct queue. Qed.

Lemma spec_match_no_cross r queue :
  match queue with [] => True | h :: _ => crosses side limit (q_price h) = false end →
  spec_match side limit account r queue = mkQMatch [] None r queue.
Proof. destruct queue as [|h rest]; simpl; [done|]. intros ->. by rewrite orb_true_r. Qed.

End SpecMatch.

(** ** Cancelling and shrinking in a queue with unique ids *)

Lemma spec_cancel_notin id queue : id ∉ q_id <$> queue → spec_cancel id queue = queue.
Proof.
  intros Hid. apply filter_id, Forall_forall. intros q Hq <-. apply Hid.
  by apply list_elem_of_fmap_2.
Qed.

Lemma spec_cancel_head q queue :
  q_id q ∉ q_id <$> queue → spec_cancel (q_id q) (q :: queue) = queue.
Proof.
  intros Hid. unfold spec_cancel. rewrite filter_cons, decide_False by naive_solver.
  by apply spec_cancel_notin.
Qed.

Lemma spec_set_qty_notin id n queue : id ∉ q_id <$> queue → spec_set_qty id n queue = queue.
Proof.
  intros Hid. unfold spec_set_qty. erewrite (list_fmap_ext _ (λ q, q)), list_fmap_id; [done|].
  intros i q Hq%list_elem_of_lookup_2. rewrite decide_False; [done|]. intros <-.
  apply Hid. by apply list_elem_of_fmap_2.
Qed.

Lemma spec_set_qty_head q n queue :
  q_id q ∉ q_id <$> queue → spec_set_qty (q_id q) n (q :: queue) = q_with_qty q n :: queue.
Proof.
  intros Hid. unfold spec_set_qty. csimpl. rewrite decide_True by done. f_equal.
  by apply spec_set_qty_notin.
Qed.
