(* ===== verification/BookInv.v ===== *)
(** * BookInv: the book's representation invariant and its primitive mutations

    [book_ok_ex hole b] says that the price indices are sorted, every level is
    well formed and (except possibly at [hole], the level the matching walk is
    emptying) not empty, and that the two sidecar indices describe exactly the
    orders in the levels.  [side_queue] is the abstraction to [BookSpec].  The
    file proves what the three primitive mutations (take an order out, shrink an
    order, prune an empty level) do to both. *)

From S2P Require Import Prelude BTree Domain PriceLevel Book BookSpec.

Section Invariant.
Context {L : Type} `{!PriceLevelOps L}.
Implicit Types (b : Book L) (s : Side) (p : Price) (l : L) (id : OrderId).

Definition order_ok b s p (o : PlOrder) : Prop :=
  ∃ id m, pl_id o = Sequential id ∧ order_id_ok id ∧ qty_ok (pl_quantity o) ∧
    pl_timestamp o <= seq b ∧ index b !! id = Some m ∧ om_side m = s ∧ om_price m = p.

Definition level_ok b s p l : Prop :=
  price_ok p ∧ unique_orders (level_queue l) ∧ sum_qty (level_queue l) <= u64_max ∧
  Forall (order_ok b s p) (level_queue l).

(** The per-account index holds, for each account, the non-empty set of exactly
    its resting orders. *)
Definition accounts_ok (idx : gmap OrderId OrderMeta) (ba : gmap AccountId (list (Z * unit))) : Prop :=
  (∀ a set, ba !! a = Some set → bt_ok set ∧ set ≠ []) ∧
  (∀ a id, is_Some (bt_get (default [] (ba !! a)) id) ↔
           ∃ m, idx !! id = Some m ∧ om_account_id m = a).

Record book_ok_ex (hole : option (Side * Price)) b : Prop := {
  ok_sorted s : bt_ok (levels b s);
  ok_level s p l : level_at b s p = Some l → level_ok b s p l;
  ok_nonempty s p l : level_at b s p = Some l → hole ≠ Some (s, p) → level_queue l ≠ [];
  ok_index id m : index b !! id = Some m →
    account_id_ok (om_account_id m) ∧ om_tif m ≠ Ioc ∧
    ∃ l, level_at b (om_side m) (om_price m) = Some l ∧ Sequential id ∈ pl_id <$> level_queue l;
  ok_accounts : accounts_ok (index b) (by_account b);
  ok_seq : is_u64 (seq b);
}.

Definition book_ok b : Prop := book_ok_ex None b.

Definition best_key b s : option Price :=
  match s with Bid => best_bid b | Ask => best_ask b end.

(** No locked or crossed market. *)
Definition uncrossed b : Prop :=
  ∀ pb pa, best_bid b = Some pb → best_ask b = Some pa → pb < pa.

Lemma book_ok_weaken h b : book_ok b → book_ok_ex h b.
Proof. intros []. split; eauto. Qed.

(** ** Abstraction *)

Definition pl_raw (i : PlId) : Z := match i with Sequential z => z | OtherPlId z => z end.

Definition to_q b p (o : PlOrder) : QOrder :=
  let id := pl_raw (pl_id o) in
  mkQ id (from_option om_account_id 0 (index b !! id)) p (pl_quantity o).

Definition level_orders b p l : list QOrder := to_q b p <$> level_queue l.

Definition best_first s (m : list (Z * L)) : list (Z * L) :=
  match s with Bid => reverse m | Ask => m end.

Definition side_queue b s : list QOrder :=
  best_first s (levels b s) ≫= λ e, level_orders b e.1 e.2.

(** ** Reading the book through setters *)

Lemma levels_set_levels b s m s' :
  levels (set_levels b s m) s' = if decide (s = s') then m else levels b s'.
Proof. by destruct s, s'. Qed.

Lemma level_at_set_levels b s m s' p :
  level_at (set_levels b s m) s' p = if decide (s = s') then bt_get m p else level_at b s' p.
Proof. unfold level_at. rewrite levels_set_levels. by case_decide. Qed.

Lemma index_set_levels b s m : index (set_levels b s m) = index b.
Proof. by destruct s. Qed.
Lemma by_account_set_levels b s m : by_account (set_levels b s m) = by_account b.
Proof. by destruct s. Qed.
Lemma seq_set_levels b s m : seq (set_levels b s m) = seq b.
Proof. by destruct s. Qed.

Lemma index_update_level b s p u : index (update_level b s p u) = index b.
Proof. unfold update_level. destruct (level_at b s p); [apply index_set_levels|done]. Qed.
Lemma by_account_update_level b s p u : by_account (update_level b s p u) = by_account b.
Proof. unfold update_level. destruct (level_at b s p); [apply by_account_set_levels|done]. Qed.
Lemma seq_update_level b s p u : seq (update_level b s p u) = seq b.
Proof. unfold update_level. destruct (level_at b s p); [apply seq_set_levels|done]. Qed.

Lemma levels_drop b id s : levels (drop_from_indices b id) s = levels b s.
Proof. unfold drop_from_indices. destruct (index b !! id); [by destruct s|done]. Qed.
Lemma seq_drop b id : seq (drop_from_indices b id) = seq b.
Proof. unfold drop_from_indices. by destruct (index b !! id). Qed.
Lemma index_drop b id : index (drop_from_indices b id) = delete id (index b).
Proof.
  unfold drop_from_indices. destruct (index b !! id) eqn:Hi; [done|]. by rewrite delete_id.
Qed.

Lemma level_at_drop b id s p : level_at (drop_from_indices b id) s p = level_at b s p.
Proof. unfold level_at. by rewrite levels_drop. Qed.

Lemma level_at_update b s p u s' p' :
  level_at (update_level b s p u) s' p' =
    if decide (s = s' ∧ p = p') then (λ l, pl_update_order l u) <$> level_at b s' p'
    else level_at b s' p'.
Proof.
  unfold update_level. destruct (level_at b s p) as [l|] eqn:Hl.
  - rewrite level_at_set_levels. destruct (decide (s = s')) as [<-|].
    + rewrite bt_get_insert. destruct (Z.eqb_spec p' p) as [Heq|].
      * rewrite decide_True by done. by rewrite Heq, Hl.
      * rewrite decide_False by naive_solver. done.
    + by rewrite decide_False by naive_solver.
  - case_decide as Hd; [|done]. destruct Hd as [<- <-]. by rewrite Hl.
Qed.

Lemma bt_keys_insert_existing {V} (m : list (Z * V)) k v v' :
  bt_ok m → bt_get m k = Some v → bt_keys (bt_insert m k v') = bt_keys m.
Proof.
  intros Hok Hk. destruct (bt_split_Some m k v Hok Hk) as (pre & post & -> & -> & _).
  unfold bt_keys. by rewrite !fmap_app.
Qed.

Lemma keys_update b s p u s' :
  bt_ok (levels b s) → bt_keys (levels (update_level b s p u) s') = bt_keys (levels b s').
Proof.
  intros Hok. unfold update_level. destruct (level_at b s p) as [l|] eqn:Hl; [|done].
  rewrite levels_set_levels. case_decide; [subst s'|done]. by eapply bt_keys_insert_existing.
Qed.

Lemma best_key_keys b b' s :
  bt_keys (levels b' s) = bt_keys (levels b s) → best_key b' s = best_key b s.
Proof. destruct s; simpl; unfold best_bid, best_ask, bt_first_key, bt_last_key; by intros ->. Qed.

End Invariant.

(** ** The per-account index *)

Lemma accounts_ok_set_ok idx ba a : accounts_ok idx ba → bt_ok (default [] (ba !! a)).
Proof. intros [Hs _]. destruct (ba !! a) eqn:Ha; simpl; [by eapply Hs|apply bt_ok_nil]. Qed.

Lemma account_remove_get idx ba acct id a id' :
  accounts_ok idx ba →
  bt_get (default [] (account_remove ba acct id !! a)) id' =
    if decide (a = acct ∧ id' = id) then None else bt_get (default [] (ba !! a)) id'.
Proof.
  intros Hok. unfold account_remove. destruct (ba !! acct) as [set|] eqn:Hset.
  - assert (bt_ok set) as Hs by (by eapply Hok).
    pose proof (bt_get_remove set id id' Hs) as Hget.
    destruct (decide (a = acct)) as [->|Hne].
    + rewrite Hset. simpl. trans (bt_get (bt_remove set id) id').
      * destruct (bt_remove set id); by rewrite ?lookup_delete_eq, ?lookup_insert_eq.
      * rewrite Hget. destruct (Z.eqb_spec id' id); case_decide; naive_solver.
    + rewrite decide_False by naive_solver.
      destruct (bt_remove set id); rewrite ?lookup_delete_ne, ?lookup_insert_ne by done; done.
  - case_decide as Hd; [|done]. destruct Hd as [-> ->]. by rewrite Hset.
Qed.

Lemma accounts_ok_delete idx ba id m :
  accounts_ok idx ba → idx !! id = Some m →
  accounts_ok (delete id idx) (account_remove ba (om_account_id m) id).
Proof.
  intros Hok Hm. split.
  - intros a set. unfold account_remove. destruct (ba !! om_account_id m) as [set0|] eqn:Hset; [|apply Hok].
    destruct (bt_remove set0 id) eqn:Hrem.
    + intros [_ Ha]%lookup_delete_Some. by eapply Hok.
    + intros [[<- <-]|[_ Ha]]%lookup_insert_Some; [|by eapply Hok].
      split; [|done]. rewrite <-Hrem. apply bt_remove_ok. by eapply Hok.
  - intros a id'. rewrite (account_remove_get idx) by done. case_decide as Hd.
    + destruct Hd as [-> ->]. rewrite lookup_delete_eq. split; [by intros []|naive_solver].
    + rewrite (proj2 Hok). split; intros (m' & Hm' & Ha).
      * exists m'. rewrite lookup_delete_ne; [done|]. intros <-. naive_solver.
      * apply lookup_delete_Some in Hm' as [? ?]. eauto.
Qed.

Lemma accounts_ok_insert idx ba id m :
  accounts_ok idx ba → idx !! id = None →
  accounts_ok (<[id := m]> idx) (account_insert ba (om_account_id m) id).
Proof.
  intros Hok Hm. pose proof (accounts_ok_set_ok idx ba (om_account_id m) Hok) as Hset.
  unfold account_insert. split.
  - intros a set [[<- <-]|[_ Ha]]%lookup_insert_Some; [|by eapply Hok].
    split; [by apply bt_insert_ok|]. intros Hnil.
    pose proof (bt_get_insert (default [] (ba !! om_account_id m)) id tt id) as Hg.
    rewrite Hnil, Z.eqb_refl in Hg. done.
  - intros a id'. rewrite lookup_insert. case_decide as Ha; simpl.
    + subst a. rewrite bt_get_insert. destruct (Z.eqb_spec id' id) as [Heq|].
      * subst id'. rewrite lookup_insert_eq. naive_solver.
      * rewrite (proj2 Hok), lookup_insert_ne by done. done.
    + rewrite (proj2 Hok). destruct (decide (id = id')) as [<-|].
      * rewrite lookup_insert_eq, Hm. naive_solver.
      * by rewrite lookup_insert_ne.
Qed.

(** ** Taking an order out, shrinking an order, pruning a level *)

Section Primitives.
Context {L : Type} `{!PriceLevelOps L} `{!PriceLevelLaws L}.
Implicit Types (b : Book L) (s : Side) (p : Price) (l : L) (id : OrderId).

(** The mutation every removal performs: cancel inside the level and drop the
    order from the sidecar indices. *)
Definition take_out b s p id : Book L :=
  drop_from_indices (update_level b s p (PlCancel (Sequential id))) id.

(** The orders of a level are the ones the index places there. *)
Lemma level_order_meta h b s p l o :
  book_ok_ex h b → level_at b s p = Some l → o ∈ level_queue l →
  ∃ id m, pl_id o = Sequential id ∧ order_id_ok id ∧ qty_ok (pl_quantity o) ∧
    pl_timestamp o <= seq b ∧ index b !! id = Some m ∧ om_side m = s ∧ om_price m = p.
Proof.
  intros Hok Hl Ho. destruct (ok_level _ _ Hok _ _ _ Hl) as (_ & _ & _ & Hall).
  rewrite Forall_forall in Hall. by apply Hall.
Qed.

Lemma level_queue_update_ok h b s p l u :
  book_ok_ex h b → level_at b s p = Some l → update_allowed u (level_queue l) →
  level_queue (pl_update_order l u) = apply_update u (level_queue l).
Proof.
  intros Hok Hl Hu. apply level_queue_update; [|done].
  by destruct (ok_level _ _ Hok _ _ _ Hl) as (_ & ? & _).
Qed.

Lemma order_ok_mono b b' s p o :
  order_ok b s p o → seq b <= seq b' →
  (∀ id, pl_id o = Sequential id → index b' !! id = index b !! id) → order_ok b' s p o.
Proof.
  intros (id & m & ? & ? & ? & ? & ? & ? & ?) Hseq Hidx. exists id, m. rewrite Hidx by done.
  split_and!; try done; lia.
Qed.

(** A level stays well formed under an allowed update when the orders that are
    left stay well formed. *)
Lemma level_ok_update b b' s p l u :
  level_ok b s p l → update_allowed u (level_queue l) →
  Forall (order_ok b' s p) (apply_update u (level_queue l)) →
  level_ok b' s p (pl_update_order l u).
Proof.
  intros (Hp & Huniq & Hsum & Hall) Hu Hall'.
  pose proof (level_queue_update l u Huniq Hu) as Hq.
  split_and!; rewrite ?Hq; [done|by apply apply_update_unique| |done].
  etrans; [apply sum_qty_update|done]; [|done].
  eapply Forall_impl; [exact Hall|]. intros o (id & m & _ & _ & Hqty & _).
  apply qty_ok_pos in Hqty. lia.
Qed.

Lemma levels_update_sorted h b s p u s' :
  book_ok_ex h b → bt_ok (levels (update_level b s p u) s').
Proof.
  intros Hok. unfold bt_ok. rewrite keys_update by apply Hok. apply Hok.
Qed.

Lemma level_at_take_out b s p id s' p' :
  level_at (take_out b s p id) s' p' =
    if decide (s = s' ∧ p = p')
    then (λ l, pl_update_order l (PlCancel (Sequential id))) <$> level_at b s' p'
    else level_at b s' p'.
Proof. unfold take_out. rewrite level_at_drop. apply level_at_update. Qed.

Lemma index_take_out b s p id : index (take_out b s p id) = delete id (index b).
Proof. unfold take_out. by rewrite index_drop, index_update_level. Qed.

Lemma seq_take_out b s p id : seq (take_out b s p id) = seq b.
Proof. unfold take_out. by rewrite seq_drop, seq_update_level. Qed.

Lemma by_account_take_out b s p id m :
  index b !! id = Some m →
  by_account (take_out b s p id) = account_remove (by_account b) (om_account_id m) id.
Proof.
  intros Hm. unfold take_out, drop_from_indices.
  by rewrite index_update_level, Hm, by_account_update_level.
Qed.

Lemma take_out_ok h b s p id m :
  book_ok_ex h b → (h = None ∨ h = Some (s, p)) →
  index b !! id = Some m → om_side m = s → om_price m = p →
  book_ok_ex (Some (s, p)) (take_out b s p id).
Proof.
  intros Hok Hh Hm <- <-.
  set (b' := take_out b (om_side m) (om_price m) id).
  assert (Hoid : ∀ s p o, order_ok b s p o → pl_id o ≠ Sequential id → order_ok b' s p o).
  { intros s p o Ho Hne. eapply order_ok_mono; [done|unfold b'; rewrite seq_take_out; lia|].
    intros id' Hid'. unfold b'. rewrite index_take_out, lookup_delete_ne; congruence. }
  split.
  - intros s'. unfold b', take_out. rewrite levels_drop. by eapply levels_update_sorted.
  - intros s p l. unfold b'. rewrite level_at_take_out. case_decide as Hd.
    + destruct Hd as [<- <-]. intros (l0 & Hl0 & ->)%fmap_Some.
      pose proof (ok_level _ _ Hok _ _ _ Hl0) as Hlok.
      apply level_ok_update with b; [done|done|]. simpl.
      apply Forall_forall. intros o [Hne Ho]%list_elem_of_filter.
      destruct Hlok as (_ & _ & _ & Hall). rewrite Forall_forall in Hall. auto.
    + intros Hl. destruct (ok_level _ _ Hok _ _ _ Hl) as (? & ? & ? & Hall).
      split_and!; [done..|].
      eapply Forall_impl; [exact Hall|]. intros o Ho. apply Hoid; [done|].
      destruct Ho as (id' & m' & Hid' & _ & _ & _ & Hm' & ? & ?). intros Heq. apply Hd.
      rewrite Hid' in Heq. simplify_eq. done.
  - intros s p l. unfold b'. rewrite level_at_take_out. case_decide as Hd; [naive_solver|].
    intros Hl Hne. eapply ok_nonempty; [done..|]. destruct Hh as [->| ->]; [done|].
    intros [= <- <-]. naive_solver.
  - intros id' m'. unfold b'. rewrite index_take_out. intros [Hne Hm']%lookup_delete_Some.
    destruct (ok_index _ _ Hok _ _ Hm') as (? & ? & l & Hl & Hin).
    split; [done|]. split; [done|]. rewrite level_at_take_out. case_decide as Hd; [|eauto].
    rewrite Hl. simpl. eexists. split; [done|].
    erewrite level_queue_update_ok; [|done..]. simpl.
    apply list_elem_of_fmap in Hin as (o & Ho & Hin). apply list_elem_of_fmap. exists o.
    split; [done|]. apply list_elem_of_filter. split; [|done]. congruence.
  - unfold b'. rewrite index_take_out, (by_account_take_out _ _ _ _ m) by done.
    apply accounts_ok_delete; [apply Hok|done].
  - unfold b'. rewrite seq_take_out. apply Hok.
Qed.

(** ** Effect of the primitives on the queues *)

Definition upd_at s p u s' (e : Z * L) : L :=
  if decide (s = s' ∧ e.1 = p) then pl_update_order e.2 u else e.2.

Lemma bt_insert_existing_fmap (m : list (Z * L)) k v v' :
  bt_ok m → bt_get m k = Some v →
  bt_insert m k v' = (λ e, if decide (e.1 = k) then (k, v') else e) <$> m.
Proof.
  intros Hok Hk. destruct (bt_split_Some m k v Hok Hk) as (pre & post & -> & -> & _ & Hpre & Hpost).
  rewrite fmap_app. csimpl. rewrite decide_True by done. f_equal; [|f_equal].
  - symmetry. erewrite (list_fmap_ext _ id), list_fmap_id; [done|].
    intros i e He%list_elem_of_lookup_2. rewrite Forall_forall in Hpre. specialize (Hpre _ He).
    case_decide; [lia|done].
  - symmetry. erewrite (list_fmap_ext _ id), list_fmap_id; [done|].
    intros i e He%list_elem_of_lookup_2. rewrite Forall_forall in Hpost. specialize (Hpost _ He).
    case_decide; [lia|done].
Qed.

Lemma best_first_fmap s (f : Z * L → Z * L) m : best_first s (f <$> m) = f <$> best_first s m.
Proof. destruct s; simpl; [by rewrite fmap_reverse|done]. Qed.

Lemma elem_of_best_first s (m : list (Z * L)) e : e ∈ best_first s m ↔ e ∈ m.
Proof. destruct s; simpl; [apply elem_of_reverse|done]. Qed.

Lemma best_first_level b s e :
  bt_ok (levels b s) → e ∈ best_first s (levels b s) → level_at b s e.1 = Some e.2.
Proof. intros Hok. rewrite elem_of_best_first. destruct e. by apply bt_get_elem. Qed.

Lemma levels_update_fmap b s p u s' :
  bt_ok (levels b s) →
  levels (update_level b s p u) s' = (λ e, (e.1, upd_at s p u s' e)) <$> levels b s'.
Proof.
  intros Hok. unfold update_level, upd_at. destruct (level_at b s p) as [l|] eqn:Hl.
  - rewrite levels_set_levels. destruct (decide (s = s')) as [<-|].
    + erewrite bt_insert_existing_fmap by done. apply list_fmap_ext.
      intros i [p' l'] He%list_elem_of_lookup_2. simpl. destruct (decide (p' = p)) as [->|].
      * rewrite decide_True by done. unfold level_at in Hl.
        apply bt_get_elem in He; [|done]. congruence.
      * by rewrite decide_False by naive_solver.
    + erewrite (list_fmap_ext _ id), list_fmap_id; [done|]. intros i [p' l'] _. simpl.
      by rewrite decide_False by naive_solver.
  - erewrite (list_fmap_ext _ id), list_fmap_id; [done|]. intros i [p' l'] He. simpl.
    rewrite decide_False; [done|]. intros [<- ->]. apply list_elem_of_lookup_2 in He.
    apply bt_get_elem in He; [|done]. unfold level_at in Hl. congruence.
Qed.

(** The queue of a side after one level was updated, whatever the indices now are. *)
Lemma side_queue_update b b' s p u s' :
  bt_ok (levels b s) → levels b' s' = levels (update_level b s p u) s' →
  side_queue b' s' =
    best_first s' (levels b s') ≫= λ e, to_q b' e.1 <$> level_queue (upd_at s p u s' e).
Proof.
  intros Hok Hl. unfold side_queue.
  by rewrite Hl, levels_update_fmap, best_first_fmap, list_fmap_bind by done.
Qed.

Lemma upd_at_queue h b s p u s' e :
  book_ok_ex h b → e ∈ best_first s' (levels b s') →
  (∀ l, level_at b s p = Some l → update_allowed u (level_queue l)) →
  level_queue (upd_at s p u s' e) =
    if decide (s = s' ∧ e.1 = p) then apply_update u (level_queue e.2) else level_queue e.2.
Proof.
  intros Hok He Hu. apply best_first_level in He; [|apply Hok]. unfold upd_at.
  case_decide as Hd; [|done]. destruct Hd as [<- <-]. eapply level_queue_update_ok; eauto.
Qed.

Lemma to_q_ext b b' p o :
  index b' !! pl_raw (pl_id o) = index b !! pl_raw (pl_id o) → to_q b' p o = to_q b p o.
Proof. unfold to_q. by intros ->. Qed.

Lemma take_out_queue h b s p id m s' :
  book_ok_ex h b → index b !! id = Some m → om_side m = s → om_price m = p →
  side_queue (take_out b s p id) s' = spec_cancel id (side_queue b s').
Proof.
  intros Hok Hm <- <-.
  rewrite (side_queue_update b _ (om_side m) (om_price m) (PlCancel (Sequential id)))
    by (apply Hok || apply levels_drop).
  unfold spec_cancel, side_queue. rewrite filter_bind.
  apply list_bind_ext_in. intros e He. erewrite upd_at_queue by done.
  pose proof (best_first_level _ _ _ (ok_sorted _ _ Hok _) He) as Hl.
  assert (Hto : ∀ o, o ∈ level_queue e.2 → pl_id o ≠ Sequential id →
    to_q (take_out b (om_side m) (om_price m) id) e.1 o = to_q b e.1 o).
  { intros o Ho Hne. destruct (level_order_meta _ _ _ _ _ _ Hok Hl Ho) as (i & mi & Hi & _).
    apply to_q_ext. rewrite index_take_out, Hi. simpl. apply lookup_delete_ne. congruence. }
  assert (Hid : ∀ o, o ∈ level_queue e.2 → (pl_id o ≠ Sequential id ↔ q_id (to_q b e.1 o) ≠ id)).
  { intros o Ho. destruct (level_order_meta _ _ _ _ _ _ Hok Hl Ho) as (i & mi & Hi & _).
    unfold to_q. rewrite Hi. simpl. naive_solver. }
  unfold level_orders. case_decide as Hd; simpl.
  - by apply fmap_filter_comm.
  - trans (to_q (take_out b (om_side m) (om_price m) id) e.1 <$>
             filter (λ o, pl_id o ≠ Sequential id) (level_queue e.2)); [|by apply fmap_filter_comm].
    f_equal. symmetry. apply filter_id. apply Forall_forall. intros o Ho Heq. apply Hd.
    destruct (level_order_meta _ _ _ _ _ _ Hok Hl Ho) as (i & mi & Hi & _ & _ & _ & Hmi & ? & ?).
    rewrite Hi in Heq. simplify_eq. done.
Qed.

(** Shrinking the quantity of one order. *)
Definition shrink b s p id (q : Qty) : Book L :=
  update_level b s p (PlUpdateQuantity (Sequential id) q).

Lemma shrink_ok h b s p l id q :
  book_ok_ex h b → level_at b s p = Some l → 0 < q →
  (∀ o, o ∈ level_queue l → pl_id o = Sequential id → q <= pl_quantity o) →
  book_ok_ex h (shrink b s p id q).
Proof.
  intros Hok Hl Hq Hle. unfold shrink.
  assert (Hu : update_allowed (PlUpdateQuantity (Sequential id) q) (level_queue l)) by done.
  assert (Hord : ∀ s p o, order_ok b s p o →
            order_ok (update_level b s p (PlUpdateQuantity (Sequential id) q)) s p o).
  { intros s1 p1 o Ho. eapply order_ok_mono; [done|by rewrite seq_update_level|].
    by rewrite index_update_level. }
  split.
  - intros s'. by eapply levels_update_sorted.
  - intros s1 p1 l1. rewrite level_at_update. case_decide as Hd.
    + destruct Hd as [<- <-]. rewrite Hl. intros [= <-].
      pose proof (ok_level _ _ Hok _ _ _ Hl) as Hlok.
      apply level_ok_update with b; [done|done|]. simpl. apply Forall_fmap.
      destruct Hlok as (_ & _ & _ & Hall). apply Forall_forall. intros o Ho.
      rewrite Forall_forall in Hall. specialize (Hall _ Ho). simpl.
      case_decide as Hid; [|by apply Hord].
      destruct Hall as (i & mi & ? & ? & Hqty & ?). rewrite qty_ok_pos in Hqty.
      exists i, mi. simpl. rewrite index_update_level, seq_update_level.
      split_and!; try tauto. apply qty_ok_pos. specialize (Hle _ Ho Hid). lia.
    + intros Hl1. destruct (ok_level _ _ Hok _ _ _ Hl1) as (? & ? & ? & Hall).
      split_and!; [done..|]. eapply Forall_impl; [exact Hall|]. intros o Ho.
      eapply order_ok_mono; [done|by rewrite seq_update_level|]. by rewrite index_update_level.
  - intros s1 p1 l1. rewrite level_at_update. case_decide as Hd; [|apply Hok].
    destruct Hd as [<- <-]. rewrite Hl. intros [= <-] Hh.
    rewrite (level_queue_update_ok h b s p) by done. simpl.
    intros Hnil%fmap_nil_inv. by eapply (ok_nonempty _ _ Hok).
  - intros id' m'. rewrite index_update_level. intros Hm'.
    destruct (ok_index _ _ Hok _ _ Hm') as (? & ? & l1 & Hl1 & Hin). split; [done|]. split; [done|].
    rewrite level_at_update. case_decide as Hd; [|eauto]. destruct Hd as [-> ->].
    rewrite Hl in Hl1. simplify_eq. rewrite Hl. simpl. eexists. split; [done|].
    erewrite level_queue_update_ok by done. simpl.
    rewrite <-list_fmap_compose. erewrite list_fmap_ext; [exact Hin|].
    intros k o _. simpl. by case_decide.
  - rewrite index_update_level, by_account_update_level. apply Hok.
  - rewrite seq_update_level. apply Hok.
Qed.

Lemma shrink_queue h b s p l id q s' :
  book_ok_ex h b → level_at b s p = Some l → 0 < q →
  (∀ o, o ∈ level_queue l → pl_id o = Sequential id → q <= pl_quantity o) →
  (∃ m, index b !! id = Some m ∧ om_side m = s ∧ om_price m = p) →
  side_queue (shrink b s p id q) s' = spec_set_qty id q (side_queue b s').
Proof.
  intros Hok Hl Hq Hle (m & Hm & <- & <-). unfold shrink.
  rewrite (side_queue_update b _ (om_side m) (om_price m) (PlUpdateQuantity (Sequential id) q))
    by (apply Hok || done).
  unfold spec_set_qty, side_queue. rewrite fmap_bind_list. apply list_bind_ext_in. intros e He.
  erewrite upd_at_queue; [|done..|naive_solver].
  pose proof (best_first_level _ _ _ (ok_sorted _ _ Hok _) He) as Hle'.
  unfold level_orders. rewrite <-list_fmap_compose.
  assert (Hdec : ∀ o, o ∈ level_queue e.2 → (pl_id o = Sequential id ↔ q_id (to_q b e.1 o) = id)).
  { intros o Ho. destruct (level_order_meta _ _ _ _ _ _ Hok Hle' Ho) as (i & mi & Hi & _).
    unfold to_q. rewrite Hi. simpl. naive_solver. }
  assert (Hto : ∀ o, to_q (update_level b (om_side m) (om_price m) (PlUpdateQuantity (Sequential id) q)) e.1 o
                     = to_q b e.1 o).
  { intros o. apply to_q_ext. by rewrite index_update_level. }
  case_decide as Hd; simpl.
  - rewrite <-list_fmap_compose. apply list_fmap_ext. intros k o Ho%list_elem_of_lookup_2. simpl.
    rewrite Hto. destruct (decide (pl_id o = Sequential id)) as [Hi|Hi].
    + by rewrite decide_True by by apply Hdec.
    + rewrite decide_False; [done|]. intros Heq. by apply Hi, Hdec.
  - apply list_fmap_ext. intros k o Ho%list_elem_of_lookup_2. simpl. rewrite Hto.
    rewrite decide_False; [done|]. intros Hi%Hdec; [|done]. apply Hd.
    destruct (level_order_meta _ _ _ _ _ _ Hok Hle' Ho) as (i & mi & Hi' & _ & _ & _ & Hmi & ? & ?).
    rewrite Hi' in Hi. simplify_eq. done.
Qed.

(** ** Priority order of the levels *)

Lemma best_first_split_at b s p :
  bt_ok (levels b s) →
  ∃ A B, best_first s (levels b s) = A ++ from_option (λ l, [(p, l)]) [] (level_at b s p) ++ B ∧
    best_first s (bt_remove (levels b s) p) = A ++ B ∧
    (∀ l', best_first s (bt_insert (levels b s) p l') = A ++ (p, l') :: B) ∧
    Forall (λ e, ¬ better_eq s p e.1) A ∧ Forall (λ e, ¬ better_eq s e.1 p) B.
Proof.
  intros Hok. destruct (bt_split _ p Hok) as (pre & post & Hm & Hins & Hrem & Hpre & Hpost).
  fold (level_at b s p) in Hm. destruct s; simpl in *.
  - exists (reverse post), (reverse pre). split_and!.
    + rewrite Hm at 1. rewrite !reverse_app, <-app_assoc. by destruct (level_at b Bid p).
    + by rewrite Hrem, reverse_app.
    + intros l'. by rewrite Hins, reverse_app, reverse_cons, <-app_assoc.
    + apply Forall_reverse. eapply Forall_impl; [exact Hpost|]. simpl. intros; lia.
    + apply Forall_reverse. eapply Forall_impl; [exact Hpre|]. simpl. intros; lia.
  - exists pre, post. rewrite Hrem. split_and!; try done.
    + eapply Forall_impl; [exact Hpre|]. simpl. intros; lia.
    + eapply Forall_impl; [exact Hpost|]. simpl. intros; lia.
Qed.

Lemma best_first_split b s p l :
  bt_ok (levels b s) → level_at b s p = Some l →
  ∃ A B, best_first s (levels b s) = A ++ (p, l) :: B ∧
    best_first s (bt_remove (levels b s) p) = A ++ B ∧
    (∀ l', best_first s (bt_insert (levels b s) p l') = A ++ (p, l') :: B) ∧
    Forall (λ e, ¬ better_eq s p e.1) A ∧ Forall (λ e, ¬ better_eq s e.1 p) B.
Proof. intros Hok Hl. pose proof (best_first_split_at b s p Hok) as H. by rewrite Hl in H. Qed.

Lemma best_key_head b s : best_key b s = fst <$> head (best_first s (levels b s)).
Proof.
  destruct s; simpl.
  - unfold best_bid, bt_last_key, bt_keys. by rewrite head_reverse, fmap_last.
  - unfold best_ask, bt_first_key, bt_keys. by destruct (asks b).
Qed.

Lemma best_key_level b s p :
  bt_ok (levels b s) → best_key b s = Some p →
  ∃ l B, level_at b s p = Some l ∧ best_first s (levels b s) = (p, l) :: B.
Proof.
  intros Hok. rewrite best_key_head. destruct (best_first s (levels b s)) as [|[p' l] B] eqn:He; [done|].
  intros [= <-]. exists l, B. split; [|done].
  apply (best_first_level b s (p', l)); [done|]. rewrite He. set_solver.
Qed.

Lemma best_key_None b s : best_key b s = None → levels b s = [].
Proof. destruct s; simpl; [apply bt_last_key_None|apply bt_first_key_None]. Qed.

Lemma side_queue_best b s p l :
  bt_ok (levels b s) → best_key b s = Some p → level_at b s p = Some l →
  ∃ rest, side_queue b s = level_orders b p l ++ rest.
Proof.
  intros Hok Hp Hl. destruct (best_key_level _ _ _ Hok Hp) as (l' & B & Hl' & He).
  rewrite Hl in Hl'. simplify_eq. unfold side_queue. rewrite He. csimpl. eauto.
Qed.

(** ** Pruning *)

Lemma level_count_zero l : (pl_order_count l =? 0) = true ↔ level_queue l = [].
Proof.
  rewrite Z.eqb_eq, level_count_queue. split; [|by intros ->].
  destruct (level_queue l); simpl; [done|lia].
Qed.

Lemma index_prune b s p : index (prune_level b s p) = index b.
Proof.
  unfold prune_level. destruct (level_at b s p); [|done].
  destruct (_ =? _); [apply index_set_levels|done].
Qed.

Lemma seq_prune b s p : seq (prune_level b s p) = seq b.
Proof.
  unfold prune_level. destruct (level_at b s p); [|done].
  destruct (_ =? _); [apply seq_set_levels|done].
Qed.

Lemma by_account_prune b s p : by_account (prune_level b s p) = by_account b.
Proof.
  unfold prune_level. destruct (level_at b s p); [|done].
  destruct (_ =? _); [apply by_account_set_levels|done].
Qed.

Lemma level_at_prune b s p s' p' :
  bt_ok (levels b s) →
  level_at (prune_level b s p) s' p' =
    if decide (s = s' ∧ p = p' ∧ level_queue <$> level_at b s p = Some []) then None
    else level_at b s' p'.
Proof.
  intros Hok. unfold prune_level. destruct (level_at b s p) as [l|] eqn:Hl; simpl.
  - destruct (pl_order_count l =? 0) eqn:Hc.
    + apply level_count_zero in Hc. rewrite level_at_set_levels. destruct (decide (s = s')) as [<-|].
      * rewrite bt_get_remove by done. destruct (Z.eqb_spec p' p) as [Heq|].
        -- by rewrite decide_True by (split_and!; congruence).
        -- rewrite decide_False by naive_solver. done.
      * by rewrite decide_False by naive_solver.
    + rewrite decide_False; [done|]. intros (_ & _ & [= Hn]).
      apply level_count_zero in Hn. congruence.
  - by rewrite decide_False by naive_solver.
Qed.

Lemma prune_sorted b s p s' :
  (∀ s, bt_ok (levels b s)) → bt_ok (levels (prune_level b s p) s').
Proof.
  intros Hok. unfold prune_level. destruct (level_at b s p); [|done].
  destruct (_ =? _); [|done]. rewrite levels_set_levels. case_decide; [|done].
  by apply bt_remove_ok.
Qed.

Lemma prune_ok b s p : book_ok_ex (Some (s, p)) b → book_ok (prune_level b s p).
Proof.
  intros Hok. split.
  - intros s'. apply prune_sorted, Hok.
  - intros s1 p1 l1. rewrite level_at_prune by apply Hok. case_decide; [done|]. intros Hl1.
    destruct (ok_level _ _ Hok _ _ _ Hl1) as (? & ? & ? & Hall). split_and!; [done..|].
    eapply Forall_impl; [exact Hall|]. intros o Ho.
    eapply order_ok_mono; [done|by rewrite seq_prune|]. by rewrite index_prune.
  - intros s1 p1 l1. rewrite level_at_prune by apply Hok. case_decide as Hd; [done|]. intros Hl1 _ Hn.
    destruct (decide (s = s1 ∧ p = p1)) as [[<- <-]|Hne].
    + apply Hd. rewrite Hl1. simpl. by rewrite Hn.
    + eapply (ok_nonempty _ _ Hok); [done| |done]. naive_solver.
  - intros id m. rewrite index_prune. intros Hm.
    destruct (ok_index _ _ Hok _ _ Hm) as (? & ? & l & Hl & Hin). split; [done|]. split; [done|].
    exists l. rewrite level_at_prune by apply Hok. split; [|done]. rewrite decide_False; [done|].
    intros (-> & -> & Hn). rewrite Hl in Hn. injection Hn as Hn. rewrite Hn in Hin. set_solver.
  - rewrite index_prune, by_account_prune. apply Hok.
  - rewrite seq_prune. apply Hok.
Qed.

Lemma length_levels_prune b s p :
  (length (levels (prune_level b s p) s) <= length (levels b s))%nat.
Proof.
  unfold prune_level. destruct (level_at b s p); [|done]. destruct (_ =? _); [|done].
  rewrite levels_set_levels, decide_True by done. apply sublist_length, bt_remove_sublist.
Qed.

Lemma length_levels_prune_empty b s p l :
  bt_ok (levels b s) → level_at b s p = Some l → level_queue l = [] →
  (length (levels (prune_level b s p) s) < length (levels b s))%nat.
Proof.
  intros Hok Hl Hq. unfold prune_level. rewrite Hl. apply level_count_zero in Hq as ->.
  rewrite levels_set_levels, decide_True by done.
  destruct (bt_split_Some _ _ _ Hok Hl) as (pre & post & Hm & _ & -> & _).
  rewrite Hm, !length_app. simpl. lia.
Qed.

Lemma side_queue_reindex b b' s :
  levels b' s = levels b s → index b' = index b → side_queue b' s = side_queue b s.
Proof.
  intros Hl Hi. unfold side_queue. rewrite Hl. apply list_bind_ext_in. intros e _.
  unfold level_orders, to_q. by rewrite Hi.
Qed.

Lemma prune_queue b s p s' :
  bt_ok (levels b s) → side_queue (prune_level b s p) s' = side_queue b s'.
Proof.
  intros Hok. unfold prune_level. destruct (level_at b s p) as [l|] eqn:Hl; [|done].
  destruct (pl_order_count l =? 0) eqn:Hc; [|done]. apply level_count_zero in Hc.
  destruct (decide (s = s')) as [<-|Hne].
  - destruct (best_first_split _ _ _ _ Hok Hl) as (A & B & He & Hr & _).
    unfold side_queue. rewrite levels_set_levels, decide_True, Hr, He, !bind_app by done. csimpl.
    unfold level_orders, to_q. rewrite index_set_levels. by rewrite Hc.
  - apply side_queue_reindex; [|apply index_set_levels].
    rewrite levels_set_levels. by rewrite decide_False.
Qed.

(** ** What the queues contain *)

Lemma elem_of_side_queue b s q :
  bt_ok (levels b s) →
  q ∈ side_queue b s ↔
    ∃ p l o, level_at b s p = Some l ∧ o ∈ level_queue l ∧ q = to_q b p o.
Proof.
  intros Hok. unfold side_queue. rewrite list_elem_of_bind. split.
  - intros ([p l] & Hq & Hin). apply best_first_level in Hin; [|done]. simpl in *.
    unfold level_orders in Hq. apply list_elem_of_fmap in Hq as (o & -> & Ho). eauto 10.
  - intros (p & l & o & Hl & Ho & ->). exists (p, l). split.
    + apply list_elem_of_fmap. eauto.
    + apply elem_of_best_first. by apply bt_get_Some_elem.
Qed.

(** The resting orders of the index and of the queues are the same. *)
Lemma side_queue_index h b s q :
  book_ok_ex h b → q ∈ side_queue b s →
  ∃ m, index b !! q_id q = Some m ∧ om_side m = s ∧ om_price m = q_price q ∧
    om_account_id m = q_account q ∧ qty_ok (q_qty q) ∧ order_id_ok (q_id q) ∧ price_ok (q_price q).
Proof.
  intros Hok (p & l & o & Hl & Ho & ->)%elem_of_side_queue; [|apply Hok].
  destruct (level_order_meta _ _ _ _ _ _ Hok Hl Ho) as (id & m & Hid & ? & ? & _ & Hm & ? & ?).
  exists m. unfold to_q. rewrite Hid. simpl. rewrite Hm. simpl. split_and!; try done.
  by destruct (ok_level _ _ Hok _ _ _ Hl).
Qed.

Lemma index_side_queue h b id m :
  book_ok_ex h b → index b !! id = Some m →
  ∃ q, q ∈ side_queue b (om_side m) ∧ q_id q = id ∧ q_price q = om_price m ∧
    q_account q = om_account_id m.
Proof.
  intros Hok Hm. destruct (ok_index _ _ Hok _ _ Hm) as (_ & _ & l & Hl & Hin).
  apply list_elem_of_fmap in Hin as (o & Hid & Ho). exists (to_q b (om_price m) o).
  rewrite elem_of_side_queue by apply Hok. unfold to_q. rewrite <-Hid. simpl. rewrite Hm.
  split_and!; try done. exists (om_price m), l, o. unfold to_q. rewrite <-Hid. simpl. by rewrite Hm.
Qed.

Lemma side_queue_pos h b s : book_ok_ex h b → Forall (λ q, 0 < q_qty q) (side_queue b s).
Proof.
  intros Hok. apply Forall_forall. intros q Hq.
  destruct (side_queue_index _ _ _ _ Hok Hq) as (_ & _ & _ & _ & _ & Hq' & _).
  apply qty_ok_pos in Hq'. lia.
Qed.

Lemma side_queue_ids_NoDup h b s : book_ok_ex h b → NoDup (q_id <$> side_queue b s).
Proof.
  intros Hok. unfold side_queue. rewrite fmap_bind_list. apply NoDup_bind.
  - intros [p1 l1] [p2 l2] id H1 H2 Hid1 Hid2. simpl in *.
    pose proof (best_first_level _ _ _ (ok_sorted _ _ Hok s) H1) as Hl1.
    pose proof (best_first_level _ _ _ (ok_sorted _ _ Hok s) H2) as Hl2. simpl in *.
    unfold level_orders in *. rewrite <-list_fmap_compose in Hid1, Hid2.
    apply list_elem_of_fmap in Hid1 as (o1 & -> & Ho1).
    apply list_elem_of_fmap in Hid2 as (o2 & Heq & Ho2). simpl in Heq.
    destruct (level_order_meta _ _ _ _ _ _ Hok Hl1 Ho1) as (i1 & m1 & E1 & _ & _ & _ & Hm1 & _ & <-).
    destruct (level_order_meta _ _ _ _ _ _ Hok Hl2 Ho2) as (i2 & m2 & E2 & _ & _ & _ & Hm2 & _ & <-).
    rewrite E1, E2 in Heq. simpl in Heq. congruence.
  - intros [p l] H. pose proof (best_first_level _ _ _ (ok_sorted _ _ Hok s) H) as Hl. simpl in *.
    unfold level_orders. rewrite <-list_fmap_compose.
    destruct (ok_level _ _ Hok _ _ _ Hl) as (_ & [Hnd _] & _ & Hall).
    apply (NoDup_fmap_1 Sequential). rewrite <-list_fmap_compose.
    erewrite list_fmap_ext; [exact Hnd|]. intros k o Ho%list_elem_of_lookup_2.
    rewrite Forall_forall in Hall. destruct (Hall _ Ho) as (i & _ & Hi & _). simpl. by rewrite Hi.
  - assert (Hnd : NoDup (levels b s)) by (eapply (NoDup_fmap_1 fst), bt_keys_NoDup, Hok).
    destruct s; simpl; [by rewrite reverse_Permutation|done].
Qed.

Lemma better_eq_trans s p1 p2 p3 : better_eq s p1 p2 → better_eq s p2 p3 → better_eq s p1 p3.
Proof. destruct s; simpl; lia. Qed.

Lemma better_eq_refl s p : better_eq s p p.
Proof. destruct s; simpl; lia. Qed.

Lemma better_eq_total s p1 p2 : better_eq s p1 p2 ∨ better_eq s p2 p1.
Proof. destruct s; simpl; lia. Qed.

Lemma best_first_sorted s (m : list (Z * L)) :
  bt_ok m → StronglySorted (λ e1 e2, ¬ better_eq s e2.1 e1.1) (best_first s m).
Proof.
  intros Hok. induction m as [|[k l] m IH]; [destruct s; constructor|].
  apply bt_ok_cons in Hok as [Hok Hall]. specialize (IH Hok). destruct s; simpl in *.
  - rewrite reverse_cons. apply StronglySorted_app_2; [|done|repeat constructor].
    intros e1 e2 He1 ->%list_elem_of_singleton. rewrite elem_of_reverse in He1.
    rewrite Forall_forall in Hall. specialize (Hall _ He1). simpl. lia.
  - constructor; [done|]. eapply Forall_impl; [exact Hall|]. simpl. intros; lia.
Qed.

(** The queue of a side is in price priority. *)
Lemma side_queue_sorted b s : bt_ok (levels b s) → queue_sorted s (side_queue b s).
Proof.
  intros Hok. apply (best_first_sorted s) in Hok. unfold queue_sorted, side_queue.
  induction Hok as [|[p l] es Hes IH Hall]; csimpl; [constructor|].
  apply StronglySorted_app_2; [|clear|done].
  - intros q1 q2 H1 H2. apply list_elem_of_fmap in H1 as (o1 & -> & _).
    apply list_elem_of_bind in H2 as ([p2 l2] & H2 & He). apply list_elem_of_fmap in H2 as (o2 & -> & _).
    rewrite Forall_forall in Hall. specialize (Hall _ He). simpl in *.
    destruct (better_eq_total s p p2); [done|tauto].
  - unfold level_orders. induction (level_queue l) as [|o os IH]; csimpl; constructor; [done|].
    apply Forall_fmap, Forall_forall. intros o' _. apply better_eq_refl.
Qed.

(** The best price of a side is the price at the head of its queue. *)
Lemma best_key_queue b s :
  book_ok b → best_key b s = q_price <$> head (side_queue b s).
Proof.
  intros Hok. destruct (best_key b s) as [p|] eqn:Hp.
  - destruct (best_key_level _ _ _ (ok_sorted _ _ Hok s) Hp) as (l & B & Hl & He).
    pose proof (ok_nonempty _ _ Hok _ _ _ Hl) as Hne. unfold side_queue. rewrite He. csimpl.
    unfold level_orders. destruct (level_queue l); [naive_solver|done].
  - apply best_key_None in Hp. unfold side_queue. rewrite Hp. by destruct s.
Qed.

End Primitives.
