(* ===== verification/BookMatch.v ===== *)
(** * BookMatch: the matching walk implements price-time priority

    [match_aggressive] refines [spec_match]: its fills, its self-trade
    cancellations, the taker's remainder and the queue it leaves are those of the
    abstract matching of the maker side's queue, it never touches the taker's own
    side, it keeps the book well formed and it terminates. *)

From S2P Require Import Prelude BTree Domain PriceLevel Book BookSpec BookInv.

Definition fill_view (f : Fill) : QFill :=
  mkQFill (f_maker_order_id f) (f_price f) (f_qty f) (f_maker_fully_filled f).

(** The record written for a maker dropped by self-trade prevention. *)
Definition stp_of (s : Side) (q : QOrder) : StpCancellation :=
  mkStp (q_id q) (q_account q) s (q_price q) (q_qty q).

(** The trade ids an id source hands out, in order. *)
Inductive trades {I} `{!IdGenerator I} : I → list TradeId → I → Prop :=
| trades_nil i : trades i [] i
| trades_snoc i ts j t k :
    trades i ts j → next_trade_id j = Ret (t, k) → trades i (ts ++ [t]) k.

Section Match.
Context {L : Type} `{!PriceLevelOps L} `{!PriceLevelLaws L}.
Context {I : Type} `{!IdGenerator I}.

(** [K ids n]: the source can hand out [n] more trade ids; when it cannot, the
    panic is accounted for by [P]. *)
Context (P : Prop) (K : I → nat → Prop).
Hypothesis next_trade_ok : ∀ ids n, K ids (S n) → wp P (next_trade_id ids) (λ r, K r.2 n).

Context (taker : AggressiveOrder) (b0 : Book L) (ids0 : I)
  (fills0 : list Fill) (stp0 : list StpCancellation).

Local Abbreviation opp := (Side_opposite (ao_side taker)).
Local Abbreviation smatch := (spec_match (ao_side taker) (ao_price taker) (ao_account_id taker)).

Definition fill_of_taker (f : Fill) : Prop :=
  f_taker_order_id f = ao_order_id taker ∧ f_maker_side f = opp.

Record walk_inv (h : option (Side * Price)) (w : Walk L I) : Prop := {
  wi_ok : book_ok_ex h (w_book w);
  wi_rem : 0 <= w_remaining w <= u64_max;
  wi_same : side_queue (w_book w) (ao_side taker) = side_queue b0 (ao_side taker);
  wi_fills : ∃ nf, w_fills w = fills0 ++ nf ∧ trades ids0 (f_trade_id <$> nf) (w_ids w) ∧
    Forall fill_of_taker nf ∧
    smatch (ao_qty taker) (side_queue b0 opp) =
      prepend_fills (fill_view <$> nf) (smatch (w_remaining w) (side_queue (w_book w) opp));
  wi_stp : w_stp w = stp0;
  wi_flag : w_stp_cancelled w = false;
  wi_cap : w_remaining w ≠ 0 → K (w_ids w) (length (side_queue (w_book w) opp));
  wi_seq : seq (w_book w) = seq b0;
  wi_index : index (w_book w) ⊆ index b0;
}.

(** What the finished walk leaves behind. *)
Record walk_done (w : Walk L I) : Prop := {
  wd_ok : book_ok (w_book w);
  wd_same : side_queue (w_book w) (ao_side taker) = side_queue b0 (ao_side taker);
  wd_fills : ∃ nf, w_fills w = fills0 ++ nf ∧ trades ids0 (f_trade_id <$> nf) (w_ids w) ∧
    Forall fill_of_taker nf ∧
    fill_view <$> nf = qm_fills (smatch (ao_qty taker) (side_queue b0 opp));
  wd_rem : w_remaining w = qm_remaining (smatch (ao_qty taker) (side_queue b0 opp));
  wd_rest : side_queue (w_book w) opp = qm_rest (smatch (ao_qty taker) (side_queue b0 opp));
  wd_stp : w_stp w = stp0 ++ option_list (stp_of opp <$> qm_stp (smatch (ao_qty taker) (side_queue b0 opp)));
  wd_flag : w_stp_cancelled w = bool_decide (is_Some (qm_stp (smatch (ao_qty taker) (side_queue b0 opp))));
  wd_seq : seq (w_book w) = seq b0;
  wd_index : index (w_book w) ⊆ index b0;
}.

(** A walk whose abstract matching has nothing left to do is finished. *)
Lemma walk_inv_done w :
  walk_inv None w →
  smatch (w_remaining w) (side_queue (w_book w) opp) =
    mkQMatch [] None (w_remaining w) (side_queue (w_book w) opp) →
  walk_done w.
Proof.
  intros Hi Hs. destruct (wi_fills _ _ Hi) as (nf & Hf & Ht & Hof & Heq). rewrite Hs in Heq.
  split; try apply Hi; rewrite ?Heq; simpl.
  - exists nf. rewrite app_nil_r. done.
  - done.
  - done.
  - rewrite app_nil_r. apply Hi.
  - apply Hi.
Qed.

Lemma other_side_ids h b id m :
  book_ok_ex h b → index b !! id = Some m → om_side m = opp →
  id ∉ q_id <$> side_queue b (ao_side taker).
Proof.
  intros Hok Hm Hs (q & -> & Hq)%list_elem_of_fmap.
  destruct (side_queue_index _ _ _ _ Hok Hq) as (m' & Hm' & Hs' & _).
  rewrite Hm in Hm'. simplify_eq. apply (Side_opposite_ne (ao_side taker)). congruence.
Qed.

(** ** The three ways a maker is consumed *)

(** What a round sees when the level still has a head: the maker [hd] is the head
    of the maker side's queue. *)
Record head_view (b : Book L) (p : Price) (hd : PlOrder) (id : OrderId) (m : OrderMeta)
    (rest : list QOrder) : Prop := {
  hv_id : pl_id hd = Sequential id;
  hv_ok : order_id_ok id;
  hv_qty : 0 < pl_quantity hd <= u64_max;
  hv_meta : index b !! id = Some m;
  hv_side : om_side m = opp;
  hv_price : om_price m = p;
  hv_queue : side_queue b opp = mkQ id (om_account_id m) p (pl_quantity hd) :: rest;
  hv_fresh : id ∉ q_id <$> rest;
}.

Lemma head_view_exists h b p l hd tl :
  book_ok_ex h b → best_key b opp = Some p → level_at b opp p = Some l →
  level_queue l = hd :: tl → ∃ id m rest, head_view b p hd id m rest.
Proof.
  intros Hok Hp Hl Hq.
  destruct (level_order_meta _ _ _ _ _ hd Hok Hl) as (id & m & Hid & ? & Hqty & _ & Hm & ? & ?);
    [rewrite Hq; set_solver|].
  destruct (side_queue_best _ _ _ _ (ok_sorted _ _ Hok opp) Hp Hl) as (rest & Hrest).
  unfold level_orders in Hrest. rewrite Hq in Hrest. csimpl in Hrest.
  assert (Hto : to_q b p hd = mkQ id (om_account_id m) p (pl_quantity hd)).
  { unfold to_q. rewrite Hid. simpl. by rewrite Hm. }
  rewrite Hto in Hrest. exists id, m, ((to_q b p <$> tl) ++ rest). split; try done.
  - by apply qty_ok_pos in Hqty.
  - pose proof (side_queue_ids_NoDup _ _ opp Hok) as Hnd. rewrite Hrest in Hnd.
    csimpl in Hnd. by apply NoDup_cons in Hnd as [? _].
Qed.

Lemma take_head h b p hd id m rest :
  book_ok_ex h b → (h = None ∨ h = Some (opp, p)) → head_view b p hd id m rest →
  let b' := take_out b opp p id in
  book_ok_ex (Some (opp, p)) b' ∧ side_queue b' opp = rest ∧
  side_queue b' (ao_side taker) = side_queue b (ao_side taker) ∧
  seq b' = seq b ∧ index b' ⊆ index b.
Proof.
  intros Hok Hh Hv b'. destruct Hv. unfold b'. split_and!.
  - by eapply take_out_ok.
  - erewrite take_out_queue by done. rewrite hv_queue0. by apply (spec_cancel_head (mkQ id _ _ _)).
  - erewrite take_out_queue by done. apply spec_cancel_notin. by eapply other_side_ids.
  - apply seq_take_out.
  - rewrite index_take_out. apply delete_subseteq.
Qed.

Lemma shrink_head h b p l tl hd id m rest n :
  book_ok_ex h b → level_at b opp p = Some l → level_queue l = hd :: tl →
  head_view b p hd id m rest → 0 < n <= pl_quantity hd →
  let b' := shrink b opp p id n in
  book_ok_ex h b' ∧ side_queue b' opp = mkQ id (om_account_id m) p n :: rest ∧
  side_queue b' (ao_side taker) = side_queue b (ao_side taker) ∧
  seq b' = seq b ∧ index b' = index b.
Proof.
  intros Hok Hl Hq Hv Hn b'. destruct Hv.
  assert (Hle : ∀ o, o ∈ level_queue l → pl_id o = Sequential id → n <= pl_quantity o).
  { intros o Ho Hid. assert (o = hd) as ->; [|lia].
    destruct (ok_level _ _ Hok _ _ _ Hl) as (_ & [Hnd _] & _).
    eapply (NoDup_fmap_inj_on pl_id); [exact Hnd|done|rewrite Hq; set_solver|congruence]. }
  unfold b'. split_and!.
  - eapply shrink_ok; [done..| |done]. lia.
  - erewrite shrink_queue; [|done..|lia|done|eauto]. rewrite hv_queue0.
    by apply (spec_set_qty_head (mkQ id _ _ _)).
  - erewrite shrink_queue; [|done..|lia|done|eauto]. apply spec_set_qty_notin.
    by eapply other_side_ids.
  - apply seq_update_level.
  - apply index_update_level.
Qed.
(** ** One round of the inner loop *)

Record level_inv (p : Price) (snap : list PlOrder) (n : nat) (st : Walk L I * nat) : Prop := {
  li_walk : walk_inv (Some (opp, p)) st.1;
  li_best : best_key (w_book st.1) opp = Some p;
  li_count : length (levels (w_book st.1) opp) = n;
  li_level : ∃ l, level_at (w_book st.1) opp p = Some l ∧
    (w_remaining st.1 ≠ 0 → level_queue l = drop st.2 snap);
}.

(** The level is finished: the taker is exhausted or the level is empty. *)
Record level_end (p : Price) (n : nat) (w : Walk L I) : Prop := {
  le_walk : walk_inv (Some (opp, p)) w;
  le_count : length (levels (w_book w) opp) = n;
  le_level : ∃ l, level_at (w_book w) opp p = Some l ∧
    (w_remaining w = 0 ∨ level_queue l = []);
}.

Definition level_measure (snap : list PlOrder) (st : Walk L I * nat) : nat :=
  (length snap - st.2) + (if w_remaining st.1 =? 0 then 0 else 1).

(** The level keeps its place in the index while its orders are consumed. *)
Lemma level_kept b p l u id :
  bt_ok (levels b opp) → level_at b opp p = Some l → best_key b opp = Some p →
  let b' := update_level b opp p u in
  (∀ b'', (b'' = b' ∨ b'' = drop_from_indices b' id) →
   best_key b'' opp = Some p ∧ length (levels b'' opp) = length (levels b opp) ∧
   level_at b'' opp p = Some (pl_update_order l u)).
Proof.
  intros Hok Hl Hb b' b'' Hb''.
  assert (Hlev : levels b'' opp = levels b' opp) by (destruct Hb'' as [->| ->]; [done|apply levels_drop]).
  assert (Hk : bt_keys (levels b'' opp) = bt_keys (levels b opp)).
  { rewrite Hlev. by apply keys_update. }
  split_and!.
  - by rewrite (best_key_keys b).
  - by rewrite <-(length_fmap fst), <-(length_fmap fst (levels b opp)); f_equal.
  - unfold level_at. rewrite Hlev. fold (level_at b' opp p). unfold b'.
    by rewrite level_at_update, decide_True, Hl by done.
Qed.

(** Self-trade prevention: the maker is dropped and the walk is over. *)
Lemma stp_step w p hd id m rest :
  walk_inv (Some (opp, p)) w → w_remaining w ≠ 0 →
  crosses (ao_side taker) (ao_price taker) p = true →
  head_view (w_book w) p hd id m rest → om_account_id m = ao_account_id taker →
  walk_done (mkWalk (prune_level (take_out (w_book w) opp p id) opp p) (w_ids w) (w_fills w)
    (w_stp w ++ [mkStp id (om_account_id m) (om_side m) p (pl_quantity hd)]) (w_remaining w) true).
Proof.
  intros Hw Hr Hc Hv Ha. pose proof (wi_ok _ _ Hw) as Hok.
  destruct (take_head _ _ _ _ _ _ _ Hok (or_intror eq_refl) Hv) as (Hok' & Hq & Hsame & Hseq & Hidx).
  destruct (wi_fills _ _ Hw) as (nf & Hf & Ht & Hof & Heq).
  rewrite (hv_queue _ _ _ _ _ _ Hv) in Heq. simpl in Heq.
  rewrite Hc, (proj2 (Z.eqb_neq _ _) Hr) in Heq. simpl in Heq.
  rewrite Ha, Z.eqb_refl in Heq.
  split; simpl; rewrite ?Heq; simpl.
  - by apply prune_ok.
  - rewrite prune_queue by apply Hok'. by rewrite Hsame, (wi_same _ _ Hw).
  - exists nf. rewrite app_nil_r. done.
  - done.
  - by rewrite prune_queue by apply Hok'.
  - rewrite (wi_stp _ _ Hw). unfold stp_of. simpl. by rewrite (hv_side _ _ _ _ _ _ Hv), Ha.
  - done.
  - rewrite seq_prune, Hseq. apply Hw.
  - rewrite index_prune. etrans; [done|apply Hw].
Qed.

(** The maker is consumed entirely. *)
Lemma full_step w p hd id m rest t ids' :
  walk_inv (Some (opp, p)) w → w_remaining w ≠ 0 →
  crosses (ao_side taker) (ao_price taker) p = true →
  head_view (w_book w) p hd id m rest → om_account_id m ≠ ao_account_id taker →
  pl_quantity hd <= w_remaining w →
  next_trade_id (w_ids w) = Ret (t, ids') → K ids' (length rest) →
  walk_inv (Some (opp, p))
    (mkWalk (take_out (w_book w) opp p id) ids'
       (w_fills w ++ [mkFill t id (ao_order_id taker) opp p (pl_quantity hd) true])
       (w_stp w) (w_remaining w - pl_quantity hd) (w_stp_cancelled w)).
Proof.
  intros Hw Hr Hc Hv Ha Hle Ht' HK. pose proof (wi_ok _ _ Hw) as Hok.
  destruct (take_head _ _ _ _ _ _ _ Hok (or_intror eq_refl) Hv) as (Hok' & Hq & Hsame & Hseq & Hidx).
  pose proof (hv_qty _ _ _ _ _ _ Hv) as Hqty. pose proof (wi_rem _ _ Hw) as Hrem.
  destruct (wi_fills _ _ Hw) as (nf & Hf & Ht & Hof & Heq).
  split; simpl; try apply Hw; try done; try lia.
  - by rewrite Hsame, (wi_same _ _ Hw).
  - exists (nf ++ [mkFill t id (ao_order_id taker) opp p (pl_quantity hd) true]).
    rewrite Hf, app_assoc, !fmap_app. split_and!; [done|by eapply trades_snoc| |].
    + apply Forall_app. split; [done|]. by repeat constructor.
    + rewrite Heq, (hv_queue _ _ _ _ _ _ Hv), Hq. simpl.
      rewrite Hc, (proj2 (Z.eqb_neq _ _) Hr), (proj2 (Z.eqb_neq _ _) Ha). simpl.
      rewrite (proj2 (Z.leb_le _ _) Hle). by rewrite prepend_fills_snoc.
  - intros _. by rewrite Hq.
  - rewrite Hseq. apply Hw.
  - etrans; [done|apply Hw].
Qed.

(** The taker is exhausted by a part of the maker. *)
Lemma partial_step w p l tl hd id m rest t ids' :
  walk_inv (Some (opp, p)) w → w_remaining w ≠ 0 →
  crosses (ao_side taker) (ao_price taker) p = true →
  level_at (w_book w) opp p = Some l → level_queue l = hd :: tl →
  head_view (w_book w) p hd id m rest → om_account_id m ≠ ao_account_id taker →
  w_remaining w < pl_quantity hd → next_trade_id (w_ids w) = Ret (t, ids') →
  walk_inv (Some (opp, p))
    (mkWalk (shrink (w_book w) opp p id (pl_quantity hd - w_remaining w)) ids'
       (w_fills w ++ [mkFill t id (ao_order_id taker) opp p (w_remaining w) false])
       (w_stp w) 0 (w_stp_cancelled w)).
Proof.
  intros Hw Hr Hc Hl Hlq Hv Ha Hlt Ht'. pose proof (wi_ok _ _ Hw) as Hok.
  pose proof (hv_qty _ _ _ _ _ _ Hv) as Hqty. pose proof (wi_rem _ _ Hw) as Hrem.
  destruct (shrink_head _ _ _ _ _ _ _ _ _ (pl_quantity hd - w_remaining w) Hok Hl Hlq Hv)
    as (Hok' & Hq & Hsame & Hseq & Hidx); [lia|].
  destruct (wi_fills _ _ Hw) as (nf & Hf & Ht & Hof & Heq).
  split; simpl; try apply Hw; try done; try (unfold u64_max; lia).
  - by rewrite Hsame, (wi_same _ _ Hw).
  - exists (nf ++ [mkFill t id (ao_order_id taker) opp p (w_remaining w) false]).
    rewrite Hf, app_assoc, !fmap_app. split_and!; [done|by eapply trades_snoc| |].
    + apply Forall_app. split; [done|]. by repeat constructor.
    + rewrite Heq, (hv_queue _ _ _ _ _ _ Hv), Hq, spec_match_zero. simpl.
      rewrite Hc, (proj2 (Z.eqb_neq _ _) Hr), (proj2 (Z.eqb_neq _ _) Ha). simpl.
      rewrite (proj2 (Z.leb_gt _ _)) by lia. unfold prepend_fills. simpl. by rewrite app_nil_r.
  - rewrite Hseq. apply Hw.
  - rewrite Hidx. apply Hw.
Qed.

(** The id source has a trade id for the maker at the head. *)
Lemma head_trade_id h w p hd id m rest :
  walk_inv h w → w_remaining w ≠ 0 → head_view (w_book w) p hd id m rest →
  wp P (next_trade_id (w_ids w))
    (λ r, next_trade_id (w_ids w) = Ret r ∧ K r.2 (length rest)).
Proof.
  intros Hw Hr Hv. pose proof (next_trade_ok (w_ids w) (length rest)) as Hnext.
  rewrite <-(length_cons (mkQ id (om_account_id m) p (pl_quantity hd))),
    <-(hv_queue _ _ _ _ _ _ Hv) in Hnext.
  specialize (Hnext (wi_cap _ _ Hw Hr)).
  destruct (next_trade_id (w_ids w)) as [[t ids']| |]; by simpl in *.
Qed.

Lemma full_round w i p snap n l hd id m rest t ids' :
  level_inv p snap n (w, i) → w_remaining w ≠ 0 →
  crosses (ao_side taker) (ao_price taker) p = true →
  level_at (w_book w) opp p = Some l → level_queue l = hd :: drop (S i) snap →
  (i < length snap)%nat →
  head_view (w_book w) p hd id m rest → om_account_id m ≠ ao_account_id taker →
  pl_quantity hd <= w_remaining w →
  next_trade_id (w_ids w) = Ret (t, ids') → K ids' (length rest) →
  let st' :=
    (mkWalk (take_out (w_book w) opp p id) ids'
       (w_fills w ++ [mkFill t id (ao_order_id taker) opp p (pl_quantity hd) true])
       (w_stp w) (w_remaining w - pl_quantity hd) (w_stp_cancelled w), S i) in
  level_inv p snap n st' ∧ (level_measure snap st' < level_measure snap (w, i))%nat.
Proof.
  intros [Hw Hb Hn _] Hr Hc Hl Hq Hlt Hv Ha Hle Ht HK. simpl in *. pose proof (wi_ok _ _ Hw) as Hok.
  destruct (level_kept _ _ _ (PlCancel (Sequential id)) id (ok_sorted _ _ Hok opp) Hl Hb
              (take_out (w_book w) opp p id)) as (Hb' & Hn' & Hl'); [by right|].
  split; [split; simpl|].
  - by eapply full_step.
  - done.
  - etrans; [apply Hn'|done].
  - eexists. split; [done|]. intros _.
    erewrite level_queue_update_ok by done. rewrite Hq, <-(hv_id _ _ _ _ _ _ Hv).
    apply apply_update_cancel_head.
    destruct (ok_level _ _ Hok _ _ _ Hl) as (_ & [Hnd _] & _). rewrite Hq in Hnd.
    by apply NoDup_cons in Hnd as [? _].
  - unfold level_measure. simpl. rewrite (proj2 (Z.eqb_neq _ _) Hr). destruct (_ =? 0); lia.
Qed.

Lemma partial_round w i p snap n l tl hd id m rest t ids' :
  level_inv p snap n (w, i) → w_remaining w ≠ 0 →
  crosses (ao_side taker) (ao_price taker) p = true →
  level_at (w_book w) opp p = Some l → level_queue l = hd :: tl →
  head_view (w_book w) p hd id m rest → om_account_id m ≠ ao_account_id taker →
  w_remaining w < pl_quantity hd → next_trade_id (w_ids w) = Ret (t, ids') →
  let st' :=
    (mkWalk (shrink (w_book w) opp p id (pl_quantity hd - w_remaining w)) ids'
       (w_fills w ++ [mkFill t id (ao_order_id taker) opp p (w_remaining w) false])
       (w_stp w) 0 (w_stp_cancelled w), i) in
  level_inv p snap n st' ∧ (level_measure snap st' < level_measure snap (w, i))%nat.
Proof.
  intros [Hw Hb Hn _] Hr Hc Hl Hq Hv Ha Hgt Ht. simpl in *. pose proof (wi_ok _ _ Hw) as Hok.
  destruct (level_kept _ _ _ (PlUpdateQuantity (Sequential id) (pl_quantity hd - w_remaining w)) id
              (ok_sorted _ _ Hok opp) Hl Hb
              (shrink (w_book w) opp p id (pl_quantity hd - w_remaining w))) as (Hb' & Hn' & Hl');
    [by left|].
  split; [split; simpl|].
  - by eapply partial_step.
  - done.
  - etrans; [apply Hn'|done].
  - eexists. split; [done|]. by intros [].
  - unfold level_measure. simpl. rewrite (proj2 (Z.eqb_neq _ _) Hr). lia.
Qed.

Lemma level_round_ok p snap n st :
  crosses (ao_side taker) (ao_price taker) p = true →
  level_inv p snap n st →
  wp P (level_round taker p snap st)
    (λ r, match r with
          | inl st' => level_inv p snap n st' ∧ (level_measure snap st' < level_measure snap st)%nat
          | inr (BreakLevel w) => level_end p n w
          | inr (BreakWalk w) => walk_done w
          end).
Proof.
  intros Hc Hi. destruct st as [w i]. unfold level_round.
  pose proof Hi as [Hw Hb Hn (l & Hl & Hq)]. simpl in *.
  destruct (Z.eqb_spec (w_remaining w) 0) as [Hr|Hr]; simpl.
  { split; eauto. }
  specialize (Hq Hr). destruct (snap !! i) as [hd|] eqn:Hhd; simpl.
  2: { split; [done..|]. exists l. split; [done|]. right. rewrite Hq.
       apply drop_ge. by apply lookup_ge_None. }
  rewrite (drop_S _ _ _ Hhd) in Hq. pose proof (lookup_lt_Some _ _ _ Hhd) as Hlt.
  pose proof (wi_ok _ _ Hw) as Hok. pose proof (wi_rem _ _ Hw) as Hrem.
  destruct (head_view_exists _ _ _ _ _ _ Hok Hb Hl Hq) as (id & m & rest & Hv).
  pose proof (hv_qty _ _ _ _ _ _ Hv) as Hqty.
  rewrite (hv_id _ _ _ _ _ _ Hv). simpl. rewrite (OrderId_new_ok id) by apply Hv. simpl.
  rewrite (hv_meta _ _ _ _ _ _ Hv). rewrite Qty_new_pos by lia. simpl.
  destruct (Z.eqb_spec (om_account_id m) (ao_account_id taker)) as [Ha|Ha]; simpl.
  { by apply (stp_step _ _ _ _ _ rest). }
  rewrite (proj2 (Z.eqb_neq (pl_quantity hd) 0)) by lia.
  rewrite Qty_new_pos by lia. rewrite !u64_sub_exact by lia.
  destruct (Z.leb_spec (pl_quantity hd) (w_remaining w)) as [Hle|Hgt].
  - rewrite Z.min_r, Z.sub_diag by lia. simpl. apply wp_bind.
    eapply wp_conseq; [by eapply head_trade_id|]. intros [t ids'] [Ht HK].
    by eapply full_round.
  - rewrite Z.min_l, Z.sub_diag, (proj2 (Z.eqb_neq _ 0)) by lia. simpl. apply wp_bind.
    eapply wp_conseq; [by eapply head_trade_id|]. intros [t ids'] [Ht _].
    by eapply partial_round.
Qed.

(** ** One level, then the whole walk *)

Lemma walk_inv_hole h w : walk_inv None w → walk_inv h w.
Proof. intros []. split; try done. by apply book_ok_weaken. Qed.

Lemma level_loop_ok p l snap w :
  crosses (ao_side taker) (ao_price taker) p = true →
  walk_inv None w → best_key (w_book w) opp = Some p → level_at (w_book w) opp p = Some l →
  pl_snapshot_orders l = Some snap →
  wp P (loop (length snap + 2) (level_round taker p snap) (w, O))
    (λ r, match r with
          | BreakLevel w' => level_end p (length (levels (w_book w) opp)) w'
          | BreakWalk w' => walk_done w'
          end).
Proof.
  intros Hc Hw Hb Hl Hs.
  apply (wp_loop P (level_inv p snap (length (levels (w_book w) opp))) (level_measure snap)).
  - intros st Hst. eapply wp_conseq; [by apply level_round_ok|]. by intros [?|[]].
  - split; simpl; [by apply walk_inv_hole|done|done|]. exists l. split; [done|]. intros _.
    rewrite drop_0. symmetry. eapply snapshot_is_queue; [|done].
    by destruct (ok_level _ _ (wi_ok _ _ Hw) _ _ _ Hl) as (_ & ? & _).
  - unfold level_measure. simpl. destruct (_ =? 0); lia.
Qed.

Definition walk_measure (w : Walk L I) : nat :=
  length (levels (w_book w) opp) + (if w_remaining w =? 0 then 0 else 1).

Lemma level_end_prune p n w :
  level_end p n w → (0 < n)%nat →
  let w' := mkWalk (prune_level (w_book w) opp p) (w_ids w) (w_fills w) (w_stp w)
              (w_remaining w) (w_stp_cancelled w) in
  walk_inv None w' ∧ (walk_measure w' < n + 1)%nat.
Proof.
  intros [Hw Hn (l & Hl & Hend)] Hpos w'. destruct Hw as [Hok Hrem Hsame Hf Hstp Hflag Hcap Hseq Hidx].
  pose proof (ok_sorted _ _ Hok opp) as Hs. split.
  - split; unfold w'; simpl; rewrite ?prune_queue, ?seq_prune, ?index_prune by done; try done.
    by apply prune_ok.
  - unfold walk_measure, w'. simpl. rewrite <-Hn in *. destruct Hend as [->|Hnil].
    + simpl. pose proof (length_levels_prune (w_book w) opp p). lia.
    + pose proof (length_levels_prune_empty _ _ _ _ Hs Hl Hnil). destruct (_ =? 0); lia.
Qed.

Lemma walk_round_ok `{!SnapshotSucceeds L} w :
  walk_inv None w →
  wp P (walk_round taker w)
    (λ r, match r with
          | inl w' => walk_inv None w' ∧ (walk_measure w' < walk_measure w)%nat
          | inr w' => walk_done w'
          end).
Proof.
  intros Hw. pose proof (wi_ok _ _ Hw) as Hok. pose proof (wi_rem _ _ Hw) as Hrem.
  unfold walk_round. destruct (Z.ltb_spec 0 (w_remaining w)) as [Hr|Hr]; simpl.
  2: { apply walk_inv_done; [done|]. replace (w_remaining w) with 0 by lia. apply spec_match_zero. }
  assert (Hbest : match ao_side taker with
                  | Bid => bt_first_key (asks (w_book w)) | Ask => bt_last_key (bids (w_book w))
                  end = best_key (w_book w) opp) by by destruct (ao_side taker).
  rewrite Hbest. clear Hbest. pose proof (best_key_queue _ opp Hok) as Hhd.
  destruct (best_key (w_book w) opp) as [p|] eqn:Hb.
  2: { apply walk_inv_done; [done|]. apply spec_match_no_cross.
       destruct (side_queue (w_book w) opp); done. }
  fold (crosses (ao_side taker) (ao_price taker) p).
  destruct (crosses (ao_side taker) (ao_price taker) p) eqn:Hc; simpl.
  2: { apply walk_inv_done; [done|]. apply spec_match_no_cross.
       destruct (side_queue (w_book w) opp); simplify_eq/=; done. }
  destruct (best_key_level _ _ _ (ok_sorted _ _ Hok opp) Hb) as (l & B & Hl & He). rewrite Hl.
  destruct (snapshot_succeeds l) as [snap Hs]. rewrite Hs. apply wp_bind.
  eapply wp_conseq; [by eapply level_loop_ok|]. intros [w'|w'] Hend; simpl; [|done].
  assert (Hpos : (0 < length (levels (w_book w) opp))%nat).
  { destruct (levels (w_book w) opp) eqn:Hlev; simpl; [|lia]. unfold level_at in Hl. by rewrite Hlev in Hl. }
  destruct (level_end_prune _ _ _ Hend Hpos) as [Hinv Hm]. split; [done|].
  unfold walk_measure at 2. rewrite (proj2 (Z.eqb_neq _ _)) by lia. done.
Qed.

Lemma walk_ok `{!SnapshotSucceeds L} :
  book_ok b0 → qty_ok (ao_qty taker) → K ids0 (length (side_queue b0 opp)) →
  wp P (loop (length (levels b0 opp) + 2) (walk_round taker)
          (mkWalk b0 ids0 fills0 stp0 (ao_qty taker) false)) walk_done.
Proof.
  intros Hok Hq HK. apply qty_ok_pos in Hq.
  apply (wp_loop P (walk_inv None) walk_measure); [apply walk_round_ok| |].
  - split; simpl; try done; [lia|]. exists []. rewrite app_nil_r. split_and!; [done|constructor|done|].
    unfold prepend_fills. simpl. by destruct (smatch _ _).
  - unfold walk_measure. simpl. destruct (_ =? 0); lia.
Qed.

End Match.

(** ** [match_aggressive] *)

Section MatchAggressive.
Context {L : Type} `{!PriceLevelOps L} `{!PriceLevelLaws L} `{!SnapshotSucceeds L}.
Context {I : Type} `{!IdGenerator I}.
Context (P : Prop) (K : I → nat → Prop).
Hypothesis next_trade_ok : ∀ ids n, K ids (S n) → wp P (next_trade_id ids) (λ r, K r.2 n).
Implicit Types (b : Book L) (taker : AggressiveOrder).

(** The post-only gate: a post-only order whose limit reaches the other side. *)
Definition post_only_blocked b taker : bool :=
  bool_decide (ao_tif taker = PostOnly) && would_cross b (ao_side taker) (ao_price taker).

(** What matching [taker] against [b] has to do. *)
Definition aggressive_spec b taker : QMatch :=
  let queue := side_queue b (Side_opposite (ao_side taker)) in
  if post_only_blocked b taker then mkQMatch [] None (ao_qty taker) queue
  else spec_match (ao_side taker) (ao_price taker) (ao_account_id taker) (ao_qty taker) queue.

Record match_post b taker (ids : I) fills stp (m : QMatch) (b' : Book L) (ids' : I)
    fills' stp' (res : MatchResult) : Prop := {
  mp_ok : book_ok b';
  mp_same : side_queue b' (ao_side taker) = side_queue b (ao_side taker);
  mp_rest : side_queue b' (Side_opposite (ao_side taker)) = qm_rest m;
  mp_fills : ∃ nf, fills' = fills ++ nf ∧ trades ids (f_trade_id <$> nf) ids' ∧
    Forall (fill_of_taker taker) nf ∧ fill_view <$> nf = qm_fills m;
  mp_stp : stp' = stp ++ option_list (stp_of (Side_opposite (ao_side taker)) <$> qm_stp m);
  mp_count : mr_fills_count res = Z.of_nat (length (qm_fills m));
  mp_stp_count : mr_stp_cancellations res = Z.of_nat (length (option_list (qm_stp m)));
  mp_remaining : mr_taker_remaining res = if qm_remaining m =? 0 then None else Some (qm_remaining m);
  mp_flag : mr_taker_stp_cancelled res = bool_decide (is_Some (qm_stp m));
  mp_post_only : mr_taker_post_only_rejected res = post_only_blocked b taker;
  mp_seq : seq b' = seq b;
  mp_index : index b' ⊆ index b;
}.

Lemma would_cross_queue b s lim :
  book_ok b →
  would_cross b s lim =
    from_option (λ q, crosses s lim (q_price q)) false (head (side_queue b (Side_opposite s))).
Proof.
  intros Hok. pose proof (best_key_queue b (Side_opposite s) Hok) as Hb. unfold would_cross, crosses.
  destruct s; simpl in *; rewrite Hb; destruct lim, (side_queue b _); done.
Qed.

Lemma aggressive_spec_blocked b taker :
  post_only_blocked b taker = true →
  aggressive_spec b taker =
    mkQMatch [] None (ao_qty taker) (side_queue b (Side_opposite (ao_side taker))).
Proof. unfold aggressive_spec. by intros ->. Qed.

Lemma aggressive_remaining b taker :
  book_ok b → qty_ok (ao_qty taker) → 0 <= qm_remaining (aggressive_spec b taker) <= ao_qty taker.
Proof.
  intros Hok Hq. apply qty_ok_pos in Hq. unfold aggressive_spec.
  destruct (post_only_blocked b taker); simpl; [lia|].
  pose proof (side_queue_pos _ b (Side_opposite (ao_side taker)) Hok) as Hpos.
  pose proof (spec_match_fills_pos (ao_side taker) (ao_price taker) (ao_account_id taker)
    (ao_qty taker) _ ltac:(lia) Hpos) as Hf.
  destruct (spec_match_conserves (ao_side taker) (ao_price taker) (ao_account_id taker)
    (ao_qty taker) _ _ ltac:(lia) Hpos eq_refl) as (Hsum & Hrem & _).
  apply fills_qty_nonneg in Hf. lia.
Qed.

Lemma aggressive_remaining_ok b taker n :
  book_ok b → qty_ok (ao_qty taker) →
  (if qm_remaining (aggressive_spec b taker) =? 0 then None
   else Some (qm_remaining (aggressive_spec b taker))) = Some n → qty_ok n.
Proof.
  intros Hok Hq. pose proof (aggressive_remaining b taker Hok Hq) as Hrem. apply qty_ok_pos in Hq.
  destruct (Z.eqb_spec (qm_remaining (aggressive_spec b taker)) 0); [done|].
  intros [= <-]. apply qty_ok_pos. lia.
Qed.

Lemma match_aggressive_ok b taker ids fills stp :
  book_ok b → qty_ok (ao_qty taker) →
  K ids (length (side_queue b (Side_opposite (ao_side taker)))) →
  wp P (match_aggressive b taker ids fills stp)
    (λ '(b', ids', fills', stp', res),
       match_post b taker ids fills stp (aggressive_spec b taker) b' ids' fills' stp' res ∧
       (post_only_blocked b taker = true → b' = b ∧ ids' = ids ∧ fills' = fills ∧ stp' = stp)).
Proof.
  intros Hok Hq HK. unfold match_aggressive. fold (post_only_blocked b taker).
  assert (Hpos : 0 < ao_qty taker) by (apply qty_ok_pos in Hq; lia).
  destruct (post_only_blocked b taker) eqn:Hg; simpl.
  - split; [|done]. rewrite aggressive_spec_blocked by done.
    split; simpl; rewrite ?app_nil_r; try done.
    + exists []. rewrite app_nil_r. split_and!; [done|constructor|done..].
    + by rewrite (proj2 (Z.eqb_neq _ _)) by lia.
  - apply wp_bind. eapply wp_conseq; [by eapply walk_ok|]. intros w Hw. simpl. split; [|done].
    unfold aggressive_spec. rewrite Hg. destruct (wd_fills _ _ _ _ _ _ Hw) as (nf & Hf & Ht & Hof & Hv).
    pose proof (spec_match_conserves (ao_side taker) (ao_price taker) (ao_account_id taker)
      (ao_qty taker) _ _ ltac:(lia) (side_queue_pos _ b (Side_opposite (ao_side taker)) Hok) eq_refl)
      as (_ & Hrem & _).
    split; simpl; try apply Hw; try done.
    + rewrite Hf, <-Hv, length_app, length_fmap. lia.
    + rewrite (wd_stp _ _ _ _ _ _ Hw), length_app. destruct (qm_stp _); simpl; lia.
    + rewrite (wd_rem _ _ _ _ _ _ Hw). destruct (Z.eqb_spec (qm_remaining (spec_match (ao_side taker)
        (ao_price taker) (ao_account_id taker) (ao_qty taker)
        (side_queue b (Side_opposite (ao_side taker))))) 0) as [->|]; [done|].
      by rewrite Qty_new_pos by lia.
Qed.

End MatchAggressive.
