(* ===== verification/BookOps.v ===== *)
(** * BookOps: resting, cancelling, replacing and mass-cancelling

    What each remaining operation of the book does to the representation
    invariant and to the two queues, on every branch. *)

From S2P Require Import Prelude BTree Domain PriceLevel Book BookSpec BookInv BookMatch.

(** A resting order as its constructors leave it. *)
Definition resting_ok (o : RestingOrder) : Prop :=
  order_id_ok (ro_order_id o) ∧ account_id_ok (ro_account_id o) ∧ price_ok (ro_price o) ∧
  qty_ok (ro_qty o) ∧ ro_tif o ≠ Ioc.

Definition resting_meta (o : RestingOrder) : OrderMeta :=
  mkMeta (ro_side o) (ro_price o) (ro_account_id o) (ro_tif o).

Definition resting_q (o : RestingOrder) : QOrder :=
  mkQ (ro_order_id o) (ro_account_id o) (ro_price o) (ro_qty o).

Lemma spec_insert_split s q A B :
  Forall (λ x, better_eq s (q_price x) (q_price q)) A →
  Forall (λ x, ¬ better_eq s (q_price x) (q_price q)) B →
  spec_insert s q (A ++ B) = A ++ q :: B.
Proof.
  induction 1 as [|x A Hx HA IH]; intros HB; simpl.
  - destruct HB as [|x B Hx HB]; simpl; [done|]. by rewrite decide_False.
  - rewrite decide_True by done. by rewrite IH.
Qed.

Lemma spec_insert_perm s q queue : spec_insert s q queue ≡ₚ q :: queue.
Proof.
  induction queue as [|h queue IH]; simpl; [done|]. case_decide; [|done].
  rewrite IH. constructor.
Qed.

Section Add.
Context {L : Type} `{!PriceLevelOps L} `{!PriceLevelLaws L}.
Implicit Types (b : Book L) (s : Side) (p : Price) (l : L) (id : OrderId) (ord : RestingOrder).

(** The level [add_resting] adds to, and the order it adds. *)
Definition target_level b ord : L :=
  default (pl_new (i64_as_u128 (ro_price ord))) (level_at b (ro_side ord) (ro_price ord)).

Definition pl_of b ord : PlOrder :=
  mkPlOrder (Sequential (ro_order_id ord)) (i64_as_u128 (ro_price ord)) (ro_qty ord)
    (domain_to_pl_side (ro_side ord)) (seq b + 1).

(** The book with [ord] resting in level [l']. *)
Definition rested b ord l' : Book L :=
  let b' := set_levels b (ro_side ord) (bt_insert (levels b (ro_side ord)) (ro_price ord) l') in
  mkBook (bids b') (asks b') (<[ro_order_id ord := resting_meta ord]> (index b))
    (account_insert (by_account b) (ro_account_id ord) (ro_order_id ord)) (seq b + 1).

Lemma levels_rested b ord l' s :
  levels (rested b ord l') s =
    if decide (ro_side ord = s) then bt_insert (levels b s) (ro_price ord) l' else levels b s.
Proof. unfold rested. by destruct (ro_side ord), s. Qed.

Lemma level_at_rested b ord l' s p :
  level_at (rested b ord l') s p =
    if decide (ro_side ord = s ∧ p = ro_price ord) then Some l' else level_at b s p.
Proof.
  unfold level_at. rewrite levels_rested. destruct (decide (ro_side ord = s)).
  - rewrite bt_get_insert. destruct (Z.eqb_spec p (ro_price ord)).
    + by rewrite decide_True.
    + by rewrite decide_False by naive_solver.
  - by rewrite decide_False by naive_solver.
Qed.

(** [add_resting] past its two guards: the level decides. *)
Lemma add_resting_eq b ord :
  book_ok b → index b !! ro_order_id ord = None → seq b < u64_max →
  add_resting b ord =
    match pl_add_order (target_level b ord) (pl_of b ord) with
    | Ok l' => (rested b ord l', Ok tt)
    | Err PlDuplicateOrderId => (b, Err DuplicateOrderId)
    | Err PlOtherError => (b, Err LevelRejected)
    end.
Proof.
  intros Hok Hid Hseq. pose proof (ok_seq _ _ Hok) as Hseq0. unfold is_u64 in Hseq0.
  unfold add_resting, checked_add. rewrite Hid, decide_True by lia.
  assert (Hlev : ∀ s n, levels (set_seq b n) s = levels b s) by (by intros []).
  rewrite !Hlev. unfold target_level, level_at, pl_of.
  pose proof (ok_sorted _ _ Hok (ro_side ord)) as Hs.
  destruct (bt_get (levels b (ro_side ord)) (ro_price ord)) as [l|] eqn:Hl; simpl.
  - destruct (pl_add_order l _) as [l'|e].
    + unfold rested, resting_meta. by destruct (ro_side ord).
    + assert (Hc : pl_order_count l =? 0 = false).
      { destruct (pl_order_count l =? 0) eqn:Hc; [|done]. apply level_count_zero in Hc.
        by destruct (ok_nonempty _ _ Hok _ _ _ Hl). }
      rewrite Hc, u64_sub_exact by lia. rewrite Z.add_simpl_r.
      destruct b, (ro_side ord), e; done.
  - destruct (pl_add_order _ _) as [l'|e].
    + rewrite bt_insert_twice by done. unfold rested, resting_meta. by destruct (ro_side ord).
    + rewrite (proj2 (level_count_zero _)) by apply level_queue_new.
      rewrite bt_insert_remove_fresh by done. rewrite u64_sub_exact by lia. rewrite Z.add_simpl_r.
      destruct b, (ro_side ord), e; done.
Qed.

Lemma target_level_queue b ord :
  book_ok b →
  unique_orders (level_queue (target_level b ord)) ∧
  Forall (order_ok b (ro_side ord) (ro_price ord)) (level_queue (target_level b ord)).
Proof.
  intros Hok. unfold target_level. destruct (level_at b _ _) as [l|] eqn:Hl; simpl.
  - by destruct (ok_level _ _ Hok _ _ _ Hl) as (_ & ? & _ & ?).
  - rewrite level_queue_new. split; [split|]; constructor.
Qed.

Lemma target_level_add b ord l' :
  book_ok b → pl_add_order (target_level b ord) (pl_of b ord) = Ok l' →
  level_queue l' = level_queue (target_level b ord) ++ [pl_of b ord] ∧
  pl_id (pl_of b ord) ∉ pl_id <$> level_queue (target_level b ord) ∧
  sum_qty (level_queue (target_level b ord)) + ro_qty ord <= u64_max.
Proof.
  intros Hok Hadd. destruct (target_level_queue b ord Hok) as [Hu Hall].
  apply (level_queue_add _ (pl_of b ord)); [done..|]. eapply Forall_impl; [exact Hall|].
  intros o (_ & _ & _ & _ & _ & ? & _). simpl. lia.
Qed.

Section Rested.
Context (b : Book L) (ord : RestingOrder) (l' : L).
Hypotheses (Hok : book_ok b) (Hord : resting_ok ord) (Hfresh : index b !! ro_order_id ord = None)
  (Hseq : seq b < u64_max) (Hadd : pl_add_order (target_level b ord) (pl_of b ord) = Ok l').

Lemma rested_order_ok s p o : order_ok b s p o → order_ok (rested b ord l') s p o.
Proof.
  intros Ho. eapply order_ok_mono; [done|simpl; lia|]. intros i Hi. simpl.
  apply lookup_insert_ne. intros <-. destruct Ho as (j & m & Hj & _ & _ & _ & Hm & _).
  rewrite Hi in Hj. simplify_eq.
Qed.

Lemma rested_new_ok : order_ok (rested b ord l') (ro_side ord) (ro_price ord) (pl_of b ord).
Proof.
  destruct Hord as (? & ? & ? & ? & ?). exists (ro_order_id ord), (resting_meta ord). simpl.
  rewrite lookup_insert_eq. split_and!; try done. 
Qed.

Lemma rested_level_ok : level_ok (rested b ord l') (ro_side ord) (ro_price ord) l'.
Proof.
  destruct Hord as (? & ? & Hp & ? & ?).
  destruct (target_level_add b ord l' Hok Hadd) as (Hq & Hid & Hsum).
  destruct (target_level_queue b ord Hok) as [[Hi Ht] Hall]. split_and!; [done|..]; rewrite Hq.
  - split; rewrite fmap_app; apply NoDup_app; (split_and!; [done| |apply NoDup_singleton]).
    + intros i Hin ->%list_elem_of_singleton. done.
    + intros t (o & -> & Ho)%list_elem_of_fmap Heq%list_elem_of_singleton.
      rewrite Forall_forall in Hall. destruct (Hall _ Ho) as (_ & _ & _ & _ & _ & Hle & _).
      simpl in Heq. lia.
  - rewrite sum_qty_app. unfold sum_qty at 2. simpl. lia.
  - apply Forall_app. split; [|repeat constructor; apply rested_new_ok].
    eapply Forall_impl; [exact Hall|]. apply rested_order_ok.
Qed.

Lemma rested_ok : book_ok (rested b ord l').
Proof.
  pose proof (ok_seq _ _ Hok) as Hs. unfold is_u64 in Hs. destruct Hord as (? & ? & ? & ? & ?). split.
  - intros s. rewrite levels_rested. case_decide; [|apply Hok]. apply bt_insert_ok, Hok.
  - intros s p l. rewrite level_at_rested. case_decide as Hd.
    + intros [= <-]. destruct Hd as [<- ->]. apply rested_level_ok.
    + intros Hl. destruct (ok_level _ _ Hok _ _ _ Hl) as (? & ? & ? & Hall). split_and!; [done..|].
      eapply Forall_impl; [exact Hall|]. apply rested_order_ok.
  - intros s p l. rewrite level_at_rested. case_decide; [|by apply Hok]. intros [= <-] _.
    destruct (target_level_add b ord l' Hok Hadd) as (-> & _). by destruct (level_queue _).
  - intros i m Hi. simpl in Hi. apply lookup_insert_Some in Hi as [[<- <-]|[Hne Hm]]; simpl.
    + split_and!; [done..|]. exists l'. rewrite level_at_rested, decide_True by done. split; [done|].
      destruct (target_level_add b ord l' Hok Hadd) as (-> & _). rewrite fmap_app. set_solver.
    + destruct (ok_index _ _ Hok _ _ Hm) as (? & ? & l & Hl & Hin). split_and!; [done..|].
      rewrite level_at_rested. case_decide as Hd; [|eauto]. exists l'. split; [done|].
      destruct (target_level_add b ord l' Hok Hadd) as (-> & _). unfold target_level.
      destruct Hd as [-> <-]. rewrite Hl. simpl. rewrite fmap_app. set_solver.
  - simpl. apply (accounts_ok_insert _ _ _ (resting_meta ord)); [apply Hok|done].
  - unfold is_u64. simpl. lia.
Qed.

Lemma rested_level_orders s p l :
  Forall (order_ok b s p) (level_queue l) → level_orders (rested b ord l') p l = level_orders b p l.
Proof.
  intros Hall. apply list_fmap_ext. intros k o Ho%list_elem_of_lookup_2. apply to_q_ext. simpl.
  apply lookup_insert_ne. intros Heq. rewrite Forall_forall in Hall.
  destruct (Hall _ Ho) as (j & m & Hj & _ & _ & _ & Hm & _). rewrite Hj in Heq. simpl in Heq. congruence.
Qed.

Lemma rested_bind s es :
  (∀ e, e ∈ es → level_at b s e.1 = Some e.2) →
  (es ≫= λ e, level_orders (rested b ord l') e.1 e.2) = (es ≫= λ e, level_orders b e.1 e.2).
Proof.
  intros Hes. apply list_bind_ext_in. intros e He. apply (rested_level_orders s).
  by destruct (ok_level _ _ Hok _ _ _ (Hes _ He)) as (_ & _ & _ & ?).
Qed.

Lemma rested_queue s :
  side_queue (rested b ord l') s =
    if decide (ro_side ord = s) then spec_insert s (resting_q ord) (side_queue b s)
    else side_queue b s.
Proof.
  unfold side_queue at 1. rewrite levels_rested. pose proof (ok_sorted _ _ Hok s) as Hs.
  destruct (decide (ro_side ord = s)) as [Heq|Hne].
  2: { apply (rested_bind s). intros e. by apply best_first_level. }
  destruct (best_first_split_at b s (ro_price ord) Hs) as (A & B & He & _ & Hins & HA & HB).
  assert (Hlev : ∀ e, e ∈ A ∨ e ∈ B → level_at b s e.1 = Some e.2).
  { intros e Hin. apply best_first_level; [done|]. rewrite He. set_solver. }
  rewrite Hins, bind_app. csimpl. rewrite !(rested_bind s) by auto.
  destruct (target_level_add b ord l' Hok Hadd) as (Hq & _).
  destruct (target_level_queue b ord Hok) as [_ Hall].
  assert (Ho : level_orders (rested b ord l') (ro_price ord) l' =
               level_orders b (ro_price ord) (target_level b ord) ++ [resting_q ord]).
  { unfold level_orders at 1. rewrite Hq, fmap_app. f_equal; [by apply (rested_level_orders (ro_side ord))|].
    unfold to_q, resting_q. simpl. by rewrite lookup_insert_eq. }
  assert (Ht : level_orders b (ro_price ord) (target_level b ord) =
    from_option (λ l, [(ro_price ord, l)]) [] (level_at b s (ro_price ord))
      ≫= λ e, level_orders b e.1 e.2).
  { unfold target_level. rewrite Heq. destruct (level_at b s _) as [l|]; csimpl;
      [by rewrite app_nil_r|]. unfold level_orders. by rewrite level_queue_new. }
  unfold side_queue. rewrite Ho, Ht, He, !bind_app, <-!app_assoc, (app_assoc (A ≫= _)), (app_assoc (A ≫= _)).
  symmetry. apply spec_insert_split.
  - apply Forall_app. split; apply Forall_forall; intros q (e & Hq' & He')%list_elem_of_bind.
    + rewrite Forall_forall in HA. apply HA in He'. apply list_elem_of_fmap in Hq' as (o & -> & _).
      simpl. destruct (better_eq_total s e.1 (ro_price ord)); [done|tauto].
    + destruct (level_at b s _); [|set_solver]. apply list_elem_of_singleton in He' as ->.
      apply list_elem_of_fmap in Hq' as (o & -> & _). apply better_eq_refl.
  - apply Forall_forall; intros q (e & Hq' & He')%list_elem_of_bind. rewrite Forall_forall in HB.
    apply HB in He'. apply list_elem_of_fmap in Hq' as (o & -> & _). done.
Qed.

End Rested.

(** What [add_resting] does. *)
Record add_post b ord b' : Prop := {
  ap_ok : book_ok b';
  ap_fresh : index b !! ro_order_id ord = None;
  ap_queue : side_queue b' (ro_side ord) =
    spec_insert (ro_side ord) (resting_q ord) (side_queue b (ro_side ord));
  ap_same : side_queue b' (Side_opposite (ro_side ord)) = side_queue b (Side_opposite (ro_side ord));
  ap_index : index b' = <[ro_order_id ord := resting_meta ord]> (index b);
  ap_seq : seq b' = seq b + 1;
}.

(** Why it refuses: each error has its cause. *)
Definition add_error b ord (e : BookError) : Prop :=
  match e with
  | DuplicateOrderId => is_Some (index b !! ro_order_id ord)
  | SeqOverflow => index b !! ro_order_id ord = None ∧ seq b = u64_max
  | LevelRejected => index b !! ro_order_id ord = None ∧
      let q := level_queue (target_level b ord) in
      (u64_max < sum_qty q + ro_qty ord ∨ u64_max <= Z.of_nat (length q))
  | UnknownOrderId => False
  end.

Lemma add_resting_ok b ord :
  book_ok b → resting_ok ord →
  match add_resting b ord with
  | (b', Ok _) => add_post b ord b'
  | (b', Err e) => b' = b ∧ add_error b ord e
  end.
Proof.
  intros Hok Hord. pose proof (ok_seq _ _ Hok) as Hs. unfold is_u64 in Hs.
  destruct (index b !! ro_order_id ord) as [m|] eqn:Hm.
  { unfold add_resting. rewrite Hm. split; [done|]. unfold add_error. rewrite Hm. eauto. }
  destruct (decide (seq b = u64_max)) as [Hmax|Hmax].
  { unfold add_resting, checked_add. rewrite Hm, decide_False by lia. done. }
  rewrite add_resting_eq by (done || lia).
  assert (Hid : Sequential (ro_order_id ord) ∉ pl_id <$> level_queue (target_level b ord)).
  { intros (o & Hi & Ho)%list_elem_of_fmap. destruct (target_level_queue b ord Hok) as [_ Hall].
    rewrite Forall_forall in Hall. destruct (Hall _ Ho) as (j & mj & Hj & _ & _ & _ & Hmj & _).
    congruence. }
  destruct (pl_add_order _ _) as [l'|[]] eqn:Hadd.
  - pose proof (λ s, rested_queue b ord l' Hok Hord Hm ltac:(lia) Hadd s) as Hq.
    split; rewrite ?Hq; [apply rested_ok; try done; lia|done| | |done|done].
    + by rewrite decide_True.
    + rewrite decide_False; [done|]. intros Heq. by apply (Side_opposite_ne (ro_side ord)).
  - apply pl_add_duplicate in Hadd. rewrite <-level_queue_perm in Hadd. done.
  - split; [done|]. split; [done|]. simpl.
    destruct (decide (u64_max < sum_qty (level_queue (target_level b ord)) + ro_qty ord)); [by left|].
    destruct (decide (u64_max <= Z.of_nat (length (level_queue (target_level b ord))))); [by right|].
    destruct (pl_add_succeeds (target_level b ord) (pl_of b ord)) as [l' Hl'].
    + rewrite <-level_queue_perm. done.
    + rewrite <-level_queue_perm. simpl. lia.
    + rewrite <-level_queue_perm. lia.
    + congruence.
Qed.

End Add.

(** ** Cancelling *)

Section Cancel.
Context {L : Type} `{!PriceLevelOps L} `{!PriceLevelLaws L}.
Implicit Types (b : Book L) (s : Side) (p : Price) (l : L) (id : OrderId).

(** The book without order [id]: the level shrinks and is dropped when empty. *)
Definition cancelled b id (m : OrderMeta) : Book L :=
  prune_level (take_out b (om_side m) (om_price m) id) (om_side m) (om_price m).

Lemma prune_drop b s p id :
  prune_level (drop_from_indices b id) s p = drop_from_indices (prune_level b s p) id.
Proof.
  unfold prune_level. rewrite level_at_drop. destruct (level_at b s p); [|done].
  destruct (_ =? _); [|done]. rewrite levels_drop. unfold drop_from_indices.
  rewrite index_set_levels. destruct (index b !! id); [|done]. by destruct s.
Qed.

Record cancel_post b id b' : Prop := {
  cp_ok : book_ok b';
  cp_queue s : side_queue b' s = spec_cancel id (side_queue b s);
  cp_index : index b' = delete id (index b);
  cp_seq : seq b' = seq b;
}.

Lemma cancelled_post b id m :
  book_ok b → index b !! id = Some m → cancel_post b id (cancelled b id m).
Proof.
  intros Hok Hm. assert (Ht : book_ok_ex (Some (om_side m, om_price m)) (take_out b (om_side m) (om_price m) id)).
  { eapply take_out_ok; eauto. }
  unfold cancelled. split.
  - by apply prune_ok.
  - intros s. rewrite prune_queue by apply Ht. by eapply take_out_queue.
  - by rewrite index_prune, index_take_out.
  - by rewrite seq_prune, seq_take_out.
Qed.

Lemma cancel_eq b id :
  book_ok b →
  cancel b id =
    match index b !! id with
    | None => (b, Err UnknownOrderId)
    | Some m => (cancelled b id m, Ok (om_side m, om_price m))
    end.
Proof.
  intros Hok. unfold cancel. destruct (index b !! id) as [m|] eqn:Hm; [|done].
  destruct (ok_index _ _ Hok _ _ Hm) as (_ & _ & l & Hl & _). rewrite Hl.
  unfold cancelled, take_out. by rewrite prune_drop.
Qed.

(** ** The resting quantity of an order *)

Lemma find_order_ok b id m l :
  book_ok b → index b !! id = Some m → level_at b (om_side m) (om_price m) = Some l →
  ∃ o, find_order l id = Some o ∧ o ∈ level_queue l ∧ pl_id o = Sequential id ∧
    qty_ok (pl_quantity o) ∧
    to_q b (om_price m) o = mkQ id (om_account_id m) (om_price m) (pl_quantity o).
Proof.
  intros Hok Hm Hl. destruct (ok_index _ _ Hok _ _ Hm) as (_ & _ & l' & Hl' & Hin).
  rewrite Hl in Hl'. simplify_eq. apply list_elem_of_fmap in Hin as (o & Hid & Ho).
  destruct (find_order l' id) as [o'|] eqn:Hf.
  - apply find_some in Hf as [Hin Heq]. apply bool_decide_eq_true in Heq.
    apply list_elem_of_In in Hin. rewrite <-level_queue_perm in Hin. exists o'.
    destruct (level_order_meta _ _ _ _ _ _ Hok Hl Hin) as (i & mi & _ & _ & ? & _).
    split_and!; try done. unfold to_q. rewrite Heq. simpl. by rewrite Hm.
  - rewrite level_queue_perm in Ho. apply list_elem_of_In in Ho. apply (find_none _ _ Hf) in Ho.
    apply bool_decide_eq_false in Ho. congruence.
Qed.

Lemma resting_qty_ok b id m :
  book_ok b → index b !! id = Some m →
  ∃ q, q ∈ side_queue b (om_side m) ∧ q_id q = id ∧ resting_qty b id = Some (q_qty q) ∧
    qty_ok (q_qty q) ∧ q_price q = om_price m ∧ q_account q = om_account_id m.
Proof.
  intros Hok Hm. destruct (ok_index _ _ Hok _ _ Hm) as (_ & _ & l & Hl & _).
  destruct (find_order_ok _ _ _ _ Hok Hm Hl) as (o & Hf & Ho & Hid & Hq & Hto).
  exists (to_q b (om_price m) o). rewrite elem_of_side_queue by apply Hok. rewrite Hto.
  split_and!; try done; [by exists (om_price m), l, o|].
  unfold resting_qty. rewrite Hm. simpl. rewrite Hl. simpl. rewrite Hf. simpl.
  by rewrite Qty_new_ok.
Qed.

Lemma resting_qty_None b id : index b !! id = None → resting_qty b id = None.
Proof. unfold resting_qty. by intros ->. Qed.

(** ** Mass cancel *)

Definition mass_of s (q : QOrder) : MassCancellation :=
  mkMass (q_id q) (q_account q) s (q_price q) (q_qty q).

Lemma mass_cancel_one_eq b out id m :
  book_ok b → index b !! id = Some m →
  ∃ q, q ∈ side_queue b (om_side m) ∧ q_id q = id ∧ q_account q = om_account_id m ∧
    mass_cancel_one (b, out) id = (cancelled b id m, out ++ [mass_of (om_side m) q]).
Proof.
  intros Hok Hm. destruct (ok_index _ _ Hok _ _ Hm) as (_ & _ & l & Hl & _).
  destruct (find_order_ok _ _ _ _ Hok Hm Hl) as (o & Hf & Ho & Hid & Hq & Hto).
  exists (to_q b (om_price m) o). rewrite elem_of_side_queue by apply Hok. rewrite Hto.
  split_and!; try done; [by exists (om_price m), l, o|].
  unfold mass_cancel_one. rewrite Hm, Hl. simpl. rewrite Hf. simpl. rewrite Qty_new_ok by done. simpl.
  unfold cancelled, take_out, mass_of. by rewrite prune_drop.
Qed.

Lemma mass_cancel_fold b out ids :
  book_ok b → NoDup ids → Forall (λ id, is_Some (index b !! id)) ids →
  ∃ new, let '(b', out') := foldl mass_cancel_one (b, out) ids in
    out' = out ++ new ∧ book_ok b' ∧ mc_order_id <$> new = ids ∧
    (∀ s, side_queue b' s = filter (λ q, q_id q ∉ ids) (side_queue b s)) ∧
    (∀ id, index b' !! id = if decide (id ∈ ids) then None else index b !! id) ∧ seq b' = seq b ∧
    Forall (λ c, ∃ q, q ∈ side_queue b (mc_side c) ∧ c = mass_of (mc_side c) q) new.
Proof.
  intros Hok Hnd. revert b out Hok. induction Hnd as [|id ids Hid Hnd IH]; intros b out Hok Hall.
  { exists []. simpl. rewrite app_nil_r. split_and!; try done.
    intros s. symmetry. apply filter_id, Forall_forall. set_solver. }
  apply Forall_cons in Hall as [[m Hm] Hall].
  destruct (mass_cancel_one_eq _ out _ _ Hok Hm) as (q & Hq & Hqid & Hqa & Heq).
  destruct (cancelled_post _ _ _ Hok Hm) as [Hok' Hq' Hidx Hseq].
  destruct (IH (cancelled b id m) (out ++ [mass_of (om_side m) q]) Hok') as (new & Hnew).
  { rewrite Hidx. eapply Forall_impl; [apply Forall_and; split; [exact Hall|]|].
    - apply Forall_forall. intros i Hi. exact (λ H : i = id, Hid (eq_ind i (λ x, x ∈ ids) Hi id H)).
    - simpl. intros i [Hi Hne]. by rewrite lookup_delete_ne. }
  exists (mass_of (om_side m) q :: new). cbn [foldl]. rewrite Heq.
  destruct (foldl _ _ ids) as [b' out']. destruct Hnew as (-> & ? & Hids & Hqs & Hix & ? & Hcs).
  split_and!; try done.
  - by rewrite <-app_assoc.
  - csimpl. by rewrite Hids, Hqid.
  - intros s. rewrite Hqs, Hq'. unfold spec_cancel. rewrite list_filter_filter.
    apply list_filter_iff. set_solver.
  - intros i. rewrite Hix, Hidx. destruct (decide (i = id)) as [->|].
    + rewrite lookup_delete_eq. rewrite (decide_True (P := id ∈ id :: ids)) by set_solver. by case_decide.
    + rewrite lookup_delete_ne by done. repeat case_decide; set_solver.
  - congruence.
  - constructor; [eauto|]. eapply Forall_impl; [exact Hcs|]. intros c (q' & Hin & Hc).
    exists q'. split; [|done]. rewrite Hq' in Hin. by apply list_elem_of_filter in Hin as [_ ?].
Qed.

(** Every order of the account, both sides, and no other. *)
Definition account_orders b (a : AccountId) : list MassCancellation :=
  (mass_of Bid <$> filter (λ q, q_account q = a) (side_queue b Bid)) ++
  (mass_of Ask <$> filter (λ q, q_account q = a) (side_queue b Ask)).

Record mass_post b a (out : list MassCancellation) b' out' (n : Z) : Prop := {
  mcp_ok : book_ok b';
  mcp_queue s : side_queue b' s = filter (λ q, q_account q ≠ a) (side_queue b s);
  mcp_out : ∃ new, out' = out ++ new ∧ n = Z.of_nat (length new) ∧
    new ≡ₚ account_orders b a ∧ StronglySorted Z.lt (mc_order_id <$> new);
  mcp_index id : index b' !! id =
    match index b !! id with
    | Some m => if decide (om_account_id m = a) then None else Some m
    | None => None
    end;
  mcp_seq : seq b' = seq b;
}.

(** An order id names one order of the book. *)
Lemma side_queue_inj b s s' q q' :
  book_ok b → q ∈ side_queue b s → q' ∈ side_queue b s' → q_id q = q_id q' → s = s' ∧ q = q'.
Proof.
  intros Hok Hq Hq' Hid.
  destruct (side_queue_index _ _ _ _ Hok Hq) as (m & Hm & Hs & _).
  destruct (side_queue_index _ _ _ _ Hok Hq') as (m' & Hm' & Hs' & _).
  rewrite Hid in Hm. rewrite Hm in Hm'. simplify_eq. split; [done|].
  eapply (NoDup_fmap_inj_on q_id); [by eapply (side_queue_ids_NoDup _ b)|done..].
Qed.

Lemma elem_of_account_orders b a c :
  c ∈ account_orders b a ↔
    ∃ q, q ∈ side_queue b (mc_side c) ∧ q_account q = a ∧ c = mass_of (mc_side c) q.
Proof.
  unfold account_orders. rewrite elem_of_app, !list_elem_of_fmap. setoid_rewrite list_elem_of_filter.
  split.
  - intros [(q & -> & ? & ?)|(q & -> & ? & ?)]; by exists q.
  - destruct (mc_side c); naive_solver.
Qed.

Lemma account_orders_NoDup b a : book_ok b → NoDup (account_orders b a).
Proof.
  intros Hok. apply NoDup_app. split_and!.
  2: { intros c (q & -> & _)%list_elem_of_fmap (q' & ? & _)%list_elem_of_fmap. done. }
  all: apply (NoDup_fmap_1 mc_order_id); rewrite <-list_fmap_compose;
    apply (NoDup_fmap_filter q_id); by eapply side_queue_ids_NoDup.
Qed.

Lemma account_set_index b a set id :
  book_ok b → by_account b !! a = Some set →
  id ∈ bt_keys set ↔ ∃ m, index b !! id = Some m ∧ om_account_id m = a.
Proof.
  intros Hok Hset. destruct (ok_accounts _ _ Hok) as [_ Hba].
  rewrite <-Hba, Hset. simpl. destruct (bt_get set id) eqn:Hg.
  - split; [eauto|]. intros _. apply bt_get_Some_elem in Hg. apply list_elem_of_fmap. by exists (id, u).
  - apply bt_get_None in Hg. split; [done|by intros []].
Qed.

Lemma account_no_set_index b a id m :
  book_ok b → by_account b !! a = None → index b !! id = Some m → om_account_id m ≠ a.
Proof.
  intros Hok Hset Hm Ha. destruct (ok_accounts _ _ Hok) as [_ Hba].
  destruct (proj2 (Hba a id)) as [u Hu]; [eauto|]. by rewrite Hset in Hu.
Qed.

Lemma mass_cancel_none b a out :
  book_ok b → by_account b !! a = None → mass_post b a out b out 0.
Proof.
  intros Hok Hset.
  assert (Hne : ∀ s q, q ∈ side_queue b s → q_account q ≠ a).
  { intros s q Hq. destruct (side_queue_index _ _ _ _ Hok Hq) as (m & Hm & _ & _ & <- & _).
    by eapply account_no_set_index. }
  split; try done.
  - intros s. symmetry. apply filter_id, Forall_forall. eauto.
  - exists []. rewrite app_nil_r. split_and!; try done; [|constructor].
    destruct (account_orders b a) as [|c cs] eqn:Hc; [done|].
    destruct (proj1 (elem_of_account_orders b a c)) as (q & Hq & Ha & _); [rewrite Hc; set_solver|].
    by destruct (Hne _ _ Hq).
  - intros id. destruct (index b !! id) eqn:Hm; [|done].
    rewrite decide_False; [done|]. by eapply account_no_set_index.
Qed.

Lemma mass_cancel_ok b a out :
  book_ok b → let '(b', out', n) := mass_cancel b a out in mass_post b a out b' out' n.
Proof.
  intros Hok. unfold mass_cancel. destruct (by_account b !! a) as [set|] eqn:Hset.
  2: by apply mass_cancel_none.
  destruct (proj1 (ok_accounts _ _ Hok) _ _ Hset) as [Hsorted _].
  pose proof (λ id, account_set_index b a set id Hok Hset) as Hids.
  destruct (mass_cancel_fold b out (bt_keys set) Hok) as (new & Hnew).
  { by apply bt_keys_NoDup. }
  { apply Forall_forall. intros id (m & Hm & _)%Hids. eauto. }
  destruct (foldl _ _ _) as [b' out']. destruct Hnew as (-> & Hok' & Hkeys & Hq & Hix & Hseq & Hall).
  assert (Hacct : ∀ s q, q ∈ side_queue b s → (q_id q ∈ bt_keys set ↔ q_account q = a)).
  { intros s q Hin. destruct (side_queue_index _ _ _ _ Hok Hin) as (m & Hm & _ & _ & <- & _).
    rewrite Hids. naive_solver. }
  split; try done.
  - intros s. rewrite Hq. apply list_filter_iff'. intros q Hin. by rewrite Hacct.
  - exists new. rewrite length_app. split_and!; [done|lia| |by rewrite Hkeys].
    apply NoDup_Permutation.
    + apply (NoDup_fmap_1 mc_order_id). rewrite Hkeys. by apply bt_keys_NoDup.
    + by apply account_orders_NoDup.
    + intros c. rewrite elem_of_account_orders. rewrite Forall_forall in Hall. split.
      * intros Hc. destruct (Hall _ Hc) as (q & Hin & Hcq). exists q. split_and!; try done.
        apply (Hacct (mc_side c)); [done|]. rewrite <-Hkeys. apply list_elem_of_fmap. exists c.
        split; [|done]. by rewrite Hcq.
      * intros (q & Hin & Ha & Hcq). apply (Hacct _ _ Hin) in Ha. rewrite <-Hkeys in Ha.
        apply list_elem_of_fmap in Ha as (c' & Hid & Hc'). destruct (Hall _ Hc') as (q' & Hin' & Hcq').
        destruct (side_queue_inj b (mc_side c) (mc_side c') q q') as [Hs ->]; try done.
        { rewrite Hid, Hcq'. done. }
        by rewrite Hcq, Hs, <-Hcq'.
  - intros id. rewrite Hix. destruct (index b !! id) as [m|] eqn:Hm; [|by case_decide].
    destruct (decide (id ∈ bt_keys set)) as [Hin|Hin]; rewrite Hids in Hin.
    + rewrite decide_True; [done|]. naive_solver.
    + rewrite decide_False; [done|]. naive_solver.
Qed.

End Cancel.
