(* ===== verification/BookReplace.v ===== *)
(** * BookReplace: the market stays uncrossed, and cancel-replace

    First the "no locked or crossed market" invariant in terms of the queues and
    its preservation by matching, resting and removing; then [replace], on each
    of its branches. *)

From S2P Require Import Prelude BTree Domain PriceLevel Book BookSpec BookInv BookMatch BookOps.

Section Uncrossed.
Context {L : Type} `{!PriceLevelOps L} `{!PriceLevelLaws L}.
Implicit Types (b : Book L) (s : Side).

Lemma queue_head_best s queue h q :
  queue_sorted s queue → head queue = Some h → q ∈ queue → better_eq s (q_price h) (q_price q).
Proof.
  intros Hs Hh Hq. destruct queue as [|h' rest]; simplify_eq/=.
  apply StronglySorted_inv in Hs as [_ Hall]. apply elem_of_cons in Hq as [->|Hq].
  - apply better_eq_refl.
  - rewrite Forall_forall in Hall. auto.
Qed.

Lemma uncrossed_queues b :
  book_ok b →
  uncrossed b ↔
    ∀ qb qa, qb ∈ side_queue b Bid → qa ∈ side_queue b Ask → q_price qb < q_price qa.
Proof.
  intros Hok. unfold uncrossed. pose proof (best_key_queue b Bid Hok) as Hb.
  pose proof (best_key_queue b Ask Hok) as Ha. simpl in Hb, Ha. rewrite Hb, Ha.
  pose proof (side_queue_sorted b Bid (ok_sorted _ _ Hok Bid)) as Sb.
  pose proof (side_queue_sorted b Ask (ok_sorted _ _ Hok Ask)) as Sa. split.
  - intros H qb qa Hqb Hqa.
    destruct (head (side_queue b Bid)) as [hb|] eqn:Hhb; [|destruct (side_queue b Bid); set_solver].
    destruct (head (side_queue b Ask)) as [ha|] eqn:Hha; [|destruct (side_queue b Ask); set_solver].
    pose proof (queue_head_best _ _ _ _ Sb Hhb Hqb). pose proof (queue_head_best _ _ _ _ Sa Hha Hqa).
    specialize (H _ _ eq_refl eq_refl). simpl in *. lia.
  - intros H pb pa (hb & Hhb & ->)%fmap_Some (ha & Hha & ->)%fmap_Some. apply H.
    + apply head_Some_elem_of in Hhb. done.
    + apply head_Some_elem_of in Hha. done.
Qed.

(** Removing orders or changing quantities cannot cross the market. *)
Lemma uncrossed_sub b b' :
  book_ok b → book_ok b' → uncrossed b →
  (∀ s q', q' ∈ side_queue b' s → ∃ q, q ∈ side_queue b s ∧ q_price q = q_price q') → uncrossed b'.
Proof.
  intros Hok Hok' Hu Hsub. rewrite uncrossed_queues in Hu |- * by done. intros qb qa Hb Ha.
  destruct (Hsub _ _ Hb) as (q1 & H1 & <-). destruct (Hsub _ _ Ha) as (q2 & H2 & <-). auto.
Qed.

Lemma uncrossed_filter b b' (F : QOrder → Prop) `{∀ q, Decision (F q)} :
  book_ok b → book_ok b' → uncrossed b →
  (∀ s, side_queue b' s = filter F (side_queue b s)) → uncrossed b'.
Proof.
  intros Hok Hok' Hu Hq. eapply uncrossed_sub; [exact Hok|done..|]. intros s q'. rewrite Hq.
  intros [_ ?]%list_elem_of_filter. eauto.
Qed.

Lemma spec_match_rest_prices side limit account r queue q' :
  q' ∈ qm_rest (spec_match side limit account r queue) →
  ∃ q, q ∈ queue ∧ q_id q = q_id q' ∧ q_account q = q_account q' ∧ q_price q = q_price q'.
Proof.
  revert r. induction queue as [|h rest IH]; intros r; simpl; [set_solver|].
  destruct (Z.eqb_spec r 0), (crosses side limit (q_price h)); simpl; eauto 10.
  destruct (q_account h =? account); simpl; [intros; exists q'; set_solver|].
  destruct (q_qty h <=? r); simpl.
  - intros (q & ? & ?)%IH. exists q. split; [set_solver|done].
  - rewrite elem_of_cons. intros [->|?]; [exists h|exists q']; set_solver.
Qed.

Section AfterMatch.
Context {I : Type} `{!IdGenerator I}.
Context (b : Book L) (taker : AggressiveOrder) (ids : I) (fills : list Fill)
  (stp : list StpCancellation) (b' : Book L) (ids' : I) (fills' : list Fill)
  (stp' : list StpCancellation) (res : MatchResult).
Hypotheses (Hok : book_ok b)
  (Hpost : match_post b taker ids fills stp (aggressive_spec b taker) b' ids' fills' stp' res).

Lemma match_rest_sub s q' :
  q' ∈ side_queue b' s →
  ∃ q, q ∈ side_queue b s ∧ q_id q = q_id q' ∧ q_account q = q_account q' ∧ q_price q = q_price q'.
Proof.
  destruct (decide (s = ao_side taker)) as [->|Hne].
  - rewrite (mp_same _ _ _ _ _ _ _ _ _ _ _ Hpost). eauto.
  - assert (s = Side_opposite (ao_side taker)) as -> by (by destruct s, (ao_side taker)).
    rewrite (mp_rest _ _ _ _ _ _ _ _ _ _ _ Hpost). unfold aggressive_spec.
    destruct (post_only_blocked b taker); simpl; [eauto|]. apply spec_match_rest_prices.
Qed.

Lemma match_uncrossed : uncrossed b → uncrossed b'.
Proof.
  intros Hu. eapply uncrossed_sub; [exact Hok|apply Hpost|done|].
  intros s q' (q & ? & _ & _ & ?)%match_rest_sub. eauto.
Qed.

(** A remainder that may rest no longer reaches the other side. *)
Lemma match_remainder_no_cross n :
  mr_taker_remaining res = Some n → mr_taker_stp_cancelled res = false →
  mr_taker_post_only_rejected res = false →
  would_cross b' (ao_side taker) (ao_price taker) = false.
Proof.
  rewrite (mp_remaining _ _ _ _ _ _ _ _ _ _ _ Hpost), (mp_flag _ _ _ _ _ _ _ _ _ _ _ Hpost),
    (mp_post_only _ _ _ _ _ _ _ _ _ _ _ Hpost).
  intros Hr Hf Hg. rewrite would_cross_queue by apply Hpost.
  rewrite (mp_rest _ _ _ _ _ _ _ _ _ _ _ Hpost). unfold aggressive_spec in *. rewrite Hg in *.
  apply bool_decide_eq_false in Hf.
  destruct (spec_match_stops (ao_side taker) (ao_price taker) (ao_account_id taker) (ao_qty taker)
    (side_queue b (Side_opposite (ao_side taker))) _ eq_refl) as [H|[H|H]].
  - by rewrite H in Hr.
  - done.
  - by destruct (qm_rest _).
Qed.

End AfterMatch.

Lemma uncrossed_add b ord b' :
  book_ok b → add_post b ord b' → uncrossed b →
  would_cross b (ro_side ord) (Some (ro_price ord)) = false → uncrossed b'.
Proof.
  intros Hok [Hok' _ Hq Hsame _ _] Hu Hc. rewrite would_cross_queue in Hc by done.
  rewrite uncrossed_queues in Hu |- * by done.
  assert (Hopp : ∀ q, q ∈ side_queue b (Side_opposite (ro_side ord)) →
    match ro_side ord with Bid => ro_price ord < q_price q | Ask => q_price q < ro_price ord end).
  { intros q Hin. destruct (head (side_queue b (Side_opposite (ro_side ord)))) as [h|] eqn:Hh.
    - pose proof (queue_head_best _ _ _ _ (side_queue_sorted b _ (ok_sorted _ _ Hok _)) Hh Hin) as Hbe.
      simpl in Hc. destruct (ro_side ord); simpl in *; lia.
    - destruct (side_queue b (Side_opposite (ro_side ord))); [by apply not_elem_of_nil in Hin|done]. }
  intros qb qa Hqb Hqa. destruct (ro_side ord); simpl in *; rewrite ?Hq, ?Hsame, ?spec_insert_perm in *.
  - apply elem_of_cons in Hqb as [->|?]; [by apply Hopp|auto].
  - apply elem_of_cons in Hqa as [->|?]; [by apply Hopp|auto].
Qed.

End Uncrossed.

(** ** Cancel-replace *)

Section Replace.
Context {L : Type} `{!PriceLevelOps L} `{!PriceLevelLaws L} `{!SnapshotSucceeds L}.
Context {I : Type} `{!IdGenerator I}.
Context (P : Prop) (K : I → nat → Prop).
Hypothesis next_trade_ok : ∀ ids n, K ids (S n) → wp P (next_trade_id ids) (λ r, K r.2 n).
Implicit Types (b : Book L) (ids : I).

Definition replace_taker (id : OrderId) (m : OrderMeta) (p : Price) (n : Qty) : AggressiveOrder :=
  mkAggressive id (om_account_id m) (om_side m) (Some p) n (om_tif m).

Definition replace_rest (id : OrderId) (m : OrderMeta) (p : Price) (n : Qty) : RestingOrder :=
  mkResting id (om_account_id m) (om_side m) p n (om_tif m).

(** The order lost its place: it was cancelled, matched as a taker at its new
    price, and its remainder, if any, rested. *)
Record replace_moved b id m p n ids fills stp b' ids' fills' stp' r : Prop := {
  rm_match : ∃ b1 res,
    let b0 := cancelled b id m in
    let taker := replace_taker id m p n in
    match_post b0 taker ids fills stp (aggressive_spec b0 taker) b1 ids' fills' stp' res ∧
    post_only_blocked b0 taker = false ∧
    match mr_taker_stp_cancelled res, mr_taker_remaining res with
    | false, Some rest =>
        let ord := replace_rest id m p rest in
        (add_post b1 ord b' ∧ r = Ok (mkReplaceOutcome false (Some res))) ∨
        (b' = b1 ∧ ∃ e, add_error b1 ord e ∧ r = Err e)
    | _, _ => b' = b1 ∧ r = Ok (mkReplaceOutcome false (Some res))
    end;
}.

(** What [replace] does, branch by branch. *)
Definition replace_post b id p n ids fills stp b' ids' fills' stp'
    (r : result ReplaceOutcome BookError) : Prop :=
  match index b !! id with
  | None => b' = b ∧ ids' = ids ∧ fills' = fills ∧ stp' = stp ∧ r = Err UnknownOrderId
  | Some m => ∃ q, q ∈ side_queue b (om_side m) ∧ q_id q = id ∧
      if bool_decide (p = om_price m ∧ n <= q_qty q) then
        r = Ok (mkReplaceOutcome true None) ∧ book_ok b' ∧
        (∀ s, side_queue b' s = spec_set_qty id n (side_queue b s)) ∧
        index b' = index b ∧ seq b' = seq b ∧ ids' = ids ∧ fills' = fills ∧ stp' = stp
      else if bool_decide (om_tif m = PostOnly) && would_cross b (om_side m) (Some p) then
        r = Ok (mkReplaceOutcome false (Some (mkMatchResult 0 0 (Some n) false true))) ∧
        b' = b ∧ ids' = ids ∧ fills' = fills ∧ stp' = stp
      else replace_moved b id m p n ids fills stp b' ids' fills' stp' r
  end.

(** Cancelling an order leaves the other side alone. *)
Lemma cancelled_opposite b id m :
  book_ok b → index b !! id = Some m →
  side_queue (cancelled b id m) (Side_opposite (om_side m)) = side_queue b (Side_opposite (om_side m)).
Proof.
  intros Hok Hm. rewrite (cp_queue _ _ _ (cancelled_post _ _ _ Hok Hm)). apply spec_cancel_notin.
  intros (q & -> & Hq)%list_elem_of_fmap.
  destruct (side_queue_index _ _ _ _ Hok Hq) as (m' & Hm' & Hs & _).
  rewrite Hm in Hm'. simplify_eq. by apply (Side_opposite_ne (om_side m')).
Qed.

Lemma replace_kept_ok b id m q n :
  book_ok b → index b !! id = Some m → q ∈ side_queue b (om_side m) → q_id q = id →
  0 < n <= q_qty q →
  let b' := update_level b (om_side m) (om_price m) (PlUpdateQuantity (Sequential id) n) in
  book_ok b' ∧ (∀ s, side_queue b' s = spec_set_qty id n (side_queue b s)) ∧
  index b' = index b ∧ seq b' = seq b.
Proof.
  intros Hok Hm Hq Hid Hn b'. destruct (ok_index _ _ Hok _ _ Hm) as (_ & _ & l & Hl & _).
  assert (Hle : ∀ o, o ∈ level_queue l → pl_id o = Sequential id → n <= pl_quantity o).
  { intros o Ho Hoid. assert (Hin : to_q b (om_price m) o ∈ side_queue b (om_side m)).
    { apply elem_of_side_queue; [apply Hok|]. by exists (om_price m), l, o. }
    destruct (side_queue_inj b _ _ _ _ Hok Hin Hq) as [_ Heq].
    - unfold to_q. rewrite Hoid. done.
    - rewrite <-Heq in Hn. simpl in Hn. lia. }
  unfold b'. split_and!.
  - eapply shrink_ok; [done..| |done]. lia.
  - intros s. eapply shrink_queue; [done..| |done|eauto]. lia.
  - apply index_update_level.
  - apply seq_update_level.
Qed.

Lemma replace_moved_ok b id m p n ids fills stp :
  book_ok b → index b !! id = Some m → order_id_ok id → price_ok p → qty_ok n →
  bool_decide (om_tif m = PostOnly) && would_cross b (om_side m) (Some p) = false →
  K ids (length (side_queue b (Side_opposite (om_side m)))) →
  let b0 := cancelled b id m in
  wp P (let! '(b1, ids1, fills1, stp1, res) :=
          match_aggressive b0 (replace_taker id m p n) ids fills stp in
        let done := Ok (mkReplaceOutcome false (Some res)) in
        match mr_taker_stp_cancelled res, mr_taker_remaining res with
        | false, Some remaining =>
            match add_resting b1 (replace_rest id m p remaining) with
            | (b2, Err e) => Ret (b2, ids1, fills1, stp1, Err e)
            | (b2, Ok _) => Ret (b2, ids1, fills1, stp1, done)
            end
        | _, _ => Ret (b1, ids1, fills1, stp1, done)
        end)
    (λ '(b', ids', fills', stp', r), replace_moved b id m p n ids fills stp b' ids' fills' stp' r).
Proof.
  intros Hok Hm Hid Hp Hn Hg HK b0. pose proof (cancelled_post _ _ _ Hok Hm) as Hc. fold b0 in Hc.
  assert (Hopp := cancelled_opposite _ _ _ Hok Hm). fold b0 in Hopp.
  destruct (ok_index _ _ Hok _ _ Hm) as (Hacct & Htif & _).
  assert (Hg0 : post_only_blocked b0 (replace_taker id m p n) = false).
  { unfold post_only_blocked. cbn [ao_tif ao_side ao_price replace_taker].
    by rewrite would_cross_queue, Hopp, <-would_cross_queue by (done || apply Hc). }
  apply wp_bind. eapply wp_conseq.
  { apply (match_aggressive_ok P K next_trade_ok b0); [apply Hc|done|]. simpl. by rewrite Hopp. }
  intros [[[[b1 ids1] fills1] stp1] res] [Hpost _].
  destruct (mr_taker_stp_cancelled res) eqn:Hstp; simpl.
  { split. exists b1, res. fold b0. split_and!; [done..|]. rewrite Hstp. done. }
  destruct (mr_taker_remaining res) as [rest|] eqn:Hrem; simpl.
  2: { split. exists b1, res. fold b0. split_and!; [done..|]. rewrite Hstp, Hrem. done. }
  assert (Hrok : resting_ok (replace_rest id m p rest)).
  { split_and!; try done. rewrite (mp_remaining _ _ _ _ _ _ _ _ _ _ _ Hpost) in Hrem.
    eapply (aggressive_remaining_ok b0 (replace_taker id m p n)); [apply Hc|done..]. }
  pose proof (add_resting_ok b1 _ (mp_ok _ _ _ _ _ _ _ _ _ _ _ Hpost) Hrok) as Hadd.
  destruct (add_resting b1 _) as [b2 [[]|e]]; simpl; split; exists b1, res; fold b0; 
    (split_and!; [done..|]); rewrite Hstp, Hrem; [by left|right]. destruct Hadd as [-> ?]. eauto.
Qed.

Lemma replace_ok b id p n ids fills stp :
  book_ok b → price_ok p → qty_ok n →
  (∀ m, index b !! id = Some m → K ids (length (side_queue b (Side_opposite (om_side m))))) →
  wp P (replace b id p n ids fills stp)
    (λ '(b', ids', fills', stp', r), replace_post b id p n ids fills stp b' ids' fills' stp' r).
Proof.
  intros Hok Hp Hn HK. unfold replace, replace_post. destruct (index b !! id) as [m|] eqn:Hm; [|done].
  destruct (resting_qty_ok _ _ _ Hok Hm) as (q & Hq & Hid & Hrq & Hqok & Hqp & Hqa). rewrite Hrq. simpl.
  destruct (ok_index _ _ Hok _ _ Hm) as (_ & _ & l & Hl & _).
  apply qty_ok_pos in Hn as Hn'.
  assert (Hkept : negb (negb (p =? om_price m)) && negb (q_qty q <? n) =
                  bool_decide (p = om_price m ∧ n <= q_qty q)).
  { rewrite negb_involutive, Z.ltb_antisym, negb_involutive.
    destruct (Z.eqb_spec p (om_price m)), (Z.leb_spec n (q_qty q)); simpl; symmetry;
      (apply bool_decide_true || apply bool_decide_false); lia. }
  rewrite Hkept. destruct (bool_decide (p = om_price m ∧ n <= q_qty q)) eqn:Hk.
  - rewrite Hl. simpl. exists q. apply bool_decide_eq_true in Hk as [-> Hk].
    rewrite bool_decide_true by done.
    destruct (replace_kept_ok _ _ _ _ n Hok Hm Hq Hid) as (? & ? & ? & ?); [lia|].
    by split_and!.
  - destruct (bool_decide (om_tif m = PostOnly) && would_cross b (om_side m) (Some p)) eqn:Hg.
    + simpl. exists q. rewrite Hk. split_and!; done.
    + rewrite cancel_eq, Hm by done. eapply wp_conseq.
      { apply (replace_moved_ok b id m p n ids fills stp); try done; [|by apply HK].
        destruct (side_queue_index _ _ _ _ Hok Hq) as (_ & _ & _ & _ & _ & _ & ? & _). by subst id. }
      intros [[[[b' ids'] fills'] stp'] r] Hr. exists q. rewrite Hk. split_and!; done.
Qed.

End Replace.
