(* ===== verification/BookCanon.v ===== *)
(** * BookCanon: the book does not depend on its price levels

    Any lawful price level can be read as the list of its orders in time priority,
    which is a [FifoLevel].  [canon] does so for a whole book.  Every operation of
    the book commutes with [canon]: what it returns, and the canonical form of the
    book it leaves, are those of the operation on the canonical book.  So a book over
    any lawful level type and the book over [FifoLevel] cannot be told apart, and a
    result computed on the one holds of the other. *)

From S2P Require Import Prelude Script BTree Domain PriceLevel FifoLevel Book BookSpec BookInv BookMatch BookOps BookReplace.

(** ** Mapping the values of an ordered map *)

Definition bt_map {V W} (f : V → W) (m : list (Z * V)) : list (Z * W) := (λ e, (e.1, f e.2)) <$> m.

Section Map.
Context {V W : Type} (f : V → W).
Implicit Types (m : list (Z * V)).

Lemma bt_get_map m k : bt_get (bt_map f m) k = f <$> bt_get m k.
Proof. induction m as [|[k' v] m IH]; simpl; [done|]. by destruct (k =? k'). Qed.

Lemma bt_insert_map m k v : bt_insert (bt_map f m) k (f v) = bt_map f (bt_insert m k v).
Proof.
  induction m as [|[k' v'] m IH]; simpl; [done|].
  destruct (k <? k'); [done|]. destruct (k =? k'); [done|]. simpl. by rewrite <-IH.
Qed.

Lemma bt_remove_map m k : bt_remove (bt_map f m) k = bt_map f (bt_remove m k).
Proof. induction m as [|[k' v] m IH]; simpl; [done|]. destruct (k =? k'); simpl; [done|]. by rewrite <-IH. Qed.

Lemma bt_keys_map m : bt_keys (bt_map f m) = bt_keys m.
Proof. unfold bt_keys, bt_map. by rewrite <-list_fmap_compose. Qed.

Lemma length_bt_map m : length (bt_map f m) = length m.
Proof. apply length_fmap. Qed.
End Map.

(** Allocating a trade id may panic, when the counter is exhausted, but returns. *)
Class IdsConverge (I : Type) `{!IdGenerator I} : Prop :=
  ids_converge ids : wp True (next_trade_id ids) (λ _, True).

(** ** The canonical form *)

Section Canon.
Context {L : Type} `{!PriceLevelOps L} `{!PriceLevelLaws L}.
Implicit Types (b : Book L) (s : Side) (p : Price) (l : L) (id : OrderId) (u : PlOrderUpdate) (ord : RestingOrder).

Definition canon_level l : FifoLevel := mkFifo (level_queue l).
Definition canon b : Book FifoLevel :=
  mkBook (bt_map canon_level (bids b)) (bt_map canon_level (asks b)) (index b) (by_account b) (seq b).

Lemma merge_sort_queue l : merge_sort ts_le (level_queue l) ≡ₚ level_queue l.
Proof. apply merge_sort_Permutation. Qed.

Lemma canon_level_queue l : unique_orders (level_queue l) → level_queue (canon_level l) = level_queue l.
Proof.
  intros [_ Hts]. symmetry. apply sorted_perm_unique; [done| |apply level_queue_sorted|apply level_queue_sorted].
  unfold level_queue at 2. simpl. by rewrite merge_sort_queue.
Qed.

Lemma canon_count l : pl_order_count (canon_level l) = pl_order_count l.
Proof. by rewrite (level_count_queue l). Qed.

Lemma canon_total l :
  sum_qty (level_queue l) <= u64_max → level_total (canon_level l) = level_total l.
Proof. intros H. unfold level_total. rewrite (level_total_queue l) by done. simpl. by rewrite decide_True. Qed.

Lemma canon_update_order l u :
  unique_orders (level_queue l) → update_allowed u (level_queue l) →
  canon_level (pl_update_order l u) = pl_update_order (canon_level l) u.
Proof. intros. unfold canon_level. simpl. f_equal. by apply level_queue_update. Qed.

Lemma canon_snapshot l snap :
  unique_orders (level_queue l) → pl_snapshot_orders l = Some snap → pl_snapshot_orders (canon_level l) = Some snap.
Proof.
  intros Hu Hs. simpl. f_equal. rewrite (snapshot_is_queue _ _ Hu Hs).
  change (level_queue (canon_level l) = level_queue l). by apply canon_level_queue.
Qed.

(** An order that is not in the level and has the latest timestamp. *)
Lemma canon_add_order l o :
  unique_orders (level_queue l) → Forall (λ o', 0 < pl_quantity o') (level_queue l) → 0 < pl_quantity o →
  Forall (λ o', pl_timestamp o' < pl_timestamp o) (level_queue l) → pl_id o ∉ pl_id <$> level_queue l →
  pl_add_order (canon_level l) o =
    match pl_add_order l o with Ok l' => Ok (canon_level l') | Err e => Err e end.
Proof.
  intros Hu Hpos Ho Hts Hid. simpl. unfold fifo_add. simpl. rewrite decide_False by done.
  assert (Hlen : Z.of_nat (length (level_queue l)) <= sum_qty (level_queue l)).
  { clear -Hpos. unfold sum_qty. induction Hpos; csimpl; lia. }
  destruct (pl_add_order l o) as [l'|e] eqn:Hadd.
  - destruct (level_queue_add _ _ _ Hadd Hu Hts) as (Hq & _ & Hsum).
    rewrite decide_False, decide_False by lia. by rewrite <-Hq.
  - assert (e = PlOtherError) as ->.
    { destruct e; [|done]. apply pl_add_duplicate in Hadd. by rewrite <-level_queue_perm in Hadd. }
    case_decide; [done|]. case_decide; [done|]. exfalso.
    destruct (pl_add_succeeds l o) as [l' Hl']; rewrite <-?level_queue_perm; [done|lia|lia|congruence].
Qed.

Lemma levels_canon b s : levels (canon b) s = bt_map canon_level (levels b s).
Proof. by destruct s. Qed.

Lemma level_at_canon b s p : level_at (canon b) s p = canon_level <$> level_at b s p.
Proof. unfold level_at. by rewrite levels_canon, bt_get_map. Qed.

Lemma canon_set_levels b s m : set_levels (canon b) s (bt_map canon_level m) = canon (set_levels b s m).
Proof. by destruct s. Qed.

Lemma canon_update_level b s p u :
  (∀ l, level_at b s p = Some l → unique_orders (level_queue l) ∧ update_allowed u (level_queue l)) →
  update_level (canon b) s p u = canon (update_level b s p u).
Proof.
  intros Hu. unfold update_level. rewrite level_at_canon. destruct (level_at b s p) as [l|] eqn:Hl; [|done].
  destruct (Hu l eq_refl). cbn [fmap option_fmap option_map].
  by rewrite <-canon_update_order, levels_canon, bt_insert_map, canon_set_levels.
Qed.

Lemma canon_prune b s p : prune_level (canon b) s p = canon (prune_level b s p).
Proof.
  unfold prune_level. rewrite level_at_canon. destruct (level_at b s p) as [l|]; [|done].
  cbn [fmap option_fmap option_map]. rewrite canon_count. destruct (_ =? 0); [|done].
  by rewrite levels_canon, bt_remove_map, canon_set_levels.
Qed.

Lemma canon_drop b id : drop_from_indices (canon b) id = canon (drop_from_indices b id).
Proof. unfold drop_from_indices. simpl. by destruct (index b !! id). Qed.

Lemma canon_cancel_update h b s p i :
  book_ok_ex h b → update_level (canon b) s p (PlCancel i) = canon (update_level b s p (PlCancel i)).
Proof.
  intros Hok. apply canon_update_level. intros l Hl. split; [|done].
  by destruct (ok_level _ _ Hok _ _ _ Hl) as (_ & ? & _).
Qed.

Lemma canon_ok b : book_ok b → book_ok (canon b).
Proof.
  intros Hok. assert (Hq : ∀ s p l, level_at b s p = Some l → level_queue (canon_level l) = level_queue l).
  { intros s p l Hl. apply canon_level_queue. by destruct (ok_level _ _ Hok _ _ _ Hl) as (_ & ? & _). }
  split.
  - intros s. unfold bt_ok. rewrite levels_canon, bt_keys_map. apply Hok.
  - intros s p l'. rewrite level_at_canon, fmap_Some. intros (l & Hl & ->). unfold level_ok.
    rewrite (Hq _ _ _ Hl). apply (ok_level _ _ Hok _ _ _ Hl).
  - intros s p l'. rewrite level_at_canon, fmap_Some. intros (l & Hl & ->). rewrite (Hq _ _ _ Hl). by apply Hok.
  - intros id m Hm. destruct (ok_index _ _ Hok _ _ Hm) as (? & ? & l & Hl & Hin). split_and!; [done..|].
    exists (canon_level l). rewrite level_at_canon, Hl. split; [done|]. by rewrite (Hq _ _ _ Hl).
  - apply Hok.
  - apply Hok.
Qed.

(** ** Resting and cancelling *)

Lemma canon_target_level b ord : target_level (canon b) ord = canon_level (target_level b ord).
Proof.
  unfold target_level. rewrite level_at_canon. destruct (level_at b _ _) as [l|]; [done|]. simpl.
  unfold canon_level. by rewrite level_queue_new.
Qed.

Lemma canon_rested b ord l : rested (canon b) ord (canon_level l) = canon (rested b ord l).
Proof. unfold rested. rewrite levels_canon, bt_insert_map, canon_set_levels. by destruct (ro_side ord). Qed.

Lemma canon_add_resting b ord :
  book_ok b → qty_ok (ro_qty ord) → add_resting (canon b) ord = prod_map canon id (add_resting b ord).
Proof.
  intros Hok Hqty. pose proof (ok_seq _ _ Hok) as Hs. unfold is_u64 in Hs.
  destruct (index b !! ro_order_id ord) as [m|] eqn:Hm.
  { unfold add_resting. simpl. by rewrite Hm. }
  destruct (decide (seq b < u64_max)).
  2: { unfold add_resting, checked_add. simpl. by rewrite Hm, decide_False by lia. }
  rewrite !add_resting_eq by (done || by apply canon_ok).
  rewrite canon_target_level. destruct (target_level_queue b ord Hok) as [Hu Hall].
  rewrite (canon_add_order _ (pl_of b ord)); [..|done| | | |].
  - destruct (pl_add_order _ _) as [l'|[]]; simpl; by rewrite ?canon_rested.
  - eapply Forall_impl; [exact Hall|]. intros o (_ & _ & _ & _ & Hq & _). by apply qty_ok_pos in Hq as [? _].
  - by apply qty_ok_pos in Hqty as [? _].
  - eapply Forall_impl; [exact Hall|]. intros o (_ & _ & _ & _ & _ & ? & _). simpl. lia.
  - intros (o & Hid & Ho)%list_elem_of_fmap. rewrite Forall_forall in Hall.
    destruct (Hall _ Ho) as (i & m & Hi & _ & _ & _ & Hm' & _). simpl in Hid. rewrite Hi in Hid. simplify_eq.
Qed.

Lemma canon_cancel b id : book_ok b → cancel (canon b) id = prod_map canon (λ r, r) (cancel b id).
Proof.
  intros Hok. unfold cancel. simpl. destruct (index b !! id) as [m|]; [|done].
  rewrite level_at_canon. destruct (level_at b _ _) as [l|]; [|done].
  by rewrite (canon_cancel_update None), canon_prune, canon_drop.
Qed.

Lemma canon_find_order l id :
  unique_orders (level_queue l) → find_order (canon_level l) id = find_order l id.
Proof.
  intros [Hids _]. unfold find_order. simpl.
  assert (Hf : ∀ (os : list PlOrder) o, NoDup (pl_id <$> os) →
    List.find (λ o, bool_decide (pl_id o = Sequential id)) os = Some o ↔ o ∈ os ∧ pl_id o = Sequential id).
  { clear. intros os o Hnd. split.
    - intros [Hin Hb%bool_decide_eq_true]%List.find_some. by rewrite <-list_elem_of_In in Hin.
    - intros [Hin Ho]. destruct (List.find _ os) as [o'|] eqn:E.
      + apply List.find_some in E as [Hin' Hb%bool_decide_eq_true]. rewrite <-list_elem_of_In in Hin'.
        f_equal. eapply (NoDup_fmap_inj_on pl_id); eauto; congruence.
      + apply list_elem_of_In in Hin. eapply List.find_none in E; [|done]. by apply bool_decide_eq_false in E. }
  apply option_eq. intros o. rewrite !Hf; [by rewrite level_queue_perm| |done]. by rewrite <-level_queue_perm.
Qed.

Lemma canon_resting_qty b id : book_ok b → resting_qty (canon b) id = resting_qty b id.
Proof.
  intros Hok. unfold resting_qty. simpl. destruct (index b !! id) as [m|]; simpl; [|done].
  rewrite level_at_canon. destruct (level_at b _ _) as [l|] eqn:Hl; simpl; [|done].
  rewrite canon_find_order; [done|]. by destruct (ok_level _ _ Hok _ _ _ Hl) as (_ & ? & _).
Qed.

Lemma canon_mass_one b out id :
  book_ok b → mass_cancel_one (canon b, out) id = prod_map canon (λ o, o) (mass_cancel_one (b, out) id).
Proof.
  intros Hok. unfold mass_cancel_one. simpl. destruct (index b !! id) as [m|]; [|done].
  rewrite level_at_canon. destruct (level_at b _ _) as [l|] eqn:Hl; simpl.
  - rewrite canon_find_order by by destruct (ok_level _ _ Hok _ _ _ Hl) as (_ & ? & _).
    by rewrite (canon_cancel_update None), canon_prune, canon_drop.
  - by rewrite canon_drop.
Qed.

Lemma mass_cancel_one_ok b out id : book_ok b → book_ok (mass_cancel_one (b, out) id).1.
Proof.
  intros Hok. destruct (index b !! id) as [m|] eqn:Hm.
  - destruct (mass_cancel_one_eq b out id m Hok Hm) as (q & _ & _ & _ & ->). simpl. by apply cancelled_post.
  - unfold mass_cancel_one. by rewrite Hm.
Qed.

Lemma canon_mass_cancel b a out :
  book_ok b →
  mass_cancel (canon b) a out = let '(b', out', n) := mass_cancel b a out in (canon b', out', n).
Proof.
  intros Hok. unfold mass_cancel. simpl. destruct (by_account b !! a) as [set|]; [|done].
  assert (H : foldl mass_cancel_one (canon b, out) (bt_keys set) =
    prod_map canon (λ o, o) (foldl mass_cancel_one (b, out) (bt_keys set))).
  { generalize (bt_keys set), out. intros ids. revert b Hok. induction ids as [|i ids IH]; intros b Hok o; [done|].
    cbn [foldl]. rewrite canon_mass_one by done. pose proof (mass_cancel_one_ok b o i Hok) as Hok'.
    destruct (mass_cancel_one (b, o) i) as [b' o']. by apply IH. }
  rewrite H. clear H. by destruct (foldl mass_cancel_one (b, out) (bt_keys set)).
Qed.

(** ** Queries *)

Lemma canon_best_bid b : best_bid (canon b) = best_bid b.
Proof. unfold best_bid, bt_last_key. simpl. by rewrite bt_keys_map. Qed.
Lemma canon_best_ask b : best_ask (canon b) = best_ask b.
Proof. unfold best_ask, bt_first_key. simpl. by rewrite bt_keys_map. Qed.
Lemma canon_would_cross b s lim : would_cross (canon b) s lim = would_cross b s lim.
Proof. unfold would_cross. by rewrite canon_best_bid, canon_best_ask. Qed.

Lemma levels_total_ok b s :
  book_ok b → Forall (λ e : Z * L, level_total (canon_level e.2) = level_total e.2) (levels b s).
Proof.
  intros Hok. apply Forall_forall. intros [p l] Hin%bt_get_elem; [|apply Hok]. apply canon_total.
  by destruct (ok_level _ _ Hok s p l Hin) as (_ & _ & ? & _).
Qed.

Lemma canon_totals b s :
  book_ok b →
  (λ e : Z * FifoLevel, (e.1, level_total e.2)) <$> levels (canon b) s =
  (λ e : Z * L, (e.1, level_total e.2)) <$> levels b s.
Proof.
  intros Hok. rewrite levels_canon. unfold bt_map. rewrite <-list_fmap_compose.
  pose proof (levels_total_ok b s Hok) as Hall. apply list_fmap_ext. intros i e He. simpl. f_equal.
  eapply (Forall_lookup_1 _ _ _ _ Hall He).
Qed.

Lemma canon_bid_levels b : book_ok b → bid_levels (canon b) = bid_levels b.
Proof. intros Hok. unfold bid_levels. rewrite !fmap_reverse. f_equal. by apply (canon_totals b Bid). Qed.
Lemma canon_ask_levels b : book_ok b → ask_levels (canon b) = ask_levels b.
Proof. apply (canon_totals b Ask). Qed.

Lemma canon_qty_at_level b s p : book_ok b → qty_at_level (canon b) s p = qty_at_level b s p.
Proof.
  intros Hok. unfold qty_at_level. rewrite level_at_canon. destruct (level_at b s p) as [l|] eqn:Hl; [|done].
  apply canon_total. by destruct (ok_level _ _ Hok _ _ _ Hl) as (_ & _ & ? & _).
Qed.

Lemma canon_side_qty b s : book_ok b → side_qty (canon b) s = side_qty b s.
Proof.
  intros Hok. unfold side_qty. rewrite levels_canon. pose proof (levels_total_ok b s Hok) as Hall.
  generalize 0. induction Hall as [|e m He _ IH]; intros z; [done|]. simpl. by rewrite He.
Qed.

Lemma canon_side_order_count b s : side_order_count (canon b) s = side_order_count b s.
Proof.
  unfold side_order_count. rewrite levels_canon. generalize 0.
  induction (levels b s) as [|e m IH]; intros z; [done|]. cbn [bt_map fmap list_fmap foldl snd].
  rewrite canon_count. apply IH.
Qed.

(** ** Matching *)

Section Match.
Context {I : Type} `{!IdGenerator I} `{!IdsConverge I} `{!SnapshotSucceeds L}.

Definition canon_walk (w : Walk L I) : Walk FifoLevel I :=
  mkWalk (canon (w_book w)) (w_ids w) (w_fills w) (w_stp w) (w_remaining w) (w_stp_cancelled w).

Definition canon_exit (x : LevelExit) : LevelExit :=
  match x with BreakLevel w => BreakLevel (canon_walk w) | BreakWalk w => BreakWalk (canon_walk w) end.

Context (taker : AggressiveOrder) (b0 : Book L) (ids0 : I) (fills0 : list Fill) (stp0 : list StpCancellation).
Local Abbreviation K := (λ (_ : I) (_ : nat), True).
Local Abbreviation walk_inv := (walk_inv K taker b0 ids0 fills0 stp0).
Local Abbreviation level_inv := (level_inv K taker b0 ids0 fills0 stp0).

Lemma next_ok ids (n : nat) : True → wp True (next_trade_id ids) (λ r, K r.2 n).
Proof. intros _. apply ids_converge. Qed.

Lemma canon_level_round p snap n w i :
  level_inv p snap n (w, i) →
  level_round taker p snap (canon_walk w, i) =
    outcome_map (sum_map (prod_map canon_walk (λ i, i)) canon_exit) (level_round taker p snap (w, i)).
Proof.
  intros [Hw _ _ (l & Hl & Hq)]. pose proof (wi_ok _ _ _ _ _ _ _ _ Hw) as Hok. simpl in *.
  unfold level_round. cbn [canon_walk w_book w_ids w_fills w_stp w_remaining w_stp_cancelled].
  destruct (Z.eqb_spec (w_remaining w) 0) as [|Hr]; [done|]. specialize (Hq Hr).
  destruct (snap !! i) as [hd|] eqn:Hhd; [|done]. destruct (pl_id hd) as [raw|raw] eqn:Hid; [|done].
  cbn [pl_id_to_domain]. destruct (OrderId_new raw) as [id|e] eqn:Hraw; [|done]. cbn [result_ok expect outcome_bind].
  cbn [canon index]. destruct (index (w_book w) !! id) as [m|]; [|done].
  assert (Hcancel : ∀ s, update_level (canon (w_book w)) s p (PlCancel (Sequential raw)) =
    canon (update_level (w_book w) s p (PlCancel (Sequential raw)))) by (intros; by eapply canon_cancel_update).
  destruct (om_account_id m =? ao_account_id taker).
  { rewrite Hcancel, canon_drop, canon_prune. done. }
  destruct (Z.eqb_spec (pl_quantity hd) 0); [done|]. rewrite Hcancel, canon_drop.
  set (fq := Z.min (w_remaining w) (pl_quantity hd)). set (nq := u64_sub (pl_quantity hd) fq).
  destruct (nq =? 0) eqn:Hfull.
  { destruct (Qty_new fq) as [q|e]; [|done]. rewrite outcome_map_bind. apply outcome_bind_ext. by intros []. }
  assert (Hupd : update_level (canon (w_book w)) (Side_opposite (ao_side taker)) p (PlUpdateQuantity (Sequential raw) nq) =
    canon (update_level (w_book w) (Side_opposite (ao_side taker)) p (PlUpdateQuantity (Sequential raw) nq))).
  { apply canon_update_level. intros l' Hl'. rewrite Hl in Hl'. simplify_eq.
    destruct (ok_level _ _ Hok _ _ _ Hl) as (_ & Hu & _ & Hall). split; [done|].
    assert (Hin : hd ∈ level_queue l').
    { rewrite Hq. apply list_elem_of_lookup. exists O. by rewrite lookup_drop, Nat.add_0_r. }
    rewrite Forall_forall in Hall. destruct (Hall _ Hin) as (_ & _ & _ & _ & Hpos%qty_ok_pos & _).
    pose proof (wi_rem _ _ _ _ _ _ _ _ Hw) as Hrem. simpl in Hrem.
    assert (nq = pl_quantity hd - fq) as Hnq by (apply u64_sub_exact; lia).
    apply Z.eqb_neq in Hfull. split; [lia|]. intros o Ho Hoid.
    assert (o = hd) as ->; [|lia]. destruct Hu as [Hu _]. eapply (NoDup_fmap_inj_on pl_id); eauto. congruence. }
  rewrite Hupd. destruct (Qty_new fq) as [q|e]; [|done].
  rewrite outcome_map_bind. apply outcome_bind_ext. by intros [].
Qed.

Lemma canon_walk_round w :
  walk_inv None w →
  walk_round taker (canon_walk w) = outcome_map (sum_map canon_walk canon_walk) (walk_round taker w).
Proof.
  intros Hw. pose proof (wi_ok _ _ _ _ _ _ _ _ Hw) as Hok. unfold walk_round.
  cbn [canon_walk w_book w_ids w_fills w_stp w_remaining w_stp_cancelled].
  destruct (negb _); [done|].
  assert (Hbest : ∀ b : Book L, match ao_side taker with
      | Bid => bt_first_key (asks (canon b)) | Ask => bt_last_key (bids (canon b)) end =
    match ao_side taker with Bid => bt_first_key (asks b) | Ask => bt_last_key (bids b) end).
  { intros b. destruct (ao_side taker); [apply canon_best_ask|apply canon_best_bid]. }
  rewrite Hbest. destruct (match ao_side taker with Bid => _ | Ask => _ end) as [p|] eqn:Hp; [|done].
  assert (Hkey : best_key (w_book w) (Side_opposite (ao_side taker)) = Some p) by (by destruct (ao_side taker)).
  fold (crosses (ao_side taker) (ao_price taker) p).
  destruct (crosses (ao_side taker) (ao_price taker) p) eqn:Hc; [|done]. cbn [negb].
  rewrite level_at_canon. destruct (level_at _ _ _) as [l|] eqn:Hl; [|done]. cbn [fmap option_fmap option_map].
  destruct (ok_level _ _ Hok _ _ _ Hl) as (_ & Hu & _).
  destruct (snapshot_succeeds l) as [snap Hs]. rewrite (canon_snapshot _ _ Hu Hs), Hs.
  set (n := length (levels (w_book w) (Side_opposite (ao_side taker)))).
  rewrite (loop_map (prod_map canon_walk (λ i, i)) canon_exit True (level_inv p snap n)
    (level_round taker p snap) _ _ (w, O)).
  - rewrite outcome_bind_map, outcome_map_bind. apply outcome_bind_ext. intros [w'|w']; [|done].
    simpl. by rewrite canon_prune.
  - intros [w' i]. apply canon_level_round.
  - intros st Hst. eapply wp_conseq; [by apply (level_round_ok True K next_ok)|]. by intros [?|[]]; [intros []|..].
  - split; simpl; [by apply walk_inv_hole|done|done|]. exists l. split; [done|]. intros _.
    rewrite drop_0. symmetry. by eapply snapshot_is_queue.
Qed.
End Match.

Section MatchAggressive.
Context {I : Type} `{!IdGenerator I} `{!IdsConverge I} `{!SnapshotSucceeds L}.
Implicit Types (ids : I).

Definition canon_matched {R} : Book L * I * list Fill * list StpCancellation * R →
    Book FifoLevel * I * list Fill * list StpCancellation * R :=
  λ '(b, ids, fills, stp, r), (canon b, ids, fills, stp, r).

Lemma canon_match_aggressive b taker ids fills stp :
  book_ok b → qty_ok (ao_qty taker) →
  match_aggressive (canon b) taker ids fills stp =
    outcome_map canon_matched (match_aggressive b taker ids fills stp).
Proof.
  intros Hok Hq. unfold match_aggressive. rewrite canon_would_cross. destruct (_ && _); [done|].
  rewrite levels_canon, length_bt_map.
  change (mkWalk (canon b) ids fills stp (ao_qty taker) false)
    with (canon_walk (mkWalk b ids fills stp (ao_qty taker) false)).
  rewrite (loop_map canon_walk canon_walk True
    (walk_inv (λ _ _, True) taker b ids fills stp None) (walk_round taker)).
  - rewrite outcome_bind_map, outcome_map_bind. apply outcome_bind_ext. done.
  - by apply canon_walk_round.
  - intros w Hw. eapply wp_conseq; [by apply (walk_round_ok True (λ _ _, True) next_ok)|].
    by intros [?|?]; [intros []|].
  - apply qty_ok_pos in Hq. split; simpl; try done; [lia|]. exists []. rewrite app_nil_r.
    split_and!; [done|constructor|done|]. unfold prepend_fills. simpl. by destruct (spec_match _ _ _ _ _).
Qed.

Lemma match_aggressive_keeps_ok b taker ids fills stp :
  book_ok b → qty_ok (ao_qty taker) →
  wp True (match_aggressive b taker ids fills stp)
    (λ '(b', _, _, _, res), book_ok b' ∧ from_option qty_ok True (mr_taker_remaining res)).
Proof.
  intros Hok Hq. eapply wp_conseq; [by apply (match_aggressive_ok True (λ _ _, True) next_ok)|].
  intros [[[[b' ids'] fills'] stp'] res] [Hp _]. split; [apply Hp|].
  destruct (mr_taker_remaining res) as [n|] eqn:Hr; [|done]. simpl.
  eapply aggressive_remaining_ok; [exact Hok|exact Hq|]. by rewrite <-(mp_remaining _ _ _ _ _ _ _ _ _ _ _ Hp).
Qed.

Lemma canon_replace b id p n ids fills stp :
  book_ok b → qty_ok n →
  replace (canon b) id p n ids fills stp = outcome_map canon_matched (replace b id p n ids fills stp).
Proof.
  intros Hok Hn. unfold replace. rewrite canon_resting_qty by done. cbn [canon index].
  destruct (index b !! id) as [m|] eqn:Hm; [|done].
  destruct (negb (negb (p =? om_price m)) && _) eqn:Hkept.
  { rewrite level_at_canon. destruct (level_at b _ _) as [l|] eqn:Hl; [|done]. simpl.
    rewrite canon_update_level; [done|]. intros l' Hl'. rewrite Hl in Hl'. simplify_eq.
    destruct (ok_level _ _ Hok _ _ _ Hl) as (_ & Hu & _). split; [done|]. split; [by apply qty_ok_pos in Hn as [? _]|].
    intros o Ho Hid. destruct (find_order_ok _ _ _ _ Hok Hm Hl) as (o' & Hf & Ho' & Hid' & Hq' & _).
    assert (o = o') as ->. { destruct Hu as [Hu _]. eapply (NoDup_fmap_inj_on pl_id); eauto. congruence. }
    apply andb_true_iff in Hkept as [_ Hle%negb_true_iff%Z.ltb_ge].
    unfold resting_qty in Hle. rewrite Hm in Hle. simpl in Hle. rewrite Hl in Hle. simpl in Hle.
    rewrite Hf in Hle. simpl in Hle. by rewrite Qty_new_ok in Hle. }
  change (would_cross (mkBook _ _ _ _ _)) with (would_cross (canon b)). rewrite canon_would_cross.
  destruct (_ && would_cross _ _ _); [done|]. fold (canon b). rewrite canon_cancel, cancel_eq, Hm by done. simpl.
  assert (Hok' : book_ok (cancelled b id m)) by by apply cancelled_post.
  rewrite canon_match_aggressive, outcome_bind_map, outcome_map_bind by done.
  eapply outcome_bind_wp; [by apply match_aggressive_keeps_ok|].
  intros [[[[b' ids'] fills'] stp'] res] [Hb' Hrem]. simpl.
  destruct (mr_taker_stp_cancelled res); [done|]. destruct (mr_taker_remaining res) as [q|]; [|done].
  rewrite canon_add_resting by done. by destruct (add_resting b' _) as [b'' [?|?]].
Qed.

Lemma replace_keeps_ok b id p n ids fills stp :
  book_ok b → price_ok p → qty_ok n →
  wp True (replace b id p n ids fills stp) (λ '(b', _, _, _, _), book_ok b').
Proof.
  intros Hok Hp Hn.
  eapply wp_conseq; [by apply (replace_ok True (λ _ _, True) next_ok)|].
  intros [[[[b' ids'] fills'] stp'] r]. unfold replace_post.
  destruct (index b !! id) as [m|]; [|by intros [-> _]]. intros (q & _ & _ & H).
  destruct (bool_decide _); [by destruct H as (_ & ? & _)|].
  destruct (_ && _); [by destruct H as (_ & -> & _)|]. destruct H as [(b1 & res & Hpost & _ & H)].
  destruct (mr_taker_stp_cancelled res), (mr_taker_remaining res);
    try (destruct H as [-> _]; apply Hpost).
  destruct H as [[Ha _]|[-> _]]; [apply Ha|apply Hpost].
Qed.
End MatchAggressive.
End Canon.
