(* ===== verification/Messages.v ===== *)
(** * Messages: the typed commands and reports

    The Rust-side message types of [crates/wire/src/inbound] and
    [crates/wire/src/outbound] (their byte layouts are in [WireInbound] and
    [WireOutbound]) and the outbound sink of [crates/marketdata/src/sink.rs]. *)

From S2P Require Import Prelude Domain.

(** ** Inbound commands *)

Record NewOrder := mkNewOrder {
  no_client_ts : ClientTs;
  no_order_id : OrderId;
  no_account_id : AccountId;
  no_side : Side;
  no_order_type : OrderType;
  no_tif : Tif;
  no_price : option Price;
  no_qty : Qty;
}.

Record CancelOrder := mkCancelOrder {
  co_client_ts : ClientTs;
  co_order_id : OrderId;
  co_account_id : AccountId;
}.

Record CancelReplace := mkCancelReplace {
  cr_client_ts : ClientTs;
  cr_order_id : OrderId;
  cr_account_id : AccountId;
  cr_new_price : Price;
  cr_new_qty : Qty;
}.

Record MassCancel := mkMassCancel {
  mcl_client_ts : ClientTs;
  mcl_account_id : AccountId;
}.

Inductive KillSwitchState := Resume | Halt.

Record KillSwitchSet := mkKillSwitchSet {
  ks_client_ts : ClientTs;
  ks_admin_token : Z;
  ks_state : KillSwitchState;
}.

Record SnapshotRequest := mkSnapshotRequest { sr_request_id : Z }.

Inductive Inbound :=
| In_NewOrder (m : NewOrder)
| In_CancelOrder (m : CancelOrder)
| In_CancelReplace (m : CancelReplace)
| In_MassCancel (m : MassCancel)
| In_KillSwitchSet (m : KillSwitchSet)
| In_SnapshotRequest (m : SnapshotRequest).

(** ** Outbound reports *)

Record ExecReport := mkExecReport {
  er_engine_seq : EngineSeq;
  er_order_id : OrderId;
  er_account_id : AccountId;
  er_state : ExecState;
  er_fill_price : option Price;
  er_fill_qty : option Qty;
  er_leaves_qty : option Qty;
  er_reject_reason : option RejectReason;
  er_cancel_reason : option CancelReason;
  er_recv_ts : RecvTs;
  er_emit_ts : RecvTs;
}.

Record TradePrint := mkTradePrint {
  tp_engine_seq : EngineSeq;
  tp_trade_id : TradeId;
  tp_price : Price;
  tp_qty : Qty;
  tp_aggressor_side : Side;
  tp_emit_ts : RecvTs;
}.

Record BookUpdateTop := mkBookUpdateTop {
  bt_engine_seq : EngineSeq;
  bt_bid : option (Price * Qty);
  bt_ask : option (Price * Qty);
  bt_emit_ts : RecvTs;
}.

Record BookUpdateL2Delta := mkL2Delta {
  l2_engine_seq : EngineSeq;
  l2_price : Price;
  l2_new_qty : option Qty;
  l2_side : Side;
  l2_emit_ts : RecvTs;
}.

Record SnapshotLevel := mkSnapshotLevel { sl_price : Price; sl_qty : Qty }.

Record SnapshotResponse := mkSnapshotResponse {
  sp_engine_seq : EngineSeq;
  sp_request_id : Z;
  sp_recv_ts : RecvTs;
  sp_emit_ts : RecvTs;
  sp_bids : list SnapshotLevel;
  sp_asks : list SnapshotLevel;
}.

Inductive Outbound :=
| Out_ExecReport (m : ExecReport)
| Out_TradePrint (m : TradePrint)
| Out_BookUpdateTop (m : BookUpdateTop)
| Out_BookUpdateL2Delta (m : BookUpdateL2Delta)
| Out_SnapshotResponse (m : SnapshotResponse).

(** The sequence number every outbound message carries. *)
Definition outbound_seq (m : Outbound) : EngineSeq :=
  match m with
  | Out_ExecReport r => er_engine_seq r
  | Out_TradePrint t => tp_engine_seq t
  | Out_BookUpdateTop t => bt_engine_seq t
  | Out_BookUpdateL2Delta d => l2_engine_seq d
  | Out_SnapshotResponse s => sp_engine_seq s
  end.

#[global] Instance KillSwitchState_eq_dec : EqDecision KillSwitchState.
Proof. solve_decision. Defined.

(** ** The outbound sink ([OutboundSink], [VecSink]) *)

Class OutboundSink (S : Type) := emit : S → Outbound → S.

Record VecSink := mkVecSink { events : list Outbound }.
Definition VecSink_new : VecSink := mkVecSink [].
#[global] Instance VecSink_sink : OutboundSink VecSink := λ s msg, mkVecSink (events s ++ [msg]).
Definition VecSink_take (s : VecSink) : list Outbound * VecSink := (events s, mkVecSink []).

Lemma VecSink_emit_all s msgs : foldl emit s msgs = mkVecSink (events s ++ msgs).
Proof.
  revert s. induction msgs as [|m msgs IH]; intros [es]; simpl; [by rewrite app_nil_r|].
  rewrite IH. simpl. by rewrite <-app_assoc.
Qed.

(** ** What decoding guarantees of a command *)

Definition new_order_ok (m : NewOrder) : Prop :=
  order_id_ok (no_order_id m) ∧ account_id_ok (no_account_id m) ∧ qty_ok (no_qty m) ∧
  match no_order_type m with
  | Limit => ∃ p, no_price m = Some p ∧ price_ok p
  | Market => no_price m = None
  end.

Definition inbound_ok (m : Inbound) : Prop :=
  match m with
  | In_NewOrder m => new_order_ok m
  | In_CancelOrder m => order_id_ok (co_order_id m) ∧ account_id_ok (co_account_id m)
  | In_CancelReplace m => order_id_ok (cr_order_id m) ∧ account_id_ok (cr_account_id m) ∧
      price_ok (cr_new_price m) ∧ qty_ok (cr_new_qty m)
  | In_MassCancel m => account_id_ok (mcl_account_id m)
  | In_KillSwitchSet _ | In_SnapshotRequest _ => True
  end.

(** ** Well-formed reports *)

Definition is_some {A} (o : option A) : bool := match o with Some _ => true | None => false end.

(** The fields an execution report carries in each state. *)
Definition exec_shape (st : ExecState) : bool * bool * bool * bool * bool :=
  match st with
  | Accepted => (false, false, true, false, false)
  | Rejected => (false, false, false, true, false)
  | PartiallyFilled => (true, true, true, false, false)
  | Filled => (true, true, false, false, false)
  | Cancelled => (false, false, false, false, true)
  | Replaced => (false, false, true, false, true)
  end.

Definition exec_report_ok (r : ExecReport) : Prop :=
  order_id_ok (er_order_id r) ∧ account_id_ok (er_account_id r) ∧
  (∀ p, er_fill_price r = Some p → price_ok p) ∧ (∀ q, er_fill_qty r = Some q → qty_ok q) ∧
  (∀ q, er_leaves_qty r = Some q → qty_ok q) ∧
  exec_shape (er_state r) =
    (is_some (er_fill_price r), is_some (er_fill_qty r), is_some (er_leaves_qty r),
     is_some (er_reject_reason r), is_some (er_cancel_reason r)).

Definition side_ok (o : option (Price * Qty)) : Prop :=
  ∀ x, o = Some x → price_ok x.1 ∧ qty_ok x.2.

Definition snapshot_level_ok (l : SnapshotLevel) : Prop := price_ok (sl_price l) ∧ qty_ok (sl_qty l).

Definition outbound_ok (m : Outbound) : Prop :=
  match m with
  | Out_ExecReport r => exec_report_ok r
  | Out_TradePrint t => price_ok (tp_price t) ∧ qty_ok (tp_qty t)
  | Out_BookUpdateTop t => side_ok (bt_bid t) ∧ side_ok (bt_ask t)
  | Out_BookUpdateL2Delta d => price_ok (l2_price d) ∧ (∀ q, l2_new_qty d = Some q → qty_ok q)
  | Out_SnapshotResponse s => Forall snapshot_level_ok (sp_bids s) ∧ Forall snapshot_level_ok (sp_asks s)
  end.
