(* ===== verification/Display.v ===== *)
(** * Display: how values are printed

    The [fmt::Display] implementations of [crates/domain/src/types] and of
    [KillSwitchState]: what the logs and the benchmark reports show.  A reader of such
    tokens is defined and shown to invert the printing, so a token in a log names its
    kind and its value. *)

From Stdlib Require Import Ascii String.
From stdpp Require Import pretty.
From S2P Require Import Prelude Text Domain Messages.
#[local] Open Scope Z_scope.
#[local] Open Scope string_scope.

(** ** Newtypes *)

Definition Price_fmt (p : Price) : string := pretty p +:+ "t".
Definition Qty_fmt (q : Qty) : string := pretty q +:+ "q".
Definition OrderId_fmt (i : OrderId) : string := "ord:" +:+ pretty i.
Definition AccountId_fmt (a : AccountId) : string := "acct:" +:+ pretty a.
Definition EngineSeq_fmt (s : EngineSeq) : string := "seq:" +:+ pretty s.
Definition TradeId_fmt (t : TradeId) : string := "trd:" +:+ pretty t.
Definition ClientTs_fmt (t : ClientTs) : string := "cts:" +:+ pretty t.
Definition RecvTs_fmt (t : RecvTs) : string := "rts:" +:+ pretty t.

(** ** Enums: the variant's name, or its market abbreviation *)

Definition Side_fmt (s : Side) : string := match s with Bid => "Bid" | Ask => "Ask" end.
Definition OrderType_fmt (t : OrderType) : string := match t with Limit => "Limit" | Market => "Market" end.
Definition Tif_fmt (t : Tif) : string := match t with Gtc => "GTC" | Ioc => "IOC" | PostOnly => "POST_ONLY" end.
Definition RejectReason_fmt (r : RejectReason) : string :=
  match r with
  | KillSwitched => "KillSwitched" | InvalidPrice => "InvalidPrice" | InvalidQty => "InvalidQty"
  | TickViolation => "TickViolation" | LotViolation => "LotViolation" | PriceBand => "PriceBand"
  | MaxOpenOrders => "MaxOpenOrders" | MaxNotional => "MaxNotional" | UnknownOrderIdReason => "UnknownOrderId"
  | DuplicateOrderIdReason => "DuplicateOrderId" | PostOnlyWouldCross => "PostOnlyWouldCross"
  | SelfTradePreventedReject => "SelfTradePrevented" | MarketOrderInEmptyBook => "MarketOrderInEmptyBook"
  | UnknownAccount => "UnknownAccount" | MalformedMessage => "MalformedMessage"
  end.
Definition CancelReason_fmt (r : CancelReason) : string :=
  match r with
  | UserRequested => "UserRequested" | MassCancelReason => "MassCancel" | IocRemaining => "IocRemaining"
  | SelfTradePrevented => "SelfTradePrevented" | ReplacedReason => "Replaced"
  end.
Definition ExecState_fmt (s : ExecState) : string :=
  match s with
  | Accepted => "Accepted" | Rejected => "Rejected" | PartiallyFilled => "PartiallyFilled"
  | Filled => "Filled" | Cancelled => "Cancelled" | Replaced => "Replaced"
  end.
Definition KillSwitchState_fmt (s : KillSwitchState) : string := match s with Resume => "Resume" | Halt => "Halt" end.

#[global] Instance Side_fmt_inj : Inj (=) (=) Side_fmt.
Proof. by intros [] [] [=]. Qed.
#[global] Instance OrderType_fmt_inj : Inj (=) (=) OrderType_fmt.
Proof. by intros [] [] [=]. Qed.
#[global] Instance Tif_fmt_inj : Inj (=) (=) Tif_fmt.
Proof. by intros [] [] [=]. Qed.
#[global] Instance RejectReason_fmt_inj : Inj (=) (=) RejectReason_fmt.
Proof. by intros [] [] [=]. Qed.
#[global] Instance CancelReason_fmt_inj : Inj (=) (=) CancelReason_fmt.
Proof. by intros [] [] [=]. Qed.
#[global] Instance ExecState_fmt_inj : Inj (=) (=) ExecState_fmt.
Proof. by intros [] [] [=]. Qed.
#[global] Instance KillSwitchState_fmt_inj : Inj (=) (=) KillSwitchState_fmt.
Proof. by intros [] [] [=]. Qed.

(** ** Tokens *)

(** A printed newtype. *)
Inductive token :=
| T_Price (p : Price)
| T_Qty (q : Qty)
| T_OrderId (i : OrderId)
| T_AccountId (a : AccountId)
| T_EngineSeq (s : EngineSeq)
| T_TradeId (t : TradeId)
| T_ClientTs (t : ClientTs)
| T_RecvTs (t : RecvTs).

Definition token_fmt (t : token) : string :=
  match t with
  | T_Price p => Price_fmt p
  | T_Qty q => Qty_fmt q
  | T_OrderId i => OrderId_fmt i
  | T_AccountId a => AccountId_fmt a
  | T_EngineSeq s => EngineSeq_fmt s
  | T_TradeId t => TradeId_fmt t
  | T_ClientTs t => ClientTs_fmt t
  | T_RecvTs t => RecvTs_fmt t
  end.

(** The widths of the newtypes. *)
Definition token_ok (t : token) : Prop :=
  match t with
  | T_Price p => price_ok p
  | T_Qty q => qty_ok q
  | T_OrderId i => order_id_ok i
  | T_AccountId a => account_id_ok a
  | T_EngineSeq s | T_TradeId s => is_u64 s
  | T_ClientTs t | T_RecvTs t => is_i64 t
  end.

(** A number and the one character after it. *)
Fixpoint read_suffixed (acc : Z) (s : string) : option (Z * ascii) :=
  match s with
  | EmptyString => None
  | String c EmptyString => Some (acc, c)
  | String c rest => match digit c with Some d => read_suffixed (acc * 10 + d) rest | None => None end
  end.

Definition read_int (s : string) : option Z :=
  match s with
  | String "-" rest => Z.opp <$> parse_uint (- i64_min) rest
  | _ => parse_uint i64_max s
  end.

(** What follows a prefix. *)
Fixpoint strip (prefix s : string) : option string :=
  match prefix, s with
  | EmptyString, _ => Some s
  | String a prefix, String b s => if decide (a = b) then strip prefix s else None
  | String _ _, EmptyString => None
  end.

Definition labels : list (string * (string → option token)) :=
  [("ord:", λ s, T_OrderId <$> parse_uint u64_max s);
   ("acct:", λ s, T_AccountId <$> parse_uint u32_max s);
   ("seq:", λ s, T_EngineSeq <$> parse_uint u64_max s);
   ("trd:", λ s, T_TradeId <$> parse_uint u64_max s);
   ("cts:", λ s, T_ClientTs <$> read_int s);
   ("rts:", λ s, T_RecvTs <$> read_int s)].

Fixpoint read_labelled (ls : list (string * (string → option token))) (s : string) : option token :=
  match ls with
  | [] =>
      match read_suffixed 0 s with
      | Some (n, c) =>
          if decide (c = "t"%char) then Some (T_Price n)
          else if decide (c = "q"%char) then Some (T_Qty n) else None
      | None => None
      end
  | (l, reader) :: ls => match strip l s with Some rest => reader rest | None => read_labelled ls s end
  end.

Definition read_token (s : string) : option token := read_labelled labels s.

(** ** Reading a printed number *)

Lemma digit_char n : (n < 10)%N → digit (pretty_N_char n) = Some (Z.of_N n).
Proof.
  intros Hn. assert (n = 0 ∨ n = 1 ∨ n = 2 ∨ n = 3 ∨ n = 4 ∨ n = 5 ∨ n = 6 ∨ n = 7 ∨ n = 8 ∨ n = 9)%N as H by lia.
  by decompose [or] H; subst.
Qed.

(** Reading the digits of [n] before [s] is reading [s] with [n] accumulated. *)
Lemma parse_digits_go max n s :
  Z.of_N n <= max → parse_digits max 0 (pretty_N_go n s) = parse_digits max (Z.of_N n) s.
Proof.
  revert s. induction (N.lt_wf_0 n) as [n _ IH]. intros s Hn.
  assert (n = 0 ∨ 0 < n)%N as [->|Hpos] by lia; [done|].
  rewrite pretty_N_go_step by done. pose proof (N.div_lt n 10 Hpos eq_refl) as Hlt.
  rewrite IH by lia. cbn [parse_digits]. pose proof (N.mod_lt n 10) as Hm. pose proof (N.div_mod n 10) as Hd.
  rewrite digit_char by lia. replace (Z.of_N (n `div` 10) * 10 + Z.of_N (n `mod` 10)) with (Z.of_N n) by lia.
  by rewrite decide_True by lia.
Qed.

Lemma read_suffixed_go n c : read_suffixed 0 (pretty_N_go n (String c "")) = Some (Z.of_N n, c).
Proof.
  enough (∀ s c, read_suffixed 0 (pretty_N_go n (String c s)) = read_suffixed (Z.of_N n) (String c s)) as -> by done.
  clear c. induction (N.lt_wf_0 n) as [n _ IH]. intros s c.
  assert (n = 0 ∨ 0 < n)%N as [->|Hpos] by lia; [done|].
  rewrite pretty_N_go_step by done. rewrite IH by (by apply N.div_lt). cbn [read_suffixed].
  pose proof (N.mod_lt n 10) as Hm. pose proof (N.div_mod n 10) as Hd. rewrite digit_char by lia.
  by replace (Z.of_N (n `div` 10) * 10 + Z.of_N (n `mod` 10)) with (Z.of_N n) by lia.
Qed.

(** A printed number starts with a digit. *)
Lemma go_head n s : (0 < n)%N → ∃ c rest d, pretty_N_go n s = String c rest ∧ digit c = Some d.
Proof.
  revert s. induction (N.lt_wf_0 n) as [n _ IH]. intros s Hn. rewrite pretty_N_go_step by done.
  pose proof (N.mod_lt n 10) as Hm. destruct (N.eq_0_gt_0_cases (n `div` 10)) as [->|Hd].
  - rewrite pretty_N_go_0. do 3 eexists. split; [done|]. apply digit_char. lia.
  - apply IH; [by apply N.div_lt|done].
Qed.

Lemma parse_uint_pretty max z : 0 <= z <= max → parse_uint max (pretty z) = Some z.
Proof.
  intros Hz. destruct z as [|p|p]; [| |lia].
  { change (pretty 0) with "0". unfold parse_uint. rewrite decide_False by done. cbn [parse_digits].
    change (digit "0") with (Some 0). cbn iota beta. by rewrite decide_True by lia. }
  change (pretty (Z.pos p)) with (pretty_N_go (N.pos p) ""). unfold parse_uint.
  destruct (go_head (N.pos p) "") as (c & rest & d & Hs & Hc); [lia|]. pose proof (parse_digits_go max (N.pos p) "") as Hp.
  rewrite Hs in *. rewrite decide_False by (by intros ->). rewrite Hp by lia. done.
Qed.

Lemma read_int_pretty z : is_i64 z → read_int (pretty z) = Some z.
Proof.
  intros Hz. unfold is_i64, i64_min, i64_max in Hz. destruct z as [|p|p]; [done| |].
  - change (pretty (Z.pos p)) with (pretty_N_go (N.pos p) "").
    destruct (go_head (N.pos p) "") as (c & rest & d & Hs & Hc); [lia|].
    pose proof (parse_uint_pretty i64_max (Z.pos p)) as Hp. change (pretty (Z.pos p)) with (pretty_N_go (N.pos p) "") in Hp.
    rewrite Hs in *. unfold read_int. rewrite <-Hp by (unfold i64_max; lia).
    destruct c as [[] [] [] [] [] [] [] []]; try done; vm_compute in Hc; done.
  - change (pretty (Z.neg p)) with (String "-" (pretty (Z.pos p))). unfold read_int.
    rewrite parse_uint_pretty by (unfold i64_min; lia). done.
Qed.

Lemma read_suffixed_pretty z c : 0 < z → read_suffixed 0 (pretty z +:+ String c "") = Some (z, c).
Proof.
  intros Hz. destruct z as [|p|p]; [lia| |lia]. change (pretty (Z.pos p)) with (pretty_N_go (N.pos p) "").
  enough (∀ n s s', pretty_N_go n s +:+ s' = pretty_N_go n (s +:+ s')) as -> by apply (read_suffixed_go (N.pos p)).
  clear. intros n. induction (N.lt_wf_0 n) as [n _ IH]. intros s s'.
  assert (n = 0 ∨ 0 < n)%N as [->|Hpos] by lia; [done|].
  rewrite (pretty_N_go_step n s), (pretty_N_go_step n (s +:+ s')) by done. by rewrite IH by (by apply N.div_lt).
Qed.

(** A printed price or quantity is not taken for a labelled token. *)
Lemma digits_unlabelled z s : 0 < z → ∀ l rest, l ∈ labels → strip l.1 (pretty z +:+ s) = Some rest → False.
Proof.
  intros Hz l rest Hl. destruct z as [|p|p]; [lia| |lia]. change (pretty (Z.pos p)) with (pretty_N_go (N.pos p) "").
  destruct (go_head (N.pos p) "") as (c & tail & d & -> & Hc); [lia|]. revert Hl. unfold labels.
  rewrite !elem_of_cons, elem_of_nil. intros Hl. decompose [or] Hl; [subst; simpl; case_decide; [by subst|done]..|done].
Qed.

Lemma read_token_digits z c : 0 < z →
  read_token (pretty z +:+ String c "") = read_labelled [] (pretty z +:+ String c "").
Proof.
  intros Hz. pose proof (digits_unlabelled z (String c "") Hz) as H. unfold read_token.
  revert H. generalize labels. induction l as [|[l r] ls IH]; intros H; [done|]. cbn [read_labelled].
  destruct (strip l _) eqn:Hs; [exfalso; eapply (H (l, r)); [set_solver|done]|]. apply IH. intros l' rest Hl'.
  apply H. set_solver.
Qed.

Lemma read_token_fmt t : token_ok t → read_token (token_fmt t) = Some t.
Proof.
  destruct t; cbn [token_ok token_fmt]; rewrite ?price_ok_pos, ?qty_ok_pos; unfold order_id_ok, account_id_ok, is_u64; intros Hok.
  1-2: unfold Price_fmt, Qty_fmt; rewrite read_token_digits by lia; cbn [read_labelled];
    by rewrite read_suffixed_pretty by lia.
  all: unfold OrderId_fmt, AccountId_fmt, EngineSeq_fmt, TradeId_fmt, ClientTs_fmt, RecvTs_fmt, read_token; simpl;
    match goal with |- context ["" +:+ ?x] => change ("" +:+ x) with x end.
  1-4: by rewrite parse_uint_pretty by lia.
  all: by rewrite read_int_pretty.
Qed.
