(* ===== verification/Ids.v ===== *)
(** * Ids: id generators and clocks

    [crates/engine/src/ids.rs] and [clock.rs], and the contract of the
    [IdGenerator] trait the engine is proved against: the two streams are
    consecutive counters, independent of each other, with some capacity left. *)

From S2P Require Import Prelude Domain BookMatch.

(** What the engine relies on of its id source: [id_cap] is the number of further
    allocations of either kind that cannot panic. *)
Class IdGeneratorLaws (I : Type) `{!IdGenerator I} := {
  seq_mark : I → Z;
  trade_mark : I → Z;
  id_cap : I → nat;
  next_trade_law i : (0 < id_cap i)%nat →
    ∃ i', next_trade_id i = Ret (trade_mark i, i') ∧ trade_mark i' = trade_mark i + 1 ∧
      seq_mark i' = seq_mark i ∧ (id_cap i <= S (id_cap i'))%nat;
  next_seq_law i : (0 < id_cap i)%nat →
    ∃ i', next_engine_seq i = Ret (seq_mark i, i') ∧ seq_mark i' = seq_mark i + 1 ∧
      trade_mark i' = trade_mark i ∧ (id_cap i <= S (id_cap i'))%nat;
}.

(** ** [CounterIdGenerator] *)

Record CounterIdGenerator := mkCounter { next_trade : Z; next_seq : Z }.

Definition CounterIdGenerator_new : CounterIdGenerator := mkCounter 1 1.
Definition CounterIdGenerator_resume (next_trade_id next_engine_seq : Z) : CounterIdGenerator :=
  mkCounter next_trade_id next_engine_seq.

#[global] Instance CounterIdGenerator_ids : IdGenerator CounterIdGenerator := {
  next_trade_id g :=
    let v := next_trade g in
    let! n := expect (checked_add u64_max v 1) in
    Ret (v, mkCounter n (next_seq g));
  next_engine_seq g :=
    let v := next_seq g in
    let! n := expect (checked_add u64_max v 1) in
    Ret (v, mkCounter (next_trade g) n);
}.

Definition counter_cap (g : CounterIdGenerator) : nat :=
  Z.to_nat (u64_max - Z.max (next_trade g) (next_seq g)).

#[global] Instance CounterIdGenerator_laws : IdGeneratorLaws CounterIdGenerator.
Proof.
  refine {| seq_mark := next_seq; trade_mark := next_trade; id_cap := counter_cap |};
    intros [t s] Hcap; unfold counter_cap in *; simpl in *; unfold checked_add.
  - rewrite decide_True by lia. simpl. eexists. split; [done|]. simpl. lia.
  - rewrite decide_True by lia. simpl. eexists. split; [done|]. simpl. lia.
Defined.

(** ** Clocks *)

Record StubClock := mkStubClock { current : Z }.
Definition StubClock_new (nanos : Z) : StubClock := mkStubClock nanos.
Definition StubClock_set (c : StubClock) (nanos : Z) : StubClock := mkStubClock nanos.
#[global] Instance StubClock_clock : Clock StubClock := { now c := (current c, c) }.

(** [WallClock] over the operating system's clock: the nanoseconds since the epoch
    at each read, [None] before it.  [as i64] keeps the low 64 bits. *)
Record WallClock := mkWallClock { system_time : nat → option Z; reads : nat }.
#[global] Instance WallClock_clock : Clock WallClock := {
  now c := (from_option wrap_i64 0 (system_time c (reads c)), mkWallClock (system_time c) (S (reads c)));
}.

(** ** The trade ids of a match are consecutive *)

Section Trades.
Context {I : Type} `{!IdGenerator I} `{!IdGeneratorLaws I}.

Lemma next_trade_cap (ids : I) n :
  (S n <= id_cap ids)%nat → wp False (next_trade_id ids) (λ r, n <= id_cap r.2)%nat.
Proof. intros Hn. destruct (next_trade_law ids) as (i' & -> & _ & _ & ?); simpl; lia. Qed.

Lemma trades_laws (i j : I) ts :
  trades i ts j → (length ts <= id_cap i)%nat →
  ts = seqZ (trade_mark i) (Z.of_nat (length ts)) ∧
  trade_mark j = trade_mark i + Z.of_nat (length ts) ∧ seq_mark j = seq_mark i ∧
  (id_cap i <= length ts + id_cap j)%nat.
Proof.
  induction 1 as [i|i ts j t k Hts IH Hn]; intros Hlen; simpl.
  { split_and!; try done; lia. }
  rewrite length_app in *. simpl in *. destruct IH as (Heq & Hm & Hs & Hc); [lia|].
  destruct (next_trade_law j) as (k' & Hk & Hm' & Hs' & Hc'); [lia|].
  rewrite Hn in Hk. simplify_eq. split_and!; try lia.
  rewrite Nat2Z.inj_add, seqZ_app by lia. rewrite <-Heq. f_equal.
  by rewrite <-Hm.
Qed.

End Trades.
