(* ===== verification/Risk.v ===== *)
(** * Risk: pre-trade checks and per-account exposure

    [crates/risk/src/state.rs].  [HashMap<AccountId, AccountState>] is a [gmap];
    the map is only ever read and written by key. *)

From S2P Require Import Prelude Domain Messages.

Record AccountState := mkAccountState { open_orders : Z; notional : Z }.
Definition AccountState_default : AccountState := mkAccountState 0 0.

Record RiskState := mkRiskState {
  kill_switch : bool;
  per_account : gmap AccountId AccountState;
  last_trade_price : option Price;
}.

Definition RiskState_new : RiskState := mkRiskState false ∅ None.
Definition is_kill_switched (r : RiskState) : bool := kill_switch r.
Definition set_kill_switch (r : RiskState) (engaged : bool) : RiskState :=
  mkRiskState engaged (per_account r) (last_trade_price r).
Definition on_fill (r : RiskState) (trade_price : Price) : RiskState :=
  mkRiskState (kill_switch r) (per_account r) (Some trade_price).
Definition account (r : RiskState) (a : AccountId) : option AccountState := per_account r !! a.

Definition set_accounts (r : RiskState) (m : gmap AccountId AccountState) : RiskState :=
  mkRiskState (kill_switch r) m (last_trade_price r).

(** [price_ticks * qty_lots] in [u128]. *)
Definition notional_of (price : Price) (qty : Qty) : Z := wrap_u128 (i64_as_u128 price * qty).

(** [RiskState::on_order_resting].  [entry().or_default()] inserts the default
    entry even when the method then returns an error. *)
Definition on_order_resting (r : RiskState) (a : AccountId) (order_notional : Z)
  : RiskState * result unit RejectReason :=
  let entry := default AccountState_default (per_account r !! a) in
  let r := set_accounts r (<[a := entry]> (per_account r)) in
  match checked_add u32_max (open_orders entry) 1 with
  | None => (r, Err MaxOpenOrders)
  | Some new_open =>
      if MAX_OPEN_ORDERS_PER_ACCT <? new_open then (r, Err MaxOpenOrders) else
      match checked_add u128_max (notional entry) order_notional with
      | None => (r, Err MaxNotional)
      | Some new_notional =>
          if MAX_NOTIONAL_PER_ACCT <? new_notional then (r, Err MaxNotional)
          else (set_accounts r (<[a := mkAccountState new_open new_notional]> (per_account r)), Ok tt)
      end
  end.

(** [RiskState::on_order_removed]. *)
Definition on_order_removed (r : RiskState) (a : AccountId) (order_notional : Z) : RiskState :=
  match per_account r !! a with
  | None => r
  | Some entry =>
      let entry' :=
        mkAccountState (saturating_sub (open_orders entry) 1)
          (saturating_sub (notional entry) order_notional) in
      if (open_orders entry' =? 0) && (notional entry' =? 0)
      then set_accounts r (delete a (per_account r))
      else set_accounts r (<[a := entry']> (per_account r))
  end.

(** [check_price_band]: [|p - last| * 10_000 <= last * PRICE_BAND_BPS] in [u128]. *)
Definition check_price_band (price : Price) (last : option Price) : result unit RejectReason :=
  match last with
  | None => Ok tt
  | Some reference =>
      let diff := Z.abs (price - reference) in
      let? lhs := ok_or (checked_mul u128_max diff 10000) PriceBand in
      let? rhs := ok_or (checked_mul u128_max (i64_as_u128 reference) PRICE_BAND_BPS) PriceBand in
      if rhs <? lhs then Err PriceBand else Ok tt
  end.

(** [RiskState::check_account_limits]. *)
Definition check_account_limits (r : RiskState) (a : AccountId) (effective_price : Price) (qty : Qty)
  : result unit RejectReason :=
  let entry := default AccountState_default (per_account r !! a) in
  let? new_open := ok_or (checked_add u32_max (open_orders entry) 1) MaxOpenOrders in
  if MAX_OPEN_ORDERS_PER_ACCT <? new_open then Err MaxOpenOrders else
  let order_notional := notional_of effective_price qty in
  let? new_notional := ok_or (checked_add u128_max (notional entry) order_notional) MaxNotional in
  if MAX_NOTIONAL_PER_ACCT <? new_notional then Err MaxNotional else Ok tt.

(** [RiskState::check_new_order]. *)
Definition check_new_order (r : RiskState) (msg : NewOrder) (best_opposite : option Price)
  : result unit RejectReason :=
  if kill_switch r then Err KillSwitched else
  let? effective_price :=
    match no_order_type msg with
    | Limit => ok_or (no_price msg) MalformedMessage
    | Market => ok_or best_opposite MarketOrderInEmptyBook
    end in
  let? _ := check_price_band effective_price (last_trade_price r) in
  check_account_limits r (no_account_id msg) effective_price (no_qty msg).

Definition check_cancel (r : RiskState) (msg : CancelOrder) : result unit RejectReason :=
  if kill_switch r then Err KillSwitched else Ok tt.

Definition check_cancel_replace (r : RiskState) (msg : CancelReplace) : result unit RejectReason :=
  if kill_switch r then Err KillSwitched else
  let? _ := check_price_band (cr_new_price msg) (last_trade_price r) in
  let order_notional := notional_of (cr_new_price msg) (cr_new_qty msg) in
  if MAX_NOTIONAL_PER_ACCT <? order_notional then Err MaxNotional else Ok tt.

Definition check_mass_cancel (r : RiskState) (msg : MassCancel) : result unit RejectReason :=
  if kill_switch r then Err KillSwitched else Ok tt.
