(* ===== verification/Engine.v ===== *)
(** * Engine: the single-writer pipeline

    [crates/engine/src/engine.rs], handler by handler.  Every method takes
    [&mut self], so it is a function from an engine to the outcome of the engine
    after it; the outcome is a panic only when an id counter overflows. *)

From S2P Require Import Prelude BTree Domain PriceLevel Book Messages Risk.

Record OrderRegistryEntry := mkEntry {
  re_account_id : AccountId;
  re_side : Side;
  re_qty : Qty;
  re_notional : Z;
}.

Record Engine (L C I Snk : Type) := mkEngine {
  e_book : Book L;
  e_risk : RiskState;
  e_clock : C;
  e_ids : I;
  e_sink : Snk;
  e_registry : gmap OrderId OrderRegistryEntry;
  e_fills_buf : list Fill;
  e_stp_buf : list StpCancellation;
  e_mass_buf : list MassCancellation;
  e_pre_step_levels : list (Side * Price * Z);
  e_post_step_levels : list (Side * Price * Z);
}.
Arguments mkEngine {L C I Snk}.
Arguments e_book {L C I Snk} _.
Arguments e_risk {L C I Snk} _.
Arguments e_clock {L C I Snk} _.
Arguments e_ids {L C I Snk} _.
Arguments e_sink {L C I Snk} _.
Arguments e_registry {L C I Snk} _.
Arguments e_fills_buf {L C I Snk} _.
Arguments e_stp_buf {L C I Snk} _.
Arguments e_mass_buf {L C I Snk} _.
Arguments e_pre_step_levels {L C I Snk} _.
Arguments e_post_step_levels {L C I Snk} _.

Section Engine.
Context {L C I Snk : Type} `{!PriceLevelOps L} `{!Clock C} `{!IdGenerator I} `{!OutboundSink Snk}.
Local Abbreviation Eng := (Engine L C I Snk).
Implicit Types (e : Eng) (recv_ts : RecvTs).

(** [Engine::new]. *)
Definition engine_new (clock : C) (ids : I) (sink : Snk) : Eng :=
  mkEngine book_new RiskState_new clock ids sink ∅ [] [] [] [] [].

(** Assignments to one field. *)
Definition set_book e b : Eng :=
  mkEngine b (e_risk e) (e_clock e) (e_ids e) (e_sink e) (e_registry e) (e_fills_buf e)
    (e_stp_buf e) (e_mass_buf e) (e_pre_step_levels e) (e_post_step_levels e).
Definition set_risk e r : Eng :=
  mkEngine (e_book e) r (e_clock e) (e_ids e) (e_sink e) (e_registry e) (e_fills_buf e)
    (e_stp_buf e) (e_mass_buf e) (e_pre_step_levels e) (e_post_step_levels e).
Definition set_clock e c : Eng :=
  mkEngine (e_book e) (e_risk e) c (e_ids e) (e_sink e) (e_registry e) (e_fills_buf e)
    (e_stp_buf e) (e_mass_buf e) (e_pre_step_levels e) (e_post_step_levels e).
Definition set_sink e s : Eng :=
  mkEngine (e_book e) (e_risk e) (e_clock e) (e_ids e) s (e_registry e) (e_fills_buf e)
    (e_stp_buf e) (e_mass_buf e) (e_pre_step_levels e) (e_post_step_levels e).
Definition set_registry e m : Eng :=
  mkEngine (e_book e) (e_risk e) (e_clock e) (e_ids e) (e_sink e) m (e_fills_buf e)
    (e_stp_buf e) (e_mass_buf e) (e_pre_step_levels e) (e_post_step_levels e).
Definition set_match e b ids fills stp : Eng :=
  mkEngine b (e_risk e) (e_clock e) ids (e_sink e) (e_registry e) fills
    stp (e_mass_buf e) (e_pre_step_levels e) (e_post_step_levels e).
Definition set_mass e b out : Eng :=
  mkEngine b (e_risk e) (e_clock e) (e_ids e) (e_sink e) (e_registry e) (e_fills_buf e)
    (e_stp_buf e) out (e_pre_step_levels e) (e_post_step_levels e).
Definition set_pre_step_levels e v : Eng :=
  mkEngine (e_book e) (e_risk e) (e_clock e) (e_ids e) (e_sink e) (e_registry e) (e_fills_buf e)
    (e_stp_buf e) (e_mass_buf e) v (e_post_step_levels e).
Definition set_post_step_levels e v : Eng :=
  mkEngine (e_book e) (e_risk e) (e_clock e) (e_ids e) (e_sink e) (e_registry e) (e_fills_buf e)
    (e_stp_buf e) (e_mass_buf e) (e_pre_step_levels e) v.

(** ** Emission helpers *)

(** Build a message (its [engine_seq] field first, its [emit_ts] last) and emit it. *)
Definition emit_with e (mk : EngineSeq → RecvTs → Outbound) : outcome Eng :=
  let! '(s, ids) := next_engine_seq (e_ids e) in
  let '(ts, clock) := now (e_clock e) in
  Ret (mkEngine (e_book e) (e_risk e) clock ids (emit (e_sink e) (mk s ts)) (e_registry e)
         (e_fills_buf e) (e_stp_buf e) (e_mass_buf e) (e_pre_step_levels e) (e_post_step_levels e)).

Definition emit_rejected e order_id account_id (reason : RejectReason) recv_ts : outcome Eng :=
  emit_with e (λ s ts, Out_ExecReport
    (mkExecReport s order_id account_id Rejected None None None (Some reason) None recv_ts ts)).

Definition emit_rejected_mass e account_id (reason : RejectReason) recv_ts : outcome Eng :=
  let! order_id := expect (result_ok (OrderId_new 1)) in
  emit_rejected e order_id account_id reason recv_ts.

Definition emit_exec_report_accepted e order_id account_id leaves_qty recv_ts : outcome Eng :=
  emit_with e (λ s ts, Out_ExecReport
    (mkExecReport s order_id account_id Accepted None None (Some leaves_qty) None None recv_ts ts)).

Definition emit_exec_report_cancelled e order_id account_id (reason : CancelReason) recv_ts
  : outcome Eng :=
  emit_with e (λ s ts, Out_ExecReport
    (mkExecReport s order_id account_id Cancelled None None None None (Some reason) recv_ts ts)).

Definition emit_exec_report_replaced e order_id account_id new_qty recv_ts : outcome Eng :=
  emit_with e (λ s ts, Out_ExecReport
    (mkExecReport s order_id account_id Replaced None None (Some new_qty) None
       (Some ReplacedReason) recv_ts ts)).

Definition emit_exec_report_fill e order_id account_id (state : ExecState) fill_price fill_qty
    (leaves_qty : option Qty) recv_ts : outcome Eng :=
  emit_with e (λ s ts, Out_ExecReport
    (mkExecReport s order_id account_id state (Some fill_price) (Some fill_qty) leaves_qty None None
       recv_ts ts)).

Definition emit_trade_print_for_fill e (fill : Fill) (aggressor_side : Side) : outcome Eng :=
  emit_with e (λ s ts, Out_TradePrint
    (mkTradePrint s (f_trade_id fill) (f_price fill) (f_qty fill) aggressor_side ts)).

(** The free function [qty_at]: the total of the whole side. *)
Definition qty_at (b : Book L) (side : Side) (price : Price) : Z := side_qty b side.

Definition emit_book_update_top e : outcome Eng :=
  let b := e_book e in
  let bid := (λ p, (p, unwrap_or (Qty_new (qty_at b Bid p)) Qty_MIN)) <$> best_bid b in
  let ask := (λ p, (p, unwrap_or (Qty_new (qty_at b Ask p)) Qty_MIN)) <$> best_ask b in
  emit_with e (λ s ts, Out_BookUpdateTop (mkBookUpdateTop s bid ask ts)).

(** ** The level-2 delta feed *)

(** [Engine::capture_levels_into]: bids ascending, then asks ascending. *)
Definition capture_levels (b : Book L) : list (Side * Price * Z) :=
  reverse ((λ x, (Bid, x.1, x.2)) <$> bid_levels b) ++ ((λ x, (Ask, x.1, x.2)) <$> ask_levels b).

Definition emit_l2_delta e (side : Side) (price : Price) (new_qty : Z) : outcome Eng :=
  let new_qty := if new_qty =? 0 then None else result_ok (Qty_new new_qty) in
  emit_with e (λ s ts, Out_BookUpdateL2Delta (mkL2Delta s price new_qty side ts)).

(** The key order of the merge: [(side as u8, price)] lexicographically. *)
Definition level_key_lt (s1 : Side) (p1 : Price) (s2 : Side) (p2 : Price) : bool :=
  (Side_as_u8 s1 <? Side_as_u8 s2) || ((Side_as_u8 s1 =? Side_as_u8 s2) && (p1 <? p2)).
Definition level_key_eq (s1 : Side) (p1 : Price) (s2 : Side) (p2 : Price) : bool :=
  (Side_as_u8 s1 =? Side_as_u8 s2) && (p1 =? p2).

(** One round of the two-pointer merge of [Engine::emit_l2_deltas]. *)
Definition l2_round (pre post : list (Side * Price * Z)) (st : Eng * nat * nat)
  : outcome (Eng * nat * nat + Eng) :=
  let '(e, i, j) := st in
  if negb (bool_decide (i < length pre)%nat || bool_decide (j < length post)%nat)
  then Ret (inr e) else
  match pre !! i, post !! j with
  | Some (ps, pp, pq), Some (qs, qp, qq) =>
      if level_key_eq ps pp qs qp then
        let! e := if pq =? qq then Ret e else emit_l2_delta e qs qp qq in
        Ret (inl (e, S i, S j))
      else if level_key_lt ps pp qs qp then
        let! e := emit_l2_delta e ps pp 0 in Ret (inl (e, S i, j))
      else
        let! e := emit_l2_delta e qs qp qq in Ret (inl (e, i, S j))
  | Some (ps, pp, _), None =>
      let! e := emit_l2_delta e ps pp 0 in Ret (inl (e, S i, j))
  | None, Some (qs, qp, qq) =>
      let! e := emit_l2_delta e qs qp qq in Ret (inl (e, i, S j))
  | None, None => Ret (inr e)
  end.

(** [Engine::emit_l2_deltas]: each round advances a pointer, hence the fuel. *)
Definition emit_l2_deltas e : outcome Eng :=
  let pre := e_pre_step_levels e in
  let post := e_post_step_levels e in
  loop (length pre + length post + 1) (l2_round pre post) (e, O, O).

(** ** Snapshots *)

Definition snapshot_levels (ls : list (Price * Z)) : list SnapshotLevel :=
  omap (λ x, (λ q, mkSnapshotLevel x.1 q) <$> result_ok (Qty_new x.2)) (filter (λ x, 0 < x.2) ls).

Definition handle_snapshot_request e (msg : SnapshotRequest) recv_ts : outcome Eng :=
  let bids := snapshot_levels (bid_levels (e_book e)) in
  let asks := snapshot_levels (ask_levels (e_book e)) in
  emit_with e (λ s ts, Out_SnapshotResponse
    (mkSnapshotResponse s (sr_request_id msg) recv_ts ts bids asks)).

(** ** Fill and self-trade book-keeping *)

(** The maker's part of one iteration of [Engine::emit_fills_for_taker]: the
    registry entry is consumed and the risk counters are refunded. *)
Definition settle_maker e (fill : Fill) : Eng :=
  let e := set_risk e (on_fill (e_risk e) (f_price fill)) in
  match e_registry e !! f_maker_order_id fill with
  | None => e
  | Some entry =>
      if f_maker_fully_filled fill then
        set_risk (set_registry e (delete (f_maker_order_id fill) (e_registry e)))
          (on_order_removed (e_risk e) (re_account_id entry) (re_notional entry))
      else
        let consumed_notional := notional_of (f_price fill) (f_qty fill) in
        let new_notional := saturating_sub (re_notional entry) consumed_notional in
        let new_qty_lots := saturating_sub (re_qty entry) (f_qty fill) in
        let qty := unwrap_or (Qty_new new_qty_lots) (re_qty entry) in
        set_registry
          (set_risk e (on_order_removed (e_risk e) (re_account_id entry) consumed_notional))
          (<[f_maker_order_id fill :=
               mkEntry (re_account_id entry) (re_side entry) qty new_notional]> (e_registry e))
  end.

(** One iteration of the loop of [Engine::emit_fills_for_taker]; the local is the
    taker's remaining lots. *)
Definition emit_one_fill taker_order_id taker_account recv_ts (fill : Fill) (st : Eng * Z)
  : outcome (Eng * Z) :=
  let '(e, remaining) := st in
  let remaining := saturating_sub remaining (f_qty fill) in
  let! e := emit_trade_print_for_fill e fill (Side_opposite (f_maker_side fill)) in
  let maker := e_registry e !! f_maker_order_id fill in
  let maker_acct := from_option re_account_id taker_account maker in
  let maker_state := if f_maker_fully_filled fill then Filled else PartiallyFilled in
  let maker_leaves :=
    if f_maker_fully_filled fill then None
    else ent ← maker; result_ok (Qty_new (saturating_sub (re_qty ent) (f_qty fill))) in
  let! e := emit_exec_report_fill e (f_maker_order_id fill) maker_acct maker_state (f_price fill)
              (f_qty fill) maker_leaves recv_ts in
  let taker_state := if remaining =? 0 then Filled else PartiallyFilled in
  let taker_leaves := if remaining =? 0 then None else result_ok (Qty_new remaining) in
  let! e := emit_exec_report_fill e taker_order_id taker_account taker_state (f_price fill)
              (f_qty fill) taker_leaves recv_ts in
  Ret (settle_maker e fill, remaining).

Fixpoint emit_fills_loop taker_order_id taker_account recv_ts (fills : list Fill) (st : Eng * Z)
  : outcome (Eng * Z) :=
  match fills with
  | [] => Ret st
  | fill :: rest =>
      let! st := emit_one_fill taker_order_id taker_account recv_ts fill st in
      emit_fills_loop taker_order_id taker_account recv_ts rest st
  end.

(** [Engine::emit_fills_for_taker]: the loop runs over [fills_buf], which it does
    not write. *)
Definition emit_fills_for_taker e taker_order_id taker_account taker_qty recv_ts : outcome Eng :=
  let! '(e, _) :=
    emit_fills_loop taker_order_id taker_account recv_ts (e_fills_buf e) (e, taker_qty) in
  Ret e.

(** [if let Some(entry) = registry.remove(id) { risk.on_order_removed(..) }]. *)
Definition unregister e (order_id : OrderId) : Eng :=
  match e_registry e !! order_id with
  | None => e
  | Some entry =>
      set_risk (set_registry e (delete order_id (e_registry e)))
        (on_order_removed (e_risk e) (re_account_id entry) (re_notional entry))
  end.

Fixpoint emit_stp_loop recv_ts (stps : list StpCancellation) e : outcome Eng :=
  match stps with
  | [] => Ret e
  | stp :: rest =>
      let! e := emit_exec_report_cancelled e (stp_order_id stp) (stp_account_id stp)
                  SelfTradePrevented recv_ts in
      emit_stp_loop recv_ts rest (unregister e (stp_order_id stp))
  end.

Definition emit_stp_cancels e recv_ts : outcome Eng := emit_stp_loop recv_ts (e_stp_buf e) e.

(** ** [NewOrder] *)

(** Resting the leftover of a limit order: risk first, then the book. *)
Definition rest_leftover e (msg : NewOrder) (price : Price) (remaining : Qty) recv_ts : outcome Eng :=
  let resting :=
    mkResting (no_order_id msg) (no_account_id msg) (no_side msg) price remaining (no_tif msg) in
  let resting_notional := notional_of price remaining in
  match on_order_resting (e_risk e) (no_account_id msg) resting_notional with
  | (r, Err reason) =>
      emit_rejected (set_risk e r) (no_order_id msg) (no_account_id msg) reason recv_ts
  | (r, Ok _) =>
      let e := set_risk e r in
      match add_resting (e_book e) resting with
      | (b, Ok _) =>
          let e := set_book e b in
          let e := set_registry e
            (<[no_order_id msg := mkEntry (no_account_id msg) (no_side msg) remaining
                                    resting_notional]> (e_registry e)) in
          emit_exec_report_accepted e (no_order_id msg) (no_account_id msg) remaining recv_ts
      | (b, Err _) =>
          let e := set_book e b in
          let e := set_risk e (on_order_removed (e_risk e) (no_account_id msg) resting_notional) in
          emit_rejected e (no_order_id msg) (no_account_id msg) DuplicateOrderIdReason recv_ts
      end
  end.

Definition handle_new_order e (msg : NewOrder) recv_ts : outcome Eng :=
  let best_opposite :=
    match no_side msg with Bid => best_ask (e_book e) | Ask => best_bid (e_book e) end in
  match check_new_order (e_risk e) msg best_opposite with
  | Err reason => emit_rejected e (no_order_id msg) (no_account_id msg) reason recv_ts
  | Ok _ =>
      if is_kill_switched (e_risk e) then
        emit_rejected e (no_order_id msg) (no_account_id msg) KillSwitched recv_ts
      else
        let aggressive :=
          mkAggressive (no_order_id msg) (no_account_id msg) (no_side msg) (no_price msg)
            (no_qty msg) (no_tif msg) in
        let! '(b, ids, fills, stp, res) := match_aggressive (e_book e) aggressive (e_ids e) [] [] in
        let e := set_match e b ids fills stp in
        if mr_taker_post_only_rejected res then
          emit_rejected e (no_order_id msg) (no_account_id msg) PostOnlyWouldCross recv_ts
        else
          let! e := emit_fills_for_taker e (no_order_id msg) (no_account_id msg) (no_qty msg) recv_ts in
          let! e := emit_stp_cancels e recv_ts in
          if mr_taker_stp_cancelled res then
            emit_exec_report_cancelled e (no_order_id msg) (no_account_id msg) SelfTradePrevented
              recv_ts
          else
            match mr_taker_remaining res with
            | None => Ret e
            | Some remaining =>
                match no_tif msg, no_price msg with
                | Ioc, _ =>
                    emit_exec_report_cancelled e (no_order_id msg) (no_account_id msg) IocRemaining
                      recv_ts
                | Gtc, Some price | PostOnly, Some price =>
                    rest_leftover e msg price remaining recv_ts
                | Gtc, None | PostOnly, None =>
                    emit_exec_report_cancelled e (no_order_id msg) (no_account_id msg) IocRemaining
                      recv_ts
                end
            end
  end.

(** ** [CancelOrder] *)

Definition handle_cancel_order e (msg : CancelOrder) recv_ts : outcome Eng :=
  let reject reason := emit_rejected e (co_order_id msg) (co_account_id msg) reason recv_ts in
  match check_cancel (e_risk e) msg with
  | Err reason => reject reason
  | Ok _ =>
      if is_kill_switched (e_risk e) then reject KillSwitched
      else if from_option (λ ent, negb (re_account_id ent =? co_account_id msg)) false
                (e_registry e !! co_order_id msg)
      then reject UnknownOrderIdReason
      else
        match cancel (e_book e) (co_order_id msg) with
        | (b, Ok _) =>
            let e := unregister (set_book e b) (co_order_id msg) in
            emit_exec_report_cancelled e (co_order_id msg) (co_account_id msg) UserRequested recv_ts
        | (b, Err _) =>
            emit_rejected (set_book e b) (co_order_id msg) (co_account_id msg) UnknownOrderIdReason
              recv_ts
        end
  end.

(** ** [CancelReplace] *)

(** The residual of a committed replace. *)
Definition rest_replaced e (msg : CancelReplace) (old_entry : option OrderRegistryEntry)
    (remaining : Qty) recv_ts : outcome Eng :=
  let resting_notional := notional_of (cr_new_price msg) remaining in
  match on_order_resting (e_risk e) (cr_account_id msg) resting_notional with
  | (r, Err reason) =>
      let e := set_risk e r in
      let e := set_book e (fst (cancel (e_book e) (cr_order_id msg))) in
      emit_rejected e (cr_order_id msg) (cr_account_id msg) reason recv_ts
  | (r, Ok _) =>
      let e := set_risk e r in
      Ret (set_registry e
             (<[cr_order_id msg := mkEntry (cr_account_id msg) (from_option re_side Bid old_entry)
                                     remaining resting_notional]> (e_registry e)))
  end.

(** The replace committed: refund and forget the old incarnation, acknowledge, report
    the fills, and dispose of the residual. *)
Definition commit_replace e (msg : CancelReplace) (old_entry : option OrderRegistryEntry)
    (match_result : option MatchResult) recv_ts : outcome Eng :=
  let e :=
    match old_entry with
    | Some entry =>
        set_risk e (on_order_removed (e_risk e) (re_account_id entry) (re_notional entry))
    | None => e
    end in
  let e := set_registry e (delete (cr_order_id msg) (e_registry e)) in
  let! e := emit_exec_report_replaced e (cr_order_id msg) (cr_account_id msg)
              (cr_new_qty msg) recv_ts in
  let! e := emit_fills_for_taker e (cr_order_id msg) (cr_account_id msg) (cr_new_qty msg) recv_ts in
  let! e := emit_stp_cancels e recv_ts in
  let '(taker_stp_cancelled, taker_remaining) :=
    match match_result with
    | Some r => (mr_taker_stp_cancelled r, mr_taker_remaining r)
    | None => (false, Some (cr_new_qty msg))
    end in
  if taker_stp_cancelled then
    emit_exec_report_cancelled e (cr_order_id msg) (cr_account_id msg) SelfTradePrevented recv_ts
  else
    match taker_remaining with
    | Some remaining => rest_replaced e msg old_entry remaining recv_ts
    | None => Ret e
    end.

Definition handle_cancel_replace e (msg : CancelReplace) recv_ts : outcome Eng :=
  let reject e reason := emit_rejected e (cr_order_id msg) (cr_account_id msg) reason recv_ts in
  match check_cancel_replace (e_risk e) msg with
  | Err reason => reject e reason
  | Ok _ =>
      if is_kill_switched (e_risk e) then reject e KillSwitched
      else
        let old_entry := e_registry e !! cr_order_id msg in
        if from_option (λ ent, negb (re_account_id ent =? cr_account_id msg)) false old_entry
        then reject e UnknownOrderIdReason
        else
          let! '(b, ids, fills, stp, replaced) :=
            replace (e_book e) (cr_order_id msg) (cr_new_price msg) (cr_new_qty msg) (e_ids e) [] [] in
          let e := set_match e b ids fills stp in
          match replaced with
          | Err _ => reject e UnknownOrderIdReason
          | Ok replaced =>
              if from_option mr_taker_post_only_rejected false (rp_match_result replaced)
              then reject e PostOnlyWouldCross
              else
                commit_replace e msg old_entry (rp_match_result replaced) recv_ts
          end
  end.

(** ** [MassCancel] and [KillSwitchSet] *)

Fixpoint mass_cancel_loop recv_ts (mcs : list MassCancellation) e : outcome Eng :=
  match mcs with
  | [] => Ret e
  | mc :: rest =>
      let! e := emit_exec_report_cancelled (unregister e (mc_order_id mc)) (mc_order_id mc)
                  (mc_account_id mc) MassCancelReason recv_ts in
      mass_cancel_loop recv_ts rest e
  end.

Definition handle_mass_cancel e (msg : MassCancel) recv_ts : outcome Eng :=
  match check_mass_cancel (e_risk e) msg with
  | Err reason => emit_rejected_mass e (mcl_account_id msg) reason recv_ts
  | Ok _ =>
      if is_kill_switched (e_risk e) then
        emit_rejected_mass e (mcl_account_id msg) KillSwitched recv_ts
      else
        let '(b, out, _) := mass_cancel (e_book e) (mcl_account_id msg) [] in
        mass_cancel_loop recv_ts out (set_mass e b out)
  end.

Definition handle_kill_switch e (msg : KillSwitchSet) : Eng :=
  let engaged := match ks_state msg with Halt => true | Resume => false end in
  set_risk e (set_kill_switch (e_risk e) engaged).

(** ** [Engine::step] *)

Definition handle e (inbound : Inbound) recv_ts : outcome Eng :=
  match inbound with
  | In_NewOrder msg => handle_new_order e msg recv_ts
  | In_CancelOrder msg => handle_cancel_order e msg recv_ts
  | In_CancelReplace msg => handle_cancel_replace e msg recv_ts
  | In_MassCancel msg => handle_mass_cancel e msg recv_ts
  | In_KillSwitchSet msg => Ret (handle_kill_switch e msg)
  | In_SnapshotRequest msg => handle_snapshot_request e msg recv_ts
  end.

Definition emit_book_changes (inbound : Inbound) : bool :=
  match inbound with In_KillSwitchSet _ | In_SnapshotRequest _ => false | _ => true end.

Definition step e (inbound : Inbound) : outcome Eng :=
  let '(recv_ts, clock) := now (e_clock e) in
  let e := set_clock e clock in
  if emit_book_changes inbound then
    let e := set_pre_step_levels e (capture_levels (e_book e)) in
    let! e := handle e inbound recv_ts in
    let e := set_post_step_levels e (capture_levels (e_book e)) in
    let! e := emit_l2_deltas e in
    emit_book_update_top e
  else handle e inbound recv_ts.

(** A session: commands in arrival order. *)
Fixpoint run e (inbounds : list Inbound) : outcome Eng :=
  match inbounds with
  | [] => Ret e
  | m :: rest => let! e := step e m in run e rest
  end.

End Engine.

#[global] Arguments emit_one_fill : simpl never.
#[global] Arguments emit_with : simpl never.
#[global] Arguments step : simpl never.
