(* ===== verification/EngineInv.v ===== *)
(** * EngineInv: what the engine keeps in step with the book

    [mirror reg r os]: the order registry [reg] and the risk counters [r]
    describe exactly the resting orders [os].  The file proves how each
    book-keeping hook moves the mirror, and [ext], the part of every engine
    operation that only concerns the outbound stream: which messages were emitted,
    that their sequence numbers are consecutive, and how many ids were spent. *)

From S2P Require Import Prelude BTree Domain PriceLevel Book BookSpec BookInv BookMatch BookOps BookReplace Messages Ids Risk Engine.

(** ** Exposure *)

Definition order_notional (q : QOrder) : Z := q_price q * q_qty q.

Definition entry_of (so : Side * QOrder) : OrderRegistryEntry :=
  mkEntry (q_account so.2) so.1 (q_qty so.2) (order_notional so.2).

Definition exposure (a : AccountId) (os : list (Side * QOrder)) : Z :=
  foldr (λ so acc, (if q_account so.2 =? a then order_notional so.2 else 0) + acc) 0 os.

Definition open_count (a : AccountId) (os : list (Side * QOrder)) : Z :=
  foldr (λ so acc, (if q_account so.2 =? a then 1 else 0) + acc) 0 os.

#[global] Instance exposure_proper a : Proper ((≡ₚ) ==> eq) (exposure a).
Proof. intros os1 os2. unfold exposure. induction 1; simpl; lia. Qed.

#[global] Instance open_count_proper a : Proper ((≡ₚ) ==> eq) (open_count a).
Proof. intros os1 os2. unfold open_count. induction 1; simpl; lia. Qed.

Lemma open_count_nonneg a os : 0 <= open_count a os.
Proof. unfold open_count. induction os as [|so os IH]; simpl; [lia|]. destruct (_ =? _); lia. Qed.

(** The resting orders of a book. *)
Definition book_orders {L} `{!PriceLevelOps L} (b : Book L) : list (Side * QOrder) :=
  (pair Bid <$> side_queue b Bid) ++ (pair Ask <$> side_queue b Ask).

Lemma book_orders_side {L} `{!PriceLevelOps L} (b : Book L) s :
  book_orders b ≡ₚ (pair s <$> side_queue b s) ++
                   (pair (Side_opposite s) <$> side_queue b (Side_opposite s)).
Proof. destruct s; simpl; [done|]. unfold book_orders. by rewrite Permutation_app_comm. Qed.

(** ** The risk counters *)

Definition acct (r : RiskState) (a : AccountId) : AccountState :=
  default AccountState_default (per_account r !! a).

Lemma notional_of_exact p q : price_ok p → qty_ok q → notional_of p q = p * q.
Proof.
  rewrite price_ok_pos, qty_ok_pos. unfold notional_of, i64_as_u128, wrap_u128, i64_max, u64_max.
  intros Hp Hq. rewrite (Z.mod_small p) by lia. apply Z.mod_small. nia.
Qed.

Lemma acct_on_order_removed r a n a' :
  0 <= n <= notional (acct r a) → 0 <= open_orders (acct r a) →
  notional (acct (on_order_removed r a n) a') =
    notional (acct r a') - (if a' =? a then n else 0) ∧
  open_orders (acct (on_order_removed r a n) a') =
    (if a' =? a then Z.max 0 (open_orders (acct r a) - 1) else open_orders (acct r a')).
Proof.
  unfold acct, on_order_removed, saturating_sub. destruct (Z.eqb_spec a' a) as [->|Hne].
  - destruct (per_account r !! a) as [ent|] eqn:Ha; simpl.
    + intros Hn Ho. destruct (Z.eqb_spec (Z.max 0 (open_orders ent - 1)) 0) as [E1|];
        [destruct (Z.eqb_spec (Z.max 0 (notional ent - n)) 0) as [E2|]|]; simpl;
        rewrite ?lookup_delete_eq, ?lookup_insert_eq; simpl; lia.
    + rewrite Ha. simpl. lia.
  - intros _ _. destruct (per_account r !! a) as [ent|]; [|lia].
    destruct (_ && _); simpl; rewrite ?lookup_delete_ne, ?lookup_insert_ne by done; lia.
Qed.

Lemma acct_on_order_resting_ok r a n r' u a' :
  on_order_resting r a n = (r', Ok u) →
  acct r' a' = (if a' =? a then mkAccountState (open_orders (acct r a) + 1) (notional (acct r a) + n)
                else acct r a') ∧
  notional (acct r a) + n <= MAX_NOTIONAL_PER_ACCT ∧
  open_orders (acct r a) + 1 <= MAX_OPEN_ORDERS_PER_ACCT.
Proof.
  unfold on_order_resting, checked_add. fold (acct r a). case_decide; [|done].
  destruct (Z.ltb_spec MAX_OPEN_ORDERS_PER_ACCT (open_orders (acct r a) + 1)); [done|].
  case_decide; [|done]. destruct (Z.ltb_spec MAX_NOTIONAL_PER_ACCT (notional (acct r a) + n)); [done|].
  intros [= <- <-]. split; [|lia]. unfold acct at 1. simpl. rewrite insert_insert_eq.
  destruct (Z.eqb_spec a' a) as [->|]; [by rewrite lookup_insert_eq|by rewrite lookup_insert_ne].
Qed.

Lemma acct_on_order_resting_err r a n r' e a' :
  on_order_resting r a n = (r', Err e) → acct r' a' = acct r a'.
Proof.
  assert (Hacct : ∀ r0, r0 = set_accounts r (<[a := acct r a]> (per_account r)) →
    acct r0 a' = acct r a').
  { intros r0 ->. unfold acct at 1. simpl. destruct (decide (a = a')) as [<-|].
    - by rewrite lookup_insert_eq.
    - by rewrite lookup_insert_ne. }
  unfold on_order_resting. fold (acct r a). 
  destruct (checked_add u32_max _ _); [|intros [= <- <-]; by apply Hacct].
  destruct (_ <? _); [intros [= <- <-]; by apply Hacct|].
  destruct (checked_add u128_max _ _); [|intros [= <- <-]; by apply Hacct].
  destruct (_ <? _); [intros [= <- <-]; by apply Hacct|done].
Qed.

(** The hooks leave the kill switch and the reference price alone. *)
Definition risk_frame (r r' : RiskState) : Prop :=
  kill_switch r' = kill_switch r ∧ last_trade_price r' = last_trade_price r.

Lemma frame_on_order_removed r a n : risk_frame r (on_order_removed r a n).
Proof. unfold on_order_removed. destruct (per_account r !! a); [destruct (_ && _)|]; done. Qed.

Lemma frame_on_order_resting r a n : risk_frame r (fst (on_order_resting r a n)).
Proof.
  unfold on_order_resting. destruct (checked_add u32_max _ _); [|done].
  destruct (_ <? _); [done|]. destruct (checked_add u128_max _ _); [|done]. by destruct (_ <? _).
Qed.

(** ** The mirror *)

Definition resting_fields_ok (so : Side * QOrder) : Prop :=
  order_id_ok (q_id so.2) ∧ account_id_ok (q_account so.2) ∧ price_ok (q_price so.2) ∧
  qty_ok (q_qty so.2).

Record mirror (reg : gmap OrderId OrderRegistryEntry) (r : RiskState) (os : list (Side * QOrder))
  : Prop := {
  mi_ids : NoDup ((λ so, q_id so.2) <$> os);
  mi_fields : Forall resting_fields_ok os;
  mi_reg id ent : reg !! id = Some ent ↔ ∃ so, so ∈ os ∧ q_id so.2 = id ∧ ent = entry_of so;
  mi_notional a : notional (acct r a) = exposure a os;
  mi_open a : 0 <= open_orders (acct r a) <= open_count a os;
  mi_cap a : notional (acct r a) <= MAX_NOTIONAL_PER_ACCT;
}.

#[global] Instance mirror_proper reg r : Proper ((≡ₚ) ==> iff) (mirror reg r).
Proof.
  assert (∀ os os', os ≡ₚ os' → mirror reg r os → mirror reg r os') as H.
  { intros os os' Hp [H1 H2 H3 H4 H5 H6]. split; try done.
    - by rewrite <-Hp.
    - by rewrite <-Hp.
    - intros id ent. rewrite H3. by setoid_rewrite Hp.
    - intros a. by rewrite <-Hp.
    - intros a. by rewrite <-Hp. }
  intros os os' Hp. split; by apply H.
Qed.

Lemma mirror_risk_ext reg r r' os :
  per_account r' = per_account r → mirror reg r os → mirror reg r' os.
Proof. intros Heq []. split; try done; unfold acct; by rewrite Heq. Qed.

Lemma order_notional_pos so : resting_fields_ok so → 0 < order_notional so.2.
Proof.
  intros (_ & _ & Hp & Hq). apply price_ok_pos in Hp. apply qty_ok_pos in Hq.
  unfold order_notional. nia.
Qed.

Lemma exposure_nonneg a os : Forall resting_fields_ok os → 0 <= exposure a os.
Proof.
  unfold exposure. induction 1 as [|so os Hso Hos IH]; simpl; [lia|].
  apply order_notional_pos in Hso. destruct (_ =? _); lia.
Qed.

Section MirrorMoves.
Context (reg : gmap OrderId OrderRegistryEntry) (r : RiskState) (s : Side) (q : QOrder)
  (os : list (Side * QOrder)).

Lemma mirror_head : mirror reg r ((s, q) :: os) → reg !! q_id q = Some (entry_of (s, q)).
Proof. intros Hm. apply (mi_reg _ _ _ Hm). exists (s, q). set_solver. Qed.

Lemma mirror_fresh id :
  mirror reg r os → id ∉ (λ so, q_id so.2) <$> os → reg !! id = None.
Proof.
  intros Hm Hid. destruct (reg !! id) as [ent|] eqn:He; [|done]. exfalso.
  apply (mi_reg _ _ _ Hm) in He as (so & Hso & <- & _). apply Hid. by apply (list_elem_of_fmap_2 (λ so, q_id so.2)).
Qed.

Lemma mirror_remove :
  mirror reg r ((s, q) :: os) →
  mirror (delete (q_id q) reg) (on_order_removed r (q_account q) (order_notional q)) os.
Proof.
  intros Hm. pose proof (mi_ids _ _ _ Hm) as Hnd. csimpl in Hnd. apply NoDup_cons in Hnd as [Hid Hnd].
  pose proof (mi_fields _ _ _ Hm) as Hf. apply Forall_cons in Hf as [Hq Hf].
  pose proof (order_notional_pos _ Hq) as Hpos. simpl in Hpos.
  pose proof (mi_notional _ _ _ Hm (q_account q)) as Hn. simpl in Hn. rewrite Z.eqb_refl in Hn.
  pose proof (exposure_nonneg (q_account q) os Hf) as Hex. 
  pose proof (λ a', acct_on_order_removed r (q_account q) (order_notional q) a' ltac:(lia)
    ltac:(apply (mi_open _ _ _ Hm))) as Hacct.
  split; try done.
  - intros id ent. rewrite lookup_delete_Some, (mi_reg _ _ _ Hm). split.
    + intros [Hne (so & Hso & <- & ->)]. exists so. apply elem_of_cons in Hso as [->|?]; [done|auto].
    + intros (so & Hso & <- & ->). split; [|exists so; set_solver]. intros Heq. apply Hid.
      rewrite Heq. by apply (list_elem_of_fmap_2 (λ so, q_id so.2)).
  - intros a. rewrite (proj1 (Hacct a)), (mi_notional _ _ _ Hm a). simpl.
    rewrite (Z.eqb_sym (q_account q) a). destruct (_ =? _); lia.
  - intros a. rewrite (proj2 (Hacct a)). pose proof (mi_open _ _ _ Hm a) as Ho. simpl in Ho.
    pose proof (mi_open _ _ _ Hm (q_account q)) as Ho'. simpl in Ho'. rewrite Z.eqb_refl in Ho'.
    pose proof (open_count_nonneg a os). rewrite (Z.eqb_sym (q_account q) a) in Ho.
    destruct (Z.eqb_spec a (q_account q)) as [Ha|]; [subst a|]; lia.
  - intros a. rewrite (proj1 (Hacct a)). pose proof (mi_cap _ _ _ Hm a). destruct (_ =? _); lia.
Qed.

Lemma mirror_shrink n :
  0 < n < q_qty q → mirror reg r ((s, q) :: os) →
  mirror (<[q_id q := entry_of (s, q_with_qty q n)]> reg)
    (on_order_removed r (q_account q) (q_price q * (q_qty q - n))) ((s, q_with_qty q n) :: os).
Proof.
  intros Hn Hm. pose proof (mi_ids _ _ _ Hm) as Hnd. csimpl in Hnd.
  apply NoDup_cons in Hnd as Hnd'. destruct Hnd' as [Hid _].
  pose proof (mi_fields _ _ _ Hm) as Hf. apply Forall_cons in Hf as [Hq Hf].
  pose proof (mi_notional _ _ _ Hm (q_account q)) as Hno. simpl in Hno. rewrite Z.eqb_refl in Hno.
  pose proof (exposure_nonneg (q_account q) os Hf) as Hex.
  destruct Hq as (Hidok & Hacok & Hp & Hqty). simpl in *.
  assert (Hp0 := Hp). apply price_ok_pos in Hp0. assert (Hq0 := Hqty). apply qty_ok_pos in Hq0.
  assert (Hk : 0 <= q_price q * (q_qty q - n) <= order_notional q) by (unfold order_notional; nia).
  pose proof (λ a', acct_on_order_removed r (q_account q) (q_price q * (q_qty q - n)) a' ltac:(lia)
    ltac:(apply (mi_open _ _ _ Hm))) as Hacct.
  split; try done.
  - constructor; [|done]. split_and!; try done. apply qty_ok_pos. simpl. lia.
  - intros id ent. rewrite lookup_insert_Some, (mi_reg _ _ _ Hm). split.
    + intros [[<- <-]|[Hne (so & Hso & <- & ->)]].
      * exists (s, q_with_qty q n). set_solver.
      * exists so. apply elem_of_cons in Hso as [->|?]; [done|set_solver].
    + intros (so & Hso & <- & ->). apply elem_of_cons in Hso as [->|Hso]; [by left|right].
      split; [|exists so; set_solver]. intros Heq. apply Hid. rewrite Heq.
      by apply (list_elem_of_fmap_2 (λ so, q_id so.2)).
  - intros a. rewrite (proj1 (Hacct a)), (mi_notional _ _ _ Hm a). simpl. unfold order_notional. simpl.
    rewrite (Z.eqb_sym (q_account q) a). destruct (_ =? _); lia.
  - intros a. rewrite (proj2 (Hacct a)). pose proof (mi_open _ _ _ Hm a) as Ho. simpl in Ho |- *.
    pose proof (open_count_nonneg a os). rewrite (Z.eqb_sym (q_account q) a) in *.
    destruct (Z.eqb_spec a (q_account q)) as [Ha|]; [subst a|]; lia.
  - intros a. rewrite (proj1 (Hacct a)). pose proof (mi_cap _ _ _ Hm a). destruct (_ =? _); lia.
Qed.

Lemma mirror_add r' u :
  mirror reg r os → resting_fields_ok (s, q) → q_id q ∉ (λ so, q_id so.2) <$> os →
  on_order_resting r (q_account q) (order_notional q) = (r', Ok u) →
  mirror (<[q_id q := entry_of (s, q)]> reg) r' ((s, q) :: os).
Proof.
  intros Hm Hq Hid Hr. pose proof (λ a, acct_on_order_resting_ok _ _ _ _ _ a Hr) as Hacct. split.
  - csimpl. apply NoDup_cons. split; [done|apply Hm].
  - constructor; [done|apply Hm].
  - intros id ent. rewrite lookup_insert_Some, (mi_reg _ _ _ Hm). split.
    + intros [[<- <-]|[Hne (so & Hso & <- & ->)]]; [exists (s, q)|exists so]; set_solver.
    + intros (so & Hso & <- & ->). apply elem_of_cons in Hso as [->|Hso]; [by left|right].
      split; [|exists so; set_solver]. intros Heq. apply Hid. rewrite Heq.
      by apply (list_elem_of_fmap_2 (λ so, q_id so.2)).
  - intros a. rewrite (proj1 (Hacct a)). simpl. rewrite (Z.eqb_sym (q_account q) a).
    destruct (Z.eqb_spec a (q_account q)) as [Ha|]; [subst a|]; simpl; rewrite (mi_notional _ _ _ Hm); lia.
  - intros a. rewrite (proj1 (Hacct a)). simpl. rewrite (Z.eqb_sym (q_account q) a).
    destruct (Z.eqb_spec a (q_account q)) as [Ha|]; [subst a|]; simpl; [|apply (mi_open _ _ _ Hm)].
    pose proof (mi_open _ _ _ Hm (q_account q)). lia.
  - intros a. destruct (Hacct a) as (-> & ? & _). destruct (_ =? _); simpl; [lia|apply Hm].
Qed.

Lemma mirror_resting_err a n r' e :
  mirror reg r os → on_order_resting r a n = (r', Err e) → mirror reg r' os.
Proof.
  intros Hm Hr. split; try apply Hm; intros a';
    rewrite (acct_on_order_resting_err _ _ _ _ _ a' Hr); apply Hm.
Qed.

End MirrorMoves.

(** ** The outbound stream *)

Section Stream.
Context {L C I Snk : Type} `{!PriceLevelOps L} `{!Clock C} `{!IdGenerator I} `{!IdGeneratorLaws I}
  `{!OutboundSink Snk}.
Local Abbreviation Eng := (Engine L C I Snk).
Implicit Types (e : Eng).

(** [e'] emitted [msgs], all satisfying [Φ], after [e], with consecutive sequence
    numbers, and spent at most [k] ids. *)
Record stream (Φ : Outbound → Prop) (k : nat) e e' (msgs : list Outbound) : Prop := {
  ext_sink : e_sink e' = foldl emit (e_sink e) msgs;
  ext_seqs : outbound_seq <$> msgs = seqZ (seq_mark (e_ids e)) (Z.of_nat (length msgs));
  ext_mark : seq_mark (e_ids e') = seq_mark (e_ids e) + Z.of_nat (length msgs);
  ext_cap : (id_cap (e_ids e) <= k + id_cap (e_ids e'))%nat;
  ext_ok : Forall Φ msgs;
}.

Lemma ext_refl Φ e e' : e_sink e' = e_sink e → e_ids e' = e_ids e → stream Φ 0 e e' [].
Proof. intros Hs Hi. split; simpl; rewrite ?Hs, ?Hi; try done; lia. Qed.

Lemma ext_trans Φ k1 k2 e1 e2 e3 m1 m2 :
  stream Φ k1 e1 e2 m1 → stream Φ k2 e2 e3 m2 → stream Φ (k1 + k2) e1 e3 (m1 ++ m2).
Proof.
  intros [S1 Q1 M1 C1 F1] [S2 Q2 M2 C2 F2]. split.
  - by rewrite S2, S1, foldl_app.
  - rewrite fmap_app, length_app, Nat2Z.inj_add, seqZ_app by lia. by rewrite Q1, Q2, M1.
  - rewrite length_app. lia.
  - lia.
  - by apply Forall_app.
Qed.

Lemma ext_weaken Φ k k' e e' msgs : stream Φ k e e' msgs → (k <= k')%nat → stream Φ k' e e' msgs.
Proof. intros [] ?. split; try done. lia. Qed.

Lemma ext_impl (Φ Ψ : Outbound → Prop) k e e' msgs :
  (∀ m, Φ m → Ψ m) → stream Φ k e e' msgs → stream Ψ k e e' msgs.
Proof. intros H []. split; try done. by eapply Forall_impl. Qed.

(** The ids spent by a match. *)
Lemma ext_match Φ k e e' :
  e_sink e' = e_sink e → seq_mark (e_ids e') = seq_mark (e_ids e) →
  (id_cap (e_ids e) <= k + id_cap (e_ids e'))%nat → stream Φ k e e' [].
Proof. intros Hs Hm Hc. split; simpl; rewrite ?Hs, ?Hm; try done; lia. Qed.

(** Everything but the clock, the ids and the sink. *)
Record same_core e e' : Prop := {
  sc_book : e_book e' = e_book e;
  sc_risk : e_risk e' = e_risk e;
  sc_registry : e_registry e' = e_registry e;
  sc_fills : e_fills_buf e' = e_fills_buf e;
  sc_stp : e_stp_buf e' = e_stp_buf e;
  sc_mass : e_mass_buf e' = e_mass_buf e;
  sc_pre : e_pre_step_levels e' = e_pre_step_levels e;
  sc_post : e_post_step_levels e' = e_post_step_levels e;
}.

Lemma emit_with_ok (Φ : Outbound → Prop) e (mk : EngineSeq → RecvTs → Outbound) :
  (0 < id_cap (e_ids e))%nat → (∀ s ts, outbound_seq (mk s ts) = s ∧ Φ (mk s ts)) →
  wp False (emit_with e mk)
    (λ e', same_core e e' ∧ ∃ ts, stream Φ 1 e e' [mk (seq_mark (e_ids e)) ts]).
Proof.
  intros Hc Hmk. unfold emit_with. destruct (next_seq_law (e_ids e) Hc) as (i' & -> & Hm & _ & Hcap).
  simpl. destruct (now (e_clock e)) as [ts c]. simpl. split; [by split|].
  destruct (Hmk (seq_mark (e_ids e)) ts) as [Hseq Hmok].
  exists ts. split; simpl; try done; try lia; [by rewrite Hseq|by constructor].
Qed.

(** The same, when only the length of the stream matters. *)
Lemma emit_with_ext Φ e (mk : EngineSeq → RecvTs → Outbound) :
  (0 < id_cap (e_ids e))%nat → (∀ s ts, outbound_seq (mk s ts) = s ∧ Φ (mk s ts)) →
  wp False (emit_with e mk) (λ e', same_core e e' ∧ ∃ msgs, stream Φ 1 e e' msgs).
Proof.
  intros Hc Hmk. eapply wp_conseq; [by apply emit_with_ok|]. intros e' [? [ts ?]]. eauto.
Qed.

End Stream.

(** What a handler emits: well-formed reports, no book update. *)
Definition is_book_update (m : Outbound) : bool :=
  match m with Out_BookUpdateTop _ | Out_BookUpdateL2Delta _ => true | _ => false end.

Definition quiet_ok (m : Outbound) : Prop := outbound_ok m ∧ is_book_update m = false.

Abbreviation ext := (stream quiet_ok).
