(* ===== verification/EngineFills.v ===== *)
(** * EngineFills: reporting fills and self-trade cancels

    The two loops shared by the new-order and cancel-replace handlers keep the
    registry and the risk counters in step with what the match did to the book. *)

From S2P Require Import Prelude BTree Domain PriceLevel Book BookSpec BookInv BookMatch BookOps BookReplace Messages Ids Risk Engine EngineInv.

Section Fills.
Context {L C I Snk : Type} `{!PriceLevelOps L} `{!Clock C} `{!IdGenerator I} `{!IdGeneratorLaws I}
  `{!OutboundSink Snk}.
Local Abbreviation Eng := (Engine L C I Snk).
Implicit Types (e : Eng).

Definition last_ok e : Prop := ∀ p, last_trade_price (e_risk e) = Some p → price_ok p.

(** What book-keeping never touches. *)
Record frame e e' : Prop := {
  fr_book : e_book e' = e_book e;
  fr_fills : e_fills_buf e' = e_fills_buf e;
  fr_stp : e_stp_buf e' = e_stp_buf e;
  fr_pre : e_pre_step_levels e' = e_pre_step_levels e;
  fr_kill : kill_switch (e_risk e') = kill_switch (e_risk e);
  fr_last : last_ok e → last_ok e';
}.

Lemma frame_refl e : frame e e.
Proof. by split. Qed.

Lemma frame_trans e1 e2 e3 : frame e1 e2 → frame e2 e3 → frame e1 e3.
Proof. intros [] []. split; try congruence; auto. Qed.

Lemma same_core_frame e e' : same_core e e' → frame e e'.
Proof. intros H. split; try apply H; unfold last_ok; by rewrite (sc_risk _ _ H). Qed.

Definition mirrored e (os : list (Side * QOrder)) : Prop := mirror (e_registry e) (e_risk e) os.

Lemma mirrored_same_core e e' os : same_core e e' → mirrored e os → mirrored e' os.
Proof. intros H. unfold mirrored. by rewrite (sc_risk _ _ H), (sc_registry _ _ H). Qed.

Lemma mirrored_perm e os os' : os ≡ₚ os' → mirrored e os → mirrored e os'.
Proof. unfold mirrored. by intros ->. Qed.

(** ** Execution reports *)

(** A literal report has the fields its state asks for, and they are valid. *)
Local Ltac report_ok :=
  intros; split; [done|]; split; [|done];
  simpl; unfold exec_report_ok; simpl; split_and!; try done; by intros ? [= <-].

Lemma emit_rejected_ok e oid aid reason ts :
  (0 < id_cap (e_ids e))%nat → order_id_ok oid → account_id_ok aid →
  wp False (emit_rejected e oid aid reason ts) (λ e', same_core e e' ∧ ∃ msgs, ext 1 e e' msgs).
Proof. intros. apply emit_with_ext; [done|]. report_ok. Qed.

Lemma emit_cancelled_ok e oid aid reason ts :
  (0 < id_cap (e_ids e))%nat → order_id_ok oid → account_id_ok aid →
  wp False (emit_exec_report_cancelled e oid aid reason ts)
    (λ e', same_core e e' ∧ ∃ msgs, ext 1 e e' msgs).
Proof. intros. apply emit_with_ext; [done|]. report_ok. Qed.

Lemma emit_accepted_ok e oid aid q ts :
  (0 < id_cap (e_ids e))%nat → order_id_ok oid → account_id_ok aid → qty_ok q →
  wp False (emit_exec_report_accepted e oid aid q ts)
    (λ e', same_core e e' ∧ ∃ msgs, ext 1 e e' msgs).
Proof. intros. apply emit_with_ext; [done|]. report_ok. Qed.

Lemma emit_replaced_ok e oid aid q ts :
  (0 < id_cap (e_ids e))%nat → order_id_ok oid → account_id_ok aid → qty_ok q →
  wp False (emit_exec_report_replaced e oid aid q ts)
    (λ e', same_core e e' ∧ ∃ msgs, ext 1 e e' msgs).
Proof. intros. apply emit_with_ext; [done|]. report_ok. Qed.

Lemma emit_fill_ok e oid aid (full : bool) p q leaves ts :
  (0 < id_cap (e_ids e))%nat → order_id_ok oid → account_id_ok aid → price_ok p → qty_ok q →
  (if full then leaves = None else ∃ l, leaves = Some l ∧ qty_ok l) →
  wp False (emit_exec_report_fill e oid aid (if full then Filled else PartiallyFilled) p q leaves ts)
    (λ e', same_core e e' ∧ ∃ msgs, ext 1 e e' msgs).
Proof.
  intros Hc Ho Ha Hp Hq Hl. apply emit_with_ext; [done|]. intros s ts'. split; [done|].
  split; [|done]. simpl. unfold exec_report_ok. simpl. split_and!; try done.
  - by intros p' [= <-].
  - by intros q' [= <-].
  - intros l Hl'. simpl in Hl'. destruct full; [congruence|]. destruct Hl as (l' & ? & ?). by simplify_eq.
  - destruct full; simpl; [by rewrite Hl|]. by destruct Hl as (l' & -> & ?).
Qed.

(** ** One fill *)

(** The fill [f] consumes [n] lots of the resting order [h]. *)
Record fill_of (f : Fill) (h : QOrder) (n : Z) : Prop := {
  fo_view : fill_view f = mkQFill (q_id h) (q_price h) n (n =? q_qty h);
  fo_qty : 0 < n <= q_qty h;
}.

(** The resting order after the fill. *)
Definition after_fill s (h : QOrder) (n : Z) : list (Side * QOrder) :=
  if n =? q_qty h then [] else [(s, q_with_qty h (q_qty h - n))].

Lemma settle_maker_ok e f s h n os :
  fill_of f h n → mirrored e ((s, h) :: os) →
  mirrored (settle_maker e f) (after_fill s h n ++ os) ∧ frame e (settle_maker e f) ∧
  e_sink (settle_maker e f) = e_sink e ∧ e_ids (settle_maker e f) = e_ids e.
Proof.
  intros [Hv Hn] Hm. destruct f as [t mk tk ms fp fq full]. unfold fill_view in Hv. simplify_eq/=.
  assert (Hmf : mirror (e_registry e) (on_fill (e_risk e) (q_price h)) ((s, h) :: os))
    by by apply (mirror_risk_ext _ (e_risk e)).
  pose proof (mirror_head _ _ _ _ _ Hmf) as Hreg.
  pose proof (mi_fields _ _ _ Hm) as Hf. apply Forall_cons in Hf as [(_ & _ & Hp & Hq) _]. simpl in Hp, Hq.
  assert (Hlast : ∀ r, risk_frame (on_fill (e_risk e) (q_price h)) r →
            kill_switch r = kill_switch (e_risk e) ∧ ∀ p, last_trade_price r = Some p → price_ok p).
  { intros r [Hk Hl]. split; [done|]. intros p. rewrite Hl. simpl. by intros [= <-]. }
  unfold settle_maker. simpl. rewrite Hreg. unfold mirrored, after_fill.
  apply qty_ok_pos in Hq as Hq'.
  destruct (Z.eqb_spec n (q_qty h)) as [Heq|Hne]; simpl.
  - split; [by apply (mirror_remove _ _ s h)|]. split; [|done].
    destruct (Hlast _ (frame_on_order_removed _ (q_account h) (order_notional h))).
    by split; simpl.
  - assert (Hqn : qty_ok n) by (apply qty_ok_pos; lia).
    rewrite notional_of_exact by done. unfold saturating_sub, order_notional.
    pose proof (price_ok_pos (q_price h)) as Hpp. apply Hpp in Hp as Hp'.
    rewrite (Z.max_r 0 (q_qty h - n)) by lia.
    rewrite Qty_new_pos by lia. simpl.
    replace (Z.max 0 (q_price h * q_qty h - q_price h * n)) with (q_price h * (q_qty h - n)) by nia.
    split.
    + pose proof (mirror_shrink _ _ s h os (q_qty h - n) ltac:(lia) Hmf) as Hs.
      by replace (q_qty h - (q_qty h - n)) with n in Hs by lia.
    + split; [|done]. destruct (Hlast _ (frame_on_order_removed _ (q_account h) (q_price h * n))).
      by split; simpl.
Qed.

Lemma emit_one_fill_ok e f s h n os rem tid taid ts :
  fill_of f h n → mirrored e ((s, h) :: os) → n <= rem <= u64_max →
  order_id_ok tid → account_id_ok taid → (3 <= id_cap (e_ids e))%nat →
  wp False (emit_one_fill tid taid ts f (e, rem))
    (λ '(e', rem'), rem' = rem - n ∧ frame e e' ∧ mirrored e' (after_fill s h n ++ os) ∧
       ∃ msgs, ext 3 e e' msgs).
Proof.
  intros Hf Hm Hrem Htid Htaid Hc. destruct Hf as [Hv Hn] eqn:HF. clear HF.
  pose proof (mi_fields _ _ _ Hm) as Hfs. apply Forall_cons in Hfs as [(Hid & Hac & Hp & Hq) _].
  simpl in *. apply qty_ok_pos in Hq as Hq'.
  assert (Hmk : f_maker_order_id f = q_id h ∧ f_price f = q_price h ∧ f_qty f = n ∧
                f_maker_fully_filled f = (n =? q_qty h)).
  { unfold fill_view in Hv. by simplify_eq. }
  destruct Hmk as (Hmk & Hfp & Hfq & Hff). assert (Hqn : qty_ok n) by (apply qty_ok_pos; lia).
  unfold emit_one_fill. rewrite Hfp, Hfq, Hmk, Hff. apply wp_bind. eapply wp_conseq.
  { apply (emit_with_ext quiet_ok e); [lia|]. intros sq ts'. unfold quiet_ok. simpl. rewrite Hfp, Hfq. done. }
  intros e1 [Hs1 [m1 X1]]. pose proof (ext_cap _ _ _ _ _ X1) as C1.
  rewrite (sc_registry _ _ Hs1), (mirror_head _ _ _ _ _ Hm). simpl. apply wp_bind. eapply wp_conseq.
  { apply (emit_fill_ok e1 _ _ (n =? q_qty h)); try done; [lia|].
    destruct (Z.eqb_spec n (q_qty h)); [done|]. unfold saturating_sub.
    rewrite Z.max_r, Qty_new_pos by lia. simpl. eexists. split; [done|]. apply qty_ok_pos. lia. }
  intros e2 [Hs2 [m2 X2]]. pose proof (ext_cap _ _ _ _ _ X2) as C2. apply wp_bind. eapply wp_conseq.
  { apply (emit_fill_ok e2 _ _ (saturating_sub rem n =? 0)); try done; [lia|].
    unfold saturating_sub. rewrite Z.max_r by lia. destruct (Z.eqb_spec (rem - n) 0); [done|].
    rewrite Qty_new_pos by lia. eexists. split; [done|]. apply qty_ok_pos. lia. }
  intros e3 [Hs3 [m3 X3]]. simpl. unfold saturating_sub. split; [lia|].
  assert (Hm3 : mirrored e3 ((s, h) :: os)) by (do 3 (eapply mirrored_same_core; [eassumption|]); done).
  destruct (settle_maker_ok e3 f s h n os ltac:(by split) Hm3) as (Hm' & Hfr & Hsk & Hids).
  split; [|split; [done|]].
  - eapply frame_trans; [|done]. do 2 (eapply frame_trans; [by apply same_core_frame|]).
    by apply same_core_frame.
  - exists (m1 ++ m2 ++ m3 ++ []). apply (ext_trans _ 1 2 e e1); [done|]. apply (ext_trans _ 1 1 e1 e2); [done|].
    apply (ext_trans _ 1 0 e2 e3); [done|]. by apply ext_refl.
Qed.

(** ** All the fills of a match *)

Local Arguments Nat.mul : simpl never.

Lemma emit_fills_loop_ok side limit a s tid taid ts other queue fills rem e :
  fill_view <$> fills = qm_fills (spec_match side limit a rem queue) →
  mirrored e ((pair s <$> queue) ++ other) → 0 <= rem <= u64_max →
  order_id_ok tid → account_id_ok taid → (3 * length fills <= id_cap (e_ids e))%nat →
  let m := spec_match side limit a rem queue in
  wp False (emit_fills_loop tid taid ts fills (e, rem))
    (λ '(e', _), frame e e' ∧ mirrored e' ((pair s <$> option_list (qm_stp m) ++ qm_rest m) ++ other) ∧
       ∃ msgs, ext (3 * length fills) e e' msgs).
Proof.
  intros Hf Hm Hrem Htid Htaid Hc m. subst m.
  revert fills rem e Hf Hm Hrem Hc. induction queue as [|h rest IH]; intros fills rem e Hf Hm Hrem Hc; simpl in *.
  { apply fmap_nil_inv in Hf as ->. simpl. split_and!; [apply frame_refl|done|]. exists []. by apply ext_refl. }
  assert (Hnil : fills = [] → ∀ os, mirrored e os → wp False (emit_fills_loop tid taid ts fills (e, rem))
    (λ '(e', _), frame e e' ∧ mirrored e' os ∧ ∃ msgs, ext (3 * length fills) e e' msgs)).
  { intros -> os Hos. simpl. split_and!; [apply frame_refl|done|]. exists []. by apply ext_refl. }
  destruct ((rem =? 0) || negb (crosses side limit (q_price h))) eqn:Hstop; simpl in *.
  { apply fmap_nil_inv in Hf. by apply Hnil. }
  destruct (q_account h =? a); simpl in *. { apply fmap_nil_inv in Hf. by apply Hnil. }
  apply orb_false_iff in Hstop as [Hr%Z.eqb_neq _].
  pose proof (mi_fields _ _ _ Hm) as Hfs. apply Forall_cons in Hfs as [(_ & _ & _ & Hq) _].
  apply qty_ok_pos in Hq. simpl in Hq.
  destruct (Z.leb_spec (q_qty h) rem); simpl in *.
  - destruct fills as [|f fs]; [done|]. csimpl in *. apply cons_inj in Hf as [Hf Hfs]. apply wp_bind.
    eapply wp_conseq.
    { apply (emit_one_fill_ok e f s h (q_qty h) ((pair s <$> rest) ++ other) rem);
        [split; [|lia]|done|lia|done|done|lia].
      by rewrite Z.eqb_refl. }
    intros [e1 rem1] (-> & Hfr & Hm1 & m1 & X1). pose proof (ext_cap _ _ _ _ _ X1) as C1.
    unfold after_fill in Hm1. rewrite Z.eqb_refl in Hm1. simpl in Hm1.
    eapply wp_conseq; [apply (IH fs _ e1 Hfs Hm1); lia|].
    intros [e2 rem2] (Hfr2 & Hm2 & m2 & X2). split_and!; [by eapply frame_trans|done|].
    exists (m1 ++ m2). replace (3 * S (length fs))%nat with (3 + 3 * length fs)%nat by lia.
    by eapply ext_trans.
  - destruct fills as [|f [|]]; [done| |done]. csimpl in *. apply cons_inj in Hf as [Hf _]. apply wp_bind.
    eapply wp_conseq.
    { apply (emit_one_fill_ok e f s h rem ((pair s <$> rest) ++ other) rem);
        [split; [|lia]|done|lia|done|done|lia].
      by rewrite (proj2 (Z.eqb_neq rem (q_qty h))) by lia. }
    intros [e1 rem1] (-> & Hfr & Hm1 & m1 & X1). simpl. split_and!; [done| |by exists m1].
    unfold after_fill in Hm1. by rewrite (proj2 (Z.eqb_neq rem (q_qty h))) in Hm1 by lia.
Qed.

(** ** Taking one order off the books *)

Lemma unregister_ok e s q os :
  mirrored e ((s, q) :: os) →
  mirrored (unregister e (q_id q)) os ∧ frame e (unregister e (q_id q)) ∧
  e_sink (unregister e (q_id q)) = e_sink e ∧ e_ids (unregister e (q_id q)) = e_ids e.
Proof.
  intros Hm. unfold unregister. rewrite (mirror_head _ _ _ _ _ Hm). split; [by apply mirror_remove in Hm|].
  split; [|done]. destruct (frame_on_order_removed (e_risk e) (q_account q) (order_notional q)) as [Hk Hl].
  split; try done. unfold last_ok. simpl. by rewrite Hl.
Qed.

Lemma emit_stp_cancels_ok e s stp os ts :
  e_stp_buf e = option_list (stp_of s <$> stp) →
  mirrored e ((pair s <$> option_list stp) ++ os) → (1 <= id_cap (e_ids e))%nat →
  wp False (emit_stp_cancels e ts)
    (λ e', frame e e' ∧ mirrored e' os ∧ ∃ msgs, ext 1 e e' msgs).
Proof.
  intros Hbuf Hm Hc. unfold emit_stp_cancels. rewrite Hbuf. destruct stp as [q|]; simpl in *.
  - pose proof (mi_fields _ _ _ Hm) as Hfs. apply Forall_cons in Hfs as [(? & ? & _ & _) _].
    apply wp_bind. eapply wp_conseq; [by apply emit_cancelled_ok|]. intros e1 [Hs [m1 X1]].
    pose proof (mirrored_same_core _ _ _ Hs Hm) as Hm1.
    destruct (unregister_ok _ _ _ _ Hm1) as (Hm2 & Hfr & Hsk & Hi). split_and!; [|done|].
    + eapply frame_trans; [by apply same_core_frame|done].
    + exists (m1 ++ []). apply (ext_trans _ 1 0 e e1); [done|]. by apply ext_refl.
  - split_and!; [apply frame_refl|done|]. exists []. eapply ext_weaken; [by apply ext_refl|lia].
Qed.

(** ** Mass cancellations *)

Definition mass_order (c : MassCancellation) : Side * QOrder :=
  (mc_side c, mkQ (mc_order_id c) (mc_account_id c) (mc_price c) (mc_qty c)).

Lemma mass_cancel_loop_ok ts os mcs e :
  mirrored e ((mass_order <$> mcs) ++ os) → (length mcs <= id_cap (e_ids e))%nat →
  wp False (mass_cancel_loop ts mcs e)
    (λ e', frame e e' ∧ mirrored e' os ∧ ∃ msgs, ext (length mcs) e e' msgs).
Proof.
  revert e. induction mcs as [|c mcs IH]; intros e Hm Hc; simpl in *.
  { split_and!; [apply frame_refl|done|]. exists []. by apply ext_refl. }
  pose proof (mi_fields _ _ _ Hm) as Hfs. apply Forall_cons in Hfs as [(? & ? & _ & _) _].
  destruct (unregister_ok e _ _ _ Hm) as (Hm1 & Hfr1 & Hsk1 & Hi1). simpl in *.
  apply wp_bind. eapply wp_conseq; [apply emit_cancelled_ok; [rewrite Hi1; lia|done..]|].
  intros e2 [Hs2 [m2 X2]]. pose proof (ext_cap _ _ _ _ _ X2) as C2. rewrite Hi1 in C2.
  eapply wp_conseq; [apply IH; [by eapply mirrored_same_core|lia]|].
  intros e3 (Hfr3 & Hm3 & m3 & X3). split_and!; [|done|].
  - eapply frame_trans; [done|]. eapply frame_trans; [by apply same_core_frame|done].
  - exists ([] ++ m2 ++ m3). apply (ext_trans _ 0 (S (length mcs)) e (unregister e (mc_order_id c)));
      [by apply ext_refl|]. by apply (ext_trans _ 1 _ _ e2).
Qed.

End Fills.
