(* ===== verification/EngineOrders.v ===== *)
(** * EngineOrders: how the book's operations change its list of resting orders

    The registry and the risk counters mirror [book_orders]; these lemmas say how
    the list moves, up to permutation, under each operation of the book. *)

From S2P Require Import Prelude BTree Domain PriceLevel Book BookSpec BookInv BookMatch BookOps BookReplace Messages Ids Risk Engine EngineInv EngineFills.

Lemma spec_cancel_perm q queue :
  NoDup (q_id <$> queue) → q ∈ queue → queue ≡ₚ q :: spec_cancel (q_id q) queue.
Proof.
  intros Hnd Hq. induction queue as [|h queue IH]; [set_solver|]. csimpl in Hnd.
  apply NoDup_cons in Hnd as [Hh Hnd]. apply elem_of_cons in Hq as [->|Hq].
  - by rewrite spec_cancel_head.
  - unfold spec_cancel. rewrite filter_cons, decide_True; [|intros Heq; apply Hh; rewrite Heq; by apply list_elem_of_fmap_2].
    rewrite (IH Hnd Hq) at 1. constructor.
Qed.

Lemma spec_set_qty_perm q n queue :
  NoDup (q_id <$> queue) → q ∈ queue →
  spec_set_qty (q_id q) n queue ≡ₚ q_with_qty q n :: spec_cancel (q_id q) queue.
Proof.
  intros Hnd Hq. induction queue as [|h queue IH]; [set_solver|]. csimpl in Hnd.
  apply NoDup_cons in Hnd as [Hh Hnd]. apply elem_of_cons in Hq as [->|Hq].
  - by rewrite spec_set_qty_head, spec_cancel_head.
  - assert (Hne : q_id h ≠ q_id q) by (intros Heq; apply Hh; rewrite Heq; by apply list_elem_of_fmap_2).
    unfold spec_set_qty, spec_cancel. csimpl.
    rewrite filter_cons, decide_False, decide_True by done.
    etrans; [apply Permutation_skip, (IH Hnd Hq)|]. constructor.
Qed.

Lemma spec_match_fills_length side limit a r queue :
  (length (qm_fills (spec_match side limit a r queue)) <= length queue)%nat.
Proof.
  revert r. induction queue as [|h rest IH]; intros r; simpl; [lia|].
  destruct (_ || _); simpl; [lia|]. destruct (_ =? _); simpl; [lia|].
  destruct (_ <=? _); simpl; [|lia]. specialize (IH (r - q_qty h)). lia.
Qed.

Section Orders.
Context {L : Type} `{!PriceLevelOps L} `{!PriceLevelLaws L}.
Implicit Types (b : Book L).

Lemma elem_of_book_orders b s q : (s, q) ∈ book_orders b ↔ q ∈ side_queue b s.
Proof.
  unfold book_orders. rewrite elem_of_app, !list_elem_of_fmap.
  destruct s; split; naive_solver.
Qed.

Lemma book_orders_ids b : book_ok b → NoDup ((λ so, q_id so.2) <$> book_orders b).
Proof.
  intros Hok. unfold book_orders. rewrite fmap_app, <-!list_fmap_compose. apply NoDup_app.
  split_and!; [by eapply side_queue_ids_NoDup| |by eapply side_queue_ids_NoDup].
  intros id (q & -> & Hq)%list_elem_of_fmap (q' & Heq & Hq')%list_elem_of_fmap.
  by destruct (side_queue_inj b Bid Ask q q' Hok Hq Hq' Heq).
Qed.

Lemma book_orders_index b id :
  book_ok b → id ∈ (λ so, q_id so.2) <$> book_orders b ↔ is_Some (index b !! id).
Proof.
  intros Hok. split.
  - intros ([s q] & -> & Hq%elem_of_book_orders)%list_elem_of_fmap.
    destruct (side_queue_index _ _ _ _ Hok Hq) as (m & ? & _). eauto.
  - intros [m Hm]. destruct (index_side_queue _ _ _ _ Hok Hm) as (q & Hq & <- & _).
    apply list_elem_of_fmap. exists (om_side m, q). by rewrite elem_of_book_orders.
Qed.

Lemma book_orders_cancel b id m q b' :
  book_ok b → index b !! id = Some m → q ∈ side_queue b (om_side m) → q_id q = id →
  cancel_post b id b' → book_orders b ≡ₚ (om_side m, q) :: book_orders b'.
Proof.
  intros Hok Hm Hq <- [_ Hqs _ _]. rewrite !(book_orders_side _ (om_side m)), !Hqs.
  rewrite (spec_cancel_notin _ (side_queue b (Side_opposite (om_side m)))).
  - rewrite (spec_cancel_perm q (side_queue b (om_side m))) at 1; [done| |done].
    by eapply side_queue_ids_NoDup.
  - intros (q' & Heq & Hq')%list_elem_of_fmap.
    destruct (side_queue_inj b _ _ _ _ Hok Hq Hq' Heq) as [Hs _]. by apply (Side_opposite_ne (om_side m)).
Qed.

Lemma book_orders_add b ord b' :
  add_post b ord b' → book_orders b' ≡ₚ (ro_side ord, resting_q ord) :: book_orders b.
Proof.
  intros [_ _ Hq Hsame _ _]. rewrite !(book_orders_side _ (ro_side ord)), Hq, Hsame.
  by rewrite spec_insert_perm.
Qed.

Lemma book_orders_set_qty b b' b0 id m q n :
  book_ok b → index b !! id = Some m → q ∈ side_queue b (om_side m) → q_id q = id →
  (∀ s, side_queue b' s = spec_set_qty id n (side_queue b s)) → cancel_post b id b0 →
  book_orders b' ≡ₚ (om_side m, q_with_qty q n) :: book_orders b0.
Proof.
  intros Hok Hm Hq <- Hset [_ Hqs _ _]. rewrite !(book_orders_side _ (om_side m)), !Hqs, !Hset.
  assert (Hno : q_id q ∉ q_id <$> side_queue b (Side_opposite (om_side m))).
  { intros (q' & Heq & Hq')%list_elem_of_fmap.
    destruct (side_queue_inj b _ _ _ _ Hok Hq Hq' Heq) as [Hs _]. by apply (Side_opposite_ne (om_side m)). }
  rewrite (spec_cancel_notin _ _ Hno), (spec_set_qty_notin _ _ _ Hno).
  rewrite (spec_set_qty_perm q n (side_queue b (om_side m))); [done| |done].
  by eapply side_queue_ids_NoDup.
Qed.

Lemma book_orders_fields b : book_ok b → Forall resting_fields_ok (book_orders b).
Proof.
  intros Hok. apply Forall_forall. intros [s q] Hq%elem_of_book_orders.
  destruct (side_queue_index _ _ _ _ Hok Hq) as (m & Hm & _ & _ & Ha & ? & ? & ?).
  destruct (ok_index _ _ Hok _ _ Hm) as (Hac & _). split_and!; try done. simpl. by rewrite <-Ha.
Qed.

Lemma length_book_orders b s :
  length (book_orders b) = (length (side_queue b s) + length (side_queue b (Side_opposite s)))%nat.
Proof. by rewrite (book_orders_side b s), length_app, !length_fmap. Qed.

(** ** Room in a level *)

Lemma queue_qty_app q1 q2 : queue_qty (q1 ++ q2) = queue_qty q1 + queue_qty q2.
Proof. unfold queue_qty. induction q1; csimpl; lia. Qed.

Lemma queue_qty_nonneg queue : Forall (λ q, 0 < q_qty q) queue → Z.of_nat (length queue) <= queue_qty queue.
Proof. unfold queue_qty. induction 1; csimpl; lia. Qed.

Lemma queue_qty_cancel id queue :
  Forall (λ q, 0 < q_qty q) queue → queue_qty (spec_cancel id queue) <= queue_qty queue.
Proof.
  unfold queue_qty, spec_cancel. induction 1; csimpl; [lia|]. rewrite filter_cons.
  case_decide; csimpl; lia.
Qed.

Lemma queue_qty_level b p l : queue_qty (level_orders b p l) = sum_qty (level_queue l).
Proof. unfold queue_qty, level_orders, sum_qty. by rewrite <-list_fmap_compose. Qed.

Lemma target_level_room b ord :
  book_ok b →
  sum_qty (level_queue (target_level b ord)) <= queue_qty (side_queue b (ro_side ord)) ∧
  Z.of_nat (length (level_queue (target_level b ord))) <= queue_qty (side_queue b (ro_side ord)).
Proof.
  intros Hok. pose proof (side_queue_pos _ b (ro_side ord) Hok) as Hpos.
  unfold target_level. destruct (level_at b (ro_side ord) (ro_price ord)) as [l|] eqn:Hl; simpl.
  - destruct (best_first_split _ _ _ _ (ok_sorted _ _ Hok _) Hl) as (A & B & He & _).
    unfold side_queue in *. rewrite He, bind_app in *. csimpl in *.
    rewrite !Forall_app in Hpos. destruct Hpos as (HA & Hl' & HB).
    apply queue_qty_nonneg in HA, HB, Hl'. rewrite !queue_qty_app, queue_qty_level.
    rewrite queue_qty_level in Hl'. unfold level_orders in Hl'. rewrite length_fmap in Hl'. lia.
  - rewrite level_queue_new. apply queue_qty_nonneg in Hpos. unfold sum_qty. simpl. lia.
Qed.

Lemma add_room b ord err :
  book_ok b → qty_ok (ro_qty ord) → index b !! ro_order_id ord = None → seq b < u64_max →
  queue_qty (side_queue b (ro_side ord)) + ro_qty ord <= u64_max → ¬ add_error b ord err.
Proof.
  intros Hok Hq Hid Hs Hr. apply qty_ok_pos in Hq. pose proof (target_level_room b ord Hok).
  destruct err; simpl; rewrite ?Hid; [tauto|by intros []|lia|lia].
Qed.

(** ** The book's orders after a match *)

Section AfterMatch.
Context {I : Type} `{!IdGenerator I} `{!IdGeneratorLaws I}.
Context (b : Book L) (taker : AggressiveOrder) (ids : I) (b' : Book L) (ids' : I)
  (fills : list Fill) (stp : list StpCancellation) (res : MatchResult).
Hypotheses (Hok : book_ok b)
  (Hpost : match_post b taker ids [] [] (aggressive_spec b taker) b' ids' fills stp res).
Local Abbreviation opp := (Side_opposite (ao_side taker)).

Lemma match_fills_view : fill_view <$> fills = qm_fills (aggressive_spec b taker).
Proof. destruct (mp_fills _ _ _ _ _ _ _ _ _ _ _ Hpost) as (nf & -> & _ & _ & ?). done. Qed.

Lemma match_fills_length : (length fills <= length (side_queue b opp))%nat.
Proof.
  rewrite <-(length_fmap fill_view), match_fills_view. unfold aggressive_spec.
  destruct (post_only_blocked b taker); simpl; [lia|]. apply spec_match_fills_length.
Qed.

Lemma match_ids :
  (length fills <= id_cap ids)%nat →
  seq_mark ids' = seq_mark ids ∧ (id_cap ids <= length fills + id_cap ids')%nat.
Proof.
  intros Hc. destruct (mp_fills _ _ _ _ _ _ _ _ _ _ _ Hpost) as (nf & -> & Ht & _). simpl in *.
  rewrite <-(length_fmap f_trade_id) in Hc.
  destruct (trades_laws _ _ _ Ht Hc) as (_ & _ & ? & Hcap). by rewrite length_fmap in Hcap.
Qed.

Lemma match_book_orders :
  book_orders b' ≡ₚ (pair opp <$> qm_rest (aggressive_spec b taker)) ++
                    (pair (ao_side taker) <$> side_queue b (ao_side taker)).
Proof.
  rewrite (book_orders_side b' opp), Side_opposite_involutive.
  by rewrite (mp_rest _ _ _ _ _ _ _ _ _ _ _ Hpost), (mp_same _ _ _ _ _ _ _ _ _ _ _ Hpost).
Qed.

Lemma match_orders_length : (length (book_orders b') <= length (book_orders b))%nat.
Proof.
  rewrite match_book_orders, (length_book_orders b opp), Side_opposite_involutive, length_app, !length_fmap.
  unfold aggressive_spec. destruct (post_only_blocked b taker); simpl; [lia|].
  pose proof (spec_match_length (ao_side taker) (ao_price taker) (ao_account_id taker) (ao_qty taker)
    (side_queue b opp)). lia.
Qed.

End AfterMatch.
End Orders.

(** ** Reporting a match *)

Section Report.
Context {L C I Snk : Type} `{!PriceLevelOps L} `{!PriceLevelLaws L} `{!Clock C} `{!IdGenerator I}
  `{!IdGeneratorLaws I} `{!OutboundSink Snk}.
Local Abbreviation Eng := (Engine L C I Snk).
Implicit Types (e : Eng).

Section Match.
Context (b : Book L) (taker : AggressiveOrder) (ids : I) (b' : Book L) (ids' : I)
  (fills : list Fill) (stp : list StpCancellation) (res : MatchResult) (ts : RecvTs).
Hypotheses (Hok : book_ok b)
  (Hpost : match_post b taker ids [] [] (aggressive_spec b taker) b' ids' fills stp res)
  (Hopen : post_only_blocked b taker = false)
  (Htid : order_id_ok (ao_order_id taker)) (Htaid : account_id_ok (ao_account_id taker))
  (Htq : qty_ok (ao_qty taker)).
Local Abbreviation opp := (Side_opposite (ao_side taker)).

(** Between the two loops the self-trade victim is still registered. *)
Definition pending_stp : list (Side * QOrder) :=
  (pair opp <$> option_list (qm_stp (aggressive_spec b taker))) ++ book_orders b'.

Lemma report_fills_ok e :
  e_fills_buf e = fills → mirrored e (book_orders b) → (3 * length fills <= id_cap (e_ids e))%nat →
  wp False (emit_fills_for_taker e (ao_order_id taker) (ao_account_id taker) (ao_qty taker) ts)
    (λ e', frame e e' ∧ mirrored e' pending_stp ∧ ∃ msgs, ext (3 * length fills) e e' msgs).
Proof.
  intros Hbuf Hm Hc. unfold emit_fills_for_taker. rewrite Hbuf. apply wp_bind.
  assert (Hq : 0 < ao_qty taker <= u64_max) by (by apply qty_ok_pos in Htq).
  assert (Hspec : aggressive_spec b taker = spec_match (ao_side taker) (ao_price taker)
    (ao_account_id taker) (ao_qty taker) (side_queue b opp)).
  { unfold aggressive_spec. by rewrite Hopen. }
  eapply wp_conseq.
  { apply (emit_fills_loop_ok (ao_side taker) (ao_price taker) (ao_account_id taker) opp
      (ao_order_id taker) (ao_account_id taker) ts (pair (ao_side taker) <$> side_queue b (ao_side taker))
      (side_queue b opp)); [|  |lia|done..].
    - by rewrite (match_fills_view _ _ _ _ _ _ _ _ Hpost), Hspec.
    - eapply mirrored_perm; [|exact Hm]. by rewrite (book_orders_side b opp), Side_opposite_involutive. }
  intros [e' rem] (Hfr & Hm' & X). simpl. split_and!; [done| |done].
  eapply mirrored_perm; [|exact Hm']. unfold pending_stp.
  rewrite (match_book_orders _ _ _ _ _ _ _ _ Hpost), Hspec, fmap_app, <-app_assoc. done.
Qed.

Lemma report_stp_ok e :
  e_stp_buf e = stp → mirrored e pending_stp → (1 <= id_cap (e_ids e))%nat →
  wp False (emit_stp_cancels e ts)
    (λ e', frame e e' ∧ mirrored e' (book_orders b') ∧ ∃ msgs, ext 1 e e' msgs).
Proof.
  intros Hbuf Hm Hc. eapply (emit_stp_cancels_ok _ opp (qm_stp (aggressive_spec b taker))); [|done..].
  rewrite Hbuf, (mp_stp _ _ _ _ _ _ _ _ _ _ _ Hpost). done.
Qed.

End Match.
End Report.
