(* ===== verification/EngineStep.v ===== *)
(** * EngineStep: every command keeps the engine consistent

    [einv] is the engine invariant: the book is well formed and not crossed, and
    the registry and the risk counters mirror its resting orders.  Each handler
    returns (it neither panics nor diverges while the id source has room), keeps
    the invariant and emits well-formed reports with consecutive sequence
    numbers. *)

From S2P Require Import Prelude BTree Domain PriceLevel Book BookSpec BookInv BookMatch BookOps BookReplace Messages Ids Risk Engine EngineInv EngineFills EngineOrders.

Section Handlers.
Context {L C I Snk : Type} `{!PriceLevelOps L} `{!PriceLevelLaws L} `{!SnapshotSucceeds L}
  `{!Clock C} `{!IdGenerator I} `{!IdGeneratorLaws I} `{!OutboundSink Snk}.
Local Abbreviation Eng := (Engine L C I Snk).
Implicit Types (e : Eng).

Record einv e : Prop := {
  ei_book : book_ok (e_book e);
  ei_uncrossed : uncrossed (e_book e);
  ei_mirror : mirrored e (book_orders (e_book e));
  ei_last : last_ok e;
}.

Definition order_total e : nat := length (book_orders (e_book e)).

(** One command rests at most one order and takes at most one arrival number. *)
Definition grew e e' : Prop :=
  (order_total e' <= S (order_total e))%nat ∧ seq (e_book e') <= seq (e_book e) + 1.

Record handler_post (k : nat) e e' : Prop := {
  hp_inv : einv e';
  hp_kill : kill_switch (e_risk e') = kill_switch (e_risk e);
  hp_pre : e_pre_step_levels e' = e_pre_step_levels e;
  hp_total : grew e e';
  hp_ext : ∃ msgs, ext k e e' msgs;
}.

Lemma einv_same_core e e' : same_core e e' → einv e → einv e'.
Proof.
  intros Hs [Hb Hu Hm Hl]. split; rewrite ?(sc_book _ _ Hs); try done.
  - by eapply mirrored_same_core.
  - unfold last_ok. by rewrite (sc_risk _ _ Hs).
Qed.

Lemma einv_frame e e' :
  frame e e' → book_ok (e_book e) → uncrossed (e_book e) → last_ok e →
  mirrored e' (book_orders (e_book e)) → einv e'.
Proof. intros Hf Hb Hu Hl Hm. split; rewrite ?(fr_book _ _ Hf); try done. by apply Hf. Qed.

(** Emitting one report after the state settled. *)
Lemma handler_post_emit k e e1 e' msgs :
  einv e1 → kill_switch (e_risk e1) = kill_switch (e_risk e) →
  e_pre_step_levels e1 = e_pre_step_levels e → grew e e1 →
  ext k e e1 msgs → (same_core e1 e' ∧ ∃ msgs', ext 1 e1 e' msgs') → handler_post (k + 1) e e'.
Proof.
  intros Hi Hk Hp Ht X [Hs (msgs' & X')]. split.
  - by eapply einv_same_core.
  - by rewrite (sc_risk _ _ Hs).
  - by rewrite (sc_pre _ _ Hs).
  - unfold grew, order_total in *. by rewrite (sc_book _ _ Hs).
  - exists (msgs ++ msgs'). by eapply ext_trans.
Qed.

Lemma handler_post_weaken k k' e e' : handler_post k e e' → (k <= k')%nat → handler_post k' e e'.
Proof. intros [? ? ? ? [msgs X]] ?. split; try done. exists msgs. by eapply ext_weaken. Qed.

Lemma handler_post_frame k1 k2 e e1 e' msgs :
  kill_switch (e_risk e1) = kill_switch (e_risk e) → e_pre_step_levels e1 = e_pre_step_levels e →
  ext k1 e e1 msgs → e_book e1 = e_book e → handler_post k2 e1 e' → handler_post (k1 + k2) e e'.
Proof.
  intros Hk1 Hp1 X Hb [? Hk Hp Ht [msgs' X']]. split; try done.
  - by rewrite Hk.
  - by rewrite Hp.
  - unfold grew, order_total in *. by rewrite <-Hb.
  - exists (msgs ++ msgs'). by eapply ext_trans.
Qed.

(** A rejected command leaves the state alone. *)
Lemma reject_ok e oid aid reason ts :
  einv e → (1 <= id_cap (e_ids e))%nat → order_id_ok oid → account_id_ok aid →
  wp False (emit_rejected e oid aid reason ts) (handler_post 1 e).
Proof.
  intros Hi Hc Ho Ha. eapply wp_conseq; [by apply emit_rejected_ok|]. intros e' He'.
  eapply (handler_post_emit 0 e e); [done..|unfold grew, order_total; lia|by apply ext_refl|done].
Qed.

(** A rejection after nothing but the match buffers changed. *)
Lemma reject_within k e fills stp oid aid reason ts :
  einv e → (1 <= k)%nat → (k <= id_cap (e_ids e))%nat → order_id_ok oid → account_id_ok aid →
  wp False (emit_rejected (set_match e (e_book e) (e_ids e) fills stp) oid aid reason ts)
    (handler_post k e) ∧
  wp False (emit_rejected e oid aid reason ts) (handler_post k e).
Proof.
  intros Hi Hk Hc Ho Ha. set (e1 := set_match _ _ _ _ _). split.
  - eapply wp_conseq; [apply (reject_ok e1); try done; [by destruct Hi|simpl; lia]|].
    intros e' He'. eapply handler_post_weaken; [apply (handler_post_frame 0 1 e e1 e' []); try done|lia].
    by apply ext_refl.
  - eapply wp_conseq; [apply reject_ok; try done; lia|].
    intros e' He'. by eapply handler_post_weaken.
Qed.

Lemma cancelled_report_ok e oid aid reason ts :
  einv e → (1 <= id_cap (e_ids e))%nat → order_id_ok oid → account_id_ok aid →
  wp False (emit_exec_report_cancelled e oid aid reason ts) (handler_post 1 e).
Proof.
  intros Hi Hc Ho Ha. eapply wp_conseq; [by apply emit_cancelled_ok|]. intros e' He'.
  eapply (handler_post_emit 0 e e); [done..|unfold grew, order_total; lia|by apply ext_refl|done].
Qed.

(** ** Risk hooks *)

Lemma mirror_undo reg r os a n r' u :
  mirror reg r os → 0 <= n → on_order_resting r a n = (r', Ok u) →
  mirror reg (on_order_removed r' a n) os.
Proof.
  intros Hm Hn Hr. pose proof (λ a', acct_on_order_resting_ok _ _ _ _ _ a' Hr) as Ha.
  pose proof (mi_open _ _ _ Hm a) as Ho. pose proof (mi_notional _ _ _ Hm a) as Hno.
  pose proof (exposure_nonneg a os (mi_fields _ _ _ Hm)) as Hex.
  assert (Haa : acct r' a = mkAccountState (open_orders (acct r a) + 1) (notional (acct r a) + n)).
  { rewrite (proj1 (Ha a)). by rewrite Z.eqb_refl. }
  pose proof (λ a', acct_on_order_removed r' a n a' ltac:(rewrite Haa; simpl; lia)
    ltac:(rewrite Haa; simpl; lia)) as Hr'.
  assert (Hsame : ∀ a', acct (on_order_removed r' a n) a' = acct r a').
  { intros a'. destruct (Hr' a') as [H1 H2]. rewrite Haa in H2. simpl in H2.
    rewrite (proj1 (Ha a')) in H1, H2. destruct (Z.eqb_spec a' a) as [Heq|].
    - subst a'. destruct (acct (on_order_removed r' a n) a), (acct r a). simpl in *. f_equal; lia.
    - destruct (acct (on_order_removed r' a n) a'), (acct r a'). simpl in *. f_equal; lia. }
  split; try apply Hm; intros a'; rewrite Hsame; apply Hm.
Qed.

Lemma last_ok_frame e r : risk_frame (e_risk e) r → last_ok e → last_ok (set_risk e r).
Proof. intros [_ Hl]. unfold last_ok. simpl. by rewrite Hl. Qed.

Lemma rest_leftover_ok e msg price remaining ts :
  einv e → order_id_ok (no_order_id msg) → account_id_ok (no_account_id msg) → price_ok price →
  qty_ok remaining → no_tif msg ≠ Ioc → would_cross (e_book e) (no_side msg) (Some price) = false →
  (1 <= id_cap (e_ids e))%nat →
  wp False (rest_leftover e msg price remaining ts) (handler_post 1 e).
Proof.
  intros Hi Hid Hac Hp Hq Ht Hcr Hc. unfold rest_leftover.
  set (ord := mkResting _ _ _ _ _ _). assert (Hrok : resting_ok ord) by by split_and!.
  rewrite notional_of_exact by done. change (price * remaining) with (order_notional (resting_q ord)).
  pose proof (frame_on_order_resting (e_risk e) (no_account_id msg) (order_notional (resting_q ord))) as [Hk Hl].
  destruct (on_order_resting _ _ _) as [r [u|reason]] eqn:Hr; simpl in Hk, Hl.
  2: { assert (Hi' : einv (set_risk e r)).
       { split; try apply Hi; [|by apply last_ok_frame, Hi].
         eapply mirror_resting_err; [apply Hi|exact Hr]. }
       eapply wp_conseq; [by apply emit_rejected_ok|]. intros e' He'.
       by eapply (handler_post_emit 0 e (set_risk e r)); [| | |unfold grew, order_total; simpl; lia|apply ext_refl|]. }
  pose proof (add_resting_ok (e_book e) ord (ei_book _ Hi) Hrok) as Hadd. simpl.
  destruct (add_resting (e_book e) ord) as [b' [[]|err]].
  - set (e1 := set_registry _ _). pose proof (book_orders_add _ _ _ Hadd) as Hperm.
    assert (Hi1 : einv e1).
    { split; simpl; [apply Hadd| | |by apply last_ok_frame, Hi].
      - eapply uncrossed_add; [apply Hi|done|apply Hi|done].
      - eapply mirrored_perm; [by symmetry|]. apply (mirror_add _ (e_risk e) _ (resting_q ord) _ r u).
        + apply Hi.
        + by split_and!.
        + simpl. rewrite (book_orders_index _ (no_order_id msg)) by apply Hi.
          rewrite (ap_fresh _ _ _ Hadd : index (e_book e) !! no_order_id msg = None). by intros [].
        + done. }
    eapply wp_conseq; [by apply emit_accepted_ok|]. intros e' He'.
    eapply (handler_post_emit 0 e e1); [done..| |by apply ext_refl|done].
    unfold grew, order_total. simpl. rewrite Hperm, (ap_seq _ _ _ Hadd). done.
  - destruct Hadd as [-> _]. set (e1 := set_risk _ _).
    assert (Hi1 : einv e1).
    { split; try apply Hi.
      - apply (mirror_undo _ (e_risk e) _ _ _ _ u); [apply Hi| |done].
        apply Z.lt_le_incl, (order_notional_pos (no_side msg, resting_q ord)). by split_and!.
      - intros p. unfold e1. simpl. rewrite (proj2 (frame_on_order_removed _ _ _)), Hl. apply Hi. }
    eapply wp_conseq; [by apply emit_rejected_ok|]. intros e' He'.
    eapply (handler_post_emit 0 e e1); [done| | |unfold grew, order_total; simpl; lia|by apply ext_refl|done].
    + unfold e1. simpl. by rewrite (proj1 (frame_on_order_removed _ _ _)).
    + done.
Qed.

(** ** [NewOrder] *)

Definition taker_of (msg : NewOrder) : AggressiveOrder :=
  mkAggressive (no_order_id msg) (no_account_id msg) (no_side msg) (no_price msg) (no_qty msg)
    (no_tif msg).

(** After the match and its reports: the taker's disposition. *)
Lemma new_order_tail_ok e msg res ts :
  einv e → new_order_ok msg → (1 <= id_cap (e_ids e))%nat →
  (∀ n, mr_taker_remaining res = Some n → qty_ok n) →
  (∀ n, mr_taker_remaining res = Some n → mr_taker_stp_cancelled res = false →
        would_cross (e_book e) (no_side msg) (no_price msg) = false) →
  wp False
    (if mr_taker_stp_cancelled res then
       emit_exec_report_cancelled e (no_order_id msg) (no_account_id msg) SelfTradePrevented ts
     else
       match mr_taker_remaining res with
       | None => Ret e
       | Some remaining =>
           match no_tif msg, no_price msg with
           | Ioc, _ =>
               emit_exec_report_cancelled e (no_order_id msg) (no_account_id msg) IocRemaining ts
           | Gtc, Some price | PostOnly, Some price => rest_leftover e msg price remaining ts
           | Gtc, None | PostOnly, None =>
               emit_exec_report_cancelled e (no_order_id msg) (no_account_id msg) IocRemaining ts
           end
       end) (handler_post 1 e).
Proof.
  intros Hi (Hid & Hac & Hq & Hpr) Hc Hrem Hcr.
  destruct (mr_taker_stp_cancelled res); [by apply cancelled_report_ok|].
  destruct (mr_taker_remaining res) as [n|].
  2: { split; try done; [unfold grew, order_total; lia|]. exists [].
       eapply ext_weaken; [by apply ext_refl|lia]. }
  specialize (Hcr n eq_refl eq_refl). specialize (Hrem n eq_refl).
  assert (Hp : ∀ p, no_price msg = Some p → price_ok p).
  { intros p Hp. destruct (no_order_type msg); [naive_solver|congruence]. }
  destruct (no_tif msg) eqn:Ht, (no_price msg) as [p|] eqn:Hpe; try (by apply cancelled_report_ok);
    apply rest_leftover_ok; try done; auto; congruence.
Qed.

Lemma handle_new_order_ok e msg ts :
  einv e → new_order_ok msg → (4 * order_total e + 3 <= id_cap (e_ids e))%nat →
  wp False (handle_new_order e msg ts) (handler_post (4 * order_total e + 3) e).
Proof.
  intros Hi Hmsg Hc. destruct Hmsg as (Hid & Hac & Hq & Hpr) eqn:Heq. clear Heq.
  assert (Hrej : ∀ reason, wp False (emit_rejected e (no_order_id msg) (no_account_id msg) reason ts)
    (handler_post (4 * order_total e + 3) e)).
  { intros reason. apply (reject_within _ e [] []); try done; lia. }
  unfold handle_new_order. destruct (check_new_order _ _ _) as [[]|reason]; [|apply Hrej].
  destruct (is_kill_switched _); [apply Hrej|]. fold (taker_of msg).
  assert (Hlen : (length (side_queue (e_book e) (Side_opposite (no_side msg))) <= order_total e)%nat).
  { unfold order_total. rewrite (length_book_orders _ (no_side msg)). lia. }
  apply wp_bind. eapply wp_conseq.
  { apply (match_aggressive_ok False (λ ids n, (n <= id_cap ids)%nat) next_trade_cap);
      [apply Hi|done|simpl; lia]. }
  intros [[[[b' ids'] fills] stp] res] [Hpost Hblk].
  pose proof (match_fills_length _ _ _ _ _ _ _ _ Hpost) as Hfl. simpl in Hfl.
  destruct (match_ids _ _ _ _ _ _ _ _ Hpost) as [Hmark Hcap]; [lia|].
  set (e1 := set_match e b' ids' fills stp).
  assert (X1 : ext (length fills) e e1 []) by by apply ext_match.
  rewrite (mp_post_only _ _ _ _ _ _ _ _ _ _ _ Hpost).
  destruct (post_only_blocked (e_book e) (taker_of msg)) eqn:Hg.
  { destruct (Hblk eq_refl) as (-> & -> & -> & ->). apply reject_within; try done; lia. }
  assert (Hu1 : uncrossed b') by (eapply match_uncrossed; [apply Hi|done|apply Hi]).
  apply wp_bind. eapply wp_conseq.
  { apply (report_fills_ok _ _ _ _ _ _ _ _ ts Hpost Hg Hid Hac Hq e1 eq_refl); [apply Hi|].
    simpl in *. lia. }
  intros e2 (F2 & M2 & m2 & X2). pose proof (ext_cap _ _ _ _ _ X2) as C2. simpl in C2.
  apply wp_bind. eapply wp_conseq.
  { apply (report_stp_ok _ _ _ _ _ _ _ _ ts Hpost e2 (fr_stp _ _ F2) M2). lia. }
  intros e3 (F3 & M3 & m3 & X3). pose proof (ext_cap _ _ _ _ _ X3) as C3.
  pose proof (frame_trans _ _ _ F2 F3) as F13.
  assert (Hi3 : einv e3).
  { apply (einv_frame e1); try done; [apply Hpost|apply Hi]. }
  eapply wp_conseq.
  { apply (new_order_tail_ok e3 msg res ts); [done|by split_and!|lia| |].
    - intros n Hn. rewrite (mp_remaining _ _ _ _ _ _ _ _ _ _ _ Hpost) in Hn.
      eapply (aggressive_remaining_ok (e_book e) (taker_of msg)); [apply Hi|done..].
    - intros n Hn Hs. rewrite (fr_book _ _ F13). simpl.
      eapply (match_remainder_no_cross (e_book e) (taker_of msg)); [done..|].
      by rewrite (mp_post_only _ _ _ _ _ _ _ _ _ _ _ Hpost). }
  intros e4 He4. eapply (handler_post_weaken (length fills + (3 * length fills + (1 + 1)))); [|lia].
  destruct He4 as [Hi4 K4 P4 T4 [m4 X4]]. split; try done.
  - by rewrite K4, (fr_kill _ _ F13).
  - by rewrite P4, (fr_pre _ _ F13).
  - unfold grew, order_total in *. rewrite (fr_book _ _ F13) in T4. simpl in T4.
    rewrite (mp_seq _ _ _ _ _ _ _ _ _ _ _ Hpost) in T4.
    pose proof (match_orders_length _ _ _ _ _ _ _ _ Hpost). lia.
  - exists ([] ++ m2 ++ m3 ++ m4). eapply ext_trans; [done|]. eapply ext_trans; [done|]. by eapply ext_trans.
Qed.

(** ** [CancelOrder] *)

Lemma handle_cancel_order_ok e msg ts :
  einv e → order_id_ok (co_order_id msg) → account_id_ok (co_account_id msg) →
  (1 <= id_cap (e_ids e))%nat →
  wp False (handle_cancel_order e msg ts) (handler_post 1 e).
Proof.
  intros Hi Hid Hac Hc. unfold handle_cancel_order.
  destruct (check_cancel _ _) as [[]|]; [|by apply reject_ok].
  destruct (is_kill_switched _); [by apply reject_ok|].
  destruct (from_option _ _ _); [by apply reject_ok|].
  rewrite cancel_eq by apply Hi. destruct (index (e_book e) !! co_order_id msg) as [m|] eqn:Hm.
  2: { eapply wp_conseq; [apply (reject_ok (set_book e (e_book e))); try done; by destruct Hi|].
       intros e' He'. apply (handler_post_frame 0 1 e (set_book e (e_book e)) e' []); try done.
       by apply ext_refl. }
  pose proof (cancelled_post _ _ _ (ei_book _ Hi) Hm) as Hcp.
  destruct (index_side_queue _ _ _ _ (ei_book _ Hi) Hm) as (q & Hq & Hqid & _).
  pose proof (book_orders_cancel _ _ _ _ _ (ei_book _ Hi) Hm Hq Hqid Hcp) as Hperm.
  set (e1 := set_book e _).
  assert (M1 : mirrored e1 ((om_side m, q) :: book_orders (cancelled (e_book e) (co_order_id msg) m))).
  { eapply mirrored_perm; [exact Hperm|apply Hi]. }
  destruct (unregister_ok e1 _ _ _ M1) as (M2 & F2 & S2 & I2). rewrite Hqid in *.
  assert (Hi2 : einv (unregister e1 (co_order_id msg))).
  { apply (einv_frame e1); try done; [apply Hcp| |apply Hi].
    eapply (uncrossed_filter _ _ (λ q, q_id q ≠ co_order_id msg)); [apply Hi|apply Hcp|apply Hi|apply Hcp]. }
  eapply wp_conseq; [apply emit_cancelled_ok; try done; by rewrite I2|]. intros e' He'.
  eapply (handler_post_emit 0 e _ e' []); [done| | | |by apply ext_refl|done].
  - by rewrite (fr_kill _ _ F2).
  - by rewrite (fr_pre _ _ F2).
  - unfold grew, order_total. rewrite (fr_book _ _ F2), Hperm. simpl. rewrite (cp_seq _ _ _ Hcp). lia.
Qed.

(** ** [MassCancel] *)

Lemma mass_of_order s q : mass_order (mass_of s q) = (s, q).
Proof. by destruct q. Qed.

Lemma mass_order_account_orders (b : Book L) a :
  mass_order <$> account_orders b a = filter (λ so, q_account so.2 = a) (book_orders b).
Proof.
  unfold account_orders, book_orders. rewrite fmap_app, filter_app, <-!list_fmap_compose.
  f_equal; (apply fmap_filter_comm; [done|]); intros q _ _; apply mass_of_order.
Qed.

Lemma book_orders_mass b a out b' out' n :
  mass_post b a out b' out' n →
  book_orders b ≡ₚ (mass_order <$> account_orders b a) ++ book_orders b'.
Proof.
  intros Hmp. rewrite mass_order_account_orders. unfold book_orders at 3.
  rewrite !(mcp_queue _ _ _ _ _ _ Hmp).
  rewrite <-(filter_app_complement (λ so, q_account so.2 = a) (book_orders b)) at 1.
  apply Permutation_app_head. unfold book_orders. rewrite filter_app.
  erewrite <-!fmap_filter_comm; done.
Qed.

Lemma handle_mass_cancel_ok e msg ts :
  einv e → account_id_ok (mcl_account_id msg) → (order_total e + 1 <= id_cap (e_ids e))%nat →
  wp False (handle_mass_cancel e msg ts) (handler_post (order_total e + 1) e).
Proof.
  intros Hi Hac Hc.
  assert (Hrej : ∀ reason, wp False (emit_rejected_mass e (mcl_account_id msg) reason ts)
    (handler_post (order_total e + 1) e)).
  { intros reason. unfold emit_rejected_mass. simpl. eapply wp_conseq; [apply reject_ok; try done; lia|].
    intros e' He'. eapply handler_post_weaken; [done|lia]. }
  unfold handle_mass_cancel. destruct (check_mass_cancel _ _) as [[]|]; [|apply Hrej].
  destruct (is_kill_switched _); [apply Hrej|].
  pose proof (mass_cancel_ok (e_book e) (mcl_account_id msg) [] (ei_book _ Hi)) as Hmp.
  destruct (mass_cancel _ _ _) as [[b' out] n].
  destruct (mcp_out _ _ _ _ _ _ Hmp) as (new & -> & _ & Hnew & _). simpl.
  set (e1 := set_mass e b' new). pose proof (book_orders_mass _ _ _ _ _ _ Hmp) as Hperm.
  assert (Hlen : (length new <= order_total e)%nat).
  { unfold order_total. rewrite Hperm, length_app, length_fmap, Hnew. lia. }
  eapply wp_conseq; [apply (mass_cancel_loop_ok ts (book_orders b') new e1)|].
  - eapply mirrored_perm; [|apply Hi]. by rewrite Hnew.
  - simpl. lia.
  - intros e' (F & M & m & X). split.
    + apply (einv_frame e1); try done; [apply Hmp| |apply Hi].
      eapply (uncrossed_filter _ _ (λ q, q_account q ≠ mcl_account_id msg));
        [apply Hi|apply Hmp|apply Hi|apply Hmp].
    + by rewrite (fr_kill _ _ F).
    + by rewrite (fr_pre _ _ F).
    + unfold grew, order_total. rewrite (fr_book _ _ F), Hperm, length_app. simpl.
      rewrite (mcp_seq _ _ _ _ _ _ Hmp). lia.
    + exists ([] ++ m). eapply (ext_weaken _ (0 + length new)); [|lia].
      eapply ext_trans; [|done]. by apply ext_refl.
Qed.

(** ** [CancelReplace] *)

(** Room for the residual of a replace: the arrival counter and the quantity
    counter of its level cannot overflow. *)
Definition residual_room e (msg : CancelReplace) : Prop :=
  seq (e_book e) < u64_max ∧
  ∀ s, queue_qty (side_queue (e_book e) s) + cr_new_qty msg <= u64_max.

(** Only a replace that passes the risk gate needs it. *)
Definition replace_room e (msg : CancelReplace) : Prop :=
  check_cancel_replace (e_risk e) msg = Ok tt → residual_room e msg.

Lemma rest_replaced_ok e msg old remaining m os ts :
  let q := mkQ (cr_order_id msg) (cr_account_id msg) (cr_new_price msg) remaining in
  book_ok (e_book e) → uncrossed (e_book e) → last_ok e → resting_fields_ok (om_side m, q) →
  index (e_book e) !! cr_order_id msg = Some m → q ∈ side_queue (e_book e) (om_side m) →
  book_orders (e_book e) ≡ₚ (om_side m, q) :: os → mirrored e os →
  from_option re_side Bid old = om_side m → (1 <= id_cap (e_ids e))%nat →
  wp False (rest_replaced e msg old remaining ts)
    (λ e', einv e' ∧ kill_switch (e_risk e') = kill_switch (e_risk e) ∧
       e_pre_step_levels e' = e_pre_step_levels e ∧
       ((order_total e' <= order_total e)%nat ∧ seq (e_book e') <= seq (e_book e)) ∧
       ∃ msgs, ext 1 e e' msgs).
Proof.
  intros q Hb Hu Hl Hf Hm Hq Hperm Hmir Hold Hc. destruct Hf as (Hid & Hac & Hp & Hqty).
  unfold rest_replaced. rewrite notional_of_exact by done.
  change (cr_new_price msg * remaining) with (order_notional q).
  pose proof (frame_on_order_resting (e_risk e) (cr_account_id msg) (order_notional q)) as Hfr.
  destruct (on_order_resting _ _ _) as [r [u|reason]] eqn:Hr; simpl in Hfr.
  - simpl. split_and!; [|apply Hfr|done|done|done|exists []; eapply ext_weaken; [by apply ext_refl|lia]].
    split; simpl; [done|done| |by apply last_ok_frame].
    eapply mirrored_perm; [by symmetry|]. rewrite Hold.
    apply (mirror_add _ (e_risk e) _ q _ r u); try done.
    pose proof (book_orders_ids _ Hb) as Hnd. rewrite Hperm in Hnd. csimpl in Hnd.
    by apply NoDup_cons in Hnd as [? _].
  - change (e_book (set_risk e r)) with (e_book e). rewrite cancel_eq, Hm by done.
    simpl. pose proof (cancelled_post _ _ _ Hb Hm) as Hcp.
    pose proof (book_orders_cancel _ _ _ q _ Hb Hm Hq eq_refl Hcp) as Hperm'.
    assert (Hos : os ≡ₚ book_orders (cancelled (e_book e) (cr_order_id msg) m)).
    { apply (Permutation_cons_inv (a := (om_side m, q))). by rewrite <-Hperm, <-Hperm'. }
    set (e1 := set_book _ _). assert (Hi1 : einv e1).
    { split; simpl; [apply Hcp| | |by apply last_ok_frame].
      - eapply (uncrossed_filter _ _ (λ q, q_id q ≠ cr_order_id msg)); [done|apply Hcp|done|apply Hcp].
      - eapply mirrored_perm; [exact Hos|]. by eapply mirror_resting_err. }
    eapply wp_conseq; [by apply emit_rejected_ok|]. intros e' [Hs [msgs X]].
    split_and!; [by eapply einv_same_core|by rewrite (sc_risk _ _ Hs); apply Hfr
                |by rewrite (sc_pre _ _ Hs)| | |exists msgs].
    + unfold order_total. rewrite (sc_book _ _ Hs), Hperm'. simpl. lia.
    + rewrite (sc_book _ _ Hs). simpl. rewrite (cp_seq _ _ _ Hcp). lia.
    + apply (ext_trans _ 0 1 e e1 e' [] msgs); [by apply ext_refl|done].
Qed.

(** The order leaves the registry and is acknowledged as replaced. *)
Lemma replaced_ack_ok e msg b' ids' fills stp s q os ts :
  let e1 := set_match e b' ids' fills stp in
  mirrored e ((s, q) :: os) → q_id q = cr_order_id msg → last_ok e → order_id_ok (cr_order_id msg) →
  account_id_ok (cr_account_id msg) → qty_ok (cr_new_qty msg) → (1 <= id_cap ids')%nat →
  wp False (emit_exec_report_replaced
      (set_registry (set_risk e1 (on_order_removed (e_risk e1) (q_account q) (order_notional q)))
        (delete (cr_order_id msg) (e_registry e1)))
      (cr_order_id msg) (cr_account_id msg) (cr_new_qty msg) ts)
    (λ e', mirrored e' os ∧ e_book e' = b' ∧ e_fills_buf e' = fills ∧ e_stp_buf e' = stp ∧
       last_ok e' ∧ kill_switch (e_risk e') = kill_switch (e_risk e) ∧
       e_pre_step_levels e' = e_pre_step_levels e ∧ ∃ msgs, ext 1 e1 e' msgs).
Proof.
  intros e1 Hm Hid Hl Ho Ha Hq Hc.
  pose proof (frame_on_order_removed (e_risk e) (q_account q) (order_notional q)) as Hfr.
  set (e2 := set_registry _ _).
  assert (M2 : mirrored e2 os) by (unfold mirrored; simpl; rewrite <-Hid; by apply mirror_remove in Hm).
  eapply wp_conseq; [by apply (emit_replaced_ok e2)|]. intros e' [Hs [msgs X]].
  split_and!; [by eapply mirrored_same_core|by rewrite (sc_book _ _ Hs)|by rewrite (sc_fills _ _ Hs)
    |by rewrite (sc_stp _ _ Hs)| | |by rewrite (sc_pre _ _ Hs)|exists msgs].
  - unfold last_ok. rewrite (sc_risk _ _ Hs). simpl. rewrite (proj2 Hfr). done.
  - rewrite (sc_risk _ _ Hs). simpl. apply Hfr.
  - apply (ext_trans _ 0 1 e1 e2 e' [] msgs); [by apply ext_refl|done].
Qed.

Section Replace.
Context (e : Eng) (msg : CancelReplace) (m : OrderMeta) (q : QOrder) (ts : RecvTs).
Hypotheses (Hi : einv e) (Hm : index (e_book e) !! cr_order_id msg = Some m)
  (Hq : q ∈ side_queue (e_book e) (om_side m)) (Hqid : q_id q = cr_order_id msg)
  (Hown : q_account q = cr_account_id msg)
  (Hid : order_id_ok (cr_order_id msg)) (Hac : account_id_ok (cr_account_id msg))
  (Hp : price_ok (cr_new_price msg)) (Hn : qty_ok (cr_new_qty msg))
  (Hc : (4 * order_total e + 4 <= id_cap (e_ids e))%nat).
Local Abbreviation b0 := (cancelled (e_book e) (cr_order_id msg) m).

Lemma replace_perm : book_orders (e_book e) ≡ₚ (om_side m, q) :: book_orders b0.
Proof. eapply book_orders_cancel; try done; [apply Hi|]. apply cancelled_post; [apply Hi|done]. Qed.

Lemma replace_mirror : mirrored e ((om_side m, q) :: book_orders b0).
Proof. eapply mirrored_perm; [apply replace_perm|apply Hi]. Qed.

Lemma replace_meta : om_account_id m = cr_account_id msg ∧ om_price m = q_price q.
Proof.
  rewrite <-Hown. destruct (side_queue_index _ _ _ _ (ei_book _ Hi) Hq) as (m' & Hm' & _ & ? & ? & _).
  rewrite Hqid, Hm in Hm'. by simplify_eq.
Qed.

Lemma commit_kept_ok b' :
  cr_new_price msg = om_price m → book_ok b' → index b' = index (e_book e) → seq b' = seq (e_book e) →
  (∀ s, side_queue b' s = spec_set_qty (cr_order_id msg) (cr_new_qty msg) (side_queue (e_book e) s)) →
  wp False (commit_replace (set_match e b' (e_ids e) [] []) msg (Some (entry_of (om_side m, q))) None ts)
    (handler_post (4 * order_total e + 4) e).
Proof.
  intros Hpr Hb' Hix Hsq Hqs. pose proof (ei_book _ Hi) as Hb.
  pose proof (proj2 replace_meta) as Hqp.
  assert (Hnew : mkQ (cr_order_id msg) (cr_account_id msg) (cr_new_price msg) (cr_new_qty msg) =
                 q_with_qty q (cr_new_qty msg)) by (unfold q_with_qty; congruence).
  pose proof (book_orders_set_qty _ b' _ _ _ _ (cr_new_qty msg) Hb Hm Hq Hqid Hqs
    (cancelled_post _ _ _ Hb Hm)) as Hperm.
  unfold commit_replace. apply wp_bind. eapply wp_conseq.
  { apply (replaced_ack_ok e msg b' (e_ids e) [] [] _ _ _ ts replace_mirror); try done; [apply Hi|lia]. }
  intros e2 (M2 & B2 & F2 & S2 & L2 & K2 & P2 & m2 & X2). pose proof (ext_cap _ _ _ _ _ X2) as C2. simpl in C2.
  unfold emit_fills_for_taker, emit_stp_cancels. rewrite F2. simpl. rewrite S2. simpl.
  eapply wp_conseq.
  { apply (rest_replaced_ok e2 msg _ (cr_new_qty msg) m (book_orders b0));
      rewrite ?B2, ?Hix; try done; [| | |lia].
    - eapply uncrossed_sub; [exact Hb|done|apply Hi|]. intros s q'. rewrite Hqs.
      intros (q0 & -> & ?)%list_elem_of_fmap. exists q0. split; [done|]. by case_decide.
    - rewrite Hqs, Hnew. apply list_elem_of_fmap. exists q. by rewrite decide_True.
    - by rewrite Hperm, Hnew. }
  intros e3 (Hi3 & K3 & P3 & T3 & m3 & X3). split; [done|congruence|congruence| |].
  - unfold grew, order_total in *. rewrite B2, Hperm in T3. rewrite replace_perm. simpl in *. lia.
  - exists ([] ++ m2 ++ m3). eapply (ext_weaken _ (0 + (1 + 1))); [|lia].
    eapply (ext_trans _ 0 _ e (set_match e b' (e_ids e) [] [])); [by apply ext_refl|by eapply ext_trans].
Qed.

(** The moved order is matched against a book that is uncrossed and stays so. *)
Lemma moved_uncrossed b1 ids' fills stp res :
  let taker := replace_taker (cr_order_id msg) m (cr_new_price msg) (cr_new_qty msg) in
  match_post b0 taker (e_ids e) [] [] (aggressive_spec b0 taker) b1 ids' fills stp res →
  book_ok b0 ∧ uncrossed b1 ∧ (length fills <= order_total e)%nat ∧
  (length (book_orders b1) < order_total e)%nat ∧ seq b1 = seq (e_book e).
Proof.
  intros taker Hpost. pose proof (ei_book _ Hi) as Hb.
  pose proof (cancelled_post _ _ _ Hb Hm) as Hcp. pose proof (cp_ok _ _ _ Hcp) as Hb0.
  pose proof (match_fills_length _ _ _ _ _ _ _ _ Hpost) as Hfl. simpl in Hfl.
  pose proof (match_orders_length _ _ _ _ _ _ _ _ Hpost) as Hol.
  unfold order_total. rewrite replace_perm. simpl. rewrite (length_book_orders b0 (om_side m)) in Hol |- *.
  split_and!; [done| |lia|lia|by rewrite (mp_seq _ _ _ _ _ _ _ _ _ _ _ Hpost), (cp_seq _ _ _ Hcp)].
  eapply match_uncrossed; [exact Hb0|done|].
  apply (uncrossed_filter (e_book e) _ (λ q, q_id q ≠ cr_order_id msg)); [done|done|apply Hi|apply Hcp].
Qed.

(** After the reports, a residual that rests again. *)
Lemma moved_rests_ok b1 b' ids' fills stp res rest k msgs e4 :
  let taker := replace_taker (cr_order_id msg) m (cr_new_price msg) (cr_new_qty msg) in
  match_post b0 taker (e_ids e) [] [] (aggressive_spec b0 taker) b1 ids' fills stp res →
  post_only_blocked b0 taker = false →
  mr_taker_stp_cancelled res = false → mr_taker_remaining res = Some rest →
  add_post b1 (replace_rest (cr_order_id msg) m (cr_new_price msg) rest) b' →
  e_book e4 = b' → mirrored e4 (book_orders b1) → last_ok e4 →
  kill_switch (e_risk e4) = kill_switch (e_risk e) →
  e_pre_step_levels e4 = e_pre_step_levels e → ext k e e4 msgs → (1 <= id_cap (e_ids e4))%nat →
  wp False (rest_replaced e4 msg (Some (entry_of (om_side m, q))) rest ts) (handler_post (k + 1) e).
Proof.
  intros taker Hpost Hg Hstp Hrem Hrest B4 M4 L4 K4 P4 X4 C4.
  destruct (moved_uncrossed _ _ _ _ _ Hpost) as (Hb0 & Hu1 & _ & T1 & Hseq).
  pose proof (proj1 replace_meta) as Hma.
  assert (Hrq : qty_ok rest).
  { pose proof Hrem as Hrem'. rewrite (mp_remaining _ _ _ _ _ _ _ _ _ _ _ Hpost) in Hrem'.
    eapply (aggressive_remaining_ok b0 taker); [done..|exact Hrem']. }
  set (ord := replace_rest _ _ _ _) in Hrest. pose proof (book_orders_add _ _ _ Hrest) as Hperm.
  assert (Hrq' : resting_q ord = mkQ (cr_order_id msg) (cr_account_id msg) (cr_new_price msg) rest).
  { unfold resting_q, ord. simpl. by rewrite Hma. }
  eapply wp_conseq.
  { apply (rest_replaced_ok e4 msg _ rest (resting_meta ord) (book_orders b1)); rewrite ?B4; try done; [apply Hrest| | | | ].
    - eapply uncrossed_add; [apply Hpost|done|done|].
      eapply (match_remainder_no_cross b0 taker); [done..|].
      by rewrite (mp_post_only _ _ _ _ _ _ _ _ _ _ _ Hpost).
    - rewrite (ap_index _ _ _ Hrest). apply lookup_insert_eq.
    - rewrite <-Hrq'. simpl. rewrite (ap_queue _ _ _ Hrest : side_queue b' (om_side m) = _), spec_insert_perm. set_solver.
    - by rewrite <-Hrq'. }
  intros e5 (Hi5 & K5 & P5 & T5 & m5 & X5). split; [done|congruence|congruence| |].
  - unfold grew, order_total in *. rewrite B4, Hperm, (ap_seq _ _ _ Hrest), Hseq in T5. simpl in T5. lia.
  - eexists. by eapply ext_trans.
Qed.

Lemma commit_moved_ok b1 b' ids' fills stp res :
  let taker := replace_taker (cr_order_id msg) m (cr_new_price msg) (cr_new_qty msg) in
  match_post b0 taker (e_ids e) [] [] (aggressive_spec b0 taker) b1 ids' fills stp res →
  post_only_blocked b0 taker = false →
  match mr_taker_stp_cancelled res, mr_taker_remaining res with
  | false, Some rest => add_post b1 (replace_rest (cr_order_id msg) m (cr_new_price msg) rest) b'
  | _, _ => b' = b1
  end →
  wp False (commit_replace (set_match e b' ids' fills stp) msg (Some (entry_of (om_side m, q)))
              (Some res) ts)
    (handler_post (4 * order_total e + 4) e).
Proof.
  intros taker Hpost Hg Hrest. destruct (moved_uncrossed _ _ _ _ _ Hpost) as (Hb0 & Hu1 & Hfl & T1 & Hseq).
  destruct (match_ids _ _ _ _ _ _ _ _ Hpost) as [Hmark Hcap]; [lia|].
  set (e1 := set_match e b' ids' fills stp).
  assert (X1 : ext (length fills) e e1 []) by by apply ext_match.
  unfold commit_replace. apply wp_bind. eapply wp_conseq.
  { apply (replaced_ack_ok e msg b' ids' fills stp _ _ _ ts replace_mirror); try done; [apply Hi|lia]. }
  intros e2 (M2 & B2 & F2 & S2 & L2 & K2 & P2 & m2 & X2). pose proof (ext_cap _ _ _ _ _ X2) as C2. simpl in C2.
  pose proof (proj1 replace_meta) as Hma.
  apply wp_bind. eapply wp_conseq.
  { rewrite <-Hma. apply (report_fills_ok b0 taker _ _ _ _ _ _ ts Hpost Hg); simpl; try done; [by rewrite Hma|lia]. }
  intros e3 (F3 & M3 & m3 & X3). pose proof (ext_cap _ _ _ _ _ X3) as C3.
  apply wp_bind. eapply wp_conseq.
  { apply (report_stp_ok b0 taker _ _ _ _ _ _ ts Hpost e3); [by rewrite (fr_stp _ _ F3)|done|lia]. }
  intros e4 (F4 & M4 & m4 & X4). pose proof (ext_cap _ _ _ _ _ X4) as C4.
  pose proof (frame_trans _ _ _ F3 F4) as F24.
  assert (B4 : e_book e4 = b') by (by rewrite (fr_book _ _ F24)).
  assert (X14 : ext (length fills + (1 + (3 * length fills + 1))) e e4 ([] ++ m2 ++ m3 ++ m4)).
  { eapply ext_trans; [done|]. eapply ext_trans; [done|]. by eapply ext_trans. }
  assert (K4 : kill_switch (e_risk e4) = kill_switch (e_risk e)) by (by rewrite (fr_kill _ _ F24)).
  assert (P4 : e_pre_step_levels e4 = e_pre_step_levels e) by (by rewrite (fr_pre _ _ F24)).
  assert (L4 : last_ok e4) by by apply F24.
  assert (Hdone : b' = b1 → einv e4 ∧ grew e e4).
  { intros ->. split; [split; rewrite ?B4; try done; apply Hpost|]. unfold grew, order_total in *. rewrite B4. lia. }
  destruct (mr_taker_stp_cancelled res) eqn:Hstp.
  { destruct (Hdone Hrest) as [Hi4 T4]. eapply wp_conseq; [apply emit_cancelled_ok; try done; lia|]. intros e' He'.
    eapply handler_post_weaken; [by eapply (handler_post_emit _ e e4)|lia]. }
  destruct (mr_taker_remaining res) as [rest|] eqn:Hrem.
  2: { destruct (Hdone Hrest) as [Hi4 T4]. split; try done. eexists. eapply ext_weaken; [done|lia]. }
  eapply wp_conseq; [eapply (moved_rests_ok b1 b'); try done; lia|].
  intros e5 He5. eapply handler_post_weaken; [done|lia].
Qed.

(** The residual of a moved order always finds room. *)
Lemma moved_residual_fits b1 ids' fills stp res rest err :
  let taker := replace_taker (cr_order_id msg) m (cr_new_price msg) (cr_new_qty msg) in
  residual_room e msg →
  match_post b0 taker (e_ids e) [] [] (aggressive_spec b0 taker) b1 ids' fills stp res →
  mr_taker_remaining res = Some rest →
  ¬ add_error b1 (replace_rest (cr_order_id msg) m (cr_new_price msg) rest) err.
Proof.
  intros taker [Hseq Hroom] Hmp Hrem. pose proof (ei_book _ Hi) as Hb.
  pose proof (cancelled_post _ _ _ Hb Hm) as Hcp. pose proof (cp_ok _ _ _ Hcp) as Hb0.
  rewrite (mp_remaining _ _ _ _ _ _ _ _ _ _ _ Hmp) in Hrem.
  pose proof (aggressive_remaining_ok _ taker _ Hb0 Hn Hrem) as Hrq.
  pose proof (aggressive_remaining _ taker Hb0 Hn) as Hle. simpl in Hle.
  apply add_room; [apply Hmp|done| | |].
  - simpl. apply not_elem_of_dom. intros Hdom.
    apply (subseteq_dom _ _ (mp_index _ _ _ _ _ _ _ _ _ _ _ Hmp)) in Hdom.
    rewrite (cp_index _ _ _ Hcp) in Hdom. set_solver.
  - rewrite (mp_seq _ _ _ _ _ _ _ _ _ _ _ Hmp), (cp_seq _ _ _ Hcp). done.
  - simpl. rewrite (mp_same _ _ _ _ _ _ _ _ _ _ _ Hmp : side_queue b1 (om_side m) = _). simpl.
    rewrite (cp_queue _ _ _ Hcp). pose proof (queue_qty_cancel (cr_order_id msg) _ (side_queue_pos _ _ (om_side m) Hb)).
    specialize (Hroom (om_side m)). destruct (_ =? 0); [done|]. simplify_eq. lia.
Qed.

End Replace.

Lemma handle_cancel_replace_ok e msg ts :
  einv e → order_id_ok (cr_order_id msg) → account_id_ok (cr_account_id msg) →
  price_ok (cr_new_price msg) → qty_ok (cr_new_qty msg) → replace_room e msg →
  (4 * order_total e + 4 <= id_cap (e_ids e))%nat →
  wp False (handle_cancel_replace e msg ts) (handler_post (4 * order_total e + 4) e).
Proof.
  intros Hi Hid Hac Hp Hn Hroom Hc.
  assert (Hrej : ∀ reason, wp False (emit_rejected e (cr_order_id msg) (cr_account_id msg) reason ts)
      (handler_post (4 * order_total e + 4) e)).
  { intros reason. apply (reject_within _ e [] []); try done; lia. }
  unfold handle_cancel_replace. destruct (check_cancel_replace _ _) as [[]|] eqn:Hchk; [|apply Hrej].
  specialize (Hroom Hchk). destruct (is_kill_switched _); [apply Hrej|].
  destruct (from_option _ false _) eqn:Hgate; [apply Hrej|]. apply wp_bind. eapply wp_conseq.
  { apply (replace_ok False (λ ids n, (n <= id_cap ids)%nat) next_trade_cap); try done; [apply Hi|].
    intros m Hm. unfold order_total in Hc. rewrite (length_book_orders _ (om_side m)) in Hc. lia. }
  intros [[[[b' ids'] fills] stp] r] Hpost. unfold replace_post in Hpost.
  destruct (index (e_book e) !! cr_order_id msg) as [m|] eqn:Hm.
  2: { destruct Hpost as (-> & -> & -> & -> & ->). apply reject_within; try done; lia. }
  destruct Hpost as (q & Hq & Hqid & Hpost).
  assert (Hreg : e_registry e !! cr_order_id msg = Some (entry_of (om_side m, q))).
  { apply (mi_reg _ _ _ (ei_mirror _ Hi)). exists (om_side m, q). by rewrite elem_of_book_orders. }
  rewrite Hreg in Hgate |- *. simpl in Hgate. apply negb_false_iff, Z.eqb_eq in Hgate.
  destruct (bool_decide (cr_new_price msg = om_price m ∧ cr_new_qty msg <= q_qty q)) eqn:Hkept.
  { destruct Hpost as (-> & Hb' & Hqs & Hix & Hsq & -> & -> & ->). simpl.
    apply bool_decide_eq_true in Hkept as [Hpr _]. by apply commit_kept_ok. }
  destruct (bool_decide (om_tif m = PostOnly) && _).
  { destruct Hpost as (-> & -> & -> & -> & ->). simpl. apply reject_within; try done; lia. }
  destruct Hpost as [(b1 & res & Hmp & Hg & Hrest)].
  assert (Hpo : mr_taker_post_only_rejected res = false).
  { by rewrite (mp_post_only _ _ _ _ _ _ _ _ _ _ _ Hmp). }
  destruct (mr_taker_stp_cancelled res) eqn:Hstp.
  { destruct Hrest as [-> ->]. simpl. rewrite Hpo. eapply commit_moved_ok; try done. by rewrite Hstp. }
  destruct (mr_taker_remaining res) as [rest|] eqn:Hrem.
  2: { destruct Hrest as [-> ->]. simpl. rewrite Hpo. eapply commit_moved_ok; try done. by rewrite Hstp, Hrem. }
  destruct Hrest as [[Hadd ->]|(-> & err & Herr & _)].
  { simpl. rewrite Hpo. eapply commit_moved_ok; try done. by rewrite Hstp, Hrem. }
  exfalso. by eapply moved_residual_fits.
Qed.

End Handlers.
