(* ===== verification/EngineL2.v ===== *)
(** * EngineL2: the level-2 delta feed

    A subscriber that applies the deltas of one step to the level totals it had
    before the step obtains the level totals after it. *)

From S2P Require Import Prelude BTree Domain PriceLevel Book BookSpec BookInv BookMatch BookOps BookReplace Messages Ids Risk Engine EngineInv EngineFills EngineOrders.

Abbreviation level := (Side * Price * Z)%type.

(** The subscriber's view, and what it does with one message. *)
Definition level_map (ls : list level) : gmap (Side * Z) Z := list_to_map ls.

Definition apply_l2 (m : gmap (Side * Z) Z) (msg : Outbound) : gmap (Side * Z) Z :=
  match msg with
  | Out_BookUpdateL2Delta d =>
      match l2_new_qty d with
      | None => delete (l2_side d, l2_price d) m
      | Some q => <[(l2_side d, l2_price d) := q]> m
      end
  | _ => m
  end.

(** ** The key order *)

Definition klt (x y : level) : Prop := level_key_lt x.1.1 x.1.2 y.1.1 y.1.2 = true.

Definition key_rank (k : Side * Price) : Z * Z := (Side_as_u8 k.1, k.2).

Lemma klt_spec x y :
  klt x y ↔ Side_as_u8 x.1.1 < Side_as_u8 y.1.1 ∨ (x.1.1 = y.1.1 ∧ x.1.2 < y.1.2).
Proof.
  unfold klt, level_key_lt. rewrite orb_true_iff, andb_true_iff, !Z.ltb_lt, Z.eqb_eq.
  destruct (x.1.1), (y.1.1); simpl; naive_solver lia.
Qed.

Lemma klt_irrefl x y : klt x y → x.1 ≠ y.1.
Proof. rewrite klt_spec. destruct x as [[[] ?] ?], y as [[[] ?] ?]; simpl; intros ? [=]; lia. Qed.

Lemma klt_trans x y z : klt x y → klt y z → klt x z.
Proof.
  rewrite !klt_spec. destruct x as [[[] ?] ?], y as [[[] ?] ?], z as [[[] ?] ?]; simpl; naive_solver lia.
Qed.

Lemma klt_total x y : x.1 ≠ y.1 → ¬ klt x y → klt y x.
Proof.
  rewrite !klt_spec. destruct x as [[[] p1] ?], y as [[[] p2] ?]; simpl; intros Hne Hn;
    try (by left); try (exfalso; apply Hn; by left).
  all: right; split; [done|]; assert (p1 ≠ p2) by congruence;
    assert (¬ p1 < p2) by (intros ?; apply Hn; by right); lia.
Qed.

Lemma level_key_eq_spec (x y : level) : level_key_eq x.1.1 x.1.2 y.1.1 y.1.2 = true ↔ x.1 = y.1.
Proof.
  unfold level_key_eq. rewrite andb_true_iff, !Z.eqb_eq.
  destruct x as [[[] ?] ?], y as [[[] ?] ?]; simpl; naive_solver lia.
Qed.

Definition ksorted (ls : list level) : Prop := StronglySorted klt ls.

Lemma ksorted_NoDup ls : ksorted ls → NoDup ls.*1.
Proof.
  induction 1 as [|x ls Hs IH Hall]; csimpl; constructor; [|done].
  intros (y & Heq & Hy)%list_elem_of_fmap. rewrite Forall_forall in Hall.
  by apply (klt_irrefl x y); [apply Hall|].
Qed.

Lemma ksorted_app A B :
  ksorted A → ksorted B → (∀ x y, x ∈ A → y ∈ B → klt x y) → ksorted (A ++ B).
Proof. intros. by apply StronglySorted_app_2. Qed.

Lemma level_map_middle A B k v :
  k ∉ (A ++ B).*1 → NoDup (A ++ B).*1 → level_map (A ++ (k, v) :: B) = <[k := v]> (level_map (A ++ B)).
Proof.
  intros Hk Hnd. unfold level_map.
  rewrite (list_to_map_proper (A ++ (k, v) :: B) ((k, v) :: A ++ B)); [done| |].
  - rewrite <-Permutation_middle. csimpl. by constructor.
  - by rewrite Permutation_middle.
Qed.

(** The merge state: what the subscriber holds after [i] and [j]. *)
Record merge_at (pre post : list level) (i j : nat) : Prop := {
  ma_pre : ksorted pre;
  ma_post : ksorted post;
  ma_lt x y : x ∈ take j post → y ∈ drop i pre → klt x y;
}.

Lemma sorted_split_lt (ls : list level) n x y :
  ksorted ls → x ∈ take n ls → y ∈ drop n ls → klt x y.
Proof.
  intros Hs Hx Hy. rewrite <-(take_drop n ls) in Hs.
  by eapply StronglySorted_app_1_elem_of.
Qed.

Lemma merge_sorted pre post i j : merge_at pre post i j → ksorted (take j post ++ drop i pre).
Proof.
  intros [H1 H2 H3]. apply ksorted_app; [| |done].
  - rewrite <-(take_drop j post) in H2. by apply StronglySorted_app_1_l in H2.
  - rewrite <-(take_drop i pre) in H1. by apply StronglySorted_app_1_r in H1.
Qed.

Section Merge.
Context (pre post : list level) (i j : nat).
Hypothesis Hm : merge_at pre post i j.

Lemma merge_both x y :
  pre !! i = Some x → post !! j = Some y → x.1 = y.1 →
  merge_at pre post (S i) (S j) ∧
  level_map (take (S j) post ++ drop (S i) pre) = <[y.1 := y.2]> (level_map (take j post ++ drop i pre)) ∧
  (x.2 = y.2 → level_map (take (S j) post ++ drop (S i) pre) = level_map (take j post ++ drop i pre)).
Proof.
  intros Hx Hy Heq. pose proof (merge_sorted _ _ _ _ Hm) as Hs. destruct x as [k v], y as [k' v']. simpl in Heq. subst k'.
  assert (Hm' : merge_at pre post (S i) (S j)).
  { destruct Hm as [H1 H2 H3]. split; try done. intros a c. rewrite (take_S_r _ _ _ Hy), elem_of_app.
    intros [Ha| ->%list_elem_of_singleton] Hc.
    - apply H3; [done|]. rewrite (drop_S _ _ _ Hx). set_solver.
    - assert (Hk : klt (k, v) c) by (apply (sorted_split_lt pre (S i)); [done|rewrite (take_S_r _ _ _ Hx); set_solver|done]).
      done. }
  split; [done|]. rewrite (take_S_r _ _ _ Hy), (drop_S _ _ _ Hx) in *. rewrite <-app_assoc. simpl.
  assert (Hnd : NoDup (take j post ++ (k, v) :: drop (S i) pre).*1) by by apply ksorted_NoDup.
  rewrite <-Permutation_middle in Hnd. csimpl in Hnd. apply NoDup_cons in Hnd as [Hk Hnd].
  rewrite !level_map_middle by done. simpl. rewrite insert_insert_eq. split; [done|]. by intros ->.
Qed.

Lemma merge_removed x :
  pre !! i = Some x → (∀ y, post !! j = Some y → klt x y) →
  merge_at pre post (S i) j ∧
  level_map (take j post ++ drop (S i) pre) = delete x.1 (level_map (take j post ++ drop i pre)).
Proof.
  intros Hx Hlt. pose proof (merge_sorted _ _ _ _ Hm) as Hs. destruct x as [k v]. split.
  { destruct Hm as [H1 H2 H3]. split; try done. intros a c Ha Hc. apply H3; [done|].
    rewrite (drop_S _ _ _ Hx). set_solver. }
  rewrite (drop_S _ _ _ Hx) in *.
  assert (Hnd : NoDup (take j post ++ (k, v) :: drop (S i) pre).*1) by by apply ksorted_NoDup.
  rewrite <-Permutation_middle in Hnd. csimpl in Hnd. apply NoDup_cons in Hnd as [Hk Hnd].
  rewrite level_map_middle by done. simpl. rewrite delete_insert_id; [done|].
  by apply not_elem_of_list_to_map_1.
Qed.

Lemma merge_added y :
  post !! j = Some y → (∀ x, pre !! i = Some x → klt y x) →
  merge_at pre post i (S j) ∧
  level_map (take (S j) post ++ drop i pre) = <[y.1 := y.2]> (level_map (take j post ++ drop i pre)).
Proof.
  intros Hy Hlt. pose proof (merge_sorted _ _ _ _ Hm) as Hs. destruct y as [k v].
  assert (Hb : ∀ c, c ∈ drop i pre → klt (k, v) c).
  { intros c Hc. destruct (pre !! i) as [x|] eqn:Hx.
    - specialize (Hlt _ eq_refl). rewrite (drop_S _ _ _ Hx) in Hc. apply elem_of_cons in Hc as [->|Hc]; [done|].
      eapply klt_trans; [done|]. apply (sorted_split_lt pre (S i)); [apply Hm| |done].
      rewrite (take_S_r _ _ _ Hx). set_solver.
    - rewrite drop_ge in Hc by by apply lookup_ge_None. set_solver. }
  assert (Hm' : merge_at pre post i (S j)).
  { destruct Hm as [H1 H2 H3]. split; try done. intros a c. rewrite (take_S_r _ _ _ Hy), elem_of_app.
    intros [Ha| ->%list_elem_of_singleton] Hc; auto. }
  split; [done|]. pose proof (merge_sorted _ _ _ _ Hm') as Hs'.
  rewrite (take_S_r _ _ _ Hy) in *. rewrite <-app_assoc in *. simpl in *.
  apply ksorted_NoDup in Hs'. rewrite <-Permutation_middle in Hs'. csimpl in Hs'.
  apply NoDup_cons in Hs' as [Hk Hnd]. by rewrite level_map_middle.
Qed.

End Merge.

(** ** The levels of a book *)

Section Capture.
Context {L : Type} `{!PriceLevelOps L} `{!PriceLevelLaws L}.
Implicit Types (b : Book L).

Definition level_entry s (e : Z * L) : level := (s, e.1, level_total e.2).

Lemma capture_levels_eq b :
  capture_levels b = (level_entry Bid <$> bids b) ++ (level_entry Ask <$> asks b).
Proof.
  unfold capture_levels, bid_levels, ask_levels.
  by rewrite <-!list_fmap_compose, <-fmap_reverse, reverse_involutive.
Qed.

Lemma level_entries_sorted s (m : list (Z * L)) : bt_ok m → ksorted (level_entry s <$> m).
Proof.
  induction m as [|[p l] m IH]; csimpl; [constructor|]. rewrite bt_ok_cons. intros [Hok Hall].
  constructor; [by apply IH|]. apply Forall_fmap. eapply Forall_impl; [exact Hall|].
  intros [p' l'] Hlt. apply klt_spec. right. done.
Qed.

Definition level_valid (x : level) : Prop := price_ok x.1.2 ∧ qty_ok x.2.

Lemma level_total_ok b s p l :
  book_ok b → level_at b s p = Some l → level_total l = sum_qty (level_queue l) ∧ level_valid (level_entry s (p, l)).
Proof.
  intros Hok Hl. destruct (ok_level _ _ Hok _ _ _ Hl) as (Hp & _ & Hsum & Hall).
  pose proof (ok_nonempty _ _ Hok _ _ _ Hl) as Hne.
  assert (Ht : level_total l = sum_qty (level_queue l)).
  { unfold level_total. by rewrite level_total_queue. }
  split; [done|]. split; [done|]. simpl. rewrite Ht. apply qty_ok_pos. split; [|done].
  destruct (level_queue l) as [|o os]; [naive_solver|].
  apply Forall_cons in Hall as [(_ & _ & _ & _ & Hq & _) Hall]. apply qty_ok_pos in Hq.
  unfold sum_qty. csimpl. fold (sum_qty os).
  assert (0 <= sum_qty os); [|lia]. apply sum_qty_nonneg. eapply Forall_impl; [exact Hall|].
  intros o' (_ & _ & _ & _ & Hq' & _). apply qty_ok_pos in Hq'. lia.
Qed.

Lemma capture_sorted b : book_ok b → ksorted (capture_levels b).
Proof.
  intros Hok. rewrite capture_levels_eq. apply ksorted_app.
  - apply level_entries_sorted, (ok_sorted _ _ Hok Bid).
  - apply level_entries_sorted, (ok_sorted _ _ Hok Ask).
  - intros x y (ex & -> & _)%list_elem_of_fmap (ey & -> & _)%list_elem_of_fmap.
    apply klt_spec. left. simpl. lia.
Qed.

Lemma elem_of_capture b x :
  book_ok b → x ∈ capture_levels b ↔ ∃ l, level_at b x.1.1 x.1.2 = Some l ∧ x.2 = level_total l.
Proof.
  intros Hok. rewrite capture_levels_eq, elem_of_app, !list_elem_of_fmap. split.
  - intros [([p l] & -> & Hin)|([p l] & -> & Hin)]; exists l; split; try done; simpl.
    + by apply (bt_get_elem _ _ _ (ok_sorted _ _ Hok Bid)).
    + by apply (bt_get_elem _ _ _ (ok_sorted _ _ Hok Ask)).
  - intros (l & Hl & Hx). destruct x as [[[] p] n]; simpl in *; [left|right];
      (exists (p, l); split; [unfold level_entry; simpl; congruence|by apply bt_get_Some_elem in Hl]).
Qed.

Lemma capture_valid b : book_ok b → Forall level_valid (capture_levels b).
Proof.
  intros Hok. apply Forall_forall. intros [[s p] n] (l & Hl & Hn)%elem_of_capture; [|done].
  simpl in *. subst n. by apply (level_total_ok b s p l).
Qed.

(** A level's total is the quantity resting at its price. *)
Lemma level_map_capture b s p :
  book_ok b →
  level_map (capture_levels b) !! (s, p) =
    (λ l, sum_qty (level_queue l)) <$> level_at b s p.
Proof.
  intros Hok. pose proof (ksorted_NoDup _ (capture_sorted b Hok)) as Hnd.
  destruct (level_at b s p) as [l|] eqn:Hl; simpl.
  - apply elem_of_list_to_map_1; [done|]. apply elem_of_capture; [done|]. exists l. split; [done|].
    symmetry. by apply (level_total_ok b s p).
  - apply not_elem_of_list_to_map_1. intros ([[s' p'] n] & [= -> ->] & Hx)%list_elem_of_fmap.
    apply elem_of_capture in Hx as (l & Hl' & _); [|done]. simpl in Hl'. congruence.
Qed.

Lemma filter_price_level b p p' l :
  filter (λ q, q_price q = p) (level_orders b p' l) = if decide (p' = p) then level_orders b p' l else [].
Proof.
  unfold level_orders. case_decide as Hd; [subst p'|].
  - apply filter_id, Forall_fmap, Forall_forall. done.
  - induction (level_queue l) as [|o os IH]; csimpl; [done|]. by rewrite filter_cons, decide_False by done.
Qed.

Lemma side_queue_at_price b s p :
  book_ok b →
  filter (λ q, q_price q = p) (side_queue b s) = from_option (level_orders b p) [] (level_at b s p).
Proof.
  intros Hok. unfold side_queue. rewrite filter_bind.
  destruct (best_first_split_at b s p (ok_sorted _ _ Hok s)) as (A & B & -> & _ & _ & HA & HB).
  assert (Hnil : ∀ es, Forall (λ e, e.1 ≠ p) es →
    (es ≫= λ e, filter (λ q, q_price q = p) (level_orders b e.1 e.2)) = []).
  { induction 1 as [|e es He Hes IH]; csimpl; [done|]. by rewrite filter_price_level, decide_False, IH. }
  rewrite !bind_app, (Hnil A), (Hnil B), app_nil_r.
  - destruct (level_at b s p) as [l|]; csimpl; [|done]. by rewrite app_nil_r, filter_price_level, decide_True.
  - eapply Forall_impl; [exact HB|]. intros e He Heq. apply He. rewrite Heq. apply better_eq_refl.
  - eapply Forall_impl; [exact HA|]. intros e He Heq. apply He. rewrite Heq. apply better_eq_refl.
Qed.

Lemma level_map_queue b s p :
  book_ok b →
  default 0 (level_map (capture_levels b) !! (s, p)) =
    queue_qty (filter (λ q, q_price q = p) (side_queue b s)).
Proof.
  intros Hok. rewrite level_map_capture, side_queue_at_price by done.
  destruct (level_at b s p) as [l|]; simpl; [|done]. by rewrite queue_qty_level.
Qed.

Lemma length_capture b : book_ok b → (length (capture_levels b) <= length (book_orders b))%nat.
Proof.
  intros Hok. rewrite capture_levels_eq, length_app, !length_fmap.
  assert (H : ∀ s, (length (levels b s) <= length (side_queue b s))%nat).
  { intros s. trans (length (best_first s (levels b s))).
    { destruct s; simpl; [by rewrite length_reverse|done]. }
    unfold side_queue. assert (Hne : ∀ e, e ∈ best_first s (levels b s) → level_queue e.2 ≠ []).
    { intros e He. apply best_first_level in He; [|apply Hok]. by apply (ok_nonempty _ _ Hok _ _ _ He). }
    induction (best_first s (levels b s)) as [|e es IH]; csimpl; [lia|]. rewrite length_app.
    specialize (IH ltac:(set_solver)). specialize (Hne e ltac:(set_solver)).
    unfold level_orders at 1. rewrite length_fmap. destruct (level_queue e.2); simpl; [done|lia]. }
  rewrite (length_book_orders b Bid). pose proof (H Bid). pose proof (H Ask). simpl in *. lia.
Qed.

End Capture.

(** ** The merge loop *)

Section Deltas.
Context {L C I Snk : Type} `{!PriceLevelOps L} `{!PriceLevelLaws L} `{!Clock C} `{!IdGenerator I}
  `{!IdGeneratorLaws I} `{!OutboundSink Snk}.
Local Abbreviation Eng := (Engine L C I Snk).
Implicit Types (e : Eng).

Lemma emit_l2_delta_ok e s p n :
  (0 < id_cap (e_ids e))%nat → price_ok p → (n = 0 ∨ qty_ok n) →
  wp False (emit_l2_delta e s p n)
    (λ e', same_core e e' ∧ ∃ msg, stream outbound_ok 1 e e' [msg] ∧
       ∀ m, apply_l2 m msg = if decide (n = 0) then delete (s, p) m else <[(s, p) := n]> m).
Proof.
  intros Hc Hp Hn. unfold emit_l2_delta.
  set (nq := if n =? 0 then None else result_ok (Qty_new n)).
  assert (Hnq : nq = if decide (n = 0) then None else Some n).
  { unfold nq. case_decide as Hd; [by rewrite Hd|]. rewrite (proj2 (Z.eqb_neq _ _)) by done.
    destruct Hn as [?|Hn]; [done|]. by rewrite Qty_new_ok. }
  clearbody nq. subst nq. eapply wp_conseq.
  { apply (emit_with_ok outbound_ok e); [done|]. intros sq ts. split; [done|]. split; [done|].
    intros q. simpl. case_decide; [done|]. intros [= <-]. tauto. }
  intros e' [Hs [ts X]]. split; [done|]. eexists. split; [exact X|]. intros m. simpl. by case_decide.
Qed.

Section Loop.
Context (e0 : Eng) (pre post : list level).
Hypotheses (Hpre : ksorted pre) (Hpost : ksorted post) (Vpre : Forall level_valid pre)
  (Vpost : Forall level_valid post)
  (Hc : (length pre + length post <= id_cap (e_ids e0))%nat).

Record l2_inv (st : Eng * nat * nat) : Prop := {
  l2_core : same_core e0 st.1.1;
  l2_i : (st.1.2 <= length pre)%nat;
  l2_j : (st.2 <= length post)%nat;
  l2_merge : merge_at pre post st.1.2 st.2;
  l2_msgs : ∃ msgs, stream outbound_ok (st.1.2 + st.2) e0 st.1.1 msgs ∧
    foldl apply_l2 (level_map pre) msgs = level_map (take st.2 post ++ drop st.1.2 pre);
}.

Lemma same_core_trans e1 e2 e3 : same_core e1 e2 → same_core e2 e3 → same_core e1 e3.
Proof. intros [] []. split; congruence. Qed.

(** One delta brings the subscriber from one merge state to the next. *)
Lemma l2_emit e i j i' j' s p n m :
  l2_inv (e, i, j) → price_ok p → (n = 0 ∨ qty_ok n) → (i + j < length pre + length post)%nat →
  (i' + j' = i + j + 1 ∨ i' + j' = i + j + 2)%nat → (i' <= length pre)%nat → (j' <= length post)%nat →
  merge_at pre post i' j' →
  m = (if decide (n = 0) then delete (s, p) (level_map (take j post ++ drop i pre))
       else <[(s, p) := n]> (level_map (take j post ++ drop i pre))) →
  m = level_map (take j' post ++ drop i' pre) →
  wp False (let! e := emit_l2_delta e s p n in Ret (inl (e, i', j') : Eng * nat * nat + Eng))
    (λ r, match r with inl st => l2_inv st ∧ st.1.2 = i' ∧ st.2 = j' | inr _ => False end).
Proof.
  intros [Hcore Hi Hj Hm (msgs & X & Hmap)] Hp Hn Hlt Hij Hi' Hj' Hm' Heq Heq'. simpl in *.
  pose proof (ext_cap _ _ _ _ _ X) as Hcap. apply wp_bind.
  eapply wp_conseq; [apply emit_l2_delta_ok; [lia|done..]|].
  intros e' [Hs (msg & X' & Happ)]. simpl. split_and!; try done. split; simpl; try done.
  - by eapply same_core_trans.
  - exists (msgs ++ [msg]). split.
    + eapply (ext_weaken _ (i + j + 1)); [by eapply ext_trans|lia].
    + rewrite foldl_app. simpl. by rewrite Hmap, Happ, <-Heq.
Qed.

Definition l2_measure (st : Eng * nat * nat) : nat := (length pre - st.1.2) + (length post - st.2).

(** What a round must give: a later merge state, or the end of both lists. *)
Definition l2_next (st : Eng * nat * nat) (r : Eng * nat * nat + Eng) : Prop :=
  match r with
  | inl st' => l2_inv st' ∧ (l2_measure st' < l2_measure st)%nat
  | inr e => l2_inv (e, length pre, length post)
  end.

Lemma l2_same e i j x y :
  l2_inv (e, i, j) → pre !! i = Some x → post !! j = Some y → x.1 = y.1 →
  wp False (let! e := if x.2 =? y.2 then Ret e else emit_l2_delta e y.1.1 y.1.2 y.2 in
            Ret (inl (e, S i, S j))) (l2_next (e, i, j)).
Proof.
  intros Hinv Ex Ey Heq. pose proof (lookup_lt_Some _ _ _ Ex). pose proof (lookup_lt_Some _ _ _ Ey).
  destruct (merge_both _ _ _ _ (l2_merge _ Hinv) _ _ Ex Ey Heq) as (Hm' & Hmap & Hsame).
  destruct (Forall_lookup_1 _ _ _ _ Vpost Ey) as [Hp Hq]. pose proof (proj1 (qty_ok_pos _) Hq).
  destruct x as [kx n], y as [[ys yp] n']. simpl in *. destruct (Z.eqb_spec n n') as [E|E]; simpl.
  - split; [|unfold l2_measure; simpl; lia]. destruct Hinv as [? ? ? ? (msgs & X & Hms)].
    split; simpl in *; try done; try lia. exists msgs. split; [eapply ext_weaken; [done|lia]|].
    by rewrite Hms, Hsame.
  - eapply wp_conseq; [eapply (l2_emit e i j (S i) (S j)); try done; try lia; [by right|]|].
    + rewrite decide_False by lia. by symmetry.
    + intros [st'|]; [|done]. intros (? & E1 & E2). split; [done|]. unfold l2_measure. simpl. lia.
Qed.

Lemma l2_removed e i j x :
  l2_inv (e, i, j) → pre !! i = Some x → (∀ y, post !! j = Some y → klt x y) →
  wp False (let! e := emit_l2_delta e x.1.1 x.1.2 0 in Ret (inl (e, S i, j))) (l2_next (e, i, j)).
Proof.
  intros Hinv Ex Hlt. pose proof (lookup_lt_Some _ _ _ Ex). pose proof (l2_j _ Hinv) as Hj.
  destruct (merge_removed _ _ _ _ (l2_merge _ Hinv) _ Ex Hlt) as [Hm' Hmap].
  destruct (Forall_lookup_1 _ _ _ _ Vpre Ex) as [Hp _]. destruct x as [[xs xp] n]. simpl in *.
  eapply wp_conseq; [eapply (l2_emit e i j (S i) j); try done; lia|].
  intros [st'|]; [|done]. intros (? & E1 & E2). split; [done|]. unfold l2_measure. simpl. lia.
Qed.

Lemma l2_added e i j y :
  l2_inv (e, i, j) → post !! j = Some y → (∀ x, pre !! i = Some x → klt y x) →
  wp False (let! e := emit_l2_delta e y.1.1 y.1.2 y.2 in Ret (inl (e, i, S j))) (l2_next (e, i, j)).
Proof.
  intros Hinv Ey Hlt. pose proof (lookup_lt_Some _ _ _ Ey). pose proof (l2_i _ Hinv) as Hi.
  destruct (merge_added _ _ _ _ (l2_merge _ Hinv) _ Ey Hlt) as [Hm' Hmap].
  destruct (Forall_lookup_1 _ _ _ _ Vpost Ey) as [Hp Hq]. pose proof (proj1 (qty_ok_pos _) Hq).
  destruct y as [[ys yp] n]. simpl in *.
  eapply wp_conseq; [eapply (l2_emit e i j i (S j)); try done; try lia; [by right|]|].
  - rewrite decide_False by lia. by symmetry.
  - intros [st'|]; [|done]. intros (? & E1 & E2). split; [done|]. unfold l2_measure. simpl. lia.
Qed.

Lemma l2_round_ok st : l2_inv st → wp False (l2_round pre post st) (l2_next st).
Proof.
  destruct st as [[e i] j]. intros Hinv. pose proof (l2_i _ Hinv) as Hi. pose proof (l2_j _ Hinv) as Hj.
  simpl in *. unfold l2_round.
  assert (Hend : ¬ (i < length pre)%nat → ¬ (j < length post)%nat → l2_next (e, i, j) (inr e)).
  { intros ? ?. unfold l2_next. by replace (length pre) with i by lia; replace (length post) with j by lia. }
  destruct (bool_decide (i < length pre)%nat || bool_decide (j < length post)%nat) eqn:Hgo; cbn [negb].
  2: { apply orb_false_iff in Hgo as [?%bool_decide_eq_false ?%bool_decide_eq_false]. by apply Hend. }
  destruct (pre !! i) as [[[ps pp] pq]|] eqn:Ex, (post !! j) as [[[qs qp] qq]|] eqn:Ey.
  - destruct (level_key_eq ps pp qs qp) eqn:Heq.
    { apply (level_key_eq_spec (ps, pp, pq) (qs, qp, qq)) in Heq. by apply (l2_same _ _ _ (ps, pp, pq) (qs, qp, qq)). }
    assert (Hne : (ps, pp) ≠ (qs, qp)).
    { intros E. apply (level_key_eq_spec (ps, pp, pq) (qs, qp, qq)) in E. simpl in E. congruence. }
    destruct (level_key_lt ps pp qs qp) eqn:Hlt.
    + apply (l2_removed _ _ _ (ps, pp, pq)); [done..|]. intros y Ey'. rewrite Ey in Ey'. by simplify_eq.
    + apply (l2_added _ _ _ (qs, qp, qq)); [done..|]. intros x Ex'. rewrite Ex in Ex'. simplify_eq.
      apply klt_total; [done|]. unfold klt. simpl. congruence.
  - apply (l2_removed _ _ _ (ps, pp, pq)); [done..|]. by rewrite Ey.
  - apply (l2_added _ _ _ (qs, qp, qq)); [done..|]. by rewrite Ex.
  - apply Hend; [apply lookup_ge_None in Ex|apply lookup_ge_None in Ey]; lia.
Qed.

End Loop.

Lemma emit_l2_deltas_ok e :
  let pre := e_pre_step_levels e in
  let post := e_post_step_levels e in
  ksorted pre → ksorted post → Forall level_valid pre → Forall level_valid post →
  (length pre + length post <= id_cap (e_ids e))%nat →
  wp False (emit_l2_deltas e)
    (λ e', same_core e e' ∧ ∃ msgs, stream outbound_ok (length pre + length post) e e' msgs ∧
       foldl apply_l2 (level_map pre) msgs = level_map post).
Proof.
  intros pre post Hpre Hpost Vpre Vpost Hc. unfold emit_l2_deltas. fold pre post.
  eapply wp_conseq.
  { apply (wp_loop False (l2_inv e pre post) (l2_measure pre post) _
      (λ e', l2_inv e pre post (e', length pre, length post))).
    - intros st Hst. eapply wp_conseq; [by apply (l2_round_ok e)|]. by intros [].
    - split; simpl; try lia; try done.
      + by split; [..|intros x y Hx%elem_of_nil].
      + exists []. split; [by apply ext_refl|]. done.
    - unfold l2_measure. simpl. lia. }
  intros e' [Hs _ _ _ (msgs & X & Hmap)]. simpl in *. split; [done|]. exists msgs. split; [done|].
  by rewrite Hmap, firstn_all, drop_all, app_nil_r.
Qed.

End Deltas.
