(* ===== verification/EngineRun.v ===== *)
(** * EngineRun: one step, and a whole session

    [step] and [run] return, keep the engine invariant, emit well-formed messages
    numbered consecutively, and the level-2 deltas among them carry a subscriber
    from the levels before to the levels after. *)

From S2P Require Import Prelude BTree Domain PriceLevel Book BookSpec BookInv BookMatch BookOps BookReplace Messages Ids Risk Engine EngineInv EngineFills EngineOrders EngineStep EngineL2.

Section Run.
Context {L C I Snk : Type} `{!PriceLevelOps L} `{!PriceLevelLaws L} `{!SnapshotSucceeds L}
  `{!Clock C} `{!IdGenerator I} `{!IdGeneratorLaws I} `{!OutboundSink Snk}.
Local Abbreviation Eng := (Engine L C I Snk).
Implicit Types (e : Eng).

Lemma einv_core e e' :
  e_book e' = e_book e → e_risk e' = e_risk e → e_registry e' = e_registry e → einv e → einv e'.
Proof.
  intros Hb Hr Hg [H1 H2 H3 H4]. split; rewrite ?Hb; try done.
  - unfold mirrored. by rewrite Hg, Hr.
  - unfold last_ok. by rewrite Hr.
Qed.

Lemma engine_new_inv clock ids sink : einv (engine_new clock ids sink : Eng).
Proof.
  split; simpl.
  - split; simpl; try done.
    + intros []; constructor.
    + intros [] p l; done.
    + intros [] p l; done.
    + split; [done|]. intros a id. split; [by intros []|by intros (m & ? & _)].
  - done.
  - split; simpl; try done.
    + constructor.
    + intros id ent. split; [done|]. intros (so & Hso & _). by apply elem_of_nil in Hso.
  - done.
Qed.

(** ** Snapshots and kill switch *)

Lemma snapshot_levels_ok (ls : list (Price * Z)) :
  Forall (λ x, price_ok x.1 ∧ qty_ok x.2) ls →
  snapshot_levels ls = (λ x, mkSnapshotLevel x.1 x.2) <$> ls ∧
  Forall snapshot_level_ok (snapshot_levels ls).
Proof.
  unfold snapshot_levels. induction 1 as [|[p q] ls [Hp Hq] Hls [IH1 IH2]]; simpl in *; [done|].
  apply qty_ok_pos in Hq as Hq'. rewrite filter_cons, decide_True by (simpl; lia). csimpl.
  rewrite Qty_new_ok by done. csimpl. rewrite IH1 in *. split; [done|by constructor].
Qed.

Lemma side_levels_valid (b : Book L) s :
  book_ok b → Forall (λ x, price_ok x.1 ∧ qty_ok x.2) (match s with Bid => bid_levels b | Ask => ask_levels b end).
Proof.
  intros Hok. assert (H : ∀ p l, (p, l) ∈ levels b s → price_ok p ∧ qty_ok (level_total l)).
  { intros p l Hin. apply (bt_get_elem _ _ _ (ok_sorted _ _ Hok s)) in Hin.
    by apply (level_total_ok b s p l). }
  destruct s; unfold bid_levels, ask_levels; apply Forall_fmap, Forall_forall; intros [p l] Hin; simpl.
  - apply H. by rewrite <-elem_of_reverse.
  - by apply H.
Qed.

Lemma handle_snapshot_ok e msg ts :
  einv e → (1 <= id_cap (e_ids e))%nat →
  wp False (handle_snapshot_request e msg ts) (handler_post 1 e).
Proof.
  intros Hi Hc. unfold handle_snapshot_request. eapply wp_conseq.
  { apply (emit_with_ext quiet_ok e); [lia|]. intros s ts'. split; [done|]. split; [|done]. split; simpl.
    - by apply snapshot_levels_ok, (side_levels_valid _ Bid), Hi.
    - by apply snapshot_levels_ok, (side_levels_valid _ Ask), Hi. }
  intros e' He'. eapply (handler_post_emit 0 e e); [done..|unfold grew, order_total; lia|by apply ext_refl|done].
Qed.

(** ** Every command *)

(** A command the engine can take in this state: decoded, and with room for the
    residual of a replace. *)
Definition step_ready e (msg : Inbound) : Prop :=
  inbound_ok msg ∧ match msg with In_CancelReplace m => replace_room e m | _ => True end.

(** Ids a step may spend: at most one trade id and three reports per resting order
    and a constant, and one delta per level before and after. *)
Definition handler_budget e : nat := 4 * order_total e + 4.
Definition step_budget e : nat := handler_budget e + (order_total e + S (order_total e)) + 1.

Lemma handle_ok e msg ts :
  einv e → step_ready e msg → (handler_budget e <= id_cap (e_ids e))%nat →
  wp False (handle e msg ts) (λ e',
    einv e' ∧ e_pre_step_levels e' = e_pre_step_levels e ∧ grew e e' ∧
    ∃ msgs, ext (handler_budget e) e e' msgs).
Proof.
  intros Hi [Hok Hroom] Hc. unfold handler_budget in *.
  assert (Hpost : ∀ k o, (k <= 4 * order_total e + 4)%nat → wp False o (handler_post k e) →
    wp False o (λ e', einv e' ∧ e_pre_step_levels e' = e_pre_step_levels e ∧
      grew e e' ∧ ∃ msgs, ext (4 * order_total e + 4) e e' msgs)).
  { intros k o Hk Ho. eapply wp_conseq; [done|]. intros e' [? _ ? ? [m X]]. split_and!; try done.
    exists m. by eapply ext_weaken. }
  destruct msg as [m|m|m|m|m|m]; simpl in *.
  - eapply Hpost; [|apply handle_new_order_ok; [done..|lia]]. lia.
  - eapply Hpost; [|apply handle_cancel_order_ok; [done|apply Hok..|lia]]. lia.
  - destruct Hok as (? & ? & ? & ?). eapply Hpost; [|by apply handle_cancel_replace_ok]. lia.
  - eapply Hpost; [|apply handle_mass_cancel_ok; [done..|lia]]. lia.
  - split_and!; [|done|unfold grew, order_total; simpl; lia|].
    + destruct Hi as [H1 H2 H3 H4]. split; try done. by apply (mirror_risk_ext _ (e_risk e)).
    + exists []. eapply ext_weaken; [by apply ext_refl|lia].
  - eapply Hpost; [|apply handle_snapshot_ok; [done|lia]]. lia.
Qed.

Lemma quiet_l2 m msgs : Forall quiet_ok msgs → foldl apply_l2 m msgs = m.
Proof.
  intros Hq. revert m. induction Hq as [|x msgs [_ Hx] Hms IH]; intros m; simpl; [done|].
  rewrite IH. by destruct x.
Qed.

Lemma side_qty_range (b : Book L) s : 0 <= side_qty b s <= u64_max.
Proof.
  unfold side_qty. assert (H : ∀ (es : list (Z * L)) acc, 0 <= acc <= u64_max →
    0 <= foldl (λ acc x, wrap_u64 (acc + level_total x.2)) acc es <= u64_max).
  { induction es as [|e es IH]; intros acc Hacc; simpl; [done|]. apply IH.
    unfold wrap_u64, u64_max. pose proof (Z.mod_pos_bound (acc + level_total e.2) (2 ^ 64)). lia. }
  apply H. unfold u64_max. lia.
Qed.

Lemma emit_book_update_top_ok e :
  book_ok (e_book e) → (0 < id_cap (e_ids e))%nat →
  wp False (emit_book_update_top e) (λ e', same_core e e' ∧ ∃ msgs, stream outbound_ok 1 e e' msgs ∧
    ∀ m, foldl apply_l2 m msgs = m).
Proof.
  intros Hok Hc. unfold emit_book_update_top.
  assert (Hq : ∀ s p, qty_ok (unwrap_or (Qty_new (qty_at (e_book e) s p)) Qty_MIN)).
  { intros s p. unfold qty_at. pose proof (side_qty_range (e_book e) s) as Hr.
    destruct (decide (side_qty (e_book e) s = 0)) as [->|Hne].
    - apply qty_ok_pos. vm_compute. split; [done|]. by intros.
    - rewrite Qty_new_pos by lia. apply qty_ok_pos. simpl. lia. }
  assert (Hp : ∀ s p, best_key (e_book e) s = Some p → price_ok p).
  { intros s p. rewrite best_key_queue by done. intros (q & Hq' & ->)%fmap_Some.
    apply head_Some_elem_of in Hq'. by destruct (side_queue_index _ _ _ _ Hok Hq') as (_ & _ & _ & _ & _ & _ & _ & ?). }
  eapply wp_conseq.
  { apply (emit_with_ok outbound_ok e); [done|]. intros sq ts. split; [done|].
    split; simpl; intros x (p & Hpx & ->)%fmap_Some; split; simpl; auto.
    - by apply (Hp Bid).
    - by apply (Hp Ask). }
  intros e' [Hs [ts X]]. split; [done|]. eexists. split; [exact X|]. done.
Qed.

(** ** [step] *)

Record step_post e e' (msgs : list Outbound) : Prop := {
  sp_inv : einv e';
  sp_total : grew e e';
  sp_stream : stream outbound_ok (step_budget e) e e' msgs;
  sp_l2 : foldl apply_l2 (level_map (capture_levels (e_book e))) msgs =
          level_map (capture_levels (e_book e'));
}.

Lemma handle_no_change e msg ts :
  einv e → emit_book_changes msg = false → (1 <= id_cap (e_ids e))%nat →
  wp False (handle e msg ts) (λ e', e_book e' = e_book e).
Proof.
  intros Hi Hch Hc. destruct msg as [| | | |m|m]; try done. simpl. unfold handle_snapshot_request.
  eapply wp_conseq; [apply (emit_with_ext (λ _, True)); [lia|done]|]. intros e' [Hs _]. apply Hs.
Qed.

Lemma quiet_stream k e e' msgs : ext k e e' msgs → stream outbound_ok k e e' msgs.
Proof. apply ext_impl. by intros m [? _]. Qed.

Lemma step_ok e msg :
  einv e → step_ready e msg → (step_budget e <= id_cap (e_ids e))%nat →
  wp False (step e msg) (λ e', ∃ msgs, step_post e e' msgs).
Proof.
  intros Hi Hr Hc. unfold step_budget in Hc. unfold step. destruct (now (e_clock e)) as [ts c].
  set (e1 := set_clock e c). destruct (emit_book_changes msg) eqn:Hch.
  - set (e2 := set_pre_step_levels e1 (capture_levels (e_book e1))).
    apply wp_bind. eapply wp_conseq.
    { apply (handle_ok e2 msg ts); [by apply (einv_core e)|done|].
      unfold handler_budget, order_total in *. simpl in *. lia. }
    intros e3 (Hi3 & P3 & T3 & m3 & X3). change (grew e2 e3) with (grew e e3) in T3. pose proof (proj1 T3) as T3'.
    change (order_total e2) with (order_total e) in *.
    change (handler_budget e2) with (handler_budget e) in *.
    pose proof (ext_cap _ _ _ _ _ X3) as C3. simpl in C3.
    set (e4 := set_post_step_levels e3 (capture_levels (e_book e3))).
    pose proof (length_capture _ (ei_book _ Hi)) as Lp. pose proof (length_capture _ (ei_book _ Hi3)) as Lq.
    fold (order_total e) in Lp. fold (order_total e3) in Lq.
    apply wp_bind. eapply wp_conseq.
    { apply (emit_l2_deltas_ok e4); simpl; rewrite ?P3; simpl;
        try apply capture_sorted; try apply capture_valid; try apply Hi; try apply Hi3. lia. }
    intros e5 [S5 (m5 & X5 & L5)]. simpl in X5, L5. rewrite P3 in X5, L5. simpl in X5, L5.
    pose proof (ext_cap _ _ _ _ _ X5) as C5. simpl in C5.
    assert (Hi5 : einv e5) by (eapply einv_same_core; [done|by apply (einv_core e3)]).
    eapply wp_conseq; [apply (emit_book_update_top_ok e5); [apply Hi5|lia]|].
    intros e6 [S6 (m6 & X6 & L6)]. exists (m3 ++ m5 ++ m6).
    assert (B6 : e_book e6 = e_book e3) by (by rewrite (sc_book _ _ S6), (sc_book _ _ S5)).
    split; [by eapply einv_same_core|by unfold grew, order_total in *; rewrite B6| |].
    + apply (ext_weaken _ (0 + (handler_budget e + (0 + (length (capture_levels (e_book e)) +
        length (capture_levels (e_book e3)) + 1))))); [|unfold step_budget; lia].
      eapply (ext_trans _ _ _ _ e2 _ []); [by apply ext_refl|].
      eapply ext_trans; [by apply quiet_stream|]. eapply (ext_trans _ _ _ _ e4 _ []); [by apply ext_refl|].
      by eapply ext_trans.
    + rewrite !foldl_app, B6. rewrite (quiet_l2 _ m3) by apply X3. by rewrite L5, L6.
  - assert (Hi1 : einv e1) by by apply (einv_core e).
    eapply wp_conseq; [apply wp_and; [apply (handle_ok e1 msg ts Hi1 Hr)|apply (handle_no_change e1 msg ts Hi1 Hch)]|].
    1, 2: unfold handler_budget, order_total in *; simpl in *; lia.
    intros e3 [(Hi3 & P3 & T3 & m3 & X3) B3]. exists m3. simpl in B3. split; try done.
    + apply (ext_weaken _ (0 + handler_budget e)); [|unfold step_budget; lia].
      eapply (ext_trans _ _ _ _ e1 _ []); [by apply ext_refl|by apply quiet_stream].
    + rewrite (quiet_l2 _ m3) by apply X3. by rewrite B3.
Qed.

(** ** A session *)

(** Every command of the session is taken in a state that is ready for it. *)
Fixpoint run_ready e (msgs : list Inbound) : Prop :=
  match msgs with
  | [] => True
  | m :: rest =>
      step_ready e m ∧ (step_budget e <= id_cap (e_ids e))%nat ∧
      ∀ e', step e m = Ret e' → run_ready e' rest
  end.

Lemma run_ok e msgs :
  einv e → run_ready e msgs →
  wp False (run e msgs) (λ e', einv e' ∧ ∃ outs k, stream outbound_ok k e e' outs ∧
    foldl apply_l2 (level_map (capture_levels (e_book e))) outs =
      level_map (capture_levels (e_book e'))).
Proof.
  revert e. induction msgs as [|m msgs IH]; intros e Hi Hr; simpl in *.
  { split; [done|]. exists [], O. split; [by apply ext_refl|done]. }
  destruct Hr as (Hm & Hc & Hrest). pose proof (step_ok e m Hi Hm Hc) as Hstep.
  destruct (step e m) as [e1| |] eqn:He; try done. simpl in *. destruct Hstep as (m1 & [Hi1 _ X1 L1]).
  eapply wp_conseq; [by apply IH; [|apply Hrest]|]. intros e2 (Hi2 & m2 & k2 & X2 & L2).
  split; [done|]. exists (m1 ++ m2), (step_budget e + k2)%nat. split; [by eapply ext_trans|].
  by rewrite foldl_app, L1, L2.
Qed.

End Run.
