(* ===== verification/EngineBounds.v ===== *)
(** * EngineBounds: sessions of bounded length cannot fail

    The session theorems ask, before every command, for room in the id source, in
    the arrival counter and in the level totals.  The risk limits bound every
    resting quantity, so a session of at most [MAX_SESSION] commands from a fresh
    engine has all of it: the side conditions are discharged once and for all. *)

From S2P Require Import Prelude BTree Domain PriceLevel Book BookSpec BookInv BookMatch BookOps BookReplace Messages Ids Risk Engine EngineInv EngineFills EngineOrders EngineStep EngineL2 EngineRun.

Definition MAX_SESSION : Z := 2 ^ 27.

(** Ids one step of such a session may spend. *)
Definition STEP_IDS : Z := 6 * MAX_SESSION + 6.

Lemma session_arith : (MAX_SESSION + 1) * MAX_NOTIONAL_PER_ACCT <= u64_max ∧ MAX_SESSION * STEP_IDS < u64_max - 1.
Proof. by vm_compute. Qed.

Lemma exposure_elem so os :
  Forall resting_fields_ok os → so ∈ os → order_notional so.2 <= exposure (q_account so.2) os.
Proof.
  unfold exposure. induction 1 as [|x os Hx Hos IH]; intros Hin; [set_solver|]. simpl.
  pose proof (exposure_nonneg (q_account so.2) os Hos) as Hnn. unfold exposure in Hnn.
  apply order_notional_pos in Hx. apply elem_of_cons in Hin as [->|Hin].
  - rewrite Z.eqb_refl. lia.
  - specialize (IH Hin). destruct (_ =? _); lia.
Qed.

Section Bounds.
Context {L C I Snk : Type} `{!PriceLevelOps L} `{!PriceLevelLaws L} `{!SnapshotSucceeds L}
  `{!Clock C} `{!IdGenerator I} `{!IdGeneratorLaws I} `{!OutboundSink Snk}.
Local Abbreviation Eng := (Engine L C I Snk).
Implicit Types (e : Eng).

(** The risk limit bounds every resting quantity. *)
Lemma resting_qty_cap e s q :
  einv e → q ∈ side_queue (e_book e) s → 0 < q_qty q <= MAX_NOTIONAL_PER_ACCT.
Proof.
  intros Hi Hq. apply (elem_of_book_orders _ s) in Hq. pose proof (ei_mirror _ Hi) as Hm.
  pose proof (exposure_elem _ _ (mi_fields _ _ _ Hm) Hq) as Hex. simpl in Hex.
  rewrite <-(mi_notional _ _ _ Hm) in Hex. pose proof (mi_cap _ _ _ Hm (q_account q)) as Hcap.
  pose proof (mi_fields _ _ _ Hm) as Hf. rewrite Forall_forall in Hf.
  destruct (Hf _ Hq) as (_ & _ & Hp & Hn). apply price_ok_pos in Hp. apply qty_ok_pos in Hn.
  simpl in *. unfold order_notional in Hex. nia.
Qed.

Lemma queue_qty_cap e s :
  einv e →
  queue_qty (side_queue (e_book e) s) <= Z.of_nat (order_total e) * MAX_NOTIONAL_PER_ACCT.
Proof.
  intros Hi. assert (H : ∀ qs, (∀ q, q ∈ qs → q_qty q <= MAX_NOTIONAL_PER_ACCT) →
    queue_qty qs <= Z.of_nat (length qs) * MAX_NOTIONAL_PER_ACCT).
  { unfold queue_qty. induction qs as [|q qs IH]; intros Hqs; csimpl; [lia|].
    specialize (IH ltac:(set_solver)). specialize (Hqs q ltac:(set_solver)). lia. }
  etrans; [apply H; intros q Hq; by eapply resting_qty_cap|].
  unfold order_total. rewrite (length_book_orders _ s). unfold MAX_NOTIONAL_PER_ACCT. lia.
Qed.

(** The invariant of a session after at most [k] commands. *)
Record sized (k : Z) e : Prop := {
  sz_inv : einv e;
  sz_total : Z.of_nat (order_total e) <= k;
  sz_seq : seq (e_book e) <= k;
}.

Lemma sized_ready k e m : sized k e → k <= MAX_SESSION → inbound_ok m → step_ready e m.
Proof.
  intros [Hi Ht Hs] Hk Hok. split; [done|]. destruct m as [| |m| | |]; try done. intros Hchk.
  pose proof session_arith as [Ha _]. split; [unfold MAX_SESSION, u64_max in *; lia|]. intros s.
  destruct Hok as (_ & _ & Hp & Hq). unfold check_cancel_replace in Hchk.
  destruct (kill_switch _); [done|]. destruct (check_price_band _ _); [|done]. cbn [result_bind] in Hchk.
  rewrite notional_of_exact in Hchk by done.
  destruct (Z.ltb_spec MAX_NOTIONAL_PER_ACCT (cr_new_price m * cr_new_qty m)); [done|].
  apply price_ok_pos in Hp. apply qty_ok_pos in Hq. pose proof (queue_qty_cap e s Hi) as Hcap.
  assert (cr_new_qty m <= MAX_NOTIONAL_PER_ACCT) by nia.
  assert (0 < MAX_NOTIONAL_PER_ACCT) by done. nia.
Qed.

Lemma step_sized k e m c :
  sized k e → 0 <= k < MAX_SESSION → inbound_ok m → c + STEP_IDS <= Z.of_nat (id_cap (e_ids e)) → 0 <= c →
  wp False (step e m) (λ e', sized (k + 1) e' ∧ c <= Z.of_nat (id_cap (e_ids e'))).
Proof.
  intros Hsz Hk Hok Hc Hc0. pose proof Hsz as [Hi Ht Hs].
  assert (Hb : Z.of_nat (step_budget e) <= STEP_IDS).
  { unfold step_budget, handler_budget, STEP_IDS in *. lia. }
  eapply wp_conseq; [apply (step_ok e m Hi); [eapply sized_ready; [done|lia|done]|lia]|].
  intros e' (msgs & [Hi' [T' S'] X _]). pose proof (ext_cap _ _ _ _ _ X). split; [split; [done|lia|lia]|lia].
Qed.

Lemma run_ready_sized k e msgs :
  sized k e → 0 <= k → k + Z.of_nat (length msgs) <= MAX_SESSION → Forall inbound_ok msgs →
  Z.of_nat (length msgs) * STEP_IDS <= Z.of_nat (id_cap (e_ids e)) → run_ready e msgs.
Proof.
  intros Hsz Hk Hlen Hok. revert k e Hsz Hk Hlen.
  induction Hok as [|m msgs Hm Hok IH]; intros k e Hsz Hk Hlen Hc; simpl in *; [done|].
  pose proof (sz_total _ _ Hsz) as Ht. assert (HS : 0 < STEP_IDS) by done. split_and!.
  - eapply sized_ready; [done|lia|done].
  - unfold step_budget, handler_budget, STEP_IDS in *. lia.
  - intros e' He'.
    assert (Hw : wp False (step e m) (λ e', sized (k + 1) e' ∧
        Z.of_nat (length msgs) * STEP_IDS <= Z.of_nat (id_cap (e_ids e')))).
    { apply step_sized; [done|lia|done|lia|lia]. }
    rewrite He' in Hw. destruct Hw as [Hsz' Hc']. apply (IH (k + 1)); [done|lia|lia|done].
Qed.

Lemma engine_new_sized clock ids sink : sized 0 (engine_new clock ids sink : Eng).
Proof. split; [apply engine_new_inv|done|done]. Qed.

End Bounds.

Lemma counter_new_cap : Z.of_nat (id_cap CounterIdGenerator_new) = u64_max - 1.
Proof. change (id_cap CounterIdGenerator_new) with (counter_cap CounterIdGenerator_new). unfold counter_cap. simpl. unfold u64_max. lia. Qed.

(** A fresh engine is ready for any session of valid commands up to the limit. *)
Lemma fresh_run_ready {L C Snk} `{!PriceLevelOps L} `{!PriceLevelLaws L} `{!SnapshotSucceeds L}
    `{!Clock C} `{!OutboundSink Snk} (clock : C) (sink : Snk) msgs :
  Forall inbound_ok msgs → Z.of_nat (length msgs) <= MAX_SESSION →
  run_ready (engine_new clock CounterIdGenerator_new sink : Engine L C CounterIdGenerator Snk) msgs.
Proof.
  intros Hok Hlen. apply (run_ready_sized 0); [apply engine_new_sized|done|lia|done|].
  cbn [e_ids engine_new]. rewrite counter_new_cap. pose proof session_arith as [_ H].
  assert (0 < STEP_IDS) by done. nia.
Qed.
