(* ===== verification/Bytes.v ===== *)
(** * Bytes: little-endian layouts

    A byte is a [Z] in [0, 256).  [to_le] and [from_le] are Rust's
    [to_le_bytes] and [from_le_bytes]; a packed wire struct is the list of the
    widths of its fields, and [ref_from_bytes] / [as_bytes] read and write its
    fields in order.  All integer fields are read unsigned; a signed one is cast
    by its user. *)

From S2P Require Import Prelude.

Definition byte_ok (b : Z) : Prop := 0 <= b < 256.
Definition bytes_ok (bs : list Z) : Prop := Forall byte_ok bs.

Fixpoint to_le (n : nat) (z : Z) : list Z :=
  match n with
  | O => []
  | S n => z mod 256 :: to_le n (z / 256)
  end.

Fixpoint from_le (bs : list Z) : Z :=
  match bs with
  | [] => 0
  | b :: bs => b + 256 * from_le bs
  end.

(** [buf[off .. off + n]] as an unsigned integer. *)
Definition uint_at (n off : nat) (bs : list Z) : Z := from_le (take n (drop off bs)).

Fixpoint split_fields (ws : list nat) (bs : list Z) : list Z :=
  match ws with
  | [] => []
  | w :: ws => from_le (take w bs) :: split_fields ws (drop w bs)
  end.

(** [IntoBytes::as_bytes] of a packed struct. *)
Fixpoint as_bytes (ws : list nat) (vs : list Z) : list Z :=
  match ws, vs with
  | w :: ws, v :: vs => to_le w v ++ as_bytes ws vs
  | _, _ => []
  end.

Definition layout_size (ws : list nat) : nat := foldr Nat.add O ws.

(** [FromBytes::ref_from_bytes]: the size must match exactly. *)
Definition ref_from_bytes (ws : list nat) (payload : list Z) : option (list Z) :=
  if decide (length payload = layout_size ws) then Some (split_fields ws payload) else None.

(** ** Round trips *)

Lemma to_le_S n z : to_le (S n) z = z mod 256 :: to_le n (z / 256).
Proof. done. Qed.

Lemma length_to_le n z : length (to_le n z) = n.
Proof. revert z. induction n as [|n IH]; intros z; simpl; [done|]. by rewrite IH. Qed.

Lemma to_le_ok n z : bytes_ok (to_le n z).
Proof.
  revert z. induction n as [|n IH]; intros z; simpl; constructor; [|apply IH].
  unfold byte_ok. pose proof (Z.mod_pos_bound z 256). lia.
Qed.

Lemma pow_256_S n : 256 ^ Z.of_nat (S n) = 256 * 256 ^ Z.of_nat n.
Proof. rewrite Nat2Z.inj_succ, Z.pow_succ_r by lia. done. Qed.

Lemma from_to_le n z : 0 <= z < 256 ^ Z.of_nat n → from_le (to_le n z) = z.
Proof.
  revert z. induction n as [|n IH]; intros z Hz; cbn [to_le from_le].
  - change (256 ^ Z.of_nat 0) with 1 in Hz. lia.
  - rewrite pow_256_S in Hz. rewrite IH.
    + pose proof (Z.div_mod z 256). lia.
    + split; [apply Z.div_pos; lia|]. apply Z.div_lt_upper_bound; lia.
Qed.

Lemma from_le_range bs : bytes_ok bs → 0 <= from_le bs < 256 ^ Z.of_nat (length bs).
Proof.
  induction 1 as [|b bs Hb Hbs IH]; cbn [from_le length]; [done|].
  rewrite pow_256_S. unfold byte_ok in Hb. lia.
Qed.

Lemma to_from_le bs : bytes_ok bs → to_le (length bs) (from_le bs) = bs.
Proof.
  induction 1 as [|b bs Hb Hbs IH]; simpl; [done|]. unfold byte_ok in Hb.
  rewrite (Z.mul_comm 256), Z.mod_add, Z.div_add by lia.
  rewrite Z.mod_small, Z.div_small, Z.add_0_l by lia. by rewrite IH.
Qed.

Lemma bytes_ok_take n bs : bytes_ok bs → bytes_ok (take n bs).
Proof. apply Forall_take. Qed.

Lemma bytes_ok_drop n bs : bytes_ok bs → bytes_ok (drop n bs).
Proof. apply Forall_drop. Qed.

Lemma length_as_bytes ws vs : length ws = length vs → length (as_bytes ws vs) = layout_size ws.
Proof.
  revert vs. induction ws as [|w ws IH]; intros [|v vs] H; simpl in *; try done.
  rewrite length_app, length_to_le. unfold layout_size in *. simpl. rewrite IH by lia. done.
Qed.

Lemma as_bytes_ok ws vs : bytes_ok (as_bytes ws vs).
Proof.
  revert vs. induction ws as [|w ws IH]; intros [|v vs]; simpl; try constructor.
  apply Forall_app. split; [apply to_le_ok|apply IH].
Qed.

(** Values that fit their fields. *)
Definition fits (w : nat) (v : Z) : Prop := 0 <= v < 256 ^ Z.of_nat w.

Lemma split_as_bytes ws vs rest : Forall2 fits ws vs → split_fields ws (as_bytes ws vs ++ rest) = vs.
Proof.
  intros H. induction H as [|w v ws vs Hv Hvs IH]; simpl; [done|].
  rewrite <-app_assoc, take_app_length', drop_app_length' by by rewrite length_to_le.
  by rewrite from_to_le, IH.
Qed.

Lemma as_bytes_split ws bs :
  bytes_ok bs → length bs = layout_size ws → as_bytes ws (split_fields ws bs) = bs.
Proof.
  revert bs. induction ws as [|w ws IH]; intros bs Hb Hl; simpl in *.
  - by destruct bs.
  - unfold layout_size in *. simpl in Hl. rewrite IH; [|by apply bytes_ok_drop|rewrite length_drop; lia].
    rewrite <-(length_take_le bs w) at 1 by lia. rewrite to_from_le by by apply bytes_ok_take.
    apply take_drop.
Qed.

Lemma split_fields_fits ws bs :
  bytes_ok bs → length bs = layout_size ws → Forall2 fits ws (split_fields ws bs).
Proof.
  revert bs. induction ws as [|w ws IH]; intros bs Hb Hl; simpl; constructor.
  - unfold fits. unfold layout_size in *. simpl in Hl. 
    pose proof (from_le_range (take w bs) (bytes_ok_take _ _ Hb)) as Hr.
    by rewrite length_take_le in Hr by lia.
  - apply IH; [by apply bytes_ok_drop|]. unfold layout_size in *. simpl in Hl. rewrite length_drop. lia.
Qed.

Lemma ref_from_as_bytes ws vs :
  Forall2 fits ws vs → ref_from_bytes ws (as_bytes ws vs) = Some vs.
Proof.
  intros H. unfold ref_from_bytes. rewrite decide_True by (apply length_as_bytes; by eapply Forall2_length).
  rewrite <-(app_nil_r (as_bytes ws vs)). by rewrite split_as_bytes.
Qed.

Lemma ref_from_bytes_inv ws bs vs :
  bytes_ok bs → ref_from_bytes ws bs = Some vs → as_bytes ws vs = bs ∧ Forall2 fits ws vs.
Proof.
  unfold ref_from_bytes. intros Hb. case_decide; [|done]. intros [= <-].
  split; [by apply as_bytes_split|by apply split_fields_fits].
Qed.

(** ** Casts between the signed value and its wire image *)

Lemma i64_u64_roundtrip z : is_i64 z → u64_as_i64 (i64_as_u64 z) = z.
Proof.
  unfold is_i64, u64_as_i64, i64_as_u64, wrap_i64, wrap_u64, i64_min, i64_max. intros Hz.
  rewrite Zplus_mod_idemp_l. rewrite Z.mod_small; lia.
Qed.

Lemma u64_i64_roundtrip z : is_u64 z → i64_as_u64 (u64_as_i64 z) = z.
Proof.
  unfold is_u64, u64_as_i64, i64_as_u64, wrap_i64, wrap_u64, u64_max. intros Hz.
  rewrite Zminus_mod_idemp_l. replace (z + 2 ^ 63 - 2 ^ 63) with z by lia. apply Z.mod_small. lia.
Qed.

Lemma u64_as_i64_range z : is_i64 (u64_as_i64 z).
Proof.
  unfold is_i64, u64_as_i64, wrap_i64, i64_min, i64_max.
  pose proof (Z.mod_pos_bound (z + 2 ^ 63) (2 ^ 64)). lia.
Qed.

Lemma i64_as_u64_range z : is_u64 (i64_as_u64 z).
Proof.
  unfold is_u64, i64_as_u64, wrap_u64, u64_max. pose proof (Z.mod_pos_bound z (2 ^ 64)). lia.
Qed.

Lemma i64_as_u64_pos z : 0 <= z <= i64_max → i64_as_u64 z = z.
Proof. unfold i64_as_u64, wrap_u64, i64_max. intros. apply Z.mod_small. lia. Qed.

Lemma u64_as_i64_pos z : 0 <= z <= i64_max → u64_as_i64 z = z.
Proof. unfold u64_as_i64, wrap_i64, i64_max. intros. rewrite Z.mod_small; lia. Qed.

Lemma fits_u64 z : is_u64 z ↔ fits 8 z.
Proof. unfold is_u64, fits, u64_max. lia. Qed.
Lemma fits_u32 z : is_u32 z ↔ fits 4 z.
Proof. unfold is_u32, fits, u32_max. lia. Qed.
Lemma fits_u8 z : is_u8 z ↔ fits 1 z.
Proof. unfold is_u8, fits, u8_max. lia. Qed.

#[global] Arguments to_le : simpl never.
#[global] Arguments from_le : simpl never.
#[global] Arguments as_bytes : simpl never.
#[global] Arguments split_fields : simpl never.
#[global] Arguments ref_from_bytes : simpl never.
