(* ===== verification/Framing.v ===== *)
(** * Framing: length-prefixed frames

    [crates/wire/src/error.rs] and [framing.rs]: the wire errors, the message
    kinds, and the parser and writer of [len:u32][kind:u8][payload] frames.
    A borrowed slice is a list; a [usize] is a [nat]. *)

From Stdlib Require Export String.
From S2P Require Import Prelude Domain Bytes.
#[local] Open Scope Z_scope.
Abbreviation length := Datatypes.length.

Inductive WireError :=
| Truncated
| UnknownKind (kind : Z)
| NonZeroPad (offset : nat)
| PayloadSize (expected got : nat)
| InvalidEnumValue (field : string) (value : Z)
| PayloadTooLarge (n : nat)
| InconsistentPayload (what : string)
| WireDomain (e : DomainError).

(** [to_wire]: the [From] conversions into [DomainError], one per source error. *)
Class IntoDomain (E : Type) := into_domain : E → DomainError.
#[global] Instance into_Price : IntoDomain PriceError := DE_Price.
#[global] Instance into_Qty : IntoDomain QtyError := DE_Qty.
#[global] Instance into_OrderId : IntoDomain OrderIdError := DE_OrderId.
#[global] Instance into_AccountId : IntoDomain AccountIdError := DE_AccountId.
#[global] Instance into_Side : IntoDomain SideError := DE_Side.
#[global] Instance into_OrderType : IntoDomain OrderTypeError := DE_OrderType.
#[global] Instance into_Tif : IntoDomain TifError := DE_Tif.
#[global] Instance into_RejectReason : IntoDomain RejectReasonError := DE_RejectReason.
#[global] Instance into_CancelReason : IntoDomain CancelReasonError := DE_CancelReason.
#[global] Instance into_ExecState : IntoDomain ExecStateError := DE_ExecState.

Definition to_wire {E} `{!IntoDomain E} (e : E) : WireError := WireDomain (into_domain e).

Definition FRAME_LEN_BYTES : nat := 4.
Definition FRAME_KIND_BYTES : nat := 1.
Definition FRAME_HEADER_BYTES : nat := FRAME_LEN_BYTES + FRAME_KIND_BYTES.

Inductive MessageKind :=
| K_NewOrder | K_CancelOrder | K_CancelReplace | K_MassCancel | K_KillSwitchSet | K_SnapshotRequest
| K_ExecReport | K_TradePrint | K_BookUpdateTop | K_BookUpdateL2Delta | K_SnapshotResponse.

Definition MessageKind_as_u8 (k : MessageKind) : Z :=
  match k with
  | K_NewOrder => 1 | K_CancelOrder => 2 | K_CancelReplace => 3 | K_MassCancel => 4
  | K_KillSwitchSet => 5 | K_SnapshotRequest => 6
  | K_ExecReport => 101 | K_TradePrint => 102 | K_BookUpdateTop => 103
  | K_BookUpdateL2Delta => 104 | K_SnapshotResponse => 105
  end.

Definition MessageKind_try_from (v : Z) : result MessageKind WireError :=
  match v with
  | 1 => Ok K_NewOrder | 2 => Ok K_CancelOrder | 3 => Ok K_CancelReplace | 4 => Ok K_MassCancel
  | 5 => Ok K_KillSwitchSet | 6 => Ok K_SnapshotRequest
  | 101 => Ok K_ExecReport | 102 => Ok K_TradePrint | 103 => Ok K_BookUpdateTop
  | 104 => Ok K_BookUpdateL2Delta | 105 => Ok K_SnapshotResponse
  | other => Err (UnknownKind other)
  end.

Record Frame := mkFrame { fr_kind : MessageKind; fr_payload : list Z }.

Inductive ParseOutcome := PO_Frame (f : Frame) | PO_UnknownKind (kind : Z).

(** [buf.get(..n)] and [buf.get(n..)]. *)
Definition get_prefix (n : nat) (buf : list Z) : option (list Z) :=
  if decide (n <= length buf)%nat then Some (take n buf) else None.
Definition get_suffix (n : nat) (buf : list Z) : option (list Z) :=
  if decide (n <= length buf)%nat then Some (drop n buf) else None.

(** [Frame::parse_or_skip]. *)
Definition parse_or_skip (buf : list Z) : result (ParseOutcome * nat) WireError :=
  let? len_arr := ok_or (get_prefix FRAME_LEN_BYTES buf) Truncated in
  let len := Z.to_nat (from_le len_arr) in
  if decide (len < FRAME_KIND_BYTES)%nat then Err Truncated else
  let total := (FRAME_LEN_BYTES + len)%nat in
  let? frame_bytes := ok_or (get_prefix total buf) Truncated in
  let? kind_byte := ok_or (frame_bytes !! FRAME_LEN_BYTES) Truncated in
  let? outcome :=
    match MessageKind_try_from kind_byte with
    | Ok kind =>
        let? payload := ok_or (get_suffix FRAME_HEADER_BYTES frame_bytes) Truncated in
        Ok (PO_Frame (mkFrame kind payload))
    | Err _ => Ok (PO_UnknownKind kind_byte)
    end in
  Ok (outcome, total).

(** [Frame::parse]. *)
Definition Frame_parse (buf : list Z) : result (Frame * nat) WireError :=
  let? r := parse_or_skip buf in
  match r with
  | (PO_Frame frame, total) => Ok (frame, total)
  | (PO_UnknownKind byte, _) => Err (UnknownKind byte)
  end.

(** [Frame::write]: appends to [out]; [usize] is 64 bits wide. *)
Definition Frame_write (kind : MessageKind) (payload out : list Z) : result (list Z) WireError :=
  let? framed :=
    ok_or (checked_add u64_max (Z.of_nat FRAME_KIND_BYTES) (Z.of_nat (length payload)))
      (PayloadTooLarge (length payload)) in
  if decide (framed <= u32_max)
  then Ok (out ++ to_le 4 framed ++ [MessageKind_as_u8 kind] ++ payload)
  else Err (PayloadTooLarge (Z.to_nat framed)).

(** ** Kinds *)

Lemma MessageKind_roundtrip k : MessageKind_try_from (MessageKind_as_u8 k) = Ok k.
Proof. by destruct k. Qed.

Lemma MessageKind_as_u8_ok k : byte_ok (MessageKind_as_u8 k).
Proof. unfold byte_ok. destruct k; simpl; lia. Qed.

(** ** Frames *)

Lemma get_prefix_app n a b : length a = n → get_prefix n (a ++ b) = Some a.
Proof.
  intros H. unfold get_prefix. rewrite decide_True by (rewrite length_app; lia).
  by rewrite take_app_length'.
Qed.

(** A written frame is parsed back, whatever follows it in the buffer. *)
Lemma frame_roundtrip kind payload out written rest :
  Frame_write kind payload out = Ok written →
  ∃ frame, written = out ++ frame ∧
    parse_or_skip (frame ++ rest) = Ok (PO_Frame (mkFrame kind payload), length frame) ∧
    length frame = (FRAME_HEADER_BYTES + length payload)%nat.
Proof.
  unfold Frame_write, checked_add. case_decide as H1; [|done]. simpl. case_decide as H2; [|done].
  intros [= <-]. set (framed := Z.of_nat 1 + Z.of_nat (length payload)) in *.
  set (hd := to_le 4 framed). exists (hd ++ [MessageKind_as_u8 kind] ++ payload). split; [done|].
  assert (Hhd : length hd = 4%nat) by apply length_to_le.
  assert (Hfr : from_le hd = framed).
  { apply from_to_le. unfold u32_max, FRAME_KIND_BYTES in H2. unfold framed in *. lia. }
  clearbody hd.
  assert (Hlen : length (hd ++ [MessageKind_as_u8 kind] ++ payload) = (5 + length payload)%nat).
  { rewrite !length_app, Hhd. simpl. lia. }
  split; [|done]. unfold parse_or_skip, FRAME_LEN_BYTES.
  rewrite <-app_assoc, (get_prefix_app 4 hd) by done. simpl.
  rewrite Hfr. assert (Hto : Z.to_nat framed = S (length payload)) by (unfold framed; lia).
  rewrite Hto. unfold FRAME_KIND_BYTES. rewrite decide_False by lia.
  replace (hd ++ MessageKind_as_u8 kind :: payload ++ rest)
    with ((hd ++ [MessageKind_as_u8 kind] ++ payload) ++ rest) by (by rewrite <-!app_assoc).
  rewrite get_prefix_app by (rewrite Hlen; lia). simpl.
  rewrite (list_lookup_middle hd) by done. simpl. rewrite MessageKind_roundtrip. simpl.
  unfold get_suffix, FRAME_HEADER_BYTES, FRAME_LEN_BYTES, FRAME_KIND_BYTES.
  rewrite decide_True by (rewrite length_app; simpl; lia). simpl.
  rewrite (drop_app_ge hd) by lia. rewrite Hhd. simpl. by rewrite length_app, Hhd.
Qed.

(** What a successful parse says about the buffer. *)
Lemma parse_or_skip_total buf o total :
  parse_or_skip buf = Ok (o, total) →
  (FRAME_HEADER_BYTES <= total <= length buf)%nat ∧
  total = (FRAME_LEN_BYTES + Z.to_nat (from_le (take 4 buf)))%nat.
Proof.
  unfold parse_or_skip, get_prefix, FRAME_HEADER_BYTES, FRAME_LEN_BYTES, FRAME_KIND_BYTES.
  case_decide as H1; [|done]. simpl. case_decide as H2; [done|]. case_decide as H3; [|done]. simpl.
  destruct (take _ buf !! 4%nat) as [k|]; [|done]. simpl.
  destruct (MessageKind_try_from k) as [kind|]; simpl.
  - unfold get_suffix. case_decide; [|done]. intros [= <- <-]. lia.
  - intros [= <- <-]. lia.
Qed.

(** Parsing depends only on the bytes of the frame. *)
Lemma parse_or_skip_app buf rest o total :
  parse_or_skip buf = Ok (o, total) → parse_or_skip (buf ++ rest) = Ok (o, total).
Proof.
  intros Hp. destruct (parse_or_skip_total _ _ _ Hp) as [Ht _]. revert Hp.
  unfold parse_or_skip, get_prefix, FRAME_HEADER_BYTES, FRAME_LEN_BYTES, FRAME_KIND_BYTES in *.
  rewrite length_app. case_decide as H1; [|done]. rewrite decide_True by lia. simpl.
  rewrite take_app_le by lia. case_decide as H2; [done|].
  case_decide as H3; [|done]. rewrite decide_True by lia. simpl. by rewrite take_app_le by lia.
Qed.

(** Every strict prefix of a frame is refused as truncated. *)
Lemma parse_or_skip_prefix buf o total n :
  parse_or_skip buf = Ok (o, total) → (n < total)%nat → parse_or_skip (take n buf) = Err Truncated.
Proof.
  intros Hp Hn. destruct (parse_or_skip_total _ _ _ Hp) as [Ht Htot]. revert Hp.
  unfold parse_or_skip, get_prefix, FRAME_HEADER_BYTES, FRAME_LEN_BYTES, FRAME_KIND_BYTES in *.
  rewrite length_take. case_decide as H1; [|done]. simpl. case_decide as H2; [done|]. intros _.
  case_decide as H4; [|done]. simpl. rewrite take_take, Nat.min_l by lia.
  rewrite decide_False by lia. by rewrite decide_False by lia.
Qed.

(** The payload of a frame is a piece of the buffer. *)
Lemma parse_or_skip_bytes buf f total :
  bytes_ok buf → parse_or_skip buf = Ok (PO_Frame f, total) → bytes_ok (fr_payload f).
Proof.
  unfold parse_or_skip, get_prefix, get_suffix. intros Hb. case_decide; [|done]. cbn [ok_or result_bind].
  case_decide; [done|]. case_decide; [|done]. cbn [ok_or result_bind].
  destruct (_ !! _) as [kb|]; [|done]. cbn [ok_or result_bind].
  destruct (MessageKind_try_from kb); [|done]. case_decide; [|done]. cbn [ok_or result_bind].
  intros [= <- _]. by apply bytes_ok_drop, bytes_ok_take.
Qed.

Lemma Frame_parse_bytes buf f total :
  bytes_ok buf → Frame_parse buf = Ok (f, total) → bytes_ok (fr_payload f).
Proof.
  unfold Frame_parse. intros Hb. destruct (parse_or_skip buf) as [[[f'|b] t]|] eqn:E; [|done..].
  intros [= <- <-]. by eapply parse_or_skip_bytes.
Qed.
