(* ===== verification/WireInbound.v ===== *)
(** * WireInbound: the layouts of the inbound commands

    [crates/wire/src/inbound]: for each command its packed layout, its [parse] and
    its [encode], and the dispatch on the frame kind. *)

From S2P Require Import Prelude Domain Messages Bytes Framing.
#[local] Open Scope Z_scope.

(** [.map_err(to_wire)]. *)
Definition wire {A E} `{!IntoDomain E} (r : result A E) : result A WireError := map_err to_wire r.

(** [for (i, byte) in pad.iter().enumerate() { if *byte != 0 { return Err(..) } }]. *)
Fixpoint check_pad (base : nat) (pad : list Z) : result unit WireError :=
  match pad with
  | [] => Ok tt
  | b :: pad => if b =? 0 then check_pad (S base) pad else Err (NonZeroPad base)
  end.

(** ** [new_order.rs] *)

Module new_order.
Definition NewOrderWire : list nat := [8; 8; 4; 1; 1; 1; 1; 8; 8]%nat.
Definition PAD0_OFFSET : nat := 23.

Definition parse (payload : list Z) : result NewOrder WireError :=
  match ref_from_bytes NewOrderWire payload with
  | Some [client_ts; order_id; account_id; side; order_type; tif; pad; price; qty] =>
      if negb (pad =? 0) then Err (NonZeroPad PAD0_OFFSET) else
      let client_ts := u64_as_i64 client_ts in
      let? order_id := wire (OrderId_new order_id) in
      let? account_id := wire (AccountId_new account_id) in
      let? side := wire (Side_try_from side) in
      let? order_type := wire (OrderType_try_from order_type) in
      let? tif := wire (Tif_try_from tif) in
      let? qty := wire (Qty_new qty) in
      let? price :=
        match order_type with
        | Market => Ok None
        | Limit => let? p := wire (Price_new (u64_as_i64 price)) in Ok (Some p)
        end in
      Ok (mkNewOrder client_ts order_id account_id side order_type tif price qty)
  | _ => Err (PayloadSize (layout_size NewOrderWire) (length payload))
  end.

Definition encode (msg : NewOrder) (out : list Z) : list Z :=
  out ++ as_bytes NewOrderWire
    [i64_as_u64 (no_client_ts msg); no_order_id msg; no_account_id msg; Side_as_u8 (no_side msg);
     OrderType_as_u8 (no_order_type msg); Tif_as_u8 (no_tif msg); 0;
     i64_as_u64 (default 0 (no_price msg)); no_qty msg].
End new_order.

(** ** [cancel_order.rs] *)

Module cancel_order.
Definition CancelOrderWire : list nat := [8; 8; 4; 4]%nat.
Definition PAD0_OFFSET : nat := 20.

Definition parse (payload : list Z) : result CancelOrder WireError :=
  match ref_from_bytes CancelOrderWire payload with
  | Some [client_ts; order_id; account_id; pad] =>
      if negb (pad =? 0) then Err (NonZeroPad PAD0_OFFSET) else
      let? order_id := wire (OrderId_new order_id) in
      let? account_id := wire (AccountId_new account_id) in
      Ok (mkCancelOrder (u64_as_i64 client_ts) order_id account_id)
  | _ => Err (PayloadSize (layout_size CancelOrderWire) (length payload))
  end.

Definition encode (msg : CancelOrder) (out : list Z) : list Z :=
  out ++ as_bytes CancelOrderWire
    [i64_as_u64 (co_client_ts msg); co_order_id msg; co_account_id msg; 0].
End cancel_order.

(** ** [cancel_replace.rs] *)

Module cancel_replace.
Definition CancelReplaceWire : list nat := [8; 8; 4; 4; 8; 8]%nat.
Definition PAD0_OFFSET : nat := 20.

Definition parse (payload : list Z) : result CancelReplace WireError :=
  match ref_from_bytes CancelReplaceWire payload with
  | Some [client_ts; order_id; account_id; pad; new_price; new_qty] =>
      if negb (pad =? 0) then Err (NonZeroPad PAD0_OFFSET) else
      let? order_id := wire (OrderId_new order_id) in
      let? account_id := wire (AccountId_new account_id) in
      let? new_price := wire (Price_new (u64_as_i64 new_price)) in
      let? new_qty := wire (Qty_new new_qty) in
      Ok (mkCancelReplace (u64_as_i64 client_ts) order_id account_id new_price new_qty)
  | _ => Err (PayloadSize (layout_size CancelReplaceWire) (length payload))
  end.

Definition encode (msg : CancelReplace) (out : list Z) : list Z :=
  out ++ as_bytes CancelReplaceWire
    [i64_as_u64 (cr_client_ts msg); cr_order_id msg; cr_account_id msg; 0;
     i64_as_u64 (cr_new_price msg); cr_new_qty msg].
End cancel_replace.

(** ** [mass_cancel.rs] *)

Module mass_cancel.
Definition MassCancelWire : list nat := [8; 4; 4]%nat.
Definition PAD0_OFFSET : nat := 12.

Definition parse (payload : list Z) : result MassCancel WireError :=
  match ref_from_bytes MassCancelWire payload with
  | Some [client_ts; account_id; pad] =>
      if negb (pad =? 0) then Err (NonZeroPad PAD0_OFFSET) else
      let? account_id := wire (AccountId_new account_id) in
      Ok (mkMassCancel (u64_as_i64 client_ts) account_id)
  | _ => Err (PayloadSize (layout_size MassCancelWire) (length payload))
  end.

Definition encode (msg : MassCancel) (out : list Z) : list Z :=
  out ++ as_bytes MassCancelWire [i64_as_u64 (mcl_client_ts msg); mcl_account_id msg; 0].
End mass_cancel.

(** ** [kill_switch.rs] *)

Module kill_switch.
Definition KillSwitchSetWire : list nat := [8; 8; 1; 7]%nat.
Definition PAD0_OFFSET_BASE : nat := 17.

Definition KillSwitchState_as_u8 (s : KillSwitchState) : Z :=
  match s with Resume => 0 | Halt => 1 end.

Definition KillSwitchState_try_from (v : Z) : result KillSwitchState WireError :=
  match v with
  | 0 => Ok Resume
  | 1 => Ok Halt
  | other => Err (InvalidEnumValue "state" other)
  end.

Definition parse (payload : list Z) : result KillSwitchSet WireError :=
  match ref_from_bytes KillSwitchSetWire payload with
  | Some [client_ts; admin_token; state; pad] =>
      let? _ := check_pad PAD0_OFFSET_BASE (to_le 7 pad) in
      let? state := KillSwitchState_try_from state in
      Ok (mkKillSwitchSet (u64_as_i64 client_ts) admin_token state)
  | _ => Err (PayloadSize (layout_size KillSwitchSetWire) (length payload))
  end.

Definition encode (msg : KillSwitchSet) (out : list Z) : list Z :=
  out ++ as_bytes KillSwitchSetWire
    [i64_as_u64 (ks_client_ts msg); ks_admin_token msg; KillSwitchState_as_u8 (ks_state msg); 0].
End kill_switch.

(** ** [snapshot_request.rs] *)

Module snapshot_request.
Definition SnapshotRequestWire : list nat := [8; 8]%nat.
Definition PAD0_OFFSET_BASE : nat := 8.

Definition parse (payload : list Z) : result SnapshotRequest WireError :=
  match ref_from_bytes SnapshotRequestWire payload with
  | Some [request_id; pad] =>
      let? _ := check_pad PAD0_OFFSET_BASE (to_le 8 pad) in
      Ok (mkSnapshotRequest request_id)
  | _ => Err (PayloadSize (layout_size SnapshotRequestWire) (length payload))
  end.

Definition encode (msg : SnapshotRequest) (out : list Z) : list Z :=
  out ++ as_bytes SnapshotRequestWire [sr_request_id msg; 0].
End snapshot_request.

(** ** Dispatch ([inbound/mod.rs]) *)

Definition map_ok {A B E} (f : A → B) (r : result A E) : result B E := let? a := r in Ok (f a).

Definition inbound_parse_frame (frame : Frame) : result Inbound WireError :=
  match fr_kind frame with
  | K_NewOrder => map_ok In_NewOrder (new_order.parse (fr_payload frame))
  | K_CancelOrder => map_ok In_CancelOrder (cancel_order.parse (fr_payload frame))
  | K_CancelReplace => map_ok In_CancelReplace (cancel_replace.parse (fr_payload frame))
  | K_MassCancel => map_ok In_MassCancel (mass_cancel.parse (fr_payload frame))
  | K_KillSwitchSet => map_ok In_KillSwitchSet (kill_switch.parse (fr_payload frame))
  | K_SnapshotRequest => map_ok In_SnapshotRequest (snapshot_request.parse (fr_payload frame))
  | outbound => Err (UnknownKind (MessageKind_as_u8 outbound))
  end.

(** The kind and payload a client sends for a command. *)
Definition inbound_kind (m : Inbound) : MessageKind :=
  match m with
  | In_NewOrder _ => K_NewOrder | In_CancelOrder _ => K_CancelOrder
  | In_CancelReplace _ => K_CancelReplace | In_MassCancel _ => K_MassCancel
  | In_KillSwitchSet _ => K_KillSwitchSet | In_SnapshotRequest _ => K_SnapshotRequest
  end.

Definition inbound_payload (m : Inbound) : list Z :=
  match m with
  | In_NewOrder m => new_order.encode m []
  | In_CancelOrder m => cancel_order.encode m []
  | In_CancelReplace m => cancel_replace.encode m []
  | In_MassCancel m => mass_cancel.encode m []
  | In_KillSwitchSet m => kill_switch.encode m []
  | In_SnapshotRequest m => snapshot_request.encode m []
  end.

(** ** Field lemmas *)

Lemma check_pad_zero base n : check_pad base (to_le n 0) = Ok tt.
Proof. revert base. induction n as [|n IH]; intros base; [done|]. rewrite to_le_S. apply IH. Qed.

Lemma check_pad_inv base n v u : fits n v → check_pad base (to_le n v) = Ok u → v = 0.
Proof.
  unfold fits. revert base v. induction n as [|n IH]; intros base v Hv.
  - change (256 ^ Z.of_nat 0) with 1 in Hv. lia.
  - rewrite pow_256_S in Hv. rewrite to_le_S. simpl. destruct (Z.eqb_spec (v mod 256) 0) as [Hm|]; [|done]. intros Hc.
    apply IH in Hc; [pose proof (Z.div_mod v 256); lia|].
    split; [apply Z.div_pos; lia|]. apply Z.div_lt_upper_bound; lia.
Qed.

#[global] Arguments check_pad : simpl never.

Lemma price_wire p : price_ok p → u64_as_i64 (i64_as_u64 p) = p ∧ fits 8 (i64_as_u64 p).
Proof.
  rewrite price_ok_pos. intros Hp. split.
  - apply i64_u64_roundtrip. unfold is_i64, i64_min. unfold i64_max in *. lia.
  - apply fits_u64, i64_as_u64_range.
Qed.

Lemma ts_wire t : fits 8 (i64_as_u64 t).
Proof. apply fits_u64, i64_as_u64_range. Qed.

Lemma qty_fits q : qty_ok q → fits 8 q.
Proof. rewrite qty_ok_pos. intros. apply fits_u64. unfold is_u64. lia. Qed.
Lemma order_id_fits i : order_id_ok i → fits 8 i.
Proof. unfold order_id_ok. intros. apply fits_u64. unfold is_u64. lia. Qed.
Lemma account_id_fits a : account_id_ok a → fits 4 a.
Proof. unfold account_id_ok. intros. apply fits_u32. unfold is_u32. lia. Qed.
Lemma zero_fits n : fits n 0.
Proof. unfold fits. split; [done|]. apply Z.pow_pos_nonneg; lia. Qed.
Lemma side_fits s : fits 1 (Side_as_u8 s).
Proof. apply fits_u8. unfold is_u8, u8_max. destruct s; simpl; lia. Qed.
Lemma order_type_fits t : fits 1 (OrderType_as_u8 t).
Proof. apply fits_u8. unfold is_u8, u8_max. destruct t; simpl; lia. Qed.
Lemma tif_fits t : fits 1 (Tif_as_u8 t).
Proof. apply fits_u8. unfold is_u8, u8_max. destruct t; simpl; lia. Qed.

Create HintDb wire_fits.
#[export] Hint Resolve ts_wire qty_fits order_id_fits account_id_fits zero_fits side_fits
  order_type_fits tif_fits : wire_fits.

(** Discharge [Forall2 fits layout fields]. *)
Ltac solve_fits := repeat (apply Forall2_cons_2; [eauto with wire_fits|]); apply Forall2_nil_2.

(** ** Decoding inverts encoding *)

(** The wire widths of the fields decoding does not validate. *)
Definition inbound_width_ok (m : Inbound) : Prop :=
  match m with
  | In_NewOrder m => is_i64 (no_client_ts m)
  | In_CancelOrder m => is_i64 (co_client_ts m)
  | In_CancelReplace m => is_i64 (cr_client_ts m)
  | In_MassCancel m => is_i64 (mcl_client_ts m)
  | In_KillSwitchSet m => is_i64 (ks_client_ts m) ∧ is_u64 (ks_admin_token m)
  | In_SnapshotRequest m => is_u64 (sr_request_id m)
  end.

Lemma new_order_parse_encode m :
  new_order_ok m → is_i64 (no_client_ts m) → new_order.parse (new_order.encode m []) = Ok m.
Proof.
  intros (Hid & Hac & Hq & Hp) Hts. unfold new_order.parse, new_order.encode. rewrite app_nil_l.
  assert (Hpf : fits 8 (i64_as_u64 (default 0 (no_price m)))) by apply ts_wire.
  rewrite ref_from_as_bytes by solve_fits. simpl negb. cbv iota.
  rewrite (i64_u64_roundtrip (no_client_ts m)) by done. rewrite OrderId_new_ok, AccountId_new_ok by done. simpl.
  rewrite Side_u8_roundtrip, OrderType_u8_roundtrip, Tif_u8_roundtrip. simpl.
  rewrite Qty_new_ok by done. simpl. destruct m as [ts oid aid s ty tif p q]; simpl in *. destruct ty.
  - destruct Hp as (p' & -> & Hp). simpl. by rewrite (proj1 (price_wire p' Hp)), Price_new_ok.
  - by rewrite Hp.
Qed.

Lemma cancel_order_parse_encode m :
  inbound_ok (In_CancelOrder m) → is_i64 (co_client_ts m) →
  cancel_order.parse (cancel_order.encode m []) = Ok m.
Proof.
  intros (Hid & Hac) Hts. unfold cancel_order.parse, cancel_order.encode. rewrite app_nil_l.
  rewrite ref_from_as_bytes by solve_fits. simpl.
  rewrite i64_u64_roundtrip, OrderId_new_ok, AccountId_new_ok by done. by destruct m.
Qed.

Lemma cancel_replace_parse_encode m :
  inbound_ok (In_CancelReplace m) → is_i64 (cr_client_ts m) →
  cancel_replace.parse (cancel_replace.encode m []) = Ok m.
Proof.
  intros (Hid & Hac & Hp & Hq) Hts. unfold cancel_replace.parse, cancel_replace.encode. rewrite app_nil_l.
  rewrite ref_from_as_bytes by solve_fits. simpl.
  rewrite (i64_u64_roundtrip (cr_client_ts m)), OrderId_new_ok, AccountId_new_ok by done. simpl.
  rewrite (proj1 (price_wire _ Hp)), Price_new_ok, Qty_new_ok by done. by destruct m.
Qed.

Lemma mass_cancel_parse_encode m :
  inbound_ok (In_MassCancel m) → is_i64 (mcl_client_ts m) →
  mass_cancel.parse (mass_cancel.encode m []) = Ok m.
Proof.
  intros Hac Hts. unfold mass_cancel.parse, mass_cancel.encode. rewrite app_nil_l.
  rewrite ref_from_as_bytes by solve_fits. simpl.
  rewrite i64_u64_roundtrip, AccountId_new_ok by done. by destruct m.
Qed.

Lemma kill_switch_parse_encode m :
  is_i64 (ks_client_ts m) → is_u64 (ks_admin_token m) → kill_switch.parse (kill_switch.encode m []) = Ok m.
Proof.
  intros Hts Htok%fits_u64. unfold kill_switch.parse, kill_switch.encode. rewrite app_nil_l.
  assert (Hst : fits 1 (kill_switch.KillSwitchState_as_u8 (ks_state m))).
  { apply fits_u8. unfold is_u8, u8_max. destruct (ks_state m); simpl; lia. }
  rewrite ref_from_as_bytes by solve_fits. rewrite check_pad_zero. simpl.
  rewrite i64_u64_roundtrip by done. by destruct m as [? ? []].
Qed.

Lemma snapshot_request_parse_encode m :
  is_u64 (sr_request_id m) → snapshot_request.parse (snapshot_request.encode m []) = Ok m.
Proof.
  intros Hid%fits_u64. unfold snapshot_request.parse, snapshot_request.encode. rewrite app_nil_l.
  rewrite ref_from_as_bytes by solve_fits. rewrite check_pad_zero. by destruct m.
Qed.

Lemma inbound_parse_payload m :
  inbound_ok m → inbound_width_ok m →
  inbound_parse_frame (mkFrame (inbound_kind m) (inbound_payload m)) = Ok m.
Proof.
  unfold inbound_parse_frame, map_ok.
  destruct m as [m|m|m|m|m|m]; cbn [inbound_kind inbound_payload fr_kind fr_payload inbound_width_ok]; intros Hok Hw.
  - by rewrite new_order_parse_encode.
  - by rewrite cancel_order_parse_encode.
  - by rewrite cancel_replace_parse_encode.
  - by rewrite mass_cancel_parse_encode.
  - destruct Hw. by rewrite kill_switch_parse_encode.
  - by rewrite snapshot_request_parse_encode.
Qed.

(** ** What decoding guarantees *)

(** Peel the [let?] chain of a successful [parse]. *)
Ltac peel H :=
  repeat match type of H with
  | (let? _ := ?r in _) = Ok _ => let E := fresh "E" in destruct r eqn:E; [simpl in H|discriminate H]
  | (if negb ?b then _ else _) = Ok _ => let E := fresh "E" in destruct b eqn:E; [simpl in H|discriminate H]
  end.

Lemma wire_Ok {A E} `{!IntoDomain E} (r : result A E) a : wire r = Ok a ↔ r = Ok a.
Proof. destruct r; simpl; split; intros H; by inversion H. Qed.

Lemma ref_from_bytes_fields ws bs vs : ref_from_bytes ws bs = Some vs → length vs = length ws.
Proof.
  unfold ref_from_bytes. case_decide; [|done]. intros [= <-]. clear. revert bs.
  induction ws as [|w ws IH]; intros bs; [done|]. unfold split_fields. cbn [length].
  by rewrite <-(IH (drop w bs)).
Qed.

(** A decoded layout: its fields, which fit their widths, and their bytes. *)
Ltac fields H Hb :=
  match type of H with
  | match ref_from_bytes ?ws ?bs with _ => _ end = Ok _ =>
      let E := fresh "Efields" in let L := fresh "Hlen" in
      let F := fresh "Hfits" in let B := fresh "Hbytes" in
      destruct (ref_from_bytes ws bs) as [vs|] eqn:E; [|discriminate H];
      pose proof (ref_from_bytes_fields _ _ _ E) as L;
      destruct (ref_from_bytes_inv _ _ _ Hb E) as [B F]; clear E;
      repeat (destruct vs as [|? vs]; [discriminate L|apply eq_add_S in L]);
      destruct vs; [clear L|discriminate L];
      let w := eval compute in ws in
      change ws with w in F; decompose_Forall_hyps
  end.

Lemma Side_try_from_inv z s : Side_try_from z = Ok s → Side_as_u8 s = z.
Proof. unfold Side_try_from. repeat case_match; intros [= <-]; done. Qed.
Lemma OrderType_try_from_inv z t : OrderType_try_from z = Ok t → OrderType_as_u8 t = z.
Proof. unfold OrderType_try_from. repeat case_match; intros [= <-]; done. Qed.
Lemma Tif_try_from_inv z t : Tif_try_from z = Ok t → Tif_as_u8 t = z.
Proof. unfold Tif_try_from. repeat case_match; intros [= <-]; done. Qed.
Lemma KillSwitchState_try_from_inv z t :
  kill_switch.KillSwitchState_try_from z = Ok t → kill_switch.KillSwitchState_as_u8 t = z.
Proof. unfold kill_switch.KillSwitchState_try_from. repeat case_match; intros [= <-]; done. Qed.

Lemma OrderId_new_inv z i : fits 8 z → OrderId_new z = Ok i → i = z ∧ order_id_ok i.
Proof.
  rewrite <-fits_u64. unfold OrderId_new, order_id_ok, is_u64. intros Hz. case_match eqn:E; [done|].
  intros [= <-]. split; [done|]. lia.
Qed.
Lemma AccountId_new_inv z i : fits 4 z → AccountId_new z = Ok i → i = z ∧ account_id_ok i.
Proof.
  rewrite <-fits_u32. unfold AccountId_new, account_id_ok, is_u32. intros Hz. case_match eqn:E; [done|].
  intros [= <-]. split; [done|]. lia.
Qed.
Lemma Qty_new_inv z i : fits 8 z → Qty_new z = Ok i → i = z ∧ qty_ok i.
Proof.
  rewrite <-fits_u64. unfold is_u64. intros Hz H. apply Qty_new_Ok in H as (-> & ? & ?); [|lia].
  split; [done|]. apply qty_ok_pos. lia.
Qed.
Lemma Price_new_inv z i : fits 8 z → Price_new (u64_as_i64 z) = Ok i → i64_as_u64 i = z ∧ price_ok i.
Proof.
  rewrite <-fits_u64. intros Hz H. apply Price_new_Ok in H as (-> & ? & ?).
  split; [by apply u64_i64_roundtrip|]. apply price_ok_pos. pose proof (u64_as_i64_range z) as R.
  unfold is_i64 in R. lia.
Qed.

(** Turn the validated fields of a [parse] into their inversions. *)
Ltac validated :=
  repeat match goal with
  | H : wire _ = Ok _ |- _ => apply wire_Ok in H
  | H : (_ =? 0) = true |- _ => apply Z.eqb_eq in H
  | H : Side_try_from _ = Ok _ |- _ => apply Side_try_from_inv in H
  | H : OrderType_try_from _ = Ok _ |- _ => apply OrderType_try_from_inv in H
  | H : Tif_try_from _ = Ok _ |- _ => apply Tif_try_from_inv in H
  | H : kill_switch.KillSwitchState_try_from _ = Ok _ |- _ => apply KillSwitchState_try_from_inv in H
  | H : OrderId_new _ = Ok _ |- _ => apply OrderId_new_inv in H as [??]; [|done]
  | H : AccountId_new _ = Ok _ |- _ => apply AccountId_new_inv in H as [??]; [|done]
  | H : Qty_new _ = Ok _ |- _ => apply Qty_new_inv in H as [??]; [|done]
  | H : Price_new (u64_as_i64 _) = Ok _ |- _ => apply Price_new_inv in H as [??]; [|done]
  | H : check_pad _ (to_le _ _) = Ok _ |- _ => apply check_pad_inv in H; [|done]
  end; subst.

(** Close [encode m [] = bs] once [bs] is the bytes of its fields. *)
Ltac reencoded := simpl; rewrite ?u64_i64_roundtrip by (by apply fits_u64); done.

Lemma new_order_parse_sound bs m :
  bytes_ok bs → new_order.parse bs = Ok m →
  new_order_ok m ∧ is_i64 (no_client_ts m) ∧ (no_order_type m = Limit → new_order.encode m [] = bs).
Proof.
  intros Hb H. unfold new_order.parse in H. fields H Hb. peel H. validated.
  pose proof (u64_as_i64_range z) as Hts. injection H as <-. unfold new_order_ok. simpl.
  destruct a2; peel E6; injection E6 as <-; validated; (split; [split_and!; eauto|]); (split; [done|]).
  - intros _. unfold new_order.encode. reencoded.
  - done.
Qed.

Lemma cancel_order_parse_sound bs m :
  bytes_ok bs → cancel_order.parse bs = Ok m →
  inbound_ok (In_CancelOrder m) ∧ is_i64 (co_client_ts m) ∧ cancel_order.encode m [] = bs.
Proof.
  intros Hb H. unfold cancel_order.parse in H. fields H Hb. peel H. validated. injection H as <-.
  split_and!; simpl; auto using u64_as_i64_range. unfold cancel_order.encode. reencoded.
Qed.

Lemma cancel_replace_parse_sound bs m :
  bytes_ok bs → cancel_replace.parse bs = Ok m →
  inbound_ok (In_CancelReplace m) ∧ is_i64 (cr_client_ts m) ∧ cancel_replace.encode m [] = bs.
Proof.
  intros Hb H. unfold cancel_replace.parse in H. fields H Hb. peel H. validated. injection H as <-.
  split_and!; simpl; auto using u64_as_i64_range. unfold cancel_replace.encode. reencoded.
Qed.

Lemma mass_cancel_parse_sound bs m :
  bytes_ok bs → mass_cancel.parse bs = Ok m →
  inbound_ok (In_MassCancel m) ∧ is_i64 (mcl_client_ts m) ∧ mass_cancel.encode m [] = bs.
Proof.
  intros Hb H. unfold mass_cancel.parse in H. fields H Hb. peel H. validated. injection H as <-.
  split_and!; simpl; auto using u64_as_i64_range. unfold mass_cancel.encode. reencoded.
Qed.

Lemma kill_switch_parse_sound bs m :
  bytes_ok bs → kill_switch.parse bs = Ok m →
  is_i64 (ks_client_ts m) ∧ is_u64 (ks_admin_token m) ∧ kill_switch.encode m [] = bs.
Proof.
  intros Hb H. unfold kill_switch.parse in H. fields H Hb. peel H. validated. injection H as <-.
  split_and!; simpl; auto using u64_as_i64_range; [by apply fits_u64|]. unfold kill_switch.encode. reencoded.
Qed.

Lemma snapshot_request_parse_sound bs m :
  bytes_ok bs → snapshot_request.parse bs = Ok m →
  is_u64 (sr_request_id m) ∧ snapshot_request.encode m [] = bs.
Proof.
  intros Hb H. unfold snapshot_request.parse in H. fields H Hb. peel H. validated. injection H as <-.
  split; [by apply fits_u64|]. unfold snapshot_request.encode. reencoded.
Qed.

(** The commands with one encoding: all but market orders, whose price bytes are ignored. *)
Definition inbound_canonical (m : Inbound) : Prop :=
  match m with In_NewOrder m => no_order_type m = Limit | _ => True end.

Lemma inbound_parse_frame_sound f m :
  bytes_ok (fr_payload f) → inbound_parse_frame f = Ok m →
  inbound_ok m ∧ inbound_width_ok m ∧ inbound_kind m = fr_kind f ∧
  (inbound_canonical m → inbound_payload m = fr_payload f).
Proof.
  intros Hb H. destruct f as [k bs]. unfold inbound_parse_frame, map_ok in H.
  cbn [fr_kind fr_payload] in *.
  destruct k; try discriminate H;
    match type of H with (let? _ := ?r in _) = Ok _ => destruct r as [m'|] eqn:E; [|discriminate H] end;
    injection H as <-; cbn [inbound_payload inbound_kind inbound_width_ok inbound_canonical].
  - apply new_order_parse_sound in E as (?&?&?); [|done]. done.
  - apply cancel_order_parse_sound in E as (?&?&?); [|done]. done.
  - apply cancel_replace_parse_sound in E as (?&?&?); [|done]. done.
  - apply mass_cancel_parse_sound in E as (?&?&?); [|done]. done.
  - apply kill_switch_parse_sound in E as (?&?&?); [|done]. done.
  - apply snapshot_request_parse_sound in E as (?&?); [|done]. done.
Qed.
