(* ===== verification/WireOutbound.v ===== *)
(** * WireOutbound: the layouts of the outbound reports

    [crates/wire/src/outbound]: for each report its layout, its [parse] and its
    [encode] with the coherence rules of execution reports, and the dispatch on the
    frame kind. *)

From S2P Require Import Prelude Domain Messages Bytes Framing WireInbound.
#[local] Open Scope Z_scope.

(** [if raw != 0 { Some(conv(raw)?) } else { None }]. *)
Definition non_zero {A} (raw : Z) (conv : result A WireError) : result (option A) WireError :=
  if negb (raw =? 0) then let? a := conv in Ok (Some a) else Ok None.

(** ** [exec_report.rs] *)

Module exec_report.
Definition ExecReportWire : list nat := [8; 8; 4; 1; 1; 1; 1; 8; 8; 8; 8; 8]%nat.
Definition PAD0_OFFSET : nat := 23.

Definition inconsistent {A} (what : string) : result A WireError := Err (InconsistentPayload what).

Definition validate_coherent (msg : ExecReport) : result unit WireError :=
  let has_fill := is_some (er_fill_price msg) || is_some (er_fill_qty msg) in
  let has_both_fill_fields := is_some (er_fill_price msg) && is_some (er_fill_qty msg) in
  match er_state msg with
  | Accepted =>
      if has_fill || is_some (er_reject_reason msg) || is_some (er_cancel_reason msg)
      then inconsistent "ExecReport: Accepted requires no fill / reject / cancel fields"
      else if negb (is_some (er_leaves_qty msg))
      then inconsistent "ExecReport: Accepted requires leaves_qty"
      else Ok tt
  | Rejected =>
      if has_fill || is_some (er_leaves_qty msg) || is_some (er_cancel_reason msg)
      then inconsistent "ExecReport: Rejected requires reject_reason only"
      else if negb (is_some (er_reject_reason msg))
      then inconsistent "ExecReport: Rejected requires reject_reason"
      else Ok tt
  | PartiallyFilled =>
      if negb has_both_fill_fields
      then inconsistent "ExecReport: PartiallyFilled requires both fill_price and fill_qty"
      else if negb (is_some (er_leaves_qty msg))
      then inconsistent "ExecReport: PartiallyFilled requires leaves_qty"
      else if is_some (er_reject_reason msg) || is_some (er_cancel_reason msg)
      then inconsistent "ExecReport: PartiallyFilled cannot carry reject / cancel reason"
      else Ok tt
  | Filled =>
      if negb has_both_fill_fields
      then inconsistent "ExecReport: Filled requires both fill_price and fill_qty"
      else if is_some (er_leaves_qty msg)
      then inconsistent "ExecReport: Filled is terminal — leaves_qty must be None"
      else if is_some (er_reject_reason msg) || is_some (er_cancel_reason msg)
      then inconsistent "ExecReport: Filled cannot carry reject / cancel reason"
      else Ok tt
  | Cancelled | Replaced =>
      if has_fill || is_some (er_leaves_qty msg) || is_some (er_reject_reason msg)
      then inconsistent "ExecReport: Cancelled / Replaced require cancel_reason only"
      else if negb (is_some (er_cancel_reason msg))
      then inconsistent "ExecReport: Cancelled / Replaced require cancel_reason"
      else Ok tt
  end.

Definition parse (payload : list Z) : result ExecReport WireError :=
  match ref_from_bytes ExecReportWire payload with
  | Some [engine_seq; order_id; account_id; state; reject_reason; cancel_reason; pad;
          fill_price; fill_qty; leaves_qty; recv_ts; emit_ts] =>
      if negb (pad =? 0) then Err (NonZeroPad PAD0_OFFSET) else
      let? state := wire (ExecState_try_from state) in
      let? order_id := wire (OrderId_new order_id) in
      let? account_id := wire (AccountId_new account_id) in
      let? reject_reason := non_zero reject_reason (wire (RejectReason_try_from reject_reason)) in
      let? cancel_reason := non_zero cancel_reason (wire (CancelReason_try_from cancel_reason)) in
      let? fill_price :=
        non_zero (u64_as_i64 fill_price) (wire (Price_new (u64_as_i64 fill_price))) in
      let? fill_qty := non_zero fill_qty (wire (Qty_new fill_qty)) in
      let? leaves_qty := non_zero leaves_qty (wire (Qty_new leaves_qty)) in
      let msg := mkExecReport engine_seq order_id account_id state fill_price fill_qty leaves_qty
        reject_reason cancel_reason (u64_as_i64 recv_ts) (u64_as_i64 emit_ts) in
      let? _ := validate_coherent msg in
      Ok msg
  | _ => Err (PayloadSize (layout_size ExecReportWire) (length payload))
  end.

Definition encode (msg : ExecReport) (out : list Z) : list Z :=
  let state := er_state msg in
  let reject_reason :=
    match state with Rejected => from_option RejectReason_as_u8 0 (er_reject_reason msg) | _ => 0 end in
  let cancel_reason :=
    match state with
    | Cancelled | Replaced => from_option CancelReason_as_u8 0 (er_cancel_reason msg)
    | _ => 0
    end in
  let '(fill_price, fill_qty) :=
    match state, er_fill_price msg, er_fill_qty msg with
    | PartiallyFilled, Some p, Some q | Filled, Some p, Some q => (p, q)
    | _, _, _ => (0, 0)
    end in
  let leaves_qty :=
    match state with
    | Accepted | PartiallyFilled => default 0 (er_leaves_qty msg)
    | Filled | Rejected | Cancelled | Replaced => 0
    end in
  out ++ as_bytes ExecReportWire
    [er_engine_seq msg; er_order_id msg; er_account_id msg; ExecState_as_u8 state; reject_reason;
     cancel_reason; 0; i64_as_u64 fill_price; fill_qty; leaves_qty;
     i64_as_u64 (er_recv_ts msg); i64_as_u64 (er_emit_ts msg)].
End exec_report.

(** ** [trade_print.rs] *)

Module trade_print.
Definition TradePrintWire : list nat := [8; 8; 8; 8; 1; 7; 8]%nat.
Definition PAD0_OFFSET_BASE : nat := 33.

Definition parse (payload : list Z) : result TradePrint WireError :=
  match ref_from_bytes TradePrintWire payload with
  | Some [engine_seq; trade_id; price; qty; aggressor_side; pad; emit_ts] =>
      let? _ := check_pad PAD0_OFFSET_BASE (to_le 7 pad) in
      let? price := wire (Price_new (u64_as_i64 price)) in
      let? qty := wire (Qty_new qty) in
      let? aggressor_side := wire (Side_try_from aggressor_side) in
      Ok (mkTradePrint engine_seq trade_id price qty aggressor_side (u64_as_i64 emit_ts))
  | _ => Err (PayloadSize (layout_size TradePrintWire) (length payload))
  end.

Definition encode (msg : TradePrint) (out : list Z) : list Z :=
  out ++ as_bytes TradePrintWire
    [tp_engine_seq msg; tp_trade_id msg; i64_as_u64 (tp_price msg); tp_qty msg;
     Side_as_u8 (tp_aggressor_side msg); 0; i64_as_u64 (tp_emit_ts msg)].
End trade_print.

(** ** [book_update_top.rs] *)

Module book_update_top.
Definition BookUpdateTopWire : list nat := [8; 8; 8; 8; 8; 8]%nat.

Definition decode_side (price qty : Z) (side : string) : result (option (Price * Qty)) WireError :=
  if (price =? 0) && (qty =? 0) then Ok None
  else if negb (price =? 0) && negb (qty =? 0) then
    let? price := wire (Price_new price) in
    let? qty := wire (Qty_new qty) in
    Ok (Some (price, qty))
  else Err (InconsistentPayload side).

Definition encode_side (side : option (Price * Qty)) : Z * Z :=
  match side with Some (p, q) => (p, q) | None => (0, 0) end.

Definition parse (payload : list Z) : result BookUpdateTop WireError :=
  match ref_from_bytes BookUpdateTopWire payload with
  | Some [engine_seq; bid_price; bid_qty; ask_price; ask_qty; emit_ts] =>
      let? bid := decode_side (u64_as_i64 bid_price) bid_qty "BookUpdateTop: half-empty bid side" in
      let? ask := decode_side (u64_as_i64 ask_price) ask_qty "BookUpdateTop: half-empty ask side" in
      Ok (mkBookUpdateTop engine_seq bid ask (u64_as_i64 emit_ts))
  | _ => Err (PayloadSize (layout_size BookUpdateTopWire) (length payload))
  end.

Definition encode (msg : BookUpdateTop) (out : list Z) : list Z :=
  let '(bid_price, bid_qty) := encode_side (bt_bid msg) in
  let '(ask_price, ask_qty) := encode_side (bt_ask msg) in
  out ++ as_bytes BookUpdateTopWire
    [bt_engine_seq msg; i64_as_u64 bid_price; bid_qty; i64_as_u64 ask_price; ask_qty;
     i64_as_u64 (bt_emit_ts msg)].
End book_update_top.

(** ** [book_update_l2_delta.rs] *)

Module book_update_l2_delta.
Definition BookUpdateL2DeltaWire : list nat := [8; 8; 8; 1; 7; 8]%nat.
Definition PAD0_OFFSET_BASE : nat := 25.

Definition parse (payload : list Z) : result BookUpdateL2Delta WireError :=
  match ref_from_bytes BookUpdateL2DeltaWire payload with
  | Some [engine_seq; price; new_qty; side; pad; emit_ts] =>
      let? _ := check_pad PAD0_OFFSET_BASE (to_le 7 pad) in
      let? new_qty := non_zero new_qty (wire (Qty_new new_qty)) in
      let? price := wire (Price_new (u64_as_i64 price)) in
      let? side := wire (Side_try_from side) in
      Ok (mkL2Delta engine_seq price new_qty side (u64_as_i64 emit_ts))
  | _ => Err (PayloadSize (layout_size BookUpdateL2DeltaWire) (length payload))
  end.

Definition encode (msg : BookUpdateL2Delta) (out : list Z) : list Z :=
  out ++ as_bytes BookUpdateL2DeltaWire
    [l2_engine_seq msg; i64_as_u64 (l2_price msg); default 0 (l2_new_qty msg);
     Side_as_u8 (l2_side msg); 0; i64_as_u64 (l2_emit_ts msg)].
End book_update_l2_delta.

(** ** [snapshot_response.rs] *)

Module snapshot_response.
Definition HEADER_BYTES : nat := 40.
Definition LEVEL_BYTES : nat := 16.
Definition HeaderWire : list nat := [8; 8; 8; 8; 4; 4]%nat.
Definition LevelWire : list nat := [8; 8]%nat.

Definition encoded_len (msg : SnapshotResponse) : nat :=
  (HEADER_BYTES + LEVEL_BYTES * (length (sp_bids msg) + length (sp_asks msg)))%nat.

Definition encode_levels (levels : list SnapshotLevel) : list Z :=
  levels ≫= λ level, as_bytes LevelWire [i64_as_u64 (sl_price level); sl_qty level].

(** [u32::try_from(len).expect(..)]. *)
Definition level_count (levels : list SnapshotLevel) : outcome Z :=
  let n := Z.of_nat (length levels) in
  if n <=? u32_max then Ret n else Panic.

Definition encode (msg : SnapshotResponse) (out : list Z) : outcome (list Z) :=
  let! n_bid := level_count (sp_bids msg) in
  let! n_ask := level_count (sp_asks msg) in
  Ret (out ++ as_bytes HeaderWire
    [sp_engine_seq msg; sp_request_id msg; i64_as_u64 (sp_recv_ts msg); i64_as_u64 (sp_emit_ts msg);
     n_bid; n_ask] ++ encode_levels (sp_bids msg) ++ encode_levels (sp_asks msg)).

(** One of the two [for _ in 0..n] loops, with its [cursor]. *)
Fixpoint parse_levels (n cursor : nat) (payload : list Z) :
    result (list SnapshotLevel * nat) WireError :=
  match n with
  | O => Ok ([], cursor)
  | S n =>
      let price_raw := u64_as_i64 (uint_at 8 cursor payload) in
      let qty_raw := uint_at 8 (cursor + 8) payload in
      let? price := wire (Price_new price_raw) in
      let? qty := wire (Qty_new qty_raw) in
      let? r := parse_levels n (cursor + LEVEL_BYTES) payload in
      Ok (mkSnapshotLevel price qty :: r.1, r.2)
  end.

Definition parse (payload : list Z) : result SnapshotResponse WireError :=
  if decide (length payload < HEADER_BYTES)%nat
  then Err (PayloadSize HEADER_BYTES (length payload)) else
  let engine_seq := uint_at 8 0 payload in
  let request_id := uint_at 8 8 payload in
  let recv_ts := u64_as_i64 (uint_at 8 16 payload) in
  let emit_ts := u64_as_i64 (uint_at 8 24 payload) in
  let n_bid := Z.to_nat (uint_at 4 32 payload) in
  let n_ask := Z.to_nat (uint_at 4 36 payload) in
  let expected := (HEADER_BYTES + LEVEL_BYTES * (n_bid + n_ask))%nat in
  if decide (length payload = expected) then
    let? bids := parse_levels n_bid HEADER_BYTES payload in
    let? asks := parse_levels n_ask bids.2 payload in
    Ok (mkSnapshotResponse engine_seq request_id recv_ts emit_ts bids.1 asks.1)
  else Err (PayloadSize expected (length payload)).
End snapshot_response.

(** ** Dispatch ([outbound/mod.rs]) *)

Definition outbound_parse_frame (frame : Frame) : result Outbound WireError :=
  match fr_kind frame with
  | K_ExecReport => map_ok Out_ExecReport (exec_report.parse (fr_payload frame))
  | K_TradePrint => map_ok Out_TradePrint (trade_print.parse (fr_payload frame))
  | K_BookUpdateTop => map_ok Out_BookUpdateTop (book_update_top.parse (fr_payload frame))
  | K_BookUpdateL2Delta =>
      map_ok Out_BookUpdateL2Delta (book_update_l2_delta.parse (fr_payload frame))
  | K_SnapshotResponse => map_ok Out_SnapshotResponse (snapshot_response.parse (fr_payload frame))
  | inbound => Err (UnknownKind (MessageKind_as_u8 inbound))
  end.

(** ** Field lemmas *)

Lemma exec_state_fits s : fits 1 (ExecState_as_u8 s).
Proof. apply fits_u8. unfold is_u8, u8_max. destruct s; simpl; lia. Qed.
Lemma reject_reason_fits r : fits 1 (RejectReason_as_u8 r).
Proof. apply fits_u8. unfold is_u8, u8_max. destruct r; simpl; lia. Qed.
Lemma cancel_reason_fits r : fits 1 (CancelReason_as_u8 r).
Proof. apply fits_u8. unfold is_u8, u8_max. destruct r; simpl; lia. Qed.
#[export] Hint Resolve exec_state_fits reject_reason_fits cancel_reason_fits : wire_fits.

Lemma u64_fits z : is_u64 z → fits 8 z.
Proof. apply fits_u64. Qed.
#[export] Hint Resolve u64_fits : wire_fits.

Lemma non_zero_0 {A} (r : result A WireError) : non_zero 0 r = Ok None.
Proof. done. Qed.

Lemma non_zero_qty q :
  qty_ok q → non_zero q (wire (Qty_new q)) = Ok (Some q).
Proof.
  intros Hq. unfold non_zero. rewrite (Qty_new_ok q Hq). apply qty_ok_pos in Hq.
  by destruct (Z.eqb_spec q 0); [lia|].
Qed.

Lemma non_zero_price p :
  price_ok p →
  non_zero (u64_as_i64 (i64_as_u64 p)) (wire (Price_new (u64_as_i64 (i64_as_u64 p)))) = Ok (Some p).
Proof.
  intros Hp. unfold non_zero. rewrite (proj1 (price_wire p Hp)), (Price_new_ok p Hp). apply price_ok_pos in Hp.
  by destruct (Z.eqb_spec p 0); [lia|].
Qed.

Lemma non_zero_reject r :
  non_zero (RejectReason_as_u8 r) (wire (RejectReason_try_from (RejectReason_as_u8 r))) = Ok (Some r).
Proof. by destruct r. Qed.
Lemma non_zero_cancel r :
  non_zero (CancelReason_as_u8 r) (wire (CancelReason_try_from (CancelReason_as_u8 r))) = Ok (Some r).
Proof. by destruct r. Qed.

(** ** Decoding inverts encoding *)

(** The fields whose width decoding does not validate. *)
Definition outbound_width_ok (m : Outbound) : Prop :=
  match m with
  | Out_ExecReport r => is_u64 (er_engine_seq r) ∧ is_i64 (er_recv_ts r) ∧ is_i64 (er_emit_ts r)
  | Out_TradePrint t => is_u64 (tp_engine_seq t) ∧ is_u64 (tp_trade_id t) ∧ is_i64 (tp_emit_ts t)
  | Out_BookUpdateTop t => is_u64 (bt_engine_seq t) ∧ is_i64 (bt_emit_ts t)
  | Out_BookUpdateL2Delta d => is_u64 (l2_engine_seq d) ∧ is_i64 (l2_emit_ts d)
  | Out_SnapshotResponse s =>
      is_u64 (sp_engine_seq s) ∧ is_u64 (sp_request_id s) ∧ is_i64 (sp_recv_ts s) ∧ is_i64 (sp_emit_ts s)
  end.

(** What a consumer sees of an execution report: the encoder drops the
    remaining quantity of a [Replaced] acknowledgement. *)
Definition exec_wire_view (r : ExecReport) : ExecReport :=
  match er_state r with
  | Replaced =>
      mkExecReport (er_engine_seq r) (er_order_id r) (er_account_id r) Replaced None None None None
        (er_cancel_reason r) (er_recv_ts r) (er_emit_ts r)
  | _ => r
  end.

Definition wire_view (m : Outbound) : Outbound :=
  match m with Out_ExecReport r => Out_ExecReport (exec_wire_view r) | m => m end.

Lemma exec_report_parse_encode r :
  exec_report_ok r → outbound_width_ok (Out_ExecReport r) →
  exec_report.parse (exec_report.encode r []) = Ok (exec_wire_view r).
Proof.
  intros (Hid & Hac & Hfp & Hfq & Hlq & Hsh) (Hseq & Hrts & Hets).
  destruct r as [seq oid aid st fp fq lq rr cr rts ets]. simpl in *.
  destruct st, fp as [p|], fq as [q|], lq as [l|], rr as [rr|], cr as [cr|];
    simpl in Hsh; try discriminate Hsh;
    unfold exec_report.parse, exec_report.encode;
    cbn [er_engine_seq er_order_id er_account_id er_state er_fill_price er_fill_qty er_leaves_qty
         er_reject_reason er_cancel_reason er_recv_ts er_emit_ts from_option default];
    rewrite app_nil_l, ref_from_as_bytes by solve_fits; cbn [Z.eqb negb]; rewrite ExecState_u8_roundtrip, OrderId_new_ok, AccountId_new_ok by done;
    cbn [wire map_err]; change (u64_as_i64 (i64_as_u64 0)) with 0;
    rewrite ?non_zero_0, ?non_zero_reject, ?non_zero_cancel, ?non_zero_price, ?non_zero_qty by auto;
    rewrite ?(i64_u64_roundtrip rts), ?(i64_u64_roundtrip ets) by done; done.
Qed.

Lemma trade_print_parse_encode t :
  outbound_ok (Out_TradePrint t) → outbound_width_ok (Out_TradePrint t) →
  trade_print.parse (trade_print.encode t []) = Ok t.
Proof.
  intros (Hp & Hq) (Hs & Ht & He). unfold trade_print.parse, trade_print.encode. rewrite app_nil_l.
  rewrite ref_from_as_bytes by solve_fits. rewrite check_pad_zero. simpl.
  rewrite (proj1 (price_wire _ Hp)), Price_new_ok, Qty_new_ok by done. simpl.
  rewrite Side_u8_roundtrip. simpl. rewrite i64_u64_roundtrip by done. by destruct t.
Qed.

Lemma decode_encode_side o what :
  side_ok o →
  book_update_top.decode_side (u64_as_i64 (i64_as_u64 (book_update_top.encode_side o).1))
    (book_update_top.encode_side o).2 what = Ok o.
Proof.
  unfold book_update_top.decode_side, book_update_top.encode_side.
  destruct o as [[p q]|]; intros Ho; [|done]. destruct (Ho _ eq_refl) as [Hp Hq]. simpl in *.
  rewrite (proj1 (price_wire p Hp)), Price_new_ok, Qty_new_ok by done.
  apply price_ok_pos in Hp. apply qty_ok_pos in Hq.
  destruct (Z.eqb_spec p 0); [lia|]. destruct (Z.eqb_spec q 0); [lia|]. done.
Qed.

Lemma encode_side_fits o : side_ok o → fits 8 (book_update_top.encode_side o).2.
Proof.
  destruct o as [[p q]|]; simpl; intros Ho; [|apply zero_fits].
  apply qty_fits. apply (Ho (p, q) eq_refl).
Qed.

Lemma book_update_top_parse_encode t :
  outbound_ok (Out_BookUpdateTop t) → outbound_width_ok (Out_BookUpdateTop t) →
  book_update_top.parse (book_update_top.encode t []) = Ok t.
Proof.
  intros (Hb & Ha) (Hs & He). unfold book_update_top.parse, book_update_top.encode.
  pose proof (encode_side_fits _ Hb). pose proof (encode_side_fits _ Ha).
  pose proof (decode_encode_side _ "BookUpdateTop: half-empty bid side" Hb) as Db.
  pose proof (decode_encode_side _ "BookUpdateTop: half-empty ask side" Ha) as Da.
  destruct (book_update_top.encode_side (bt_bid t)) as [bp bq], (book_update_top.encode_side (bt_ask t)) as [ap aq].
  rewrite app_nil_l, ref_from_as_bytes by solve_fits. simpl in *. rewrite Db. simpl. rewrite Da. simpl.
  rewrite i64_u64_roundtrip by done. by destruct t.
Qed.

Lemma l2_delta_parse_encode d :
  outbound_ok (Out_BookUpdateL2Delta d) → outbound_width_ok (Out_BookUpdateL2Delta d) →
  book_update_l2_delta.parse (book_update_l2_delta.encode d []) = Ok d.
Proof.
  intros (Hp & Hq) (Hs & He). unfold book_update_l2_delta.parse, book_update_l2_delta.encode. rewrite app_nil_l.
  assert (Hf : fits 8 (default 0 (l2_new_qty d))).
  { destruct (l2_new_qty d); simpl; auto with wire_fits. }
  assert (Hn : non_zero (default 0 (l2_new_qty d)) (wire (Qty_new (default 0 (l2_new_qty d)))) = Ok (l2_new_qty d)).
  { destruct (l2_new_qty d) as [q|]; [|done]. apply non_zero_qty, Hq. done. }
  rewrite ref_from_as_bytes by solve_fits. rewrite check_pad_zero. simpl. rewrite Hn. simpl.
  rewrite (proj1 (price_wire _ Hp)), Price_new_ok, Side_u8_roundtrip by done. simpl.
  rewrite i64_u64_roundtrip by done. by destruct d.
Qed.

Lemma uint_at_skip n off w v rest :
  (w <= off)%nat → uint_at n off (to_le w v ++ rest) = uint_at n (off - w) rest.
Proof. intros. unfold uint_at. by rewrite drop_app_ge, length_to_le by (rewrite length_to_le; lia). Qed.

Lemma uint_at_here n v rest : fits n v → uint_at n 0 (to_le n v ++ rest) = v.
Proof. intros. unfold uint_at. rewrite drop_0, take_app_length' by by rewrite length_to_le. by apply from_to_le. Qed.

Lemma uint_at_prefix n off pre rest : length pre = off → uint_at n off (pre ++ rest) = uint_at n 0 rest.
Proof. intros <-. unfold uint_at. by rewrite drop_app_length. Qed.

Lemma as_bytes_nil vs : as_bytes [] vs = [].
Proof. done. Qed.
Lemma as_bytes_cons w ws v vs : as_bytes (w :: ws) (v :: vs) = to_le w v ++ as_bytes ws vs.
Proof. done. Qed.

Lemma length_encode_levels ls :
  length (snapshot_response.encode_levels ls) = (snapshot_response.LEVEL_BYTES * length ls)%nat.
Proof.
  unfold snapshot_response.LEVEL_BYTES. induction ls as [|l ls IH]; [done|].
  unfold snapshot_response.encode_levels in *. cbn [mbind list_bind length]. rewrite length_app, IH.
  rewrite length_as_bytes by done. cbn [layout_size foldr snapshot_response.LevelWire Nat.add]. lia.
Qed.

Lemma parse_encode_levels ls pre rest cursor :
  Forall snapshot_level_ok ls → length pre = cursor →
  snapshot_response.parse_levels (length ls) cursor (pre ++ snapshot_response.encode_levels ls ++ rest)
  = Ok (ls, (cursor + length (snapshot_response.encode_levels ls))%nat).
Proof.
  intros Hls. revert pre cursor. induction Hls as [|[p q] ls [Hp Hq] Hls IH]; intros pre cursor Hpre.
  - simpl. by rewrite Nat.add_0_r.
  - cbn [length snapshot_response.parse_levels]. simpl in Hp, Hq.
    set (lv := as_bytes snapshot_response.LevelWire [i64_as_u64 p; q]).
    assert (Hlv : length lv = 16%nat) by (by apply length_as_bytes).
    assert (He : snapshot_response.encode_levels (mkSnapshotLevel p q :: ls) = lv ++ snapshot_response.encode_levels ls) by done.
    rewrite He, (uint_at_prefix 8 cursor pre) by done.
    assert (Hq8 : uint_at 8 (cursor + 8) (pre ++ (lv ++ snapshot_response.encode_levels ls) ++ rest) = q).
    { unfold lv, snapshot_response.LevelWire. rewrite !as_bytes_cons, as_bytes_nil, app_nil_r, <-!app_assoc.
      rewrite app_assoc, uint_at_prefix by (rewrite length_app, length_to_le; lia).
      apply uint_at_here, qty_fits, Hq. }
    rewrite Hq8. clear Hq8.
    assert (Hp8 : uint_at 8 0 ((lv ++ snapshot_response.encode_levels ls) ++ rest) = i64_as_u64 p).
    { unfold lv, snapshot_response.LevelWire. rewrite !as_bytes_cons, <-!app_assoc. apply uint_at_here, ts_wire. }
    rewrite Hp8. clear Hp8. rewrite (proj1 (price_wire p Hp)), Price_new_ok, Qty_new_ok by done.
    cbn [wire map_err]. rewrite <-!app_assoc, (app_assoc pre lv).
    rewrite IH by (rewrite length_app, Hlv; unfold snapshot_response.LEVEL_BYTES; lia).
    cbn [fst snd]. rewrite length_app, Hlv. unfold snapshot_response.LEVEL_BYTES. by rewrite Nat.add_assoc.
Qed.

(** The level counts fit their [u32] fields. *)
Definition snapshot_count_ok (s : SnapshotResponse) : Prop :=
  Z.of_nat (length (sp_bids s)) <= u32_max ∧ Z.of_nat (length (sp_asks s)) <= u32_max.

Lemma snapshot_encode_total s out :
  snapshot_count_ok s →
  ∃ payload, snapshot_response.encode s out = Ret (out ++ payload) ∧
    snapshot_response.encode s [] = Ret payload ∧
    length payload = snapshot_response.encoded_len s.
Proof.
  intros [Hb Ha]. unfold snapshot_response.encode, snapshot_response.level_count.
  rewrite (proj2 (Z.leb_le _ _) Hb), (proj2 (Z.leb_le _ _) Ha). cbn [outcome_bind].
  eexists. split_and!; [done|by rewrite app_nil_l|].
  rewrite !length_app, length_as_bytes, !length_encode_levels by done.
  unfold snapshot_response.encoded_len, snapshot_response.HEADER_BYTES. change (layout_size _) with 40%nat. lia.
Qed.

Lemma snapshot_parse_encode s payload :
  outbound_ok (Out_SnapshotResponse s) → outbound_width_ok (Out_SnapshotResponse s) →
  snapshot_response.encode s [] = Ret payload → snapshot_response.parse payload = Ok s.
Proof.
  intros (Hb & Ha) (Hseq & Hid & Hrts & Hets).
  unfold snapshot_response.encode, snapshot_response.level_count.
  destruct (Z.leb_spec (Z.of_nat (length (sp_bids s))) u32_max) as [Hnb|]; [|done].
  destruct (Z.leb_spec (Z.of_nat (length (sp_asks s))) u32_max) as [Hna|]; [|done].
  cbn [outcome_bind]. rewrite app_nil_l. remember (as_bytes _ _) as hd eqn:Ehd. intros [= <-].
  set (bb := snapshot_response.encode_levels (sp_bids s)).
  set (ab := snapshot_response.encode_levels (sp_asks s)).
  assert (Hhd : length hd = 40%nat) by (subst hd; by apply length_as_bytes).
  assert (Hlen : length (hd ++ bb ++ ab) = (40 + 16 * (length (sp_bids s) + length (sp_asks s)))%nat).
  { rewrite !length_app, Hhd. unfold bb, ab. rewrite !length_encode_levels. unfold snapshot_response.LEVEL_BYTES. lia. }
  assert (Hf : uint_at 8 0 (hd ++ bb ++ ab) = sp_engine_seq s ∧ uint_at 8 8 (hd ++ bb ++ ab) = sp_request_id s ∧
    uint_at 8 16 (hd ++ bb ++ ab) = i64_as_u64 (sp_recv_ts s) ∧ uint_at 8 24 (hd ++ bb ++ ab) = i64_as_u64 (sp_emit_ts s) ∧
    uint_at 4 32 (hd ++ bb ++ ab) = Z.of_nat (length (sp_bids s)) ∧
    uint_at 4 36 (hd ++ bb ++ ab) = Z.of_nat (length (sp_asks s))).
  { assert (fits 4 (Z.of_nat (length (sp_bids s)))) by (apply fits_u32; unfold is_u32; lia).
    assert (fits 4 (Z.of_nat (length (sp_asks s)))) by (apply fits_u32; unfold is_u32; lia).
    rewrite Ehd. unfold snapshot_response.HeaderWire. rewrite !as_bytes_cons, <-!app_assoc.
    split_and!; repeat (rewrite uint_at_skip by lia; cbn [Nat.sub]); apply uint_at_here; auto with wire_fits. }
  destruct Hf as (E1 & E2 & E3 & E4 & E5 & E6). unfold snapshot_response.parse.
  rewrite E1, E2, E3, E4, E5, E6, !Nat2Z.id, Hlen.
  unfold snapshot_response.HEADER_BYTES, snapshot_response.LEVEL_BYTES.
  rewrite decide_False by lia. rewrite decide_True by done.
  unfold bb. rewrite parse_encode_levels by done. cbn [result_bind fst snd]. rewrite app_assoc.
  rewrite <-(app_nil_r ab). unfold ab. rewrite parse_encode_levels by (done || (rewrite length_app, Hhd; done)).
  cbn [result_bind fst snd]. rewrite !i64_u64_roundtrip by done. by destruct s.
Qed.
