(* ===== verification/MarketData.v ===== *)
(** * MarketData: the outbound encoder

    [crates/marketdata/src/encoder.rs], and the broadcast sink of
    [crates/gateway/src/sink.rs] that frames what the engine emits.  A feed is a
    sequence of frames; [decode_feed] is the consumer's loop. *)

From S2P Require Import Prelude Domain Messages Bytes Framing WireInbound WireOutbound.
#[local] Open Scope Z_scope.

Definition payload_of (msg : Outbound) : outcome (list Z * MessageKind) :=
  match msg with
  | Out_ExecReport r => Ret (exec_report.encode r [], K_ExecReport)
  | Out_TradePrint t => Ret (trade_print.encode t [], K_TradePrint)
  | Out_BookUpdateTop b => Ret (book_update_top.encode b [], K_BookUpdateTop)
  | Out_BookUpdateL2Delta d => Ret (book_update_l2_delta.encode d [], K_BookUpdateL2Delta)
  | Out_SnapshotResponse s => let! p := snapshot_response.encode s [] in Ret (p, K_SnapshotResponse)
  end.

(** [encoder::encode]. *)
Definition encode (msg : Outbound) (out : list Z) : outcome (result (list Z) WireError) :=
  let! r := payload_of msg in
  let '(payload, kind) := r in
  Ret (Frame_write kind payload out).

(** [encoder::decode]. *)
Definition decode (buf : list Z) : result (Outbound * nat) WireError :=
  let? r := Frame_parse buf in
  let '(frame, total) := r in
  let? msg := outbound_parse_frame frame in
  Ok (msg, total).

(** ** The channel sink *)

(** A consumer's loop over a buffer of whole frames; [fuel] bounds the frames. *)
Fixpoint decode_feed (fuel : nat) (buf : list Z) : outcome (result (list Outbound) WireError) :=
  match fuel with
  | O => Diverge
  | S fuel =>
      match buf with
      | [] => Ret (Ok [])
      | _ =>
          match decode buf with
          | Err e => Ret (Err e)
          | Ok (m, total) =>
              let! r := decode_feed fuel (drop total buf) in
              Ret (let? ms := r in Ok (m :: ms))
          end
      end
  end.

(** ** One message *)

(** The frame of a message fits its [u32] length. *)
Definition frame_fits (msg : Outbound) : Prop :=
  match msg with
  | Out_SnapshotResponse s => Z.of_nat (snapshot_response.encoded_len s) < u32_max
  | _ => True
  end.

Lemma snapshot_fits_count s : frame_fits (Out_SnapshotResponse s) → snapshot_count_ok s.
Proof.
  unfold frame_fits, snapshot_count_ok, snapshot_response.encoded_len, snapshot_response.HEADER_BYTES,
    snapshot_response.LEVEL_BYTES. lia.
Qed.

Lemma payload_of_ok msg :
  outbound_ok msg → outbound_width_ok msg → frame_fits msg →
  ∃ payload kind, payload_of msg = Ret (payload, kind) ∧
    outbound_parse_frame (mkFrame kind payload) = Ok (wire_view msg) ∧
    Z.of_nat (length payload) < u32_max.
Proof.
  intros Hok Hw Hf. unfold outbound_parse_frame, map_ok.
  destruct msg as [r|t|b|d|s]; cbn [payload_of wire_view].
  - do 2 eexists. split; [done|]. cbn [fr_kind fr_payload].
    rewrite exec_report_parse_encode by done. split; [done|]. unfold exec_report.encode.
    destruct (match er_state r with PartiallyFilled | _ => _ end).
    by rewrite app_nil_l, length_as_bytes.
  - do 2 eexists. split; [done|]. cbn [fr_kind fr_payload].
    rewrite trade_print_parse_encode by done. split; [done|]. unfold trade_print.encode.
    by rewrite app_nil_l, length_as_bytes.
  - do 2 eexists. split; [done|]. cbn [fr_kind fr_payload].
    rewrite book_update_top_parse_encode by done. split; [done|]. unfold book_update_top.encode.
    destruct (book_update_top.encode_side _), (book_update_top.encode_side _).
    by rewrite app_nil_l, length_as_bytes.
  - do 2 eexists. split; [done|]. cbn [fr_kind fr_payload].
    rewrite l2_delta_parse_encode by done. split; [done|]. unfold book_update_l2_delta.encode.
    by rewrite app_nil_l, length_as_bytes.
  - destruct (snapshot_encode_total s [] (snapshot_fits_count s Hf)) as (p & _ & Hp & Hl).
    exists p, K_SnapshotResponse. rewrite Hp. split; [done|]. cbn [fr_kind fr_payload].
    rewrite (snapshot_parse_encode s p) by done. split; [done|]. rewrite Hl. exact Hf.
Qed.

(** Encoding a well-formed message returns its frame, which decodes to the message
    whatever follows it. *)
Lemma encode_ok msg :
  outbound_ok msg → outbound_width_ok msg → frame_fits msg →
  ∃ frame, (∀ out, encode msg out = Ret (Ok (out ++ frame))) ∧ frame ≠ [] ∧
    ∀ rest, decode (frame ++ rest) = Ok (wire_view msg, length frame).
Proof.
  intros Hok Hw Hf. destruct (payload_of_ok msg Hok Hw Hf) as (payload & kind & Hp & Hd & Hl).
  set (n := Z.of_nat (FRAME_KIND_BYTES) + Z.of_nat (length payload)).
  assert (Hn : n <= u32_max) by (unfold n, FRAME_KIND_BYTES; lia).
  assert (Hwr : ∀ out, Frame_write kind payload out =
    Ok (out ++ to_le 4 n ++ [MessageKind_as_u8 kind] ++ payload)).
  { intros out. unfold Frame_write, checked_add. fold n. unfold u32_max, u64_max in *.
    rewrite decide_True by (unfold n; lia). cbn [ok_or result_bind]. by rewrite decide_True. }
  exists (to_le 4 n ++ [MessageKind_as_u8 kind] ++ payload). split_and!.
  - intros out. unfold encode. rewrite Hp. cbn [outcome_bind]. by rewrite Hwr.
  - by intros [_ [=]]%app_eq_nil.
  - intros rest. destruct (frame_roundtrip _ _ _ _ rest (Hwr [])) as (fr & Hfr & Hparse & _).
    rewrite !app_nil_l in Hfr. subst fr. unfold decode, Frame_parse. rewrite Hparse.
    cbn [result_bind]. by rewrite Hd.
Qed.

(** ** A feed *)

Fixpoint encode_all (msgs : list Outbound) (out : list Z) : outcome (result (list Z) WireError) :=
  match msgs with
  | [] => Ret (Ok out)
  | m :: msgs =>
      let! r := encode m out in
      match r with Err e => Ret (Err e) | Ok out => encode_all msgs out end
  end.

Definition feed_ok (msgs : list Outbound) : Prop :=
  Forall (λ m, outbound_ok m ∧ outbound_width_ok m ∧ frame_fits m) msgs.

Lemma encode_all_ok msgs out :
  feed_ok msgs →
  ∃ bytes, encode_all msgs out = Ret (Ok (out ++ bytes)) ∧
    ∀ fuel, (length bytes < fuel)%nat → decode_feed fuel bytes = Ret (Ok (wire_view <$> msgs)).
Proof.
  intros Hms. revert out. induction Hms as [|m msgs (Hok & Hw & Hf) Hms IH]; intros out.
  - exists []. rewrite app_nil_r. split; [done|]. intros [|fuel] H; [simpl in H; lia|done].
  - destruct (encode_ok m Hok Hw Hf) as (fr & Henc & Hne & Hdec).
    destruct (IH (out ++ fr)) as (bytes & Hall & Hfeed). exists (fr ++ bytes). split.
    + cbn [encode_all]. rewrite Henc. cbn [outcome_bind]. by rewrite Hall, <-app_assoc.
    + intros [|fuel] Hfuel; [lia|]. rewrite length_app in Hfuel. cbn [decode_feed].
      destruct (fr ++ bytes) as [|b bs] eqn:E; [by destruct fr|]. rewrite <-E, Hdec.
      assert (0 < length fr)%nat by (destruct fr; [done|simpl; lia]).
      rewrite drop_app_length, Hfeed by lia. done.
Qed.
