(* ===== verification/Channels.v ===== *)
(** * Channels: the queues between the gateway and the engine

    The binary connects its tasks with three channels.  Two of them belong to the
    tokio library and are interfaces here, classes of operations with the laws its
    documentation states: the bounded multi-producer channel that takes the
    commands in, and the broadcast channel that takes the frames out.
    [ChannelSink] of [crates/gateway/src/sink.rs] is the engine's sink over the
    latter.  The third, [std::sync::mpsc], is an unbounded queue, a list. *)

From S2P Require Import Prelude Domain Messages Bytes Framing WireInbound WireOutbound MarketData.
#[local] Open Scope Z_scope.

(** ** The bounded channel *)

(** [try_send] returns the new state, or [None] for [Full]; [recv] takes the oldest
    value, [None] when there is none. *)
Class MpscOps (M A : Type) := {
  mpsc_new : nat → M;
  try_send : M → A → option M;
  mpsc_recv : M → option (A * M);
}.

(** The values in the channel, oldest first, and how many it may hold. *)
Class MpscLaws (M A : Type) `{!MpscOps M A} := {
  mpsc_items : M → list A;
  mpsc_capacity : M → nat;
  mpsc_new_law n : mpsc_items (mpsc_new n) = [] ∧ mpsc_capacity (mpsc_new n) = n;
  try_send_law m a :
    match try_send m a with
    | Some m' => (length (mpsc_items m) < mpsc_capacity m)%nat ∧
        mpsc_items m' = mpsc_items m ++ [a] ∧ mpsc_capacity m' = mpsc_capacity m
    | None => (mpsc_capacity m <= length (mpsc_items m))%nat
    end;
  mpsc_recv_law m :
    match mpsc_recv m with
    | Some (a, m') => mpsc_items m = a :: mpsc_items m' ∧ mpsc_capacity m' = mpsc_capacity m
    | None => mpsc_items m = []
    end;
}.

(** ** The broadcast channel *)

Inductive RecvResult := Received (frame : list Z) | Lagged | Pending.

Class BroadcastOps (B R : Type) := {
  broadcast_new : nat → B;
  broadcast_send : B → list Z → B;
  broadcast_subscribe : B → R;
  broadcast_recv : B → R → RecvResult * R;
}.

(** [sent] are all the frames sent so far; a receiver has a position in them.  It
    starts at the end, reads frame after frame, waits at the end, and is told when
    it has fallen more than the capacity behind.  The capacity is at least the one asked
    for: the library may round it up. *)
Class BroadcastLaws (B R : Type) `{!BroadcastOps B R} := {
  sent : B → list (list Z);
  broadcast_capacity : B → nat;
  position : R → nat;
  broadcast_new_law n : sent (broadcast_new n) = [] ∧ (n <= broadcast_capacity (broadcast_new n))%nat;
  broadcast_send_law b f :
    sent (broadcast_send b f) = sent b ++ [f] ∧ broadcast_capacity (broadcast_send b f) = broadcast_capacity b;
  broadcast_subscribe_law b : position (broadcast_subscribe b) = length (sent b);
  broadcast_recv_law b r :
    match broadcast_recv b r with
    | (Received f, r') => sent b !! position r = Some f ∧ position r' = S (position r) ∧
        (length (sent b) <= position r + broadcast_capacity b)%nat
    | (Lagged, _) => (position r + broadcast_capacity b < length (sent b))%nat
    | (Pending, r') => (length (sent b) <= position r)%nat ∧ r' = r
    end;
}.

(** ** The engine's sink *)

(** [Panic] records an encoder that panicked. *)
Record ChannelSink (B : Type) := mkChannelSink { tx : outcome B }.
Arguments mkChannelSink {B}.
Arguments tx {B}.

Section Sink.
Context {B R : Type} `{!BroadcastOps B R}.

Definition ChannelSink_new (capacity : nat) : ChannelSink B := mkChannelSink (Ret (broadcast_new capacity)).

(** [ChannelSink::emit]: a message that cannot be encoded is dropped. *)
Definition ChannelSink_emit (tx : B) (msg : Outbound) : outcome B :=
  let! r := encode msg [] in
  match r with
  | Err _ => Ret tx
  | Ok buf => Ret (broadcast_send tx buf)
  end.

#[global] Instance ChannelSink_sink : OutboundSink (ChannelSink B) := λ s msg,
  mkChannelSink (let! tx := tx s in ChannelSink_emit tx msg).

Definition ChannelSink_subscribe (tx : B) : R := broadcast_subscribe tx.

(** Every message of an encodable feed reaches the channel as one decodable frame,
    in order, and the channel keeps its capacity. *)
Lemma ChannelSink_feed `{!BroadcastLaws B R} b msgs :
  feed_ok msgs →
  ∃ b' frames, foldl emit (mkChannelSink (Ret b)) msgs = mkChannelSink (Ret b') ∧
    sent b' = sent b ++ frames ∧ broadcast_capacity b' = broadcast_capacity b ∧
    Forall2 (λ f m, ∀ more, decode (f ++ more) = Ok (wire_view m, length f)) frames msgs.
Proof.
  intros Hms. revert b. induction Hms as [|m msgs (Hok & Hw & Hf) Hms IH]; intros b.
  { exists b, []. rewrite app_nil_r. by split_and!. }
  destruct (encode_ok m Hok Hw Hf) as (fr & Henc & _ & Hdec).
  destruct (IH (broadcast_send b fr)) as (b' & frs & Hall & Hs & Hc & Hfrs).
  destruct (broadcast_send_law b fr) as [Hs1 Hc1]. exists b', (fr :: frs). split_and!.
  - cbn [foldl]. unfold emit at 2, ChannelSink_sink, ChannelSink_emit. cbn [tx outcome_bind].
    rewrite Henc. cbn [outcome_bind]. by rewrite app_nil_l.
  - by rewrite Hs, Hs1, <-app_assoc.
  - by rewrite Hc.
  - by constructor.
Qed.
End Sink.

(** ** Instances *)

(** A queue with its capacity. *)
Record Queue (A : Type) := mkQueue { q_items : list A; q_capacity : nat }.
Arguments mkQueue {A}.
Arguments q_items {A}.
Arguments q_capacity {A}.

#[global] Instance Queue_ops A : MpscOps (Queue A) A := {
  mpsc_new n := mkQueue [] n;
  try_send q a :=
    if decide (length (q_items q) < q_capacity q)%nat then Some (mkQueue (q_items q ++ [a]) (q_capacity q)) else None;
  mpsc_recv q := match q_items q with [] => None | a :: items => Some (a, mkQueue items (q_capacity q)) end;
}.

#[global] Instance Queue_laws A : MpscLaws (Queue A) A.
Proof.
  refine {| mpsc_items := q_items; mpsc_capacity := q_capacity |}; [done|..].
  - intros [items n] a. simpl. case_decide; simpl; [done|lia].
  - by intros [[|a items] n].
Defined.

(** The frames sent and the capacity; a receiver is a cursor. *)
Record FrameLog := mkFrameLog { log_frames : list (list Z); log_capacity : nat }.

#[global] Instance FrameLog_ops : BroadcastOps FrameLog nat := {
  broadcast_new n := mkFrameLog [] n;
  broadcast_send b f := mkFrameLog (log_frames b ++ [f]) (log_capacity b);
  broadcast_subscribe b := length (log_frames b);
  broadcast_recv b r :=
    if decide (r + log_capacity b < length (log_frames b))%nat then (Lagged, length (log_frames b))
    else match log_frames b !! r with Some f => (Received f, S r) | None => (Pending, r) end;
}.

#[global] Instance FrameLog_laws : BroadcastLaws FrameLog nat.
Proof.
  refine {| sent := log_frames; broadcast_capacity := log_capacity; position := id |}; [done..|].
  intros [fs n] r. simpl. case_decide; [done|]. destruct (fs !! r) eqn:E; simpl.
  - split_and!; [done..|lia].
  - split; [|done]. by apply lookup_ge_None in E.
Defined.
