(* ===== verification/EngineFeed.v ===== *)
(** * EngineFeed: what the engine emits fits the wire

    The codecs keep every field in a fixed width.  This file proves, operation by
    operation, that the messages of an engine have sequence numbers, trade ids,
    request ids and timestamps within those widths, and that a snapshot lists no
    more levels than the book holds; with the well-formedness of [EngineRun] this
    makes every message of a session encodable and decodable. *)

From S2P Require Import Prelude BTree Domain PriceLevel Book BookSpec BookInv BookMatch BookOps BookReplace Messages Ids Risk Engine EngineInv EngineFills EngineOrders EngineStep EngineL2 EngineRun EngineBounds Bytes Framing WireInbound WireOutbound MarketData.

(** ** Partial correctness *)

Definition owp {A} (o : outcome A) (Q : A → Prop) : Prop :=
  match o with Ret a => Q a | Panic | Diverge => True end.

Lemma owp_bind {A B} (o : outcome A) (k : A → outcome B) (R : A → Prop) Q :
  owp o R → (∀ a, R a → owp (k a) Q) → owp (outcome_bind o k) Q.
Proof. destruct o; simpl; auto. Qed.

Lemma owp_loop {St R} (J : St → Prop) (body : St → outcome (St + R)) (Q : R → Prop) fuel s :
  (∀ s, J s → owp (body s) (λ r, match r with inl s' => J s' | inr v => Q v end)) →
  J s → owp (loop fuel body s) Q.
Proof.
  intros Hb. revert s. induction fuel as [|n IH]; intros s Hs; simpl; [done|].
  eapply owp_bind; [by apply Hb|]. by intros [s'|v]; [apply IH|].
Qed.

Lemma wp_owp {A} (o : outcome A) Q : wp False o Q → owp o Q.
Proof. by destruct o. Qed.

(** ** Widths of the id source and of the clock *)

Class IdWidth (I : Type) `{!IdGenerator I} := {
  ids_ok : I → Prop;
  next_trade_wide i : ids_ok i → owp (next_trade_id i) (λ r, is_u64 r.1 ∧ ids_ok r.2);
  next_seq_wide i : ids_ok i → owp (next_engine_seq i) (λ r, is_u64 r.1 ∧ ids_ok r.2);
}.

#[global] Instance CounterIdGenerator_width : IdWidth CounterIdGenerator.
Proof.
  refine {| ids_ok g := is_u64 (next_trade g) ∧ is_u64 (next_seq g) |};
    intros [t s] [Ht Hs]; simpl in *; unfold checked_add; case_decide; simpl; unfold is_u64 in *; [lia|done..|lia|done].
Defined.

Class ClockWidth (C : Type) `{!Clock C} := {
  clock_ok : C → Prop;
  now_wide c : clock_ok c → is_i64 (now c).1 ∧ clock_ok (now c).2;
}.

#[global] Instance StubClock_width : ClockWidth StubClock.
Proof. refine {| clock_ok c := is_i64 (current c) |}. done. Defined.

#[global] Instance WallClock_width : ClockWidth WallClock.
Proof.
  refine {| clock_ok _ := True |}. intros c _. split; [|done]. simpl.
  destruct (system_time c (reads c)) as [t|]; simpl; unfold is_i64, wrap_i64, i64_min, i64_max.
  - pose proof (Z.mod_pos_bound (t + 2 ^ 63) (2 ^ 64)). lia.
  - lia.
Defined.

Section Feed.
Context {L C I Snk : Type} `{!PriceLevelOps L} `{!Clock C} `{!ClockWidth C} `{!IdGenerator I}
  `{!IdWidth I} `{!OutboundSink Snk}.
Local Abbreviation Eng := (Engine L C I Snk).

Definition snapshot_size (m : Outbound) : nat :=
  match m with Out_SnapshotResponse s => length (sp_bids s) + length (sp_asks s) | _ => 0 end.

Definition wide (k : nat) (m : Outbound) : Prop := outbound_width_ok m ∧ (snapshot_size m <= k)%nat.

Definition fill_wide (f : Fill) : Prop := is_u64 (f_trade_id f).

(** An engine whose sink, from [s0] on, received only messages that fit. *)
Record fed (k : nat) (s0 : Snk) (e : Eng) : Prop := {
  fd_ids : ids_ok (e_ids e);
  fd_clock : clock_ok (e_clock e);
  fd_fills : Forall fill_wide (e_fills_buf e);
  fd_sink : ∃ msgs, e_sink e = foldl emit s0 msgs ∧ Forall (wide k) msgs;
}.

Section Ops.
Context (k : nat) (s0 : Snk) (ts : RecvTs) (Hts : is_i64 ts).
Local Abbreviation ok := (fed k s0).
Implicit Types (e : Eng).

Lemma emit_with_fed e mk :
  ok e → (∀ s t, is_u64 s → is_i64 t → wide k (mk s t)) → owp (emit_with e mk) ok.
Proof.
  intros [Hi Hc Hf (msgs & Hs & Hm)] Hmk. unfold emit_with.
  eapply owp_bind; [by apply next_seq_wide|]. intros [s ids] [Hsq Hids].
  destruct (now_wide _ Hc) as [Ht Hc']. destruct (now (e_clock e)) as [t c]. simpl in *.
  split; simpl; try done. exists (msgs ++ [mk s t]). rewrite foldl_app, Forall_app, Hs.
  repeat split; auto.
Qed.

Ltac emits := apply emit_with_fed; [done|]; intros; split; [simpl; tauto|simpl; lia].

Lemma emit_rejected_fed e oid aid reason : ok e → owp (emit_rejected e oid aid reason ts) ok.
Proof. intros. emits. Qed.
Lemma emit_accepted_fed e oid aid q : ok e → owp (emit_exec_report_accepted e oid aid q ts) ok.
Proof. intros. emits. Qed.
Lemma emit_cancelled_fed e oid aid reason : ok e → owp (emit_exec_report_cancelled e oid aid reason ts) ok.
Proof. intros. emits. Qed.
Lemma emit_replaced_fed e oid aid q : ok e → owp (emit_exec_report_replaced e oid aid q ts) ok.
Proof. intros. emits. Qed.
Lemma emit_fill_fed e oid aid st p q l : ok e → owp (emit_exec_report_fill e oid aid st p q l ts) ok.
Proof. intros. emits. Qed.
Lemma emit_trade_fed e f s : ok e → fill_wide f → owp (emit_trade_print_for_fill e f s) ok.
Proof. intros. emits. Qed.
Lemma emit_l2_delta_fed e s p q : ok e → owp (emit_l2_delta e s p q) ok.
Proof. intros. emits. Qed.
Lemma emit_top_fed e : ok e → owp (emit_book_update_top e) ok.
Proof. intros. emits. Qed.

Lemma set_risk_fed e r : ok e → ok (set_risk e r).
Proof. intros []. by split. Qed.
Lemma set_book_fed e b : ok e → ok (set_book e b).
Proof. intros []. by split. Qed.
Lemma set_registry_fed e m : ok e → ok (set_registry e m).
Proof. intros []. by split. Qed.
Lemma set_mass_fed e b o : ok e → ok (set_mass e b o).
Proof. intros []. by split. Qed.
Lemma set_pre_fed e v : ok e → ok (set_pre_step_levels e v).
Proof. intros []. by split. Qed.
Lemma set_post_fed e v : ok e → ok (set_post_step_levels e v).
Proof. intros []. by split. Qed.
Lemma set_match_fed e b ids fills stp :
  ok e → ids_ok ids → Forall fill_wide fills → ok (set_match e b ids fills stp).
Proof. intros []. by split. Qed.

Create HintDb fed.
#[local] Hint Resolve emit_rejected_fed emit_accepted_fed emit_cancelled_fed emit_replaced_fed emit_fill_fed
  emit_trade_fed emit_l2_delta_fed emit_top_fed set_risk_fed set_book_fed set_registry_fed set_mass_fed
  set_pre_fed set_post_fed set_match_fed fd_ids fd_fills : fed.

Lemma settle_maker_fed e f : ok e → ok (settle_maker e f).
Proof.
  intros H. unfold settle_maker. destruct (_ !! _) as [ent|]; [destruct (f_maker_fully_filled f)|]; eauto with fed.
Qed.
Lemma unregister_fed e oid : ok e → ok (unregister e oid).
Proof. intros H. unfold unregister. destruct (_ !! _); eauto with fed. Qed.
#[local] Hint Resolve settle_maker_fed unregister_fed : fed.

(** ** Matching hands out ids of the source *)

Definition walk_wide (w : Walk L I) : Prop := ids_ok (w_ids w) ∧ Forall fill_wide (w_fills w).

Lemma level_round_wide taker p snap st :
  walk_wide st.1 →
  owp (level_round taker p snap st) (λ r, match r with
    | inl st' => walk_wide st'.1
    | inr (BreakLevel w) | inr (BreakWalk w) => walk_wide w
    end).
Proof.
  destruct st as [w i]. intros [Hi Hf]. simpl in *. unfold level_round.
  destruct (_ =? 0); [done|]. destruct (snap !! i) as [hd|]; [|done].
  destruct (pl_id_to_domain _) as [oid| |]; try done. cbn [outcome_bind].
  destruct (Book.index _ !! oid) as [m|]; [|done]. destruct (_ =? _); [done|]. destruct (_ =? 0); [done|].
  destruct (if _ =? 0 then _ else _) as [b j]. destruct (Qty_new _) as [q|]; [|done].
  eapply owp_bind; [by apply next_trade_wide|]. intros [t ids] [Ht Hids]. simpl in *.
  split; [done|]. simpl. apply Forall_app. split; [done|]. by apply Forall_singleton.
Qed.

Lemma match_aggressive_wide b taker ids fills stp :
  ids_ok ids → Forall fill_wide fills →
  owp (match_aggressive b taker ids fills stp) (λ r, ids_ok r.1.1.1.2 ∧ Forall fill_wide r.1.1.2).
Proof.
  intros Hi Hf. unfold match_aggressive. destruct (_ && _); [done|].
  eapply (owp_bind _ _ walk_wide); [|done]. apply (owp_loop walk_wide); [|done].
  intros w Hw. unfold walk_round. destruct (negb _); [done|].
  destruct (match ao_side taker with Bid => _ | Ask => _ end) as [p|]; [|done].
  destruct (negb _); [done|]. destruct (level_at _ _ _) as [l|]; [|done].
  destruct (pl_snapshot_orders l) as [snap|]; [|done].
  eapply (owp_bind _ _ (λ ex, match ex with BreakLevel w | BreakWalk w => walk_wide w end)).
  - apply (owp_loop (λ st, walk_wide st.1)); [|done]. intros st Hst. by apply level_round_wide.
  - by intros [w'|w'].
Qed.

Lemma replace_wide b oid p q ids fills stp :
  ids_ok ids → Forall fill_wide fills →
  owp (replace b oid p q ids fills stp) (λ r, ids_ok r.1.1.1.2 ∧ Forall fill_wide r.1.1.2).
Proof.
  intros Hi Hf. unfold replace. destruct (Book.index b !! oid) as [m|]; [|done].
  destruct (negb _ && negb _); [by destruct (level_at _ _ _)|]. destruct (_ && _); [done|].
  destruct (cancel b oid) as [b1 [x|err]]; [|done].
  eapply owp_bind; [by apply match_aggressive_wide|]. intros [[[[b2 ids2] fills2] stp2] res] [Hi2 Hf2].
  simpl in *. destruct (mr_taker_stp_cancelled res), (mr_taker_remaining res); try done.
  by destruct (add_resting _ _) as [b3 [y|err]].
Qed.

(** ** Handlers *)

Lemma emit_fills_loop_fed oid aid fills (x : Eng * Z) :
  Forall fill_wide fills → ok x.1 → owp (emit_fills_loop oid aid ts fills x) (λ x, ok x.1).
Proof.
  intros Hf. revert x. induction Hf as [|f fills Hw Hf IH]; intros [a r] Ha; simpl in *; [done|].
  eapply (owp_bind _ _ (λ x, ok x.1)); [|auto].
  eapply owp_bind; [eauto with fed|]. intros a1 H1. eapply owp_bind; [eauto with fed|]. intros a2 H2.
  eapply owp_bind; [eauto with fed|]. intros a3 H3. simpl. eauto with fed.
Qed.

Lemma emit_fills_fed e oid aid q : ok e → owp (emit_fills_for_taker e oid aid q ts) ok.
Proof.
  intros H. unfold emit_fills_for_taker.
  eapply owp_bind; [apply emit_fills_loop_fed; [apply H|exact H]|]. by intros [e' r].
Qed.

Lemma emit_stp_fed e : ok e → owp (emit_stp_cancels e ts) ok.
Proof.
  unfold emit_stp_cancels. generalize (e_stp_buf e) as stps. intros stps. revert e.
  induction stps as [|s stps IH]; intros e H; simpl; [done|].
  eapply owp_bind; [eauto with fed|]. eauto with fed.
Qed.
#[local] Hint Resolve emit_fills_fed emit_stp_fed : fed.

Lemma rest_leftover_fed e msg p q : ok e → owp (rest_leftover e msg p q ts) ok.
Proof.
  intros H. unfold rest_leftover. destruct (on_order_resting _ _ _) as [r [u|reason]]; [|eauto with fed].
  destruct (add_resting _ _) as [b [v|err]]; eauto with fed.
Qed.

Lemma handle_new_order_fed e msg : ok e → owp (handle_new_order e msg ts) ok.
Proof.
  intros H. unfold handle_new_order. destruct (check_new_order _ _ _); [|eauto with fed].
  destruct (is_kill_switched _); [eauto with fed|].
  eapply owp_bind; [apply match_aggressive_wide; [apply H|done]|].
  intros [[[[b ids] fills] stp] res] [Hi Hf]. simpl in Hi, Hf.
  destruct (mr_taker_post_only_rejected res); [eauto with fed|].
  eapply owp_bind; [eauto with fed|]. intros a1 Ha. eapply owp_bind; [eauto with fed|]. intros a2 Hb.
  destruct (mr_taker_stp_cancelled res); [eauto with fed|]. destruct (mr_taker_remaining res); [|done].
  destruct (no_tif msg), (no_price msg); eauto using rest_leftover_fed with fed.
Qed.

Lemma handle_cancel_order_fed e msg : ok e → owp (handle_cancel_order e msg ts) ok.
Proof.
  intros H. unfold handle_cancel_order. destruct (check_cancel _ _); [|eauto with fed].
  destruct (is_kill_switched _); [eauto with fed|]. destruct (from_option _ _ _); [eauto with fed|].
  destruct (cancel _ _) as [b [x|err]]; eauto with fed.
Qed.

Lemma commit_replace_fed e msg old res : ok e → owp (commit_replace e msg old res ts) ok.
Proof.
  intros H. unfold commit_replace.
  assert (Hf : ok (match old with
    | Some ent => set_risk e (on_order_removed (e_risk e) (re_account_id ent) (re_notional ent)) | None => e end)).
  { destruct old; eauto with fed. }
  revert Hf. match goal with |- ok ?x → _ => generalize x end. intros a Ha.
  eapply owp_bind; [eauto with fed|]. intros b Hb. eapply owp_bind; [eauto with fed|]. intros c Hc.
  eapply owp_bind; [eauto with fed|]. intros d Hd.
  destruct (match res with Some r => _ | None => _ end) as [[] [q|]]; eauto with fed.
  unfold rest_replaced. destruct (on_order_resting _ _ _) as [r [u|reason]]; [simpl|]; eauto with fed.
Qed.

Lemma handle_cancel_replace_fed e msg : ok e → owp (handle_cancel_replace e msg ts) ok.
Proof.
  intros H. unfold handle_cancel_replace. destruct (check_cancel_replace _ _); [|eauto with fed].
  destruct (is_kill_switched _); [eauto with fed|]. destruct (from_option _ _ _); [eauto with fed|].
  eapply owp_bind; [apply replace_wide; [apply H|done]|].
  intros [[[[b ids] fills] stp] [res|err]] [Hi Hf]; simpl in Hi, Hf; [|eauto with fed].
  destruct (from_option _ false _); eauto using commit_replace_fed with fed.
Qed.

Lemma handle_mass_cancel_fed e msg : ok e → owp (handle_mass_cancel e msg ts) ok.
Proof.
  intros H. unfold handle_mass_cancel, emit_rejected_mass. destruct (check_mass_cancel _ _); [|simpl; eauto with fed].
  destruct (is_kill_switched _); [simpl; eauto with fed|]. destruct (mass_cancel _ _ _) as [[b out] n].
  assert (Hm : ok (set_mass e b out)) by eauto with fed. revert Hm. generalize (set_mass e b out) as a0.
  clear H. induction out as [|mc out IH]; intros a1 Ha; simpl; [done|]. eapply owp_bind; eauto with fed.
Qed.

Lemma handle_snapshot_fed e msg :
  ok e → is_u64 (sr_request_id msg) → (length (capture_levels (e_book e)) <= k)%nat →
  owp (handle_snapshot_request e msg ts) ok.
Proof.
  intros H Hr Hk. apply emit_with_fed; [done|]. intros s t Hs Ht. split; [done|]. simpl.
  assert (Hl : ∀ ls, (length (snapshot_levels ls) <= length ls)%nat).
  { intros ls. unfold snapshot_levels. etrans; [|apply (length_filter (λ x : Price * Z, 0 < x.2) ls)].
    generalize (filter (λ x : Price * Z, 0 < x.2) ls) as ys. induction ys as [|y ys IH]; csimpl; [done|].
    destruct (_ <$> _); simpl; lia. }
  unfold capture_levels in Hk. rewrite length_app, length_reverse, !length_fmap in Hk.
  pose proof (Hl (bid_levels (e_book e))). pose proof (Hl (ask_levels (e_book e))). lia.
Qed.

Lemma emit_l2_deltas_fed e : ok e → owp (emit_l2_deltas e) ok.
Proof.
  intros H. unfold emit_l2_deltas. apply (owp_loop (λ x, ok x.1.1)); [|done].
  intros [[a i] j] Ha. simpl in Ha. unfold l2_round.
  assert (He : ∀ s p q i j, owp (let! e := emit_l2_delta a s p q in Ret (inl (e, i, j) : Eng * nat * nat + Eng))
    (λ r, match r with inl x => ok x.1.1 | inr v => ok v end)).
  { intros. eapply owp_bind; [eauto with fed|]. by intros. }
  destruct (negb _); [done|]. destruct (_ !! i) as [[[ps pp] pq]|], (_ !! j) as [[[qs qp] qq]|]; try done.
  destruct (level_key_eq _ _ _ _); [|by destruct (level_key_lt _ _ _ _)]. by destruct (pq =? qq).
Qed.
End Ops.

(** A step feeds its sink messages that fit. *)
Lemma step_fed k s0 e msg :
  fed k s0 e → inbound_width_ok msg → (length (capture_levels (e_book e)) <= k)%nat →
  owp (step e msg) (fed k s0).
Proof.
  intros [Hi Hc Hf Hs] Hw Hk. unfold step. destruct (now_wide _ Hc) as [Hts Hc'].
  destruct (now (e_clock e)) as [ts c]. simpl in *.
  assert (H1 : fed k s0 (set_clock e c)) by by split.
  destruct msg as [m|m|m|m|m|m]; simpl; try (eapply owp_bind; [|intros a Ha; eapply owp_bind;
    [apply emit_l2_deltas_fed; by apply set_post_fed|intros b Hb; by apply emit_top_fed]]);
    auto using handle_new_order_fed, handle_cancel_order_fed, handle_cancel_replace_fed,
      handle_mass_cancel_fed, handle_snapshot_fed, set_pre_fed, set_risk_fed.
  by apply set_risk_fed.
Qed.

End Feed.

(** ** A whole session *)

Definition command_ok (m : Inbound) : Prop := inbound_ok m ∧ inbound_width_ok m.

Lemma limit_command_ok id a s tif p q :
  order_id_ok id → account_id_ok a → price_ok p → qty_ok q →
  command_ok (In_NewOrder (mkNewOrder 0 id a s Limit tif (Some p) q)).
Proof. intros Hi Ha Hp Hq. split; [|done]. exact (conj Hi (conj Ha (conj Hq (ex_intro _ p (conj eq_refl Hp))))). Qed.

Definition snapshot_bound : nat := Z.to_nat MAX_SESSION.

Lemma le_to_nat n z : 0 <= z → (n <= Z.to_nat z)%nat ↔ Z.of_nat n <= z.
Proof. lia. Qed.

Lemma snapshot_bound_le n : (n <= snapshot_bound)%nat ↔ Z.of_nat n <= MAX_SESSION.
Proof. apply le_to_nat. done. Qed.

Lemma owp_wp {A} (o : outcome A) Q R : wp False o Q → owp o R → wp False o (λ a, Q a ∧ R a).
Proof. by destruct o. Qed.

Lemma wide_feed m : outbound_ok m → wide snapshot_bound m → outbound_ok m ∧ outbound_width_ok m ∧ frame_fits m.
Proof.
  intros Hok [Hw Hs]. split_and!; try done. destruct m as [| | | |s]; try done. cbn [snapshot_size frame_fits] in *.
  assert (Hz : Z.of_nat (length (sp_bids s) + length (sp_asks s)) <= MAX_SESSION).
  { by apply snapshot_bound_le. }
  clear Hs. unfold snapshot_response.encoded_len, snapshot_response.HEADER_BYTES, snapshot_response.LEVEL_BYTES.
  unfold MAX_SESSION, u32_max in *. lia.
Qed.

Section Session.
Context {L C I : Type} `{!PriceLevelOps L} `{!PriceLevelLaws L} `{!SnapshotSucceeds L}
  `{!Clock C} `{!ClockWidth C} `{!IdGenerator I} `{!IdGeneratorLaws I} `{!IdWidth I}.
Local Abbreviation Eng := (Engine L C I VecSink).
Implicit Types (e : Eng).

(** An engine after [k] of at most [MAX_SESSION] commands: its invariant, room for
    the rest of the session, and events that can be encoded. *)
Record live (k : Z) (e : Eng) : Prop := {
  lv_sized : sized k e;
  lv_cap : (MAX_SESSION - k) * STEP_IDS <= Z.of_nat (id_cap (e_ids e));
  lv_fed : fed snapshot_bound VecSink_new e;
  lv_ok : Forall outbound_ok (events (e_sink e));
}.

Lemma live_inv k e : live k e → einv e.
Proof. intros H. apply (sz_inv k), H. Qed.

Lemma live_feed k e : live k e → feed_ok (events (e_sink e)).
Proof.
  intros [_ _ Hf Ho]. destruct (fd_sink _ _ _ Hf) as (ms & Hms & Hw).
  rewrite VecSink_emit_all in Hms. rewrite Hms in *. simpl in *. apply Forall_forall. intros m Hm.
  rewrite Forall_forall in Ho, Hw. apply wide_feed; auto.
Qed.

Lemma step_live k e m :
  live k e → 0 <= k < MAX_SESSION → command_ok m → wp False (step e m) (live (k + 1)).
Proof.
  intros [Hsz Hc Hf Ho] Hk [Hok Hw]. assert (HS : 0 < STEP_IDS) by done.
  assert (Hfed : owp (step e m) (fed snapshot_bound VecSink_new)).
  { apply step_fed; [done..|]. pose proof (length_capture _ (ei_book _ (sz_inv _ _ Hsz))) as Hl.
    pose proof (sz_total _ _ Hsz) as Ht. unfold order_total in Ht. apply snapshot_bound_le. lia. }
  pose proof (step_sized k e m ((MAX_SESSION - (k + 1)) * STEP_IDS) Hsz Hk Hok) as Hs.
  assert (Hr : wp False (step e m) (λ e', ∃ outs, stream outbound_ok (step_budget e) e e' outs)).
  { eapply wp_conseq; [apply step_ok; [apply Hsz|eapply sized_ready; [done|lia|done]|]|].
    - pose proof (sz_total _ _ Hsz). unfold step_budget, handler_budget, STEP_IDS in *. nia.
    - intros e' (outs & [_ _ X _]). eauto. }
  destruct (step e m) as [e'| |]; [|done|done]. simpl in *. destruct Hs as [Hsz' Hc']; [nia..|].
  destruct Hr as (outs & X). split; [done..|]. rewrite (ext_sink _ _ _ _ _ X), VecSink_emit_all.
  apply Forall_app. split; [done|apply X].
Qed.

(** Setting the clock between two commands. *)
Lemma set_clock_live k e c : live k e → clock_ok c → live k (set_clock e c).
Proof. intros [[[] ? ?] ? [] ?] Hc. split; [split; [by split|done..]|done|by split|done]. Qed.

(** [engine.sink_mut().events.clear()]. *)
Lemma clear_live k e : live k e → live k (set_sink e VecSink_new).
Proof.
  intros [[[] ? ?] ? [] ?]. split; [split; [by split|done..]|done|split; [done..|by exists []]|constructor].
Qed.

Lemma run_live k e msgs :
  live k e → Forall command_ok msgs → 0 <= k → k + Z.of_nat (length msgs) <= MAX_SESSION →
  wp False (run e msgs) (live (k + Z.of_nat (length msgs))).
Proof.
  intros Hl Hok. revert k e Hl. induction Hok as [|m msgs Hm Hok IH]; intros k e Hl Hk Hlen; cbn [run length].
  { by rewrite Z.add_0_r. }
  simpl in Hlen. apply wp_bind. eapply wp_conseq; [apply step_live; [done|lia|done]|]. intros e' Hl'.
  replace (k + Z.of_nat (S (length msgs))) with (k + 1 + Z.of_nat (length msgs)) by lia.
  apply IH; [done|lia|lia].
Qed.
End Session.

Lemma fresh_live {L C} `{!PriceLevelOps L} `{!PriceLevelLaws L} `{!Clock C} `{!ClockWidth C} (clock : C) :
  clock_ok clock →
  live 0 (engine_new clock CounterIdGenerator_new VecSink_new : Engine L C CounterIdGenerator VecSink).
Proof.
  intros Hc. split.
  - apply engine_new_sized.
  - cbn [e_ids engine_new]. rewrite counter_new_cap. pose proof session_arith as [_ H]. lia.
  - split; simpl; [by vm_compute|done|done|]. by exists [].
  - constructor.
Qed.

(** Any session of valid commands on a fresh engine returns, and every message it
    collected can be encoded and decoded. *)
Lemma fresh_session {L C} `{!PriceLevelOps L} `{!PriceLevelLaws L} `{!SnapshotSucceeds L} `{!Clock C} `{!ClockWidth C}
    (clock : C) msgs :
  clock_ok clock → Forall command_ok msgs → Z.of_nat (length msgs) <= MAX_SESSION →
  ∃ e, run (engine_new clock CounterIdGenerator_new VecSink_new : Engine L C CounterIdGenerator VecSink) msgs = Ret e ∧
    einv e ∧ feed_ok (events (e_sink e)).
Proof.
  intros Hc Hok Hlen.
  destruct (proj1 (wp_total _ _) (run_live 0 _ msgs (fresh_live clock Hc) Hok ltac:(done) ltac:(lia))) as (e & He & Hl).
  exists e. split_and!; [done|by eapply live_inv|by eapply live_feed].
Qed.
