(* ===== verification/EngineAnswers.v ===== *)
(** * EngineAnswers: every command is answered

    What the messages of one step say about the command that caused them: an order
    command gets a report with its disposition, a mass cancel one report per order it
    removed, a snapshot request its snapshot, a kill-switch command nothing, and every
    command that may change the book ends with the top of the book. *)

From S2P Require Import Prelude BTree Domain PriceLevel Book BookSpec BookInv BookMatch BookOps Messages Ids Risk Engine EngineInv EngineFills EngineOrders EngineStep EngineRun EngineBounds Bytes Framing WireInbound WireOutbound MarketData EngineFeed.

(** A report on order [oid] of account [aid] in one of [states]. *)
Definition reports (oid : OrderId) (aid : AccountId) (states : list ExecState) (m : Outbound) : Prop :=
  match m with
  | Out_ExecReport r => er_order_id r = oid ∧ er_account_id r = aid ∧ er_state r ∈ states
  | _ => False
  end.

Definition is_top (m : Outbound) : Prop := match m with Out_BookUpdateTop _ => True | _ => False end.

(** The report of an order that a mass cancel removed. *)
Definition mass_cancelled_report (c : MassCancellation) (m : Outbound) : Prop :=
  match m with
  | Out_ExecReport r => er_order_id r = mc_order_id c ∧ er_account_id r = mc_account_id c ∧
      er_state r = Cancelled ∧ er_cancel_reason r = Some MassCancelReason
  | _ => False
  end.

Definition halted_report (a : AccountId) (m : Outbound) : Prop :=
  match m with
  | Out_ExecReport r => er_account_id r = a ∧ er_state r = Rejected ∧ er_reject_reason r = Some KillSwitched
  | _ => False
  end.

Section Answers.
Context {L C I Snk : Type} `{!PriceLevelOps L} `{!Clock C} `{!IdGenerator I} `{!OutboundSink Snk}.
Local Abbreviation Eng := (Engine L C I Snk).
Implicit Types (e : Eng).

(** A mass cancel in state [e]: one report per resting order of the account, in
    ascending id order, or one rejection when the kill switch is set; then book
    updates only. *)
Definition mass_answer e (a : AccountId) (outs : list Outbound) : Prop :=
  ∃ reps updates, outs = reps ++ updates ∧ Forall (λ m, is_book_update m = true) updates ∧
    if kill_switch (e_risk e) then ∃ m, reps = [m] ∧ halted_report a m
    else ∃ own, own ≡ₚ account_orders (e_book e) a ∧ StronglySorted Z.lt (mc_order_id <$> own) ∧
      Forall2 mass_cancelled_report own reps.

(** The messages a command taken in state [e] is answered with. *)
Definition answered e (m : Inbound) (outs : list Outbound) : Prop :=
  match m with
  | In_NewOrder n => Exists (reports (no_order_id n) (no_account_id n) [Accepted; Rejected; Cancelled; Filled]) outs
  | In_CancelOrder c => Exists (reports (co_order_id c) (co_account_id c) [Cancelled; Rejected]) outs
  | In_CancelReplace c => Exists (reports (cr_order_id c) (cr_account_id c) [Replaced; Rejected]) outs
  | In_MassCancel c => mass_answer e (mcl_account_id c) outs
  | In_KillSwitchSet _ => outs = []
  | In_SnapshotRequest s => ∃ r, outs = [Out_SnapshotResponse r] ∧ sp_request_id r = sr_request_id s
  end ∧ (emit_book_changes m = true → ∃ t, last outs = Some t ∧ is_top t).

(** A session from [e]: each command is answered in the state it finds. *)
Fixpoint answers_in e (msgs : list Inbound) (answers : list (list Outbound)) : Prop :=
  match msgs, answers with
  | [], [] => True
  | m :: msgs, outs :: answers => answered e m outs ∧ ∃ e', step e m = Ret e' ∧ answers_in e' msgs answers
  | _, _ => False
  end.

(** The engine's sink has received [outs] since it was [s0], and they satisfy [Q]. *)
Definition says (s0 : Snk) (Q : list Outbound → Prop) e : Prop :=
  ∃ outs, e_sink e = foldl emit s0 outs ∧ Q outs.

Lemma says_nil e (Q : list Outbound → Prop) : Q [] → says (e_sink e) Q e.
Proof. by exists []. Qed.

Lemma emit_with_says s0 Q e mk :
  says s0 (λ outs, ∀ s t, Q (outs ++ [mk s t])) e → owp (emit_with e mk) (says s0 Q).
Proof.
  intros (outs & Hs & HQ). unfold emit_with. destruct (next_engine_seq _) as [[s ids]| |]; [|done|done].
  cbn [outcome_bind]. destruct (now _) as [t c]. exists (outs ++ [mk s t]). simpl. by rewrite foldl_app, Hs.
Qed.

(** A message of the wanted kind. *)
Lemma emit_heard s0 Ψ e mk :
  says s0 (λ _, True) e → (∀ s t, Ψ (mk s t)) → owp (emit_with e mk) (says s0 (Exists Ψ)).
Proof.
  intros (outs & Hs & _) HΨ. apply emit_with_says. exists outs. split; [done|]. intros s t.
  apply Exists_app. right. by apply Exists_cons_hd.
Qed.

(** ** Properties that more messages do not spoil *)

Section Keep.
Context (s0 : Snk) (Q : list Outbound → Prop) (HQ : ∀ outs m, Q outs → Q (outs ++ [m])).
Local Abbreviation ok := (says s0 Q).

Lemma emit_keeps e mk : ok e → owp (emit_with e mk) ok.
Proof. intros (outs & Hs & Hq). apply emit_with_says. exists outs. auto. Qed.

Lemma settle_maker_keeps e f : ok e → ok (settle_maker e f).
Proof.
  intros H. unfold settle_maker. destruct (e_registry _ !! _); [|done]. by destruct (f_maker_fully_filled f).
Qed.

Lemma unregister_keeps e oid : ok e → ok (unregister e oid).
Proof. intros H. unfold unregister. by destruct (e_registry _ !! _). Qed.

Lemma emit_one_fill_keeps tid taid ts f e rem :
  ok e → owp (emit_one_fill tid taid ts f (e, rem)) (λ st, ok st.1).
Proof.
  intros H. unfold emit_one_fill. eapply owp_bind; [by apply emit_keeps|]. intros e1 H1.
  eapply owp_bind; [by apply emit_keeps|]. intros e2 H2.
  eapply owp_bind; [by apply emit_keeps|]. intros e3 H3. by apply settle_maker_keeps.
Qed.

Lemma emit_fills_loop_keeps tid taid ts fills st :
  ok st.1 → owp (emit_fills_loop tid taid ts fills st) (λ st, ok st.1).
Proof.
  revert st. induction fills as [|f fills IH]; intros [e rem] H; cbn [emit_fills_loop]; [done|].
  eapply owp_bind; [by apply emit_one_fill_keeps|]. auto.
Qed.

Lemma emit_fills_keeps e tid taid q ts : ok e → owp (emit_fills_for_taker e tid taid q ts) ok.
Proof.
  intros H. unfold emit_fills_for_taker. eapply owp_bind; [by apply emit_fills_loop_keeps|]. by intros [e' ?].
Qed.

Lemma emit_stp_keeps e ts : ok e → owp (emit_stp_cancels e ts) ok.
Proof.
  unfold emit_stp_cancels. generalize (e_stp_buf e) as stps. intros stps. revert e.
  induction stps as [|s stps IH]; intros e H; cbn [emit_stp_loop]; [done|].
  eapply owp_bind; [by apply emit_keeps|]. intros e1 H1. by apply IH, unregister_keeps.
Qed.

Lemma rest_replaced_keeps e msg old q ts : ok e → owp (rest_replaced e msg old q ts) ok.
Proof.
  intros H. unfold rest_replaced. destruct (on_order_resting _ _ _) as [r [u|reason]]; [done|]. by apply emit_keeps.
Qed.
End Keep.

(** The deltas of a step, and what they do not spoil. *)
Lemma emit_l2_deltas_keeps s0 (Q : list Outbound → Prop) e :
  (∀ outs d, Q outs → Q (outs ++ [Out_BookUpdateL2Delta d])) → says s0 Q e → owp (emit_l2_deltas e) (says s0 Q).
Proof.
  intros HQ H. unfold emit_l2_deltas. apply (owp_loop (λ x, says s0 Q x.1.1)); [|done].
  intros [[a i] j] Ha. simpl in Ha. unfold l2_round.
  assert (He : ∀ s p q i j, owp (let! e := emit_l2_delta a s p q in Ret (inl (e, i, j) : Eng * nat * nat + Eng))
    (λ r, match r with inl x => says s0 Q x.1.1 | inr v => says s0 Q v end)).
  { intros. destruct Ha as (outs & Hs & Hq). eapply owp_bind; [|by intros a' Ha'; exact Ha'].
    apply emit_with_says. exists outs. auto. }
  destruct (negb _); [done|]. destruct (_ !! i) as [[[ps pp] pq]|], (_ !! j) as [[[qs qp] qq]|]; try done.
  destruct (level_key_eq _ _ _ _); [|by destruct (level_key_lt _ _ _ _)]. by destruct (pq =? qq).
Qed.

Lemma Exists_snoc {A} (Ψ : A → Prop) outs m : Exists Ψ outs → Exists Ψ (outs ++ [m]).
Proof. intros H. apply Exists_app. by left. Qed.

Lemma says_any s0 Q e : says s0 Q e → says s0 (λ _, True) e.
Proof. intros (outs & Hs & _). by exists outs. Qed.

(** ** A taker filled completely is reported so *)

Lemma emit_one_fill_left s0 tid taid ts f e rem :
  says s0 (λ _, True) e →
  owp (emit_one_fill tid taid ts f (e, rem)) (λ st, says s0 (λ _, True) st.1 ∧ st.2 = saturating_sub rem (f_qty f)).
Proof.
  intros H. pose proof (emit_one_fill_keeps s0 (λ _, True) ltac:(done) tid taid ts f e rem H) as Hk.
  unfold emit_one_fill in *. revert Hk.
  destruct (emit_trade_print_for_fill e f _) as [e1| |]; [|done|done]. cbn [outcome_bind].
  destruct (emit_exec_report_fill e1 _ _ _ _ _ _ _) as [e2| |]; [|done|done]. cbn [outcome_bind].
  destruct (emit_exec_report_fill e2 _ _ _ _ _ _ _) as [e3| |]; [|done|done]. done.
Qed.

Lemma emit_last_fill s0 tid taid ts f e :
  says s0 (λ _, True) e →
  owp (emit_one_fill tid taid ts f (e, f_qty f)) (λ st, says s0 (Exists (reports tid taid [Filled])) st.1).
Proof.
  intros H. unfold emit_one_fill.
  eapply owp_bind; [by apply (emit_keeps s0 (λ _, True))|]. intros e1 H1.
  eapply owp_bind; [by apply (emit_keeps s0 (λ _, True))|]. intros e2 H2.
  eapply owp_bind; [apply (emit_heard s0 (reports tid taid [Filled])); [done|]|].
  - intros s t. simpl. split_and!; [done..|]. unfold saturating_sub. rewrite Z.sub_diag. by constructor.
  - intros e3 H3. by apply settle_maker_keeps.
Qed.

Lemma emit_fills_loop_filled s0 tid taid ts fills e :
  says s0 (λ _, True) e → fills ≠ [] → Forall (λ f, 0 < f_qty f) fills →
  owp (emit_fills_loop tid taid ts fills (e, foldr Z.add 0 (f_qty <$> fills)))
    (λ st, says s0 (Exists (reports tid taid [Filled])) st.1).
Proof.
  intros H Hne Hpos. revert e H. induction Hpos as [|f fills Hf Hpos IH]; intros e H; [done|].
  csimpl. assert (Hnn : 0 <= foldr Z.add 0 (f_qty <$> fills)) by (clear -Hpos; induction Hpos; csimpl; lia).
  destruct fills as [|f' fills].
  - csimpl. rewrite Z.add_0_r. eapply owp_bind; [by apply emit_last_fill|]. done.
  - eapply owp_bind; [by apply emit_one_fill_left|]. intros [e1 rem] [H1 Hr]. cbn [fst snd] in Hr, H1.
    replace rem with (foldr Z.add 0 (f_qty <$> f' :: fills)).
    + by apply IH.
    + csimpl in *. rewrite Hr. unfold saturating_sub. lia.
Qed.

Lemma match_filled b taker (ids ids' : I) b' fills stp res `{!PriceLevelLaws L} :
  book_ok b → qty_ok (ao_qty taker) →
  match_post b taker ids [] [] (aggressive_spec b taker) b' ids' fills stp res →
  mr_taker_remaining res = None →
  fills ≠ [] ∧ Forall (λ f, 0 < f_qty f) fills ∧ foldr Z.add 0 (f_qty <$> fills) = ao_qty taker.
Proof.
  intros Hb Hq Hp Hr. rewrite (mp_remaining _ _ _ _ _ _ _ _ _ _ _ Hp) in Hr.
  destruct (mp_fills _ _ _ _ _ _ _ _ _ _ _ Hp) as (nf & Hnf & _ & _ & Hv). rewrite app_nil_l in Hnf. subst nf.
  destruct (Z.eqb_spec (qm_remaining (aggressive_spec b taker)) 0) as [H0|]; [|done].
  apply qty_ok_pos in Hq. unfold aggressive_spec in *.
  destruct (post_only_blocked b taker); simpl in *; [lia|].
  pose proof (side_queue_pos _ b (Side_opposite (ao_side taker)) Hb) as Hpos.
  pose proof (spec_match_fills_pos (ao_side taker) (ao_price taker) (ao_account_id taker) (ao_qty taker) _ ltac:(lia) Hpos) as Hf.
  destruct (spec_match_conserves (ao_side taker) (ao_price taker) (ao_account_id taker) (ao_qty taker) _ _
    ltac:(lia) Hpos eq_refl) as (Hsum & _). rewrite <-Hv, H0, Z.add_0_r in *.
  unfold fills_qty in Hsum. rewrite <-list_fmap_compose in Hsum. split_and!.
  - intros ->. simpl in Hsum. lia.
  - exact (proj1 (Forall_fmap _ _ _) Hf).
  - exact Hsum.
Qed.

(** ** The handlers *)

Definition order_answer (n : NewOrder) : list Outbound → Prop :=
  Exists (reports (no_order_id n) (no_account_id n) [Accepted; Rejected; Cancelled; Filled]).

(** Close the side condition of [emit_heard] on a literal report. *)
Ltac reported := let s := fresh in let t := fresh in
  intros s t; simpl; split_and!; [done..|]; set_solver.

Lemma rest_leftover_answers s0 e n p q ts :
  says s0 (λ _, True) e → owp (rest_leftover e n p q ts) (says s0 (order_answer n)).
Proof.
  intros H. unfold rest_leftover.
  destruct (on_order_resting _ _ _) as [r [u|reason]]; [|apply emit_heard; [done|reported]].
  destruct (add_resting _ _) as [b [u'|err]]; (apply emit_heard; [done|reported]).
Qed.

Lemma owp_conseq {A} (o : outcome A) (Q R : A → Prop) : owp o Q → (∀ a, Q a → R a) → owp o R.
Proof. destruct o; simpl; auto. Qed.

Lemma says_mono s0 (Q R : list Outbound → Prop) e : (∀ outs, Q outs → R outs) → says s0 Q e → says s0 R e.
Proof. intros HQ (outs & Hs & Hq). exists outs. auto. Qed.

Lemma match_owp `{!PriceLevelLaws L} `{!SnapshotSucceeds L} `{!IdGeneratorLaws I} e n :
  einv e → new_order_ok n → (order_total e <= id_cap (e_ids e))%nat →
  owp (match_aggressive (e_book e) (taker_of n) (e_ids e) [] []) (λ '(b', ids', fills, stp, res),
    match_post (e_book e) (taker_of n) (e_ids e) [] [] (aggressive_spec (e_book e) (taker_of n)) b' ids' fills stp res).
Proof.
  intros Hi Hn Hcap. apply wp_owp. eapply wp_conseq.
  - apply (match_aggressive_ok False (λ ids n, (n <= id_cap ids)%nat) next_trade_cap); [apply Hi|apply Hn|].
    unfold order_total in Hcap. rewrite (length_book_orders _ (no_side n)) in Hcap. simpl. lia.
  - by intros [[[[b' ids'] fills] stp] res] [Hp _].
Qed.

Lemma handle_new_order_answers `{!PriceLevelLaws L} `{!SnapshotSucceeds L} `{!IdGeneratorLaws I} e n ts :
  einv e → new_order_ok n → (order_total e <= id_cap (e_ids e))%nat →
  owp (handle_new_order e n ts) (says (e_sink e) (order_answer n)).
Proof.
  intros Hi Hn Hcap. pose proof (says_nil e (λ _, True) ltac:(done)) as H0. unfold handle_new_order.
  destruct (check_new_order _ _ _) as [u|reason]; [|apply emit_heard; [done|reported]].
  destruct (is_kill_switched _); [apply emit_heard; [done|reported]|]. fold (taker_of n).
  assert (Hq : qty_ok (ao_qty (taker_of n))) by apply Hn.
  eapply owp_bind; [by apply match_owp|].
  intros [[[[b' ids'] fills] stp] res] Hp.
  destruct (mr_taker_post_only_rejected res); [apply emit_heard; [done|reported]|].
  destruct (mr_taker_remaining res) as [rem|] eqn:Hr.
  - eapply owp_bind; [by apply (emit_fills_keeps (e_sink e) (λ _, True))|]. intros e1 H1.
    eapply owp_bind; [by apply (emit_stp_keeps (e_sink e) (λ _, True))|]. intros e2 H2.
    destruct (mr_taker_stp_cancelled res); [apply emit_heard; [done|reported]|].
    destruct (no_tif n), (no_price n); try by apply rest_leftover_answers.
    all: apply emit_heard; [done|reported].
  - destruct (match_filled _ _ _ _ _ _ _ _ (ei_book _ Hi) Hq Hp Hr) as (Hne & Hpos & Hsum).
    eapply owp_bind with (R := says (e_sink e) (order_answer n)).
    { unfold emit_fills_for_taker. eapply owp_bind.
      - simpl in Hsum. rewrite <-Hsum. by apply (emit_fills_loop_filled (e_sink e)).
      - intros [e1 r1] H1. eapply says_mono; [|exact H1]. intros outs Ho. eapply Exists_impl; [exact Ho|].
        intros [r| | | |]; simpl; try done. intros (? & ? & Hst). split_and!; [done..|set_solver]. }
    intros e1 H1. eapply owp_bind; [apply (emit_stp_keeps (e_sink e) (order_answer n)); [|done]|].
    { intros. by apply Exists_snoc. }
    intros e2 H2. destruct (mr_taker_stp_cancelled res); [|done]. apply emit_heard; [by eapply says_any|reported].
Qed.

Lemma handle_cancel_order_answers e c ts :
  owp (handle_cancel_order e c ts)
    (says (e_sink e) (Exists (reports (co_order_id c) (co_account_id c) [Cancelled; Rejected]))).
Proof.
  pose proof (says_nil e (λ _, True) ltac:(done)) as H0. unfold handle_cancel_order.
  destruct (check_cancel _ _); [|apply emit_heard; [done|reported]].
  destruct (is_kill_switched _); [apply emit_heard; [done|reported]|].
  destruct (from_option _ _ _); [apply emit_heard; [done|reported]|].
  destruct (cancel _ _) as [b [u|err]]; (apply emit_heard; [|reported]); [by apply unregister_keeps|done].
Qed.

Lemma handle_cancel_replace_answers e c ts :
  owp (handle_cancel_replace e c ts)
    (says (e_sink e) (Exists (reports (cr_order_id c) (cr_account_id c) [Replaced; Rejected]))).
Proof.
  pose proof (says_nil e (λ _, True) ltac:(done)) as H0. unfold handle_cancel_replace.
  destruct (check_cancel_replace _ _); [|apply emit_heard; [done|reported]].
  destruct (is_kill_switched _); [apply emit_heard; [done|reported]|].
  destruct (from_option _ _ _); [apply emit_heard; [done|reported]|].
  destruct (replace _ _ _ _ _ _ _) as [[[[[b ids] fills] stp] [rp|err]]| |]; [|apply emit_heard; [done|reported]|done|done].
  cbn [outcome_bind]. destruct (from_option _ _ _); [apply emit_heard; [done|reported]|]. unfold commit_replace.
  pose proof (λ outs m, Exists_snoc (reports (cr_order_id c) (cr_account_id c) [Replaced; Rejected]) outs m) as Hk.
  set (Ψ := reports (cr_order_id c) (cr_account_id c) [Replaced; Rejected]) in *.
  eapply owp_bind; [apply (emit_heard (e_sink e) Ψ); [by destruct (e_registry _ !! _)|unfold Ψ; reported]|]. intros e1 H1.
  eapply owp_bind; [by apply (emit_fills_keeps (e_sink e) _ Hk)|]. intros e2 H2.
  eapply owp_bind; [by apply (emit_stp_keeps (e_sink e) _ Hk)|]. intros e3 H3.
  destruct (match rp_match_result rp with Some r => _ | None => _ end) as [[] [q|]]; [by apply emit_keeps..| |done].
  by apply rest_replaced_keeps.
Qed.

Lemma mass_cancel_loop_reports s0 ts mcs e seen reps :
  says s0 (λ outs, outs = reps ∧ Forall2 mass_cancelled_report seen reps) e →
  owp (mass_cancel_loop ts mcs e) (says s0 (Forall2 mass_cancelled_report (seen ++ mcs))).
Proof.
  revert e seen reps. induction mcs as [|mc mcs IH]; intros e seen reps H; cbn [mass_cancel_loop].
  { destruct H as (outs & Hs & -> & Hf). exists reps. by rewrite app_nil_r. }
  eapply owp_bind with (R := says s0 (Forall2 mass_cancelled_report (seen ++ [mc]))).
  - apply emit_with_says. apply (unregister_keeps s0 _ e (mc_order_id mc)) in H as (outs & Hs & -> & Hf).
    exists reps. split; [done|]. intros s t. apply Forall2_app; [done|]. by repeat constructor.
  - intros e1 (outs & Hs & Hf). rewrite (cons_middle mc seen mcs), app_assoc. apply (IH e1 _ outs). by exists outs.
Qed.

Lemma mass_answer_snoc e a outs m : is_book_update m = true → mass_answer e a outs → mass_answer e a (outs ++ [m]).
Proof.
  intros Hm (reps & upd & -> & Hu & Hr). exists reps, (upd ++ [m]). rewrite app_assoc. split_and!; [done| |done].
  apply Forall_app. split; [done|by constructor].
Qed.

(** What the handler says before the book updates. *)
Lemma handle_mass_cancel_answers `{!PriceLevelLaws L} `{!SnapshotSucceeds L} e c ts :
  book_ok (e_book e) →
  owp (handle_mass_cancel e c ts) (says (e_sink e) (mass_answer e (mcl_account_id c))).
Proof.
  intros Hb. assert (Hrej : kill_switch (e_risk e) = true →
    owp (emit_rejected_mass e (mcl_account_id c) KillSwitched ts) (says (e_sink e) (mass_answer e (mcl_account_id c)))).
  { intros Hk. unfold emit_rejected_mass. apply emit_with_says. exists []. split; [done|]. intros s t.
    eexists _, []. rewrite app_nil_r, Hk. split_and!; [done|done|]. eexists. by split. }
  unfold handle_mass_cancel, check_mass_cancel, is_kill_switched. destruct (kill_switch (e_risk e)) eqn:Hk; [by apply Hrej|].
  pose proof (mass_cancel_ok (e_book e) (mcl_account_id c) [] Hb) as Hmp.
  destruct (mass_cancel _ _ _) as [[b out] k]. destruct (mcp_out _ _ _ _ _ _ Hmp) as (new & -> & _ & Hnew & Hsort).
  eapply owp_conseq; [apply (mass_cancel_loop_reports (e_sink e) ts _ _ [] []); by exists []|].
  intros e' H. eapply says_mono; [|exact H]. intros outs Ho. exists outs, []. rewrite app_nil_r, Hk.
  split_and!; [done|done|]. by exists new.
Qed.

(** ** One step *)

Lemma step_answers `{!PriceLevelLaws L} `{!SnapshotSucceeds L} `{!IdGeneratorLaws I} e m :
  einv e → inbound_ok m → (order_total e <= id_cap (e_ids e))%nat →
  owp (step e m) (says (e_sink e) (answered e m)).
Proof.
  intros Hi Hm Hcap. unfold step. destruct (now (e_clock e)) as [ts c].
  set (e0 := set_pre_step_levels (set_clock e c) (capture_levels (e_book e))).
  assert (Hi0 : einv e0) by by destruct Hi.
  (* a command that may change the book: its answer is kept, and the top comes last *)
  assert (Hbook : ∀ (Q : list Outbound → Prop), (∀ outs d, Q outs → Q (outs ++ [Out_BookUpdateL2Delta d])) →
    (∀ outs t, Q outs → is_top t → answered e m (outs ++ [t])) →
    ∀ o : outcome Eng, owp o (says (e_sink e) Q) →
    owp (let! e := o in let! e := emit_l2_deltas (set_post_step_levels e (capture_levels (e_book e))) in
         emit_book_update_top e) (says (e_sink e) (answered e m))).
  { intros Q HQ Hans o Ho. eapply owp_bind; [exact Ho|]. intros e1 H1.
    eapply owp_bind; [by apply (emit_l2_deltas_keeps (e_sink e) Q)|]. intros e2 (outs & Hs & Hq).
    apply emit_with_says. exists outs. split; [done|]. intros s t. by apply Hans. }
  assert (Htop : ∀ outs t, is_top t → ∃ t', last (outs ++ [t]) = Some t' ∧ is_top t').
  { intros outs t Ht. exists t. by rewrite last_snoc. }
  destruct m as [n|k|r|mc|ks|sr]; cbn [emit_book_changes handle].
  - apply (Hbook (order_answer n)); [intros; by apply Exists_snoc|intros; split; [by apply Exists_snoc|auto]|].
    by apply (handle_new_order_answers e0).
  - eapply Hbook; [| |apply (handle_cancel_order_answers e0)];
      intros; [by apply Exists_snoc|split; [by apply Exists_snoc|auto]].
  - eapply Hbook; [| |apply (handle_cancel_replace_answers e0)];
      intros; [by apply Exists_snoc|split; [by apply Exists_snoc|auto]].
  - apply (Hbook (mass_answer e0 (mcl_account_id mc))); [| |by apply (handle_mass_cancel_answers e0), Hi0].
    + intros outs d. by apply mass_answer_snoc.
    + intros outs t Hans Ht. split; [|auto]. by apply (mass_answer_snoc e0); [destruct t|].
  - by exists [].
  - apply emit_with_says. exists []. split; [done|]. intros s t. split; [eexists; by split|done].
Qed.

End Answers.

(** ** A whole session *)

Lemma run_answers {L C I} `{!PriceLevelOps L} `{!PriceLevelLaws L} `{!SnapshotSucceeds L} `{!Clock C} `{!ClockWidth C}
    `{!IdGenerator I} `{!IdGeneratorLaws I} `{!IdWidth I} k (e : Engine L C I VecSink) msgs :
  live k e → Forall command_ok msgs → 0 <= k → k + Z.of_nat (length msgs) <= MAX_SESSION →
  wp False (run e msgs) (λ e', ∃ answers, events (e_sink e') = events (e_sink e) ++ List.concat answers ∧
    answers_in e msgs answers).
Proof.
  intros Hl Hok. revert k e Hl. induction Hok as [|m msgs Hm Hok IH]; intros k e Hl Hk Hlen; cbn [run].
  { exists []. by rewrite app_nil_r. }
  simpl in Hlen. apply wp_bind.
  assert (Hans : owp (step e m) (says (e_sink e) (answered e m))).
  { apply step_answers; [by eapply live_inv|apply Hm|]. pose proof (lv_cap _ _ Hl) as Hc.
    pose proof (sz_total _ _ (lv_sized _ _ Hl)) as Ht. unfold STEP_IDS in Hc. nia. }
  pose proof (owp_wp _ _ _ (step_live k e m Hl ltac:(lia) Hm) Hans) as Hw.
  destruct (step e m) as [e1| |] eqn:He; [|done|done]. destruct Hw as [Hl1 (outs & Hs & Ha)]. rewrite VecSink_emit_all in Hs.
  apply wp_ret. eapply wp_conseq; [apply (IH (k + 1)); [done|lia|lia]|]. intros e2 (answers & Hev & Hall).
  exists (outs :: answers). split; [rewrite Hev, Hs; csimpl; by rewrite app_assoc|]. split; [done|]. by exists e1.
Qed.
