(* ===== verification/EngineFaults.v ===== *)
(** * EngineFaults: two behaviours the documentation does not announce

    The removal hook of the risk layer runs on every fill, so a partial fill lowers the
    open-order counter of an account whose order keeps resting; and the id of a new
    order is looked up only when its remainder is to rest, so an order with an id in
    use trades first.  Both hold in every state of the engine, not only in examples. *)

From S2P Require Import Prelude BTree Domain PriceLevel Book BookSpec BookInv BookMatch BookOps Messages Ids Risk Engine EngineInv EngineFills EngineOrders EngineStep EngineL2 EngineRun EngineFeed EngineAnswers.

(** The reports on one order id, state and reject reason; and the trades. *)
Definition reports_on (id : OrderId) (outs : list Outbound) : list (ExecState * option RejectReason) :=
  omap (λ m, match m with
             | Out_ExecReport r => if er_order_id r =? id then Some (er_state r, er_reject_reason r) else None
             | _ => None
             end) outs.
Definition trades_in (outs : list Outbound) : list TradePrint :=
  omap (λ m, match m with Out_TradePrint t => Some t | _ => None end) outs.

Lemma acct_other r a n a' : a' ≠ a → acct (on_order_removed r a n) a' = acct r a'.
Proof.
  intros Hne. unfold acct, on_order_removed. destruct (per_account r !! a) as [ent|]; [|done].
  destruct (_ && _); simpl; by rewrite ?lookup_delete_ne, ?lookup_insert_ne.
Qed.

Lemma open_orders_removed r a n : 0 <= open_orders (acct r a) →
  open_orders (acct (on_order_removed r a n) a) = Z.max 0 (open_orders (acct r a) - 1).
Proof.
  unfold acct, on_order_removed, saturating_sub. destruct (per_account r !! a) as [ent|] eqn:Ha; simpl.
  - intros Ho. destruct (Z.eqb_spec (Z.max 0 (open_orders ent - 1)) 0) as [E1|];
      [destruct (Z.eqb_spec (Z.max 0 (notional ent - n)) 0)|]; simpl;
      rewrite ?lookup_delete_eq, ?lookup_insert_eq; simpl; lia.
  - rewrite Ha. simpl. lia.
Qed.

(** What matching against makers that are all consumed leaves. *)
Lemma spec_match_consumes side limit account r makers tail :
  Forall (λ q, 0 < q_qty q) makers → Forall (tradable side limit account) makers → queue_qty makers < r →
  (∀ q, head tail = Some q → crosses side limit (q_price q) = false) →
  spec_match side limit account r (makers ++ tail) =
    mkQMatch ((λ q, mkQFill (q_id q) (q_price q) (q_qty q) true) <$> makers) None (r - queue_qty makers) tail.
Proof.
  intros Hpos. revert r. induction Hpos as [|x makers Hx Hpos IH]; intros r Hall Hlt Htail.
  - unfold queue_qty. csimpl. rewrite Z.sub_0_r. destruct tail as [|q tail]; [done|]. simpl.
    by rewrite (Htail q eq_refl), orb_true_r.
  - apply Forall_cons in Hall as [[Hxa Hxc] Hall]. unfold queue_qty in *. csimpl in *.
    assert (0 <= foldr Z.add 0 (q_qty <$> makers)) by (clear -Hpos; induction Hpos; csimpl; lia).
    rewrite Hxc, (proj2 (Z.eqb_neq r 0)) by lia. simpl. rewrite (proj2 (Z.eqb_neq _ _) Hxa), (proj2 (Z.leb_le _ _)) by lia.
    rewrite IH by (done || lia). unfold prepend_fill. simpl. f_equal. lia.
Qed.

Section Faults.
Context {L C I Snk : Type} `{!PriceLevelOps L} `{!PriceLevelLaws L} `{!SnapshotSucceeds L}
  `{!Clock C} `{!IdGenerator I} `{!IdGeneratorLaws I} `{!OutboundSink Snk}.
Local Abbreviation Eng := (Engine L C I Snk).
Implicit Types (e : Eng).

Lemma emit_same_core e mk : owp (emit_with e mk) (same_core e).
Proof.
  unfold emit_with. destruct (next_engine_seq _) as [[s ids]| |]; [|done|done]. cbn [outcome_bind].
  destruct (now _) as [t c]. by split.
Qed.

Lemma emit_says_core s0 Q e mk :
  says s0 (λ outs, ∀ s t, Q (outs ++ [mk s t])) e → owp (emit_with e mk) (λ e', says s0 Q e' ∧ same_core e e').
Proof.
  intros H. pose proof (emit_with_says s0 Q e mk H) as H1. pose proof (emit_same_core e mk) as H2.
  destruct (emit_with e mk); [by split|done|done].
Qed.

(** The best opposite price the handler passes to the gate. *)
Definition best_opposite e (n : NewOrder) : option Price :=
  match no_side n with Bid => best_ask (e_book e) | Ask => best_bid (e_book e) end.

Lemma accepted_not_halted e n :
  check_new_order (e_risk e) n (best_opposite e n) = Ok tt → is_kill_switched (e_risk e) = false.
Proof. unfold check_new_order, is_kill_switched. by destruct (kill_switch _). Qed.

Lemma resting_registered e s q :
  einv e → q ∈ side_queue (e_book e) s → e_registry e !! q_id q = Some (entry_of (s, q)).
Proof.
  intros Hi Hq. apply (mi_reg _ _ _ (ei_mirror _ Hi)). exists (s, q). split_and!; [by apply elem_of_book_orders|done..].
Qed.

(** ** Partial fills *)

Lemma partial_fill_settled e n q tail ts :
  einv e → new_order_ok n → (order_total e <= id_cap (e_ids e))%nat →
  check_new_order (e_risk e) n (best_opposite e n) = Ok tt → no_tif n ≠ PostOnly →
  side_queue (e_book e) (Side_opposite (no_side n)) = q :: tail →
  tradable (no_side n) (no_price n) (no_account_id n) q → no_qty n < q_qty q →
  owp (handle_new_order e n ts) (λ e',
    side_queue (e_book e') (Side_opposite (no_side n)) = q_with_qty q (q_qty q - no_qty n) :: tail ∧
    side_queue (e_book e') (no_side n) = side_queue (e_book e) (no_side n) ∧
    open_orders (acct (e_risk e') (q_account q)) = Z.max 0 (open_orders (acct (e_risk e) (q_account q)) - 1)).
Proof.
  intros Hi Hn Hcap Hchk Htif Hqu [Ha Hcr] Hlt. unfold handle_new_order. fold (best_opposite e n). rewrite Hchk.
  rewrite (accepted_not_halted e n Hchk). fold (taker_of n). eapply owp_bind; [by apply match_owp|].
  intros [[[[b' ids'] fills] stp] res] Hp. pose proof (proj1 (proj2 (proj2 Hn))) as Hqty. apply qty_ok_pos in Hqty.
  assert (Hspec : aggressive_spec (e_book e) (taker_of n) = mkQMatch [mkQFill (q_id q) (q_price q) (no_qty n) false] None 0
    (q_with_qty q (q_qty q - no_qty n) :: tail)).
  { unfold aggressive_spec, post_only_blocked. simpl. rewrite bool_decide_false by done. simpl. rewrite Hqu. simpl.
    rewrite Hcr, (proj2 (Z.eqb_neq _ 0)) by lia. simpl. rewrite (proj2 (Z.eqb_neq _ _) Ha), (proj2 (Z.leb_gt _ _)) by lia. done. }
  rewrite Hspec in Hp. rewrite (mp_post_only _ _ _ _ _ _ _ _ _ _ _ Hp). unfold post_only_blocked. simpl ao_tif.
  rewrite bool_decide_false by done. cbn [andb]. destruct (mp_fills _ _ _ _ _ _ _ _ _ _ _ Hp) as (nf & Hnf & _ & _ & Hv).
  rewrite app_nil_l in Hnf. subst nf. destruct fills as [|f [|? ?]]; try done. injection Hv as Hf1 Hf2 Hf3 Hf4.
  pose proof (mp_stp _ _ _ _ _ _ _ _ _ _ _ Hp) as Hstp. simpl in Hstp. subst stp.
  set (e1 := set_match e b' ids' [f] []).
  eapply owp_bind with (R := λ e2, e_book e2 = b' ∧ e_stp_buf e2 = [] ∧
    open_orders (acct (e_risk e2) (q_account q)) = Z.max 0 (open_orders (acct (e_risk e) (q_account q)) - 1)).
  - unfold emit_fills_for_taker. cbn [e1 set_match e_fills_buf emit_fills_loop].
    eapply owp_bind with (R := λ st, e_book st.1 = b' ∧ e_stp_buf st.1 = [] ∧
      open_orders (acct (e_risk st.1) (q_account q)) = Z.max 0 (open_orders (acct (e_risk e) (q_account q)) - 1)).
    2: { intros [e2 r] H2. cbn [outcome_bind]. exact H2. }
    eapply owp_bind with (R := λ st, e_book st.1 = b' ∧ e_stp_buf st.1 = [] ∧
      open_orders (acct (e_risk st.1) (q_account q)) = Z.max 0 (open_orders (acct (e_risk e) (q_account q)) - 1)); [|done].
    unfold emit_one_fill. eapply owp_bind; [apply emit_same_core|]. intros e2 C2.
    eapply owp_bind; [apply emit_same_core|]. intros e3 C3. eapply owp_bind; [apply emit_same_core|]. intros e4 C4.
    pose proof (same_core_trans _ _ _ C2 (same_core_trans _ _ _ C3 C4)) as [Hb Hr Hreg _ Hs _ _ _]. simpl in *.
    pose proof (resting_registered e (Side_opposite (no_side n)) q Hi ltac:(rewrite Hqu; set_solver)) as Hin.
    unfold settle_maker. cbn [e_registry set_risk]. rewrite Hf1, Hreg, Hin, Hf4. cbn. rewrite Hb, Hs, Hr.
    split_and!; [done..|]. rewrite open_orders_removed; [done|]. apply (mi_open _ _ _ (ei_mirror _ Hi)).
  - intros e2 (Hb2 & Hs2 & Ho2). unfold emit_stp_cancels. rewrite Hs2. cbn [emit_stp_loop outcome_bind].
    rewrite (mp_flag _ _ _ _ _ _ _ _ _ _ _ Hp), (mp_remaining _ _ _ _ _ _ _ _ _ _ _ Hp). simpl. rewrite Hb2.
    split_and!; [apply (mp_rest _ _ _ _ _ _ _ _ _ _ _ Hp)|apply (mp_same _ _ _ _ _ _ _ _ _ _ _ Hp)|done].
Qed.

(** ** An id in use *)

(** The invariant of the fill loop: the registry only shrinks, the risk of the taker's
    account is untouched, and each fill was one trade and one partial fill of the taker. *)
Record dup_inv e0 (id : OrderId) (a : AccountId) (b : Book L) (k : nat) e : Prop := {
  di_book : e_book e = b;
  di_stp : e_stp_buf e = [];
  di_reg : e_registry e ⊆ e_registry e0;
  di_acct : acct (e_risk e) a = acct (e_risk e0) a;
  di_says : says (e_sink e0) (λ outs, length (trades_in outs) = k ∧
    reports_on id outs = replicate k (PartiallyFilled, None)) e;
}.

Lemma settle_full e f :
  f_maker_fully_filled f = true →
  e_book (settle_maker e f) = e_book e ∧ e_stp_buf (settle_maker e f) = e_stp_buf e ∧
  e_registry (settle_maker e f) ⊆ e_registry e ∧
  ∀ a, from_option re_account_id (a + 1) (e_registry e !! f_maker_order_id f) ≠ a →
    acct (e_risk (settle_maker e f)) a = acct (e_risk e) a.
Proof.
  intros Hf. unfold settle_maker. cbn [e_registry set_risk].
  destruct (e_registry e !! f_maker_order_id f) as [ent|] eqn:Hr; [|by split_and!]. rewrite Hf. simpl.
  split_and!; [done..|apply delete_subseteq|]. intros a Ha. by rewrite acct_other.
Qed.

Lemma emit_one_fill_dup e0 id a b k ts f q e rem :
  f_maker_fully_filled f = true → f_maker_order_id f = q_id q → q_id q ≠ id → f_qty f < rem →
  (∀ ent, e_registry e0 !! q_id q = Some ent → re_account_id ent ≠ a) →
  dup_inv e0 id a b k e →
  owp (emit_one_fill id a ts f (e, rem)) (λ st, dup_inv e0 id a b (S k) st.1 ∧ st.2 = rem - f_qty f).
Proof.
  intros Hfull Hmk Hne Hlt Hent [Hb Hs Hreg Hac (outs & Hout & Htr & Hrep)]. unfold emit_one_fill.
  assert (Hrem : saturating_sub rem (f_qty f) = rem - f_qty f) by (unfold saturating_sub; lia).
  rewrite Hrem. rewrite (proj2 (Z.eqb_neq (rem - f_qty f) 0)) by lia. rewrite Hfull.
  assert (H0 : says (e_sink e0) (λ o, o = outs) e) by by exists outs.
  eapply owp_bind; [apply (emit_says_core (e_sink e0) (λ o, length (trades_in o) = S k ∧ reports_on id o = replicate k (PartiallyFilled, None)))|].
  { destruct H0 as (o & Ho & ->). exists outs. split; [done|]. intros s t. unfold trades_in, reports_on in *.
    rewrite !omap_app, length_app, Htr, Hrep. csimpl. rewrite app_nil_r. split; [lia|done]. }
  intros e2 [H2 C2]. eapply owp_bind; [apply (emit_says_core (e_sink e0) (λ o, length (trades_in o) = S k ∧ reports_on id o = replicate k (PartiallyFilled, None)))|].
  { destruct H2 as (o & Ho & Ht & Hr). exists o. split; [done|]. intros s t. unfold trades_in, reports_on in *.
    rewrite !omap_app, length_app, Ht, Hr. csimpl. rewrite Hmk, (proj2 (Z.eqb_neq _ _) Hne). csimpl. rewrite app_nil_r. split; [lia|done]. }
  intros e3 [H3 C3]. eapply owp_bind; [apply (emit_says_core (e_sink e0) (λ o, length (trades_in o) = S k ∧ reports_on id o = replicate (S k) (PartiallyFilled, None)))|].
  { destruct H3 as (o & Ho & Ht & Hr). exists o. split; [done|]. intros s t. unfold trades_in, reports_on in *.
    rewrite !omap_app, length_app, Ht, Hr. csimpl. rewrite Z.eqb_refl. csimpl. split; [lia|]. by rewrite <-replicate_S_end. }
  intros e4 [H4 C4]. pose proof (same_core_trans _ _ _ C2 (same_core_trans _ _ _ C3 C4)) as [Hb4 Hr4 Hreg4 _ Hs4 _ _ _].
  destruct (settle_full e4 f Hfull) as (Hsb & Hss & Hsr & Hsa). split; [|done]. cbn [fst]. split.
  - by rewrite Hsb, Hb4.
  - by rewrite Hss, Hs4.
  - etrans; [exact Hsr|]. by rewrite Hreg4.
  - rewrite Hsa, Hr4; [done|]. rewrite Hmk, Hreg4. destruct (e_registry e !! q_id q) as [ent|] eqn:E; simpl; [|lia].
    apply Hent. by eapply lookup_weaken.
  - by apply settle_maker_keeps.
Qed.

Lemma emit_fills_dup e0 id a b ts makers fills k e rem :
  fill_view <$> fills = (λ q, mkQFill (q_id q) (q_price q) (q_qty q) true) <$> makers →
  Forall (λ q, 0 < q_qty q) makers → queue_qty makers < rem → id ∉ q_id <$> makers →
  (∀ q ent, q ∈ makers → e_registry e0 !! q_id q = Some ent → re_account_id ent ≠ a) →
  dup_inv e0 id a b k e →
  owp (emit_fills_loop id a ts fills (e, rem)) (λ st, dup_inv e0 id a b (k + length makers) st.1).
Proof.
  intros Hv Hpos. revert fills k e rem Hv. induction Hpos as [|q makers Hq Hpos IH]; intros [|f fills] k e rem Hv Hlt Hid Hent H;
    try done; cbn [emit_fills_loop]; [by rewrite Nat.add_0_r|].
  csimpl in Hv. injection Hv as Hm _ Hfq Hfull Hv. unfold queue_qty in Hlt. csimpl in *.
  assert (0 <= foldr Z.add 0 (q_qty <$> makers)) by (clear -Hpos; induction Hpos; csimpl; lia).
  apply not_elem_of_cons in Hid as [Hid1 Hid2].
  eapply owp_bind; [apply (emit_one_fill_dup e0 id a b k ts f q); try done; [lia|]|].
  { intros ent. apply Hent. set_solver. }
  intros [e1 rem1] [H1 Hr]. cbn [fst snd] in H1, Hr. rewrite Nat.add_succ_r, <-Nat.add_succ_l.
  apply IH; try done; [unfold queue_qty; lia|]. intros q' ent Hin. apply Hent. set_solver.
Qed.

(** The gate let the whole order in, so its remainder passes the account limits. *)
Lemma remainder_within_limits r n p rem best r' :
  check_new_order r n best = Ok tt → no_order_type n = Limit → no_price n = Some p → price_ok p →
  qty_ok (no_qty n) → qty_ok rem → rem <= no_qty n → acct r' (no_account_id n) = acct r (no_account_id n) →
  ∃ r'', on_order_resting r' (no_account_id n) (notional_of p rem) = (r'', Ok tt).
Proof.
  intros Hchk Hty Hp Hpok Hq Hrem Hle Ha. unfold check_new_order in Hchk. destruct (kill_switch r); [done|].
  rewrite Hty, Hp in Hchk. cbn [ok_or result_bind] in Hchk. destruct (check_price_band p _); [|done]. cbn [result_bind] in Hchk.
  unfold check_account_limits, on_order_resting in *. fold (acct r (no_account_id n)) in Hchk.
  fold (acct r' (no_account_id n)). rewrite Ha. rewrite !notional_of_exact in * by done.
  unfold checked_add in *. case_decide; [|done]. cbn [ok_or result_bind] in Hchk.
  destruct (_ <? _) eqn:E1; [done|]. case_decide; [|done]. cbn [ok_or result_bind] in Hchk.
  destruct (Z.ltb_spec MAX_NOTIONAL_PER_ACCT (notional (acct r (no_account_id n)) + p * no_qty n)); [done|].
  apply price_ok_pos in Hpok. apply qty_ok_pos in Hq, Hrem. assert (p * rem <= p * no_qty n) by nia.
  rewrite decide_True by lia. rewrite (proj2 (Z.ltb_ge _ _)) by lia. eauto.
Qed.

(** Matching leaves the order with the id where it is, when it is none of the makers. *)
Lemma id_still_indexed (b b' : Book L) s makers tail id :
  book_ok b → book_ok b' → is_Some (index b !! id) → id ∉ q_id <$> makers →
  side_queue b (Side_opposite s) = makers ++ tail → side_queue b' (Side_opposite s) = tail →
  side_queue b' s = side_queue b s → is_Some (index b' !! id).
Proof.
  intros Hok Hok' [m Hm] Hid Hqu Hrest Hsame. destruct (index_side_queue _ _ _ _ Hok Hm) as (q & Hqin & Hqid & _).
  assert (Hq' : q ∈ side_queue b' (om_side m)).
  { destruct (decide (om_side m = s)) as [Heq|Hne]; [by rewrite Heq in *; rewrite Hsame|].
    assert (om_side m = Side_opposite s) as Ho by (by destruct (om_side m), s).
    rewrite Ho in *. rewrite Hrest. rewrite Hqu in Hqin. apply elem_of_app in Hqin as [Hin|]; [|done].
    exfalso. apply Hid. rewrite <-Hqid. by apply list_elem_of_fmap_2. }
  destruct (side_queue_index _ _ _ _ Hok' Hq') as (m' & Hm' & _). rewrite <-Hqid. eauto.
Qed.

Lemma duplicate_id_matched e n p makers tail ts :
  einv e → new_order_ok n → (order_total e <= id_cap (e_ids e))%nat →
  check_new_order (e_risk e) n (best_opposite e n) = Ok tt → no_tif n = Gtc → no_price n = Some p →
  is_Some (index (e_book e) !! no_order_id n) → no_order_id n ∉ q_id <$> makers →
  side_queue (e_book e) (Side_opposite (no_side n)) = makers ++ tail →
  Forall (tradable (no_side n) (no_price n) (no_account_id n)) makers → queue_qty makers < no_qty n →
  (∀ q, head tail = Some q → crosses (no_side n) (no_price n) (q_price q) = false) →
  owp (handle_new_order e n ts) (λ e',
    side_queue (e_book e') (Side_opposite (no_side n)) = tail ∧
    side_queue (e_book e') (no_side n) = side_queue (e_book e) (no_side n) ∧
    says (e_sink e) (λ outs, length (trades_in outs) = length makers ∧ reports_on (no_order_id n) outs =
      replicate (length makers) (PartiallyFilled, None) ++ [(Rejected, Some DuplicateOrderIdReason)]) e').
Proof.
  intros Hi Hn Hcap Hchk Htif Hpr Hidx Hid Hqu Hall Hlt Htail. unfold handle_new_order. fold (best_opposite e n). rewrite Hchk.
  rewrite (accepted_not_halted e n Hchk). fold (taker_of n). eapply owp_bind; [by apply match_owp|].
  intros [[[[b' ids'] fills] stp] res] Hp. pose proof (side_queue_pos _ _ (Side_opposite (no_side n)) (ei_book _ Hi)) as Hpos.
  rewrite Hqu in Hpos. apply Forall_app in Hpos as [Hpos _].
  assert (Hspec : aggressive_spec (e_book e) (taker_of n) =
    mkQMatch ((λ q, mkQFill (q_id q) (q_price q) (q_qty q) true) <$> makers) None (no_qty n - queue_qty makers) tail).
  { unfold aggressive_spec, post_only_blocked. simpl. rewrite Htif. simpl. rewrite Hqu. by apply spec_match_consumes. }
  rewrite Hspec in Hp. rewrite (mp_post_only _ _ _ _ _ _ _ _ _ _ _ Hp). unfold post_only_blocked. simpl ao_tif. rewrite Htif.
  cbn [bool_decide decide decide_rel]. destruct (mp_fills _ _ _ _ _ _ _ _ _ _ _ Hp) as (nf & Hnf & _ & _ & Hv).
  rewrite app_nil_l in Hnf. subst nf. pose proof (mp_stp _ _ _ _ _ _ _ _ _ _ _ Hp) as Hstp. simpl in Hstp. subst stp.
  pose proof (mp_rest _ _ _ _ _ _ _ _ _ _ _ Hp) as Hrest. pose proof (mp_same _ _ _ _ _ _ _ _ _ _ _ Hp) as Hsame.
  simpl in Hrest, Hsame.
  eapply owp_bind with (R := dup_inv e (no_order_id n) (no_account_id n) b' (length makers)).
  - unfold emit_fills_for_taker. eapply owp_bind with
      (R := λ st, dup_inv e (no_order_id n) (no_account_id n) b' (0 + length makers) st.1); [|by intros [e1 r1]].
    apply (emit_fills_dup e (no_order_id n) (no_account_id n) b' ts makers fills 0); try done.
    + intros q ent Hin Hent.
      rewrite (resting_registered e (Side_opposite (no_side n)) q Hi ltac:(rewrite Hqu; set_solver)) in Hent. injection Hent as <-. rewrite Forall_forall in Hall. by apply (Hall q Hin).
    + split; try done. by exists [].
  - intros e2 [Hb2 Hs2 _ Ha2 Hsays]. unfold emit_stp_cancels. rewrite Hs2. cbn [emit_stp_loop outcome_bind].
    rewrite (mp_flag _ _ _ _ _ _ _ _ _ _ _ Hp), (mp_remaining _ _ _ _ _ _ _ _ _ _ _ Hp). cbn [qm_stp qm_remaining].
    rewrite (bool_decide_false (is_Some None)) by by intros []. rewrite (proj2 (Z.eqb_neq _ 0)) by lia. rewrite Hpr.
    destruct Hn as (_ & _ & Hq & Hty). assert (Hlim : no_order_type n = Limit ∧ price_ok p).
    { destruct (no_order_type n); [|by rewrite Hpr in Hty]. destruct Hty as (p' & Hp' & ?). rewrite Hpr in Hp'. by injection Hp' as <-. }
    pose proof (queue_qty_nonneg makers Hpos) as Hnn.
    assert (Hrem : qty_ok (no_qty n - queue_qty makers)) by (rewrite qty_ok_pos in *; lia).
    destruct (remainder_within_limits (e_risk e) n p (no_qty n - queue_qty makers) (best_opposite e n) (e_risk e2)) as (r'' & Hr);
      try done; [apply Hlim|apply Hlim|lia|]. unfold rest_leftover. rewrite Hr. cbn [e_book set_risk]. rewrite Hb2.
    destruct (id_still_indexed (e_book e) b' (no_side n) makers tail (no_order_id n)) as [m' Hm'];
      [apply Hi|apply (mp_ok _ _ _ _ _ _ _ _ _ _ _ Hp)|done..|]. unfold add_resting. cbn [ro_order_id]. rewrite Hm'. cbn zeta iota.
    eapply owp_conseq; [apply (emit_says_core (e_sink e) (λ outs, length (trades_in outs) = length makers ∧ reports_on (no_order_id n) outs =
      replicate (length makers) (PartiallyFilled, None) ++ [(Rejected, Some DuplicateOrderIdReason)]))|].
    + destruct Hsays as (outs & Ho & Ht & Hrp). exists outs. split; [done|]. intros s t. unfold trades_in, reports_on in *.
      rewrite !omap_app, length_app, Ht, Hrp. csimpl. rewrite Z.eqb_refl. csimpl. split; [lia|done].
    + intros e3 [H3 C3]. rewrite (sc_book _ _ C3). cbn [e_book set_book set_risk]. by split_and!.
Qed.

End Faults.
