(* ===== verification/Recorder.v ===== *)
(** * Recorder: the ingress log

    [crates/gateway/src/recorder.rs]: [record] appends a frame and its receive
    timestamp through a buffered writer, [read_records] reads a log back and
    tolerates a torn last record.  The file is the list of its bytes. *)

From S2P Require Import Prelude Domain Bytes Framing.
#[local] Open Scope Z_scope.

Definition RECV_TS_BYTES : nat := 8.

(** [Recorder::record]. *)
Definition record (log : list Z) (frame : list Z) (recv_ts : RecvTs) : list Z :=
  log ++ frame ++ to_le 8 (i64_as_u64 recv_ts).

Record Record_ := mkRecord { rec_frame : list Z; rec_recv_ts : RecvTs }.

Inductive IoError := InvalidData (what : string).

(** One round of the [while] loop over the bytes from the cursor on: [inl] is the
    next state, [inr] leaves the loop or the function. *)
Definition read_body (bytes : list Z) (st : list Record_ * nat) :
    outcome ((list Record_ * nat) + result (list Record_ * nat) IoError) :=
  let '(records, cursor) := st in
  let finish := Ret (inr (Ok (records, (length bytes - cursor)%nat))) in
  if decide (cursor < length bytes)%nat then
    if decide (length bytes - cursor < 4)%nat then finish else
    let frame_len := Z.to_nat (uint_at 4 cursor bytes) in
    if decide (frame_len < 1)%nat
    then Ret (inr (Err (InvalidData "recorded frame length < 1 — file is corrupt"))) else
    let total := (4 + frame_len + RECV_TS_BYTES)%nat in
    if decide (length bytes - cursor < total)%nat then finish else
    let frame := take (4 + frame_len) (drop cursor bytes) in
    let recv_ts := u64_as_i64 (uint_at 8 (cursor + 4 + frame_len) bytes) in
    Ret (inl (records ++ [mkRecord frame recv_ts], (cursor + total)%nat))
  else finish.

Definition read_records (bytes : list Z) : outcome (result (list Record_ * nat) IoError) :=
  loop (S (length bytes)) (read_body bytes) ([], O).

(** A session's log. *)
Definition record_all (rs : list Record_) (log : list Z) : list Z :=
  foldl (λ log r, record log (rec_frame r) (rec_recv_ts r)) log rs.

Definition record_bytes (r : Record_) : list Z := record [] (rec_frame r) (rec_recv_ts r).

(** ** Round trip *)

(** A frame as it comes off the wire: its length prefix counts the rest. *)
Definition frame_ok (frame : list Z) : Prop :=
  (FRAME_HEADER_BYTES <= length frame)%nat ∧
  Z.to_nat (from_le (take 4 frame)) = (length frame - FRAME_LEN_BYTES)%nat.

Definition record_ok (r : Record_) : Prop := frame_ok (rec_frame r) ∧ is_i64 (rec_recv_ts r).

Lemma record_all_app rs log : record_all rs log = log ++ (rs ≫= record_bytes).
Proof.
  unfold record_all. revert log. induction rs as [|r rs IH]; intros log; csimpl; [by rewrite app_nil_r|].
  rewrite IH. unfold record, record_bytes, record. by rewrite app_nil_l, <-!app_assoc.
Qed.

Lemma length_record_bytes r : length (record_bytes r) = (length (rec_frame r) + 8)%nat.
Proof. unfold record_bytes, record. by rewrite app_nil_l, length_app, length_to_le. Qed.

(** Reading a complete record advances over it. *)
Lemma read_body_record pre r rest acc :
  record_ok r →
  read_body (pre ++ record_bytes r ++ rest) (acc, length pre) =
  Ret (inl (acc ++ [r], (length pre + length (record_bytes r))%nat)).
Proof.
  intros [[Hl Hf] Hts]. unfold FRAME_HEADER_BYTES, FRAME_LEN_BYTES, FRAME_KIND_BYTES in *.
  pose proof (length_record_bytes r) as Hrl. set (bytes := pre ++ record_bytes r ++ rest).
  assert (Hlen : length bytes = (length pre + length (record_bytes r) + length rest)%nat).
  { unfold bytes. rewrite !length_app. lia. }
  assert (Hd : drop (length pre) bytes = rec_frame r ++ to_le 8 (i64_as_u64 (rec_recv_ts r)) ++ rest).
  { unfold bytes, record_bytes, record. by rewrite drop_app_length, app_nil_l, <-app_assoc. }
  assert (Hfl : Z.to_nat (uint_at 4 (length pre) bytes) = (length (rec_frame r) - 4)%nat).
  { unfold uint_at. by rewrite Hd, take_app_le by lia. }
  assert (Hu : uint_at 8 (length pre + 4 + (length (rec_frame r) - 4)) bytes = i64_as_u64 (rec_recv_ts r)).
  { unfold uint_at. replace (length pre + 4 + (length (rec_frame r) - 4))%nat with (length pre + length (rec_frame r))%nat by lia.
    rewrite <-drop_drop, Hd, drop_app_length, take_app_length' by by rewrite length_to_le.
    apply from_to_le. pose proof (i64_as_u64_range (rec_recv_ts r)) as R. unfold is_u64, u64_max in R. lia. }
  unfold read_body. rewrite Hlen, Hrl, Hfl, Hu, Hd, i64_u64_roundtrip by done. unfold RECV_TS_BYTES.
  rewrite decide_True by lia. rewrite !decide_False by lia.
  rewrite take_app_length' by lia. do 3 f_equal; [|lia]. by destruct r.
Qed.

(** A torn last record stops the reader. *)
Lemma read_body_torn pre r n acc :
  record_ok r → (n < length (record_bytes r))%nat →
  read_body (pre ++ take n (record_bytes r)) (acc, length pre) = Ret (inr (Ok (acc, n))).
Proof.
  intros [[Hl Hf] Hts] Hn. unfold FRAME_HEADER_BYTES, FRAME_LEN_BYTES, FRAME_KIND_BYTES in *.
  pose proof (length_record_bytes r) as Hrl.
  assert (Hlen : length (pre ++ take n (record_bytes r)) = (length pre + n)%nat).
  { rewrite length_app, length_take. lia. }
  unfold read_body. rewrite Hlen. replace (length pre + n - length pre)%nat with n by lia.
  case_decide; [|done]. case_decide; [done|].
  assert (Hfl : Z.to_nat (uint_at 4 (length pre) (pre ++ take n (record_bytes r))) = (length (rec_frame r) - 4)%nat).
  { unfold uint_at, record_bytes, record. rewrite drop_app_length, app_nil_l, take_take, Nat.min_l by lia.
    by rewrite take_app_le by lia. }
  rewrite Hfl, decide_False by lia. unfold RECV_TS_BYTES. by rewrite decide_True by lia.
Qed.

#[local] Arguments read_body : simpl never.

(** The reader over a log of complete records and a torn one. *)
Lemma read_loop_ok rs r n :
  Forall record_ok rs → record_ok r → (n < length (record_bytes r))%nat →
  ∀ fuel pre acc, (length rs < fuel)%nat →
  loop fuel (read_body (pre ++ (rs ≫= record_bytes) ++ take n (record_bytes r))) (acc, length pre) =
  Ret (Ok (acc ++ rs, n)).
Proof.
  intros Hrs Hr Hn. induction Hrs as [|r' rs Hr' Hrs IH]; intros [|fuel] pre acc Hfuel; simpl in Hfuel; try lia.
  - cbn [loop]. csimpl. rewrite (read_body_torn pre r n acc) by done. cbn [outcome_bind]. by rewrite app_nil_r.
  - cbn [loop]. csimpl. rewrite <-app_assoc, read_body_record by done. cbn [outcome_bind].
    rewrite app_assoc, <-length_app, IH by lia. by rewrite <-app_assoc.
Qed.

Lemma length_records rs : Forall record_ok rs → (length rs <= length (rs ≫= record_bytes))%nat.
Proof.
  induction 1 as [|r rs [[Hl _] _] Hrs IH]; csimpl; [done|]. rewrite length_app, length_record_bytes.
  unfold FRAME_HEADER_BYTES, FRAME_LEN_BYTES, FRAME_KIND_BYTES in *. lia.
Qed.

Lemma read_records_ok rs r n :
  Forall record_ok rs → record_ok r → (n < length (record_bytes r))%nat →
  read_records (record_all rs [] ++ take n (record_bytes r)) = Ret (Ok (rs, n)).
Proof.
  intros Hrs Hr Hn. rewrite record_all_app, app_nil_l. unfold read_records.
  apply (read_loop_ok rs r n Hrs Hr Hn _ [] []). pose proof (length_records rs Hrs). rewrite length_app. lia.
Qed.

(** The reader returns on every input: no [unwrap] fails and the cursor advances
    by more than a header each round; the frames are pieces of the input. *)
Lemma read_records_total bytes :
  bytes_ok bytes →
  wp False (read_records bytes) (λ r, match r with
    | Ok (rs, trailing) => (length rs * FRAME_HEADER_BYTES + trailing <= length bytes)%nat ∧
        Forall (λ r, bytes_ok (rec_frame r) ∧ is_i64 (rec_recv_ts r)) rs
    | Err _ => True end).
Proof.
  intros Hb. unfold read_records.
  apply (wp_loop False (λ st, (length st.1 * FRAME_HEADER_BYTES <= st.2 <= length bytes)%nat ∧
      Forall (λ r, bytes_ok (rec_frame r) ∧ is_i64 (rec_recv_ts r)) st.1)
    (λ st, (length bytes - st.2)%nat)); [|split; simpl; [lia|constructor]|simpl; lia].
  intros [rs cur] [Hcur Hrs]. simpl in *. unfold read_body, RECV_TS_BYTES.
  unfold FRAME_HEADER_BYTES, FRAME_LEN_BYTES, FRAME_KIND_BYTES in *.
  repeat case_decide; cbn [wp]; try (split; [lia|done]); [done|].
  cbn [fst snd]. split; [split|]; [rewrite length_app; simpl; lia| |lia].
  apply Forall_app. split; [done|]. apply Forall_singleton. simpl.
  split; [by apply bytes_ok_take, bytes_ok_drop|apply u64_as_i64_range].
Qed.

(** A log cut anywhere reads back as its complete records. *)
Lemma read_records_cut rs n :
  Forall record_ok rs → (n <= length (record_all rs []))%nat →
  ∃ k trailing, read_records (take n (record_all rs [])) = Ret (Ok (take k rs, trailing)) ∧
    n = (length (record_all (take k rs) []) + trailing)%nat ∧
    (∀ r, rs !! k = Some r → trailing < length (record_bytes r))%nat ∧
    (rs !! k = None → trailing = 0%nat).
Proof.
  intros Hrs Hn. rewrite record_all_app, app_nil_l in *.
  assert (Hcut : ∃ k t, take n (rs ≫= record_bytes) = (take k rs ≫= record_bytes) ++ take t (default [] (record_bytes <$> rs !! k)) ∧
    n = (length (take k rs ≫= record_bytes) + t)%nat ∧ (∀ r, rs !! k = Some r → t < length (record_bytes r))%nat ∧
    (rs !! k = None → t = 0%nat)).
  { clear Hrs. revert n Hn. induction rs as [|r rs IH]; intros n Hn; csimpl in *.
    - exists 0%nat, n. assert (n = 0%nat) as -> by lia. by split_and!.
    - destruct (decide (n < length (record_bytes r))%nat) as [Hlt|Hge].
      + exists 0%nat, n. csimpl. rewrite take_app_le by lia. split_and!; [done|done| |done]. by intros ? [= <-].
      + rewrite length_app in Hn. destruct (IH (n - length (record_bytes r))%nat) as (k & t & Ht & Hn' & Hs & Hx); [lia|].
        exists (S k), t. csimpl. rewrite take_app_ge, Ht, app_assoc, length_app by lia. split_and!; [done|lia|done|done]. }
  destruct Hcut as (k & t & Ht & Hk & Hlt & Hx). exists k, t. rewrite Ht, record_all_app, app_nil_l. split_and!; try done.
  assert (Hpre : Forall record_ok (take k rs)) by by apply Forall_take.
  destruct (rs !! k) as [r|] eqn:Hr; simpl.
  - rewrite <-(app_nil_l (take k rs ≫= record_bytes)), <-record_all_app. apply read_records_ok; [done| |by apply Hlt].
    rewrite Forall_lookup in Hrs. by eapply Hrs.
  - rewrite Hx by done. simpl. rewrite app_nil_r. destruct (take k rs) as [|r rs'] eqn:E.
    + csimpl. done.
    + rewrite <-E in *. rewrite <-(app_nil_l (take k rs ≫= record_bytes)), <-record_all_app.
      pose proof (read_records_ok (take k rs) r 0 Hpre) as Hrd. rewrite app_nil_r in Hrd. apply Hrd.
      * rewrite E in Hpre. by apply Forall_cons in Hpre as [? _].
      * rewrite length_record_bytes. lia.
Qed.

(** ** The buffered writer *)

Section Writer.
(** Appending to the file: the new contents, and the error if not all was written. *)
Context {E : Type} (os_write : list Z → list Z → list Z * option E).

(** [BufWriter<File>] with the default capacity. *)
Record Recorder := mkRecorder { disk : list Z; pending : list Z }.
Definition BUF_CAPACITY : nat := 8192.

(** [OpenOptions::append] on a file with these bytes. *)
Definition Recorder_open (bytes : list Z) : Recorder := mkRecorder bytes [].

(** [BufWriter::flush_buf]: what was written leaves the buffer, also on an error. *)
Definition Recorder_flush (w : Recorder) : Recorder * option E :=
  let '(d, err) := os_write (disk w) (pending w) in
  match err with
  | None => (mkRecorder d [], None)
  | Some e => (mkRecorder d (drop (length d - length (disk w)) (pending w)), Some e)
  end.

(** [BufWriter::write_all]. *)
Definition write_all (w : Recorder) (bytes : list Z) : Recorder * option E :=
  let spare := (BUF_CAPACITY - length (pending w))%nat in
  if decide (length bytes < spare)%nat then (mkRecorder (disk w) (pending w ++ bytes), None) else
  let '(w, err) := if decide (spare < length bytes)%nat then Recorder_flush w else (w, None) in
  match err with
  | Some e => (w, Some e)
  | None =>
      if decide (BUF_CAPACITY <= length bytes)%nat
      then let '(d, err) := os_write (disk w) bytes in (mkRecorder d (pending w), err)
      else (mkRecorder (disk w) (pending w ++ bytes), None)
  end.

(** [Recorder::record]. *)
Definition Recorder_record (w : Recorder) (frame : list Z) (recv_ts : RecvTs) : Recorder * option E :=
  let '(w, err) := write_all w frame in
  match err with
  | Some e => (w, Some e)
  | None => write_all w (to_le 8 (i64_as_u64 recv_ts))
  end.

(** Records until the first error. *)
Fixpoint Recorder_run (w : Recorder) (rs : list Record_) : Recorder * option E :=
  match rs with
  | [] => (w, None)
  | r :: rs =>
      match Recorder_record w (rec_frame r) (rec_recv_ts r) with
      | (w, None) => Recorder_run w rs
      | (w, Some e) => (w, Some e)
      end
  end.

(** Appending writes a prefix of the bytes, and all of them when it succeeds. *)
Definition os_append : Prop := ∀ d bs,
  ∃ n, (os_write d bs).1 = d ++ take n bs ∧ ((os_write d bs).2 = None → take n bs = bs).
Hypothesis Hos : os_append.

(** Disk and buffer together are what was written so far. *)
Definition holds (w : Recorder) (bytes : list Z) : Prop := disk w ++ pending w = bytes ∧ (length (pending w) <= BUF_CAPACITY)%nat.

Lemma flush_holds w bytes : holds w bytes → holds (Recorder_flush w).1 bytes ∧ ((Recorder_flush w).2 = None → disk (Recorder_flush w).1 = bytes ∧ pending (Recorder_flush w).1 = []).
Proof.
  intros [Hw Hl]. unfold Recorder_flush. destruct (Hos (disk w) (pending w)) as (n & Hd & Hn).
  destruct (os_write (disk w) (pending w)) as [d err]. simpl in Hd, Hn. subst d. unfold holds. destruct err as [e|]; simpl.
  - split; [|done]. rewrite length_app, length_take, Nat.add_comm, Nat.add_sub, length_drop. split; [|lia].
    rewrite <-app_assoc. rewrite <-Hw. f_equal. rewrite <-(take_drop (n `min` length (pending w)) (pending w)) at 4.
    f_equal. by rewrite <-take_take, firstn_all.
  - rewrite (Hn eq_refl), Hw, app_nil_r. by split; [split; [|simpl; lia]|].
Qed.

(** A write adds its bytes, or after an error a prefix of them. *)
Lemma write_all_holds w bytes bs :
  holds w bytes → ∃ n, holds (write_all w bs).1 (bytes ++ take n bs) ∧ ((write_all w bs).2 = None → take n bs = bs).
Proof.
  intros Hw. pose proof Hw as [Hd Hl]. unfold write_all. set (spare := (BUF_CAPACITY - length (pending w))%nat).
  case_decide as H1.
  { exists (length bs). rewrite take_ge by done. split; [|done]. split; simpl; [by rewrite app_assoc, Hd|].
    rewrite length_app. lia. }
  destruct (decide (spare < length bs)%nat) as [H2|H2].
  - destruct (flush_holds w bytes Hw) as [Hf Hok]. destruct (Recorder_flush w) as [w' [e|]]; simpl in *.
    { exists 0%nat. rewrite app_nil_r. by split. }
    destruct (Hok eq_refl) as [Hdisk Hp]. case_decide as H3.
    + destruct (Hos (disk w') bs) as (n & Ha & Hn). destruct (os_write (disk w') bs) as [d err]. simpl in *. subst d.
      exists n. split; [|done]. split; simpl; [by rewrite Hp, app_nil_r, Hdisk|rewrite Hp; simpl; lia].
    + exists (length bs). rewrite take_ge by done. split; [|done]. split; simpl; [by rewrite Hp, Hdisk|rewrite Hp; simpl; lia].
  - simpl. case_decide as H3.
    + assert (Hp : pending w = []) by (apply nil_length_inv; unfold spare in *; lia).
      destruct (Hos (disk w) bs) as (n & Ha & Hn). destruct (os_write (disk w) bs) as [d err]. simpl in *. subst d.
      exists n. split; [|done]. split; simpl; [by rewrite Hp, app_nil_r in *; rewrite Hd|rewrite Hp; simpl; lia].
    + exists (length bs). rewrite take_ge by done. split; [|done]. split; simpl; [by rewrite app_assoc, Hd|].
      rewrite length_app. unfold spare in *. lia.
Qed.

Lemma record_holds w bytes r :
  holds w bytes →
  ∃ n, holds (Recorder_record w (rec_frame r) (rec_recv_ts r)).1 (bytes ++ take n (record_bytes r)) ∧
    ((Recorder_record w (rec_frame r) (rec_recv_ts r)).2 = None → take n (record_bytes r) = record_bytes r).
Proof.
  intros Hw. unfold Recorder_record. destruct (write_all_holds w bytes (rec_frame r) Hw) as (n & H1 & Hn).
  set (ts := to_le 8 (i64_as_u64 (rec_recv_ts r))). assert (Hr : record_bytes r = rec_frame r ++ ts) by done.
  destruct (write_all w (rec_frame r)) as [w1 [e|]]; simpl in *.
  - exists (n `min` length (rec_frame r))%nat. split; [|done]. rewrite Hr, take_app_le by lia.
    by rewrite <-take_take, firstn_all.
  - rewrite (Hn eq_refl) in H1. destruct (write_all_holds w1 _ ts H1) as (m & H2 & Hm).
    exists (length (rec_frame r) + m)%nat. rewrite Hr, take_app_add. rewrite <-app_assoc in H2. split; [done|].
    intros He. by rewrite (Hm He).
Qed.

Lemma run_holds w bytes rs :
  holds w bytes →
  ∃ n, holds (Recorder_run w rs).1 (bytes ++ take n (rs ≫= record_bytes)) ∧
    ((Recorder_run w rs).2 = None → take n (rs ≫= record_bytes) = rs ≫= record_bytes).
Proof.
  revert w bytes. induction rs as [|r rs IH]; intros w bytes Hw; csimpl.
  { exists 0%nat. by rewrite app_nil_r. }
  destruct (record_holds w bytes r Hw) as (n & H1 & Hn).
  destruct (Recorder_record w (rec_frame r) (rec_recv_ts r)) as [w1 [e|]]; simpl in *.
  - exists (n `min` length (record_bytes r))%nat. split; [|done]. rewrite take_app_le by lia.
    by rewrite <-take_take, firstn_all.
  - rewrite (Hn eq_refl) in H1. destruct (IH w1 _ H1) as (m & H2 & Hm).
    exists (length (record_bytes r) + m)%nat. rewrite take_app_add. rewrite <-app_assoc in H2. split; [done|].
    intros He. by rewrite (Hm He).
Qed.

(** Whatever reached the disk reads back as records that were recorded; after a
    successful flush, as all of them. *)
Lemma recorder_disk rs :
  Forall record_ok rs →
  let w := (Recorder_run (Recorder_open []) rs).1 in
  (∃ k trailing, read_records (disk w) = Ret (Ok (take k rs, trailing))) ∧
  ((Recorder_run (Recorder_open []) rs).2 = None → (Recorder_flush w).2 = None →
    read_records (disk (Recorder_flush w).1) = Ret (Ok (rs, 0%nat))).
Proof.
  intros Hrs w. destruct (run_holds (Recorder_open []) [] rs) as (n & Hw & Hn); [split; [done|simpl; lia]|].
  fold w in Hw. rewrite app_nil_l in Hw. split.
  - destruct Hw as [Hw _]. assert (Hd : disk w = take (n `min` length (rs ≫= record_bytes) `min` length (disk w)) (record_all rs [])).
    { rewrite record_all_app, app_nil_l. rewrite Nat.min_comm, <-take_take, <-take_take, firstn_all. rewrite <-Hw.
      by rewrite take_app_length. }
    rewrite Hd. destruct (read_records_cut rs (n `min` length (rs ≫= record_bytes) `min` length (disk w)) Hrs) as (k & t & Hr & _);
      [|eauto]. rewrite record_all_app, app_nil_l. lia.
  - intros Herr Hfl. destruct (flush_holds w _ Hw) as [_ Hok]. destruct (Hok Hfl) as [-> _]. rewrite (Hn Herr).
    destruct (read_records_cut rs (length (record_all rs [])) Hrs (le_n _)) as (k & t & Hr & Hlen & Hlt & Hx).
    rewrite take_ge in Hr by done. rewrite record_all_app, app_nil_l in Hr. rewrite Hr.
    destruct (rs !! k) as [r|] eqn:Hk.
    + exfalso. specialize (Hlt r eq_refl). rewrite !record_all_app, !app_nil_l in Hlen.
      rewrite <-(take_drop_middle rs k r Hk) in Hlen at 1. rewrite bind_app, bind_cons, !length_app in Hlen. lia.
    + rewrite (Hx eq_refl). apply lookup_ge_None in Hk. by rewrite take_ge.
Qed.
End Writer.
