(* ===== verification/Listener.v ===== *)
(** * Listener: the per-connection inbound decoder

    [crates/gateway/src/listener.rs]: [try_decode] and the read loop of
    [handle_connection].  The socket is the list of its reads; the bounded ring to
    the engine is a parameter, the set of histories after which [try_send]
    succeeds.  The outbound writer task does not touch the reader's state. *)

From S2P Require Import Prelude Domain Messages Bytes Framing WireInbound.
#[local] Open Scope Z_scope.
Abbreviation concat := List.concat.

Inductive DecodeStep :=
| Decoded (msg : Inbound) (total : nat)
| Malformed (err : WireError) (total : nat)
| Skipped (byte : Z) (total : nat)
| NeedMore.

Definition try_decode (buf : list Z) : DecodeStep :=
  if decide (length buf < FRAME_LEN_BYTES)%nat then NeedMore else
  let frame_len := Z.to_nat (from_le (take FRAME_LEN_BYTES buf)) in
  let total := (FRAME_LEN_BYTES + frame_len)%nat in
  if decide (length buf < total)%nat then NeedMore else
  match parse_or_skip buf with
  | Ok (PO_Frame frame, total) =>
      match inbound_parse_frame frame with
      | Ok msg => Decoded msg total
      | Err err => Malformed err total
      end
  | Ok (PO_UnknownKind byte, total) => Skipped byte total
  | Err _ => NeedMore
  end.

(** Why a connection was closed. *)
Inductive CloseReason :=
| RingFull
| MalformedFrame (err : WireError)
| UnknownFrame (byte : Z)
| PeerClosed
| ReadError.

(** [read_buf]: [Some bytes] for [Ok(n)], none of them for end of stream, [None]
    for an I/O error. *)
Definition socket_read := option (list Z).

Section Connection.
(** [tx.try_send(msg)] succeeds when these messages have been sent before it. *)
Context (try_send : list Inbound → Inbound → bool).

(** One round of the inner [loop]. *)
Definition drain_body (st : list Z * list Inbound) :
    outcome ((list Z * list Inbound) + (list Z * list Inbound + list Inbound * CloseReason)) :=
  let '(buf, sent) := st in
  match try_decode buf with
  | Decoded msg total =>
      let buf := drop total buf in
      if try_send sent msg then Ret (inl (buf, sent ++ [msg])) else Ret (inr (inr (sent, RingFull)))
  | Malformed err _ => Ret (inr (inr (sent, MalformedFrame err)))
  | Skipped byte _ => Ret (inr (inr (sent, UnknownFrame byte)))
  | NeedMore => Ret (inr (inl (buf, sent)))
  end.

Definition drain (buf : list Z) (sent : list Inbound) : outcome (list Z * list Inbound + list Inbound * CloseReason) :=
  loop (S (length buf)) drain_body (buf, sent).

(** The outer [loop] of [handle_connection]; the last component is [None] while
    the connection waits for its next read. *)
Fixpoint handle_connection (reads : list socket_read) (buf : list Z) (sent : list Inbound) :
    outcome (list Inbound * option CloseReason) :=
  let! r := drain buf sent in
  match r with
  | inr (sent, reason) => Ret (sent, Some reason)
  | inl (buf, sent) =>
      match reads with
      | [] => Ret (sent, None)
      | Some [] :: _ => Ret (sent, Some PeerClosed)
      | Some bytes :: reads => handle_connection reads (buf ++ bytes) sent
      | None :: _ => Ret (sent, Some ReadError)
      end
  end.

(** ** Decoding is local to the frame *)

Lemma try_decode_consumes buf :
  match try_decode buf with
  | Decoded _ total | Malformed _ total | Skipped _ total => (0 < total <= length buf)%nat
  | NeedMore => True
  end.
Proof.
  unfold try_decode. repeat (case_decide; [done|]).
  destruct (parse_or_skip buf) as [[[f|b] t]|] eqn:E; [| |done];
    apply parse_or_skip_total in E as [Ht _]; unfold FRAME_HEADER_BYTES, FRAME_LEN_BYTES in Ht;
    [destruct (inbound_parse_frame f)|]; lia.
Qed.

Lemma try_decode_app buf more : try_decode buf ≠ NeedMore → try_decode (buf ++ more) = try_decode buf.
Proof.
  unfold try_decode. rewrite length_app. destruct (decide (length buf < FRAME_LEN_BYTES)%nat) as [|H1]; [done|].
  destruct (decide (length buf + length more < FRAME_LEN_BYTES)%nat); [lia|].
  rewrite take_app_le by lia. case_decide as H2; [done|]. rewrite decide_False by lia.
  destruct (parse_or_skip buf) as [[o t]|] eqn:E; [|done]. by rewrite (parse_or_skip_app _ more _ _ E).
Qed.

(** ** The inner loop *)

#[local] Arguments drain_body : simpl never.

Lemma drain_eq buf sent :
  drain buf sent =
  match try_decode buf with
  | Decoded msg total =>
      if try_send sent msg then drain (drop total buf) (sent ++ [msg]) else Ret (inr (sent, RingFull))
  | Malformed err _ => Ret (inr (sent, MalformedFrame err))
  | Skipped byte _ => Ret (inr (sent, UnknownFrame byte))
  | NeedMore => Ret (inl (buf, sent))
  end.
Proof.
  assert (Htot : ∀ b s, ∃ v, drain b s = Ret v).
  { intros b s. enough (wp False (drain b s) (λ _, True)) as (v & ? & _)%wp_total by eauto. unfold drain.
    apply (wp_loop False (λ _, True) (λ st, length st.1)); [|done|simpl; lia].
    intros [b' s'] _. unfold drain_body. pose proof (try_decode_consumes b') as Hc.
    destruct (try_decode b'); try done. destruct (try_send s' msg); [|done]. simpl.
    rewrite length_drop. split; [done|lia]. }
  unfold drain at 1. cbn [loop]. unfold drain_body at 1. pose proof (try_decode_consumes buf) as Hc.
  destruct (try_decode buf) as [m t|e t|b t|]; try done.
  destruct (try_send sent m); [|done]. cbn [outcome_bind].
  destruct (Htot (drop t buf) (sent ++ [m])) as [v Hv]. rewrite Hv.
  eapply loop_mono; [exact Hv|]. rewrite length_drop. lia.
Qed.

#[local] Arguments drain : simpl never.

(** Draining what is buffered, then what arrives, is draining it all at once. *)
Lemma drain_app buf more sent :
  drain (buf ++ more) sent =
  (let! r := drain buf sent in
   match r with inl (b, s) => drain (b ++ more) s | inr c => Ret (inr c) end).
Proof.
  remember (length buf) as n eqn:Hn. revert buf sent Hn.
  induction n as [n IH] using lt_wf_ind. intros buf sent ->.
  rewrite (drain_eq buf). destruct (try_decode buf) as [m t|e t|b t|] eqn:E; [| | |done];
    rewrite drain_eq, try_decode_app, E by (by rewrite E); try done.
  pose proof (try_decode_consumes buf) as Hc. rewrite E in Hc.
  destruct (try_send sent m); [|done]. rewrite drop_app_le by lia.
  apply (IH (length (drop t buf))); [rewrite length_drop; lia|done].
Qed.

(** How a connection that ends after [reads] closes. *)
Definition at_eof (r : list Z * list Inbound + list Inbound * CloseReason) : list Inbound * option CloseReason :=
  match r with inl (_, sent) => (sent, Some PeerClosed) | inr (sent, c) => (sent, Some c) end.

Lemma drain_drained buf sent b s : drain buf sent = Ret (inl (b, s)) → drain b s = Ret (inl (b, s)).
Proof. intros H. pose proof (drain_app buf [] sent) as Ha. rewrite H, !app_nil_r in Ha. simpl in Ha. by rewrite app_nil_r, H in Ha. Qed.

(** How the kernel splits the bytes into reads does not matter. *)
Lemma handle_connection_reads chunks reads buf sent :
  Forall (λ c, c ≠ []) chunks →
  handle_connection ((Some <$> chunks) ++ reads) buf sent =
  (let! r := drain (buf ++ concat chunks) sent in
   match r with inl (b, s) => handle_connection reads b s | inr (s, c) => Ret (s, Some c) end).
Proof.
  intros Hc. revert buf sent. induction Hc as [|c chunks Hne Hc IH]; intros buf sent; csimpl.
  - rewrite app_nil_r. destruct (drain buf sent) as [[[b s]|[s c]]| |] eqn:Hd; simpl;
      [|destruct reads; simpl; by rewrite Hd..].
    apply drain_drained in Hd as Hd'. destruct reads; simpl; by rewrite Hd, Hd'.
  - rewrite drain_app. destruct (drain buf sent) as [[[b s]|[s c']]| |]; try done. cbn [outcome_bind].
    destruct c as [|x c]; [done|]. by rewrite IH, <-app_assoc.
Qed.

Lemma handle_connection_chunks chunks buf sent :
  Forall (λ c, c ≠ []) chunks →
  handle_connection ((Some <$> chunks) ++ [Some []]) buf sent =
  (let! r := drain (buf ++ concat chunks) sent in Ret (at_eof r)).
Proof.
  intros Hc. rewrite handle_connection_reads by done.
  destruct (drain (buf ++ concat chunks) sent) as [[[b s]|[s c]]| |] eqn:Hd; try done. simpl.
  by rewrite (drain_drained _ _ _ _ Hd).
Qed.

(** ** A stream of encoded commands *)

(** The ring accepts these messages after [sent]. *)
Definition accepted (sent msgs : list Inbound) : Prop :=
  ∀ pre m post, msgs = pre ++ m :: post → try_send (sent ++ pre) m = true.

Lemma accepted_cons sent m msgs :
  accepted sent (m :: msgs) → try_send sent m = true ∧ accepted (sent ++ [m]) msgs.
Proof.
  intros H. split.
  - specialize (H [] m msgs eq_refl). by rewrite app_nil_r in H.
  - intros pre x post ->. rewrite <-app_assoc. by apply (H (m :: pre) x post).
Qed.

(** A frame that carries a valid command, whatever follows it. *)
Definition carries (frame : list Z) (m : Inbound) : Prop :=
  ∀ rest, try_decode (frame ++ rest) = Decoded m (length frame).

Lemma drain_frames frames msgs rest sent :
  Forall2 carries frames msgs → accepted sent msgs →
  drain (concat frames ++ rest) sent = drain rest (sent ++ msgs).
Proof.
  intros Hf. revert sent. induction Hf as [|f m frames msgs Hf Hfs IH]; intros sent Hacc; csimpl.
  - by rewrite app_nil_r.
  - apply accepted_cons in Hacc as [Hm Hacc]. rewrite <-app_assoc, drain_eq, Hf, Hm.
    by rewrite drop_app_length, IH, <-app_assoc.
Qed.

Lemma drain_nil sent : drain [] sent = Ret (inl ([], sent)).
Proof. by rewrite drain_eq. Qed.

(** A message the ring refuses closes the connection; nothing after it is sent. *)
Lemma drain_ring_full f m rest sent :
  carries f m → try_send sent m = false → drain (f ++ rest) sent = Ret (inr (sent, RingFull)).
Proof. intros Hf Hm. by rewrite drain_eq, Hf, Hm. Qed.

End Connection.

(** A bounded ring nobody drains. *)
Definition ring (capacity : nat) (sent : list Inbound) (m : Inbound) : bool := (length sent <? capacity)%nat.
