(* ===== verification/Client.v ===== *)
(** * Client: the localhost client

    [crates/clob-client/src/lib.rs]: [send] frames a command, [recv] reads the next
    outbound event from the buffered bytes and the socket.  The socket is the list
    of what its reads deliver before the deadline. *)

From Stdlib Require String.
From S2P Require Import Prelude Domain Messages Bytes Framing WireInbound WireOutbound MarketData Listener.
#[local] Open Scope Z_scope.

(** The bytes [Client::send] writes. *)
Definition send (msg : Inbound) : result (list Z) WireError :=
  Frame_write (inbound_kind msg) (inbound_payload msg) [].

(** The convenience wrappers. *)
Definition send_new_order (order : NewOrder) : result (list Z) WireError :=
  Frame_write K_NewOrder (new_order.encode order []) [].
Definition send_cancel (msg : CancelOrder) := send (In_CancelOrder msg).
Definition send_cancel_replace (msg : CancelReplace) := send (In_CancelReplace msg).
Definition send_mass_cancel (msg : MassCancel) := send (In_MassCancel msg).
Definition send_kill_switch (msg : KillSwitchSet) := send (In_KillSwitchSet msg).
Definition send_snapshot_request (msg : SnapshotRequest) := send (In_SnapshotRequest msg).

Inductive ClientError := CE_Io | CE_Wire (e : WireError) | CE_Timeout | CE_Closed.

(** One [read_buf] under the deadline. *)
Inductive client_read :=
| R_data (bytes : list Z)
| R_eof
| R_error
| R_timeout.

(** [Client::recv], from the buffer [rx_buf]: the event or the error, what is left
    in the buffer, and the reads not yet taken.  With no read left the deadline
    has passed. *)
Fixpoint recv (reads : list client_read) (rx_buf : list Z) :
    result Outbound ClientError * list Z * list client_read :=
  let more :=
    match reads with
    | [] => (Err CE_Timeout, rx_buf, [])
    | R_data bytes :: reads => recv reads (rx_buf ++ bytes)
    | R_eof :: reads => (Err CE_Closed, rx_buf, reads)
    | R_error :: reads => (Err CE_Io, rx_buf, reads)
    | R_timeout :: reads => (Err CE_Timeout, rx_buf, reads)
    end in
  if decide (FRAME_LEN_BYTES <= length rx_buf)%nat then
    match decode rx_buf with
    | Ok (msg, total) => (Ok msg, drop total rx_buf, reads)
    | Err Truncated => more
    | Err other => (Err (CE_Wire other), rx_buf, reads)
    end
  else more.

(** [Client::recv_until_timeout]: [rounds] is the number of times the loop is
    entered before the deadline.  A timeout ends it, another error is returned. *)
Fixpoint recv_until_timeout (rounds max : nat) (reads : list client_read) (rx_buf : list Z) :
    result (list Outbound) ClientError * list Z * list client_read :=
  match max, rounds with
  | O, _ | _, O => (Ok [], rx_buf, reads)
  | S max, S rounds =>
      match recv reads rx_buf with
      | (Ok msg, rx_buf, reads) =>
          let '(r, rx_buf, reads) := recv_until_timeout rounds max reads rx_buf in
          (let? out := r in Ok (msg :: out), rx_buf, reads)
      | (Err CE_Timeout, rx_buf, reads) => (Ok [], rx_buf, reads)
      | (Err other, rx_buf, reads) => (Err other, rx_buf, reads)
      end
  end.

(** Successive [recv] calls. *)
Fixpoint recv_n (n : nat) (reads : list client_read) (rx_buf : list Z) :
    list (result Outbound ClientError) * list Z * list client_read :=
  match n with
  | O => ([], rx_buf, reads)
  | S n =>
      let '(r, rx_buf, reads) := recv reads rx_buf in
      let '(rs, rx_buf, reads) := recv_n n reads rx_buf in
      (r :: rs, rx_buf, reads)
  end.

(** ** The client object

    A connection and its buffer, over the operations of a socket; [?] turns an error
    of the operating system into [ClientError::Io]. *)

Record Client (Stream : Type) := mkClient { stream : Stream; rx_buf : list Z }.
Arguments mkClient {Stream}.
Arguments stream {Stream}.
Arguments rx_buf {Stream}.

Section Socket.
Context {Stream E : Type} (tcp_connect : String.string → result Stream E)
  (tcp_write_all : Stream → list Z → Stream * result unit E) (tcp_shutdown : Stream → Stream * result unit E).

Definition Client_connect (addr : String.string) : result (Client Stream) ClientError :=
  let? s := map_err (λ _, CE_Io) (tcp_connect addr) in Ok (mkClient s []).

Definition Client_send (c : Client Stream) (msg : Inbound) : Client Stream * result unit ClientError :=
  match send msg with
  | Err e => (c, Err (CE_Wire e))
  | Ok frame => let '(s, r) := tcp_write_all (stream c) frame in (mkClient s (rx_buf c), map_err (λ _, CE_Io) r)
  end.

Definition Client_shutdown (c : Client Stream) : Client Stream * result unit ClientError :=
  let '(s, r) := tcp_shutdown (stream c) in (mkClient s (rx_buf c), map_err (λ _, CE_Io) r).

(** Commands sent one after the other, until one fails. *)
Fixpoint Client_session (c : Client Stream) (msgs : list Inbound) : Client Stream * result unit ClientError :=
  match msgs with
  | [] => (c, Ok tt)
  | m :: msgs => match Client_send c m with (c, Ok _) => Client_session c msgs | (c, Err e) => (c, Err e) end
  end.
End Socket.

(** ** Sending *)

Lemma length_inbound_payload m : (length (inbound_payload m) <= 40)%nat.
Proof.
  destruct m; cbn [inbound_payload];
    unfold new_order.encode, cancel_order.encode, cancel_replace.encode, mass_cancel.encode,
      kill_switch.encode, snapshot_request.encode; rewrite app_nil_l, length_as_bytes by done;
    vm_compute; lia.
Qed.

Lemma bytes_ok_inbound_payload m : bytes_ok (inbound_payload m).
Proof.
  destruct m; cbn [inbound_payload];
    unfold new_order.encode, cancel_order.encode, cancel_replace.encode, mass_cancel.encode,
      kill_switch.encode, snapshot_request.encode; rewrite app_nil_l; apply as_bytes_ok.
Qed.

(** Sending always produces a frame, and the listener decodes it. *)
Lemma send_ok m :
  inbound_ok m → inbound_width_ok m → ∃ frame, send m = Ok frame ∧ carries frame m.
Proof.
  intros Hok Hw. pose proof (length_inbound_payload m) as Hl.
  assert (Hs : ∃ frame, send m = Ok frame).
  { unfold send, Frame_write, checked_add, FRAME_KIND_BYTES.
    rewrite decide_True by (unfold u64_max; lia). cbn [ok_or result_bind].
    rewrite decide_True by (unfold u32_max; lia). eauto. }
  destruct Hs as [frame Hs]. exists frame. split; [done|]. intros rest.
  destruct (frame_roundtrip _ _ _ _ rest Hs) as (fr & Hfr & Hp & _). rewrite app_nil_l in Hfr. subst fr.
  destruct (parse_or_skip_total _ _ _ Hp) as [Ht Htot]. unfold try_decode, FRAME_LEN_BYTES in *.
  unfold FRAME_HEADER_BYTES, FRAME_LEN_BYTES, FRAME_KIND_BYTES in Ht.
  rewrite decide_False by lia. rewrite <-Htot. rewrite decide_False by lia.
  rewrite Hp. by rewrite inbound_parse_payload.
Qed.

(** The frames of a client's session. *)
Definition sent_frames (msgs : list Inbound) (frames : list (list Z)) : Prop :=
  Forall2 (λ m f, send m = Ok f) msgs frames.

Lemma sent_frames_carry msgs frames :
  Forall (λ m, inbound_ok m ∧ inbound_width_ok m) msgs → sent_frames msgs frames →
  Forall2 carries frames msgs.
Proof.
  intros Hok Hf. induction Hf as [|m f msgs frames Hf Hfs IH]; [constructor|].
  apply Forall_cons in Hok as [[Hm Hw] Hok]. constructor; [|auto].
  destruct (send_ok m Hm Hw) as (f' & Hf' & Hc). by assert (f = f') as -> by congruence.
Qed.

(** What a session puts on a socket whose writes succeed. *)
Lemma session_bytes {Stream E} (write : Stream → list Z → Stream * result unit E) (written : Stream → list Z) c msgs :
  (∀ s bs, (write s bs).2 = Ok tt ∧ written (write s bs).1 = written s ++ bs) →
  Forall (λ m, inbound_ok m ∧ inbound_width_ok m) msgs →
  ∃ c' frames, Client_session write c msgs = (c', Ok tt) ∧ sent_frames msgs frames ∧
    written (stream c') = written (stream c) ++ concat frames ∧ rx_buf c' = rx_buf c.
Proof.
  intros Hw Hm. revert c. induction Hm as [|m msgs [Hok Hwd] Hm IH]; intros c; cbn [Client_session].
  { exists c, []. csimpl. rewrite app_nil_r. split_and!; [done|constructor|done..]. }
  destruct (send_ok m Hok Hwd) as (f & Hf & _). unfold Client_send. rewrite Hf. destruct (Hw (stream c) f) as [Hr Hs].
  destruct (write (stream c) f) as [s r]. simpl in Hr, Hs. subst r. cbn [map_err].
  destruct (IH (mkClient s (rx_buf c))) as (c' & fs & -> & Hfs & Hb & Hx). exists c', (f :: fs).
  split_and!; [done|by constructor| |done]. cbn [stream] in Hb. rewrite Hb, Hs. csimpl. by rewrite app_assoc.
Qed.

(** ** Receiving *)

(** A strict prefix of a frame is not yet decodable. *)
Lemma decode_prefix frame m total n :
  decode frame = Ok (m, total) → (n < total)%nat → decode (take n frame) = Err Truncated.
Proof.
  unfold decode, Frame_parse. intros H Hn. destruct (parse_or_skip frame) as [[o t]|] eqn:E; [|done].
  cbn [result_bind] in H. destruct o as [f|b]; [|done]. cbn [result_bind] in H.
  destruct (outbound_parse_frame f); [|done]. simpl in H. injection H as <- <-.
  by rewrite (parse_or_skip_prefix _ _ _ n E Hn).
Qed.

Lemma decode_len buf m total : decode buf = Ok (m, total) → (FRAME_LEN_BYTES <= length buf)%nat.
Proof.
  unfold decode, Frame_parse. destruct (parse_or_skip buf) as [[o t]|] eqn:E; [|done]. intros _.
  apply parse_or_skip_total in E as [Ht _]. unfold FRAME_HEADER_BYTES in Ht. lia.
Qed.

(** The next event of a feed is delivered whatever way its bytes arrive. *)
Lemma recv_chunks frame m chunks rest buf :
  (∀ more, decode (frame ++ more) = Ok (m, length frame)) →
  buf ++ concat chunks = frame ++ rest →
  ∃ used left buf', chunks = used ++ left ∧ buf' ++ concat left = rest ∧
    recv (R_data <$> chunks) buf = (Ok m, buf', R_data <$> left).
Proof.
  intros Hd. revert buf. induction chunks as [|c chunks IH]; intros buf Hb.
  - rewrite app_nil_r in Hb. subst buf. exists [], [], rest. split; [done|]. split; [apply app_nil_r|].
    cbn [recv fmap list_fmap]. pose proof (Hd rest) as Hdec.
    rewrite decide_True by (by eapply decode_len). rewrite Hdec. by rewrite drop_app_length.
  - destruct (decide (length frame <= length buf)%nat) as [Hle|Hlt].
    + assert (Hbuf : buf = frame ++ drop (length frame) buf).
      { rewrite <-(take_drop (length frame) buf) at 1. f_equal.
        rewrite <-(take_app_le buf (concat (c :: chunks))) by done. by rewrite Hb, take_app_length. }
      exists [], (c :: chunks), (drop (length frame) buf). split; [done|]. split.
      { rewrite Hbuf, <-app_assoc in Hb. by apply app_inv_head in Hb. }
      pose proof (Hd (drop (length frame) buf)) as Hdec. rewrite <-Hbuf in Hdec.
      unfold recv; csimpl. rewrite decide_True by (by eapply decode_len). by rewrite Hdec.
    + assert (Hbuf : buf = take (length buf) frame).
      { rewrite <-(take_app_le frame rest) by lia. rewrite <-Hb. by rewrite take_app_length. }
      assert (Hdec : decode buf = Err Truncated).
      { rewrite Hbuf. apply (decode_prefix _ m (length frame)); [|lia]. specialize (Hd []). by rewrite app_nil_r in Hd. }
      destruct (IH (buf ++ c)) as (used & left & buf' & -> & Hr & Hrecv).
      { csimpl in Hb. by rewrite <-app_assoc. }
      exists (c :: used), left, buf'. split; [done|]. split; [done|]. csimpl.
      rewrite Hdec, Hrecv. by case_decide.
Qed.

Lemma recv_n_feed frames msgs chunks buf :
  Forall2 (λ f m, ∀ more, decode (f ++ more) = Ok (m, length f)) frames msgs →
  buf ++ concat chunks = concat frames →
  ∃ left buf', buf' ++ concat left = [] ∧
    recv_n (length msgs) (R_data <$> chunks) buf = (Ok <$> msgs, buf', R_data <$> left).
Proof.
  intros Hf. revert chunks buf. induction Hf as [|f m frames msgs Hf Hfs IH]; intros chunks buf Hb.
  - by exists chunks, buf.
  - csimpl in Hb. destruct (recv_chunks f m chunks (concat frames) buf Hf Hb)
      as (used & left & buf1 & -> & Hl & Hrecv).
    destruct (IH left buf1 Hl) as (left2 & buf2 & Hl2 & Hrec). exists left2, buf2. split; [done|].
    csimpl. by rewrite Hrecv, Hrec.
Qed.

(** With time to spare, [recv_until_timeout] collects the whole feed, or its first
    [max] events and leaves the rest. *)
Lemma recv_until_timeout_feed rounds max frames msgs chunks buf :
  Forall2 (λ f m, ∀ more, decode (f ++ more) = Ok (m, length f)) frames msgs →
  buf ++ concat chunks = concat frames → (length msgs < rounds)%nat →
  ∃ left buf', buf' ++ concat left = concat (drop max frames) ∧
    recv_until_timeout rounds max (R_data <$> chunks) buf = (Ok (take max msgs), buf', R_data <$> left).
Proof.
  intros Hf. revert rounds max chunks buf.
  induction Hf as [|f m frames msgs Hf Hfs IH]; intros rounds max chunks buf Hb Hr;
    (destruct max as [|max]; [by exists chunks, buf; destruct rounds|]); (destruct rounds as [|rounds]; [simpl in Hr; lia|]).
  - csimpl in Hb. apply app_nil in Hb as [-> Hc]. exists [], []. split; [done|]. cbn [recv_until_timeout].
    assert (Hrecv : recv (R_data <$> chunks) [] = (Err CE_Timeout, [], [])); [|by rewrite Hrecv].
    clear -Hc. induction chunks as [|c chunks IHc]; [done|]. csimpl in Hc. apply app_nil in Hc as [-> Hc].
    csimpl. by apply IHc.
  - csimpl in Hb. destruct (recv_chunks f m chunks (concat frames) buf Hf Hb) as (used & left & buf1 & -> & Hl & Hrecv).
    simpl in Hr. destruct (IH rounds max left buf1 Hl) as (left2 & buf2 & Hl2 & Hrec); [lia|].
    exists left2, buf2. split; [done|]. cbn [recv_until_timeout]. by rewrite Hrecv, Hrec.
Qed.

(** The frames of an encoded feed. *)
Lemma encode_all_frames msgs out :
  feed_ok msgs →
  ∃ frames, encode_all msgs out = Ret (Ok (out ++ concat frames)) ∧
    Forall2 (λ f m, ∀ more, decode (f ++ more) = Ok (m, length f)) frames (wire_view <$> msgs).
Proof.
  intros Hms. revert out. induction Hms as [|m msgs (Hok & Hw & Hf) Hms IH]; intros out.
  - exists []. rewrite app_nil_r. by split; [|constructor].
  - destruct (encode_ok m Hok Hw Hf) as (fr & Henc & _ & Hdec).
    destruct (IH (out ++ fr)) as (frs & Hall & Hfrs). exists (fr :: frs). split.
    + cbn [encode_all]. rewrite Henc. cbn [outcome_bind]. rewrite Hall. cbn [List.concat]. by rewrite app_assoc.
    + constructor; done.
Qed.
