(* ===== verification/Replay.v ===== *)
(** * Replay: driving an engine from an ingress log

    [crates/engine/src/bin/replay.rs]: a fresh engine with a stub clock steps
    through the records of a log; its events are encoded into one byte stream,
    with every timestamp zeroed on request. *)

From S2P Require Import Prelude Domain PriceLevel Book Messages Ids Engine Bytes Framing WireInbound WireOutbound MarketData Recorder Client.
#[local] Open Scope Z_scope.

(** The boxed error of [replay_bytes]. *)
Inductive BoxError := BE_Io (e : IoError) | BE_Wire (e : WireError).

Definition zero_timestamps (ev : Outbound) : Outbound :=
  match ev with
  | Out_ExecReport r =>
      Out_ExecReport (mkExecReport (er_engine_seq r) (er_order_id r) (er_account_id r) (er_state r)
        (er_fill_price r) (er_fill_qty r) (er_leaves_qty r) (er_reject_reason r) (er_cancel_reason r) 0 0)
  | Out_TradePrint t =>
      Out_TradePrint (mkTradePrint (tp_engine_seq t) (tp_trade_id t) (tp_price t) (tp_qty t)
        (tp_aggressor_side t) 0)
  | Out_BookUpdateTop b => Out_BookUpdateTop (mkBookUpdateTop (bt_engine_seq b) (bt_bid b) (bt_ask b) 0)
  | Out_BookUpdateL2Delta d =>
      Out_BookUpdateL2Delta (mkL2Delta (l2_engine_seq d) (l2_price d) (l2_new_qty d) (l2_side d) 0)
  | Out_SnapshotResponse s =>
      Out_SnapshotResponse (mkSnapshotResponse (sp_engine_seq s) (sp_request_id s) 0 0 (sp_bids s) (sp_asks s))
  end.

Section Replay.
Context {L : Type} `{!PriceLevelOps L}.
Local Abbreviation Eng := (Engine L StubClock CounterIdGenerator VecSink).

(** The body of [for rec in &records]. *)
Definition replay_record (e : Eng) (r : Record_) : outcome (result Eng BoxError) :=
  let e := set_clock e (StubClock_set (e_clock e) (rec_recv_ts r)) in
  match Frame_parse (rec_frame r) with
  | Err err => Ret (Err (BE_Wire err))
  | Ok (frame, _) =>
      match inbound_parse_frame frame with
      | Err err => Ret (Err (BE_Wire err))
      | Ok inbound => let! e := step e inbound in Ret (Ok e)
      end
  end.

Fixpoint replay_records (e : Eng) (rs : list Record_) : outcome (result Eng BoxError) :=
  match rs with
  | [] => Ret (Ok e)
  | r :: rs =>
      let! x := replay_record e r in
      match x with Err err => Ret (Err err) | Ok e => replay_records e rs end
  end.

(** The loop that encodes the events. *)
Fixpoint encode_events (no_timestamps : bool) (events : list Outbound) (out : list Z) :
    outcome (result (list Z) BoxError) :=
  match events with
  | [] => Ret (Ok out)
  | ev :: events =>
      let ev := if no_timestamps then zero_timestamps ev else ev in
      let! r := encode ev out in
      match r with Err err => Ret (Err (BE_Wire err)) | Ok out => encode_events no_timestamps events out end
  end.

Definition replay_engine : Eng := engine_new (StubClock_new 0) CounterIdGenerator_new VecSink_new.

Definition replay_bytes (bytes : list Z) (no_timestamps : bool) : outcome (result (list Z) BoxError) :=
  let! r := read_records bytes in
  match r with
  | Err err => Ret (Err (BE_Io err))
  | Ok (records, _trailing) =>
      let! x := replay_records replay_engine records in
      match x with
      | Err err => Ret (Err err)
      | Ok e => encode_events no_timestamps (VecSink_take (e_sink e)).1 []
      end
  end.

(** ** The command line *)

Section Cli.
Context {E F : Type} (fs_read : F → string → result (list Z) E)
  (fs_write : F → string → list Z → F * result unit E).

Inductive ReplayError := Usage | Io (e : E) | Decode (e : BoxError).

(** [run]; indexing [args] is in range after the length check. *)
Definition run_cli (f : F) (args : list string) : outcome (F * result unit ReplayError) :=
  if decide (length args < 3)%nat then Ret (f, Err Usage) else
  let! inbound_path := expect (args !! 1%nat) in
  let! outbound_path := expect (args !! 2%nat) in
  let no_timestamps := existsb (String.eqb "--no-timestamps") args in
  match fs_read f inbound_path with
  | Err e => Ret (f, Err (Io e))
  | Ok bytes =>
      let! r := replay_bytes bytes no_timestamps in
      match r with
      | Err e => Ret (f, Err (Decode e))
      | Ok outbound_bytes =>
          let '(f, w) := fs_write f outbound_path outbound_bytes in
          Ret (f, match w with Ok _ => Ok tt | Err e => Err (Io e) end)
      end
  end.

(** The exit code of [main]. *)
Definition main_cli (f : F) (args : list string) : outcome (F * Z) :=
  let! x := run_cli f args in
  let '(f, result) := x in
  Ret (f, match result with
          | Ok _ => 0
          | Err Usage => 2
          | Err (Io _) => 2
          | Err (Decode _) => 3
          end).
End Cli.

(** ** What a replay computes *)

(** The live session the log records: each command taken at its own time. *)
Fixpoint timed_run (e : Eng) (session : list (Inbound * RecvTs)) : outcome Eng :=
  match session with
  | [] => Ret e
  | (m, ts) :: session =>
      let! e := step (set_clock e (StubClock_set (e_clock e) ts)) m in timed_run e session
  end.

(** The record of a command: the frame the client sent and when it was received. *)
Definition logged (s : Inbound * RecvTs) (r : Record_) : Prop :=
  send s.1 = Ok (rec_frame r) ∧ rec_recv_ts r = s.2.

Definition session_ok (session : list (Inbound * RecvTs)) : Prop :=
  Forall (λ s, inbound_ok s.1 ∧ inbound_width_ok s.1 ∧ is_i64 s.2) session.

Lemma sent_frame_ok m frame : send m = Ok frame → frame_ok frame.
Proof.
  intros Hs. destruct (frame_roundtrip _ _ _ _ [] Hs) as (fr & Hfr & Hp & Hl).
  rewrite app_nil_l in Hfr. subst fr. rewrite app_nil_r in Hp.
  destruct (parse_or_skip_total _ _ _ Hp) as [Ht Htot]. split; [lia|]. unfold FRAME_LEN_BYTES in *. lia.
Qed.

Lemma logged_ok s r : is_i64 s.2 → logged s r → record_ok r.
Proof. intros Hts [Hs Hr]. split; [by eapply sent_frame_ok|by rewrite Hr]. Qed.

Lemma logged_step s r (e : Eng) :
  inbound_ok s.1 → inbound_width_ok s.1 → logged s r →
  replay_record e r =
  (let! e := step (set_clock e (StubClock_set (e_clock e) s.2)) s.1 in Ret (Ok e)).
Proof.
  intros Hok Hw [Hs Hr]. unfold replay_record. rewrite Hr.
  destruct (frame_roundtrip _ _ _ _ [] Hs) as (fr & Hfr & Hp & _).
  rewrite app_nil_l in Hfr. subst fr. rewrite app_nil_r in Hp.
  unfold Frame_parse. rewrite Hp. cbn [result_bind]. by rewrite inbound_parse_payload.
Qed.

Lemma replay_records_run session rs (e : Eng) :
  session_ok session → Forall2 logged session rs →
  replay_records e rs = (let! e := timed_run e session in Ret (Ok e)).
Proof.
  intros Hok Hl. revert e. induction Hl as [|s r session rs Hs Hl IH]; intros e; [done|].
  apply Forall_cons in Hok as [(Hm & Hw & Hts) Hok]. cbn [replay_records timed_run].
  rewrite (logged_step s r) by done. destruct s as [m ts]. cbn [fst snd] in *. cbn [timed_run].
  destruct (step _ m) as [e1| |]; [|done|done]. cbn [outcome_bind]. by apply IH.
Qed.

Lemma encode_events_all b events out :
  encode_events b events out =
  (let! r := encode_all ((if b then zero_timestamps else id) <$> events) out in Ret (map_err BE_Wire r)).
Proof.
  revert out. induction events as [|ev events IH]; intros out; [done|]. csimpl.
  replace (if b then zero_timestamps ev else ev) with ((if b then zero_timestamps else id) ev) by by destruct b.
  destruct (encode _ out) as [[o|]| |]; try done. cbn [outcome_bind]. apply IH.
Qed.

(** A log of a session and a torn record replays the session. *)
Lemma replay_bytes_ok session rs torn n b :
  session_ok session → Forall2 logged session rs → record_ok torn → (n < length (record_bytes torn))%nat →
  replay_bytes (record_all rs [] ++ take n (record_bytes torn)) b =
  (let! e := timed_run replay_engine session in
   let! r := encode_all ((if b then zero_timestamps else id) <$> events (e_sink e)) [] in
   Ret (map_err BE_Wire r)).
Proof.
  intros Hok Hl Ht Hn. unfold replay_bytes. rewrite read_records_ok; [|  |done|done].
  - cbn [outcome_bind]. rewrite (replay_records_run session) by done.
    destruct (timed_run replay_engine session) as [e| |]; [|done|done]. cbn [outcome_bind].
    apply encode_events_all.
  - clear -Hok Hl. induction Hl as [|s r session rs Hs Hl IH]; [constructor|].
    apply Forall_cons in Hok as [(? & ? & ?) Hok]. constructor; [by eapply logged_ok|auto].
Qed.

End Replay.
