(* ===== verification/EngineLockstep.v ===== *)
(** * EngineLockstep: two engines that differ in clock and sink

    Two engines with the same book, registry, counters and id source take the same
    commands to the same states and emit the same messages up to their timestamps,
    which stay related when the clocks are.  The books may differ too, as long as
    they answer alike ([BookSim]).  The relation is preserved by every
    operation, one lemma per operation; outcomes are compared with [orel], so
    neither engine can panic alone.  Instances: unrelated clocks (time is stamped,
    never read), equal clocks with a different sink (what an engine sends to a
    channel is what it would have collected in a vector), and, in [EngineCanon],
    different price levels. *)

From S2P Require Import Prelude Script BTree Domain PriceLevel Book Messages Ids Risk Engine Bytes Framing WireInbound WireOutbound MarketData Channels Recorder Client Replay.

(** The timestamps of a message. *)
Definition timestamps (m : Outbound) : list RecvTs :=
  match m with
  | Out_ExecReport r => [er_recv_ts r; er_emit_ts r]
  | Out_TradePrint t => [tp_emit_ts t]
  | Out_BookUpdateTop b => [bt_emit_ts b]
  | Out_BookUpdateL2Delta d => [l2_emit_ts d]
  | Out_SnapshotResponse s => [sp_recv_ts s; sp_emit_ts s]
  end.

(** ** Books that answer alike

    [BR] relates two books that an engine cannot tell apart: every query answers the
    same, and every operation the engine calls returns the same and leaves related
    books.  [CV] says which commands are considered, [RV msg q] which quantities the
    unmatched rest of [msg] can have. *)

Definition same_matched {B1 B2 I R} (BR : B1 → B2 → Prop) (V : R → Prop)
    (x1 : B1 * I * list Fill * list StpCancellation * R) (x2 : B2 * I * list Fill * list StpCancellation * R) : Prop :=
  let '(b1, i1, f1, s1, r1) := x1 in
  let '(b2, i2, f2, s2, r2) := x2 in
  BR b1 b2 ∧ i1 = i2 ∧ f1 = f2 ∧ s1 = s2 ∧ r1 = r2 ∧ V r1.

Class BookSim {L1 L2 I : Type} `{!PriceLevelOps L1} `{!PriceLevelOps L2} `{!IdGenerator I}
    (CV : Inbound → Prop) (RV : NewOrder → Qty → Prop) (BR : Book L1 → Book L2 → Prop) : Prop := {
  sim_best_bid b1 b2 : BR b1 b2 → best_bid b1 = best_bid b2;
  sim_best_ask b1 b2 : BR b1 b2 → best_ask b1 = best_ask b2;
  sim_side_qty b1 b2 s : BR b1 b2 → side_qty b1 s = side_qty b2 s;
  sim_bid_levels b1 b2 : BR b1 b2 → bid_levels b1 = bid_levels b2;
  sim_ask_levels b1 b2 : BR b1 b2 → ask_levels b1 = ask_levels b2;
  sim_match b1 b2 msg (ids : I) : CV (In_NewOrder msg) → BR b1 b2 →
    let taker := mkAggressive (no_order_id msg) (no_account_id msg) (no_side msg) (no_price msg) (no_qty msg) (no_tif msg) in
    orel (same_matched BR (λ res, from_option (RV msg) True (mr_taker_remaining res)))
      (match_aggressive b1 taker ids [] []) (match_aggressive b2 taker ids [] []);
  sim_add b1 b2 msg p q : CV (In_NewOrder msg) → no_price msg = Some p → no_tif msg ≠ Ioc → RV msg q → BR b1 b2 →
    let ord := mkResting (no_order_id msg) (no_account_id msg) (no_side msg) p q (no_tif msg) in
    BR (add_resting b1 ord).1 (add_resting b2 ord).1 ∧ (add_resting b1 ord).2 = (add_resting b2 ord).2;
  sim_cancel b1 b2 id : BR b1 b2 → BR (cancel b1 id).1 (cancel b2 id).1 ∧ (cancel b1 id).2 = (cancel b2 id).2;
  sim_replace b1 b2 msg (ids : I) : CV (In_CancelReplace msg) → BR b1 b2 →
    orel (same_matched BR (λ _, True))
      (replace b1 (cr_order_id msg) (cr_new_price msg) (cr_new_qty msg) ids [] [])
      (replace b2 (cr_order_id msg) (cr_new_price msg) (cr_new_qty msg) ids [] []);
  sim_mass b1 b2 a : BR b1 b2 →
    let '(b1', out1, n1) := mass_cancel b1 a [] in
    let '(b2', out2, n2) := mass_cancel b2 a [] in BR b1' b2' ∧ out1 = out2 ∧ n1 = n2;
}.

(** The same book. *)
#[global] Instance BookSim_eq {L I} `{!PriceLevelOps L} `{!IdGenerator I} :
  BookSim (I := I) (λ _, True) (λ _ _, True) (@eq (Book L)).
Proof.
  split; try (intros b1 b2 ->; done); try (intros b1 b2 ? ->; done).
  - intros b1 b2 msg ids _ ->. apply orel_refl. intros [[[[]]] res]. simpl. by destruct (mr_taker_remaining res).
  - by intros b1 b2 msg p q _ _ _ _ ->.
  - intros b1 b2 msg ids _ ->. apply orel_refl. by intros [[[[]]]].
  - intros b1 b2 a ->. by destruct (mass_cancel b2 a []) as [[]].
Qed.

Section Lockstep.
Context {L1 L2 C1 C2 I S1 S2 : Type} `{!PriceLevelOps L1} `{!PriceLevelOps L2} `{!Clock C1} `{!Clock C2}
  `{!IdGenerator I} `{!OutboundSink S1} `{!OutboundSink S2}.
Context {CV : Inbound → Prop} {RV : NewOrder → Qty → Prop} (BR : Book L1 → Book L2 → Prop) `{!BookSim (I := I) CV RV BR}.

(** How the two clocks compare, and the timestamps they give. *)
Context (TR : RecvTs → RecvTs → Prop) (CR : C1 → C2 → Prop).
Hypothesis CR_now : ∀ c1 c2, CR c1 c2 → TR (now c1).1 (now c2).1 ∧ CR (now c1).2 (now c2).2.

(** Messages that agree up to related timestamps. *)
Definition stamped (m1 m2 : Outbound) : Prop :=
  zero_timestamps m1 = zero_timestamps m2 ∧ Forall2 TR (timestamps m1) (timestamps m2).

(** How the two sinks compare; emitting such messages keeps it. *)
Context (SR : S1 → S2 → Prop).
Hypothesis SR_emit : ∀ s1 s2 m1 m2, SR s1 s2 → stamped m1 m2 → SR (emit s1 m1) (emit s2 m2).

Local Abbreviation E1 := (Engine L1 C1 I S1).
Local Abbreviation E2 := (Engine L2 C2 I S2).

Record lockstep (e1 : E1) (e2 : E2) : Prop := {
  un_book : BR (e_book e1) (e_book e2);
  un_risk : e_risk e1 = e_risk e2;
  un_ids : e_ids e1 = e_ids e2;
  un_registry : e_registry e1 = e_registry e2;
  un_fills : e_fills_buf e1 = e_fills_buf e2;
  un_stp : e_stp_buf e1 = e_stp_buf e2;
  un_mass : e_mass_buf e1 = e_mass_buf e2;
  un_pre : e_pre_step_levels e1 = e_pre_step_levels e2;
  un_post : e_post_step_levels e1 = e_post_step_levels e2;
  un_clock : CR (e_clock e1) (e_clock e2);
  un_sink : SR (e_sink e1) (e_sink e2);
}.

Lemma emit_with_lockstep e1 e2 (mk1 mk2 : EngineSeq → RecvTs → Outbound) :
  lockstep e1 e2 → (∀ s t1 t2, TR t1 t2 → stamped (mk1 s t1) (mk2 s t2)) →
  orel lockstep (emit_with e1 mk1) (emit_with e2 mk2).
Proof.
  intros H Hmk. unfold emit_with. rewrite (un_ids _ _ H). apply orel_eq_bind. intros [s ids].
  destruct (CR_now _ _ (un_clock _ _ H)) as [Ht Hc]. destruct (now _), (now _). destruct H. simpl in *. split; simpl; auto.
Qed.

Ltac emits := apply emit_with_lockstep; [done|intros; split; [done|by repeat constructor]].

Lemma emit_rejected_lockstep e1 e2 oid aid reason t1 t2 :
  TR t1 t2 → lockstep e1 e2 → orel lockstep (emit_rejected e1 oid aid reason t1) (emit_rejected e2 oid aid reason t2).
Proof. intros. emits. Qed.

Lemma emit_accepted_lockstep e1 e2 oid aid q t1 t2 :
  TR t1 t2 → lockstep e1 e2 →
  orel lockstep (emit_exec_report_accepted e1 oid aid q t1) (emit_exec_report_accepted e2 oid aid q t2).
Proof. intros. emits. Qed.

Lemma emit_cancelled_lockstep e1 e2 oid aid reason t1 t2 :
  TR t1 t2 → lockstep e1 e2 →
  orel lockstep (emit_exec_report_cancelled e1 oid aid reason t1) (emit_exec_report_cancelled e2 oid aid reason t2).
Proof. intros. emits. Qed.

Lemma emit_replaced_lockstep e1 e2 oid aid q t1 t2 :
  TR t1 t2 → lockstep e1 e2 →
  orel lockstep (emit_exec_report_replaced e1 oid aid q t1) (emit_exec_report_replaced e2 oid aid q t2).
Proof. intros. emits. Qed.

Lemma emit_fill_lockstep e1 e2 oid aid st p q l t1 t2 :
  TR t1 t2 → lockstep e1 e2 →
  orel lockstep (emit_exec_report_fill e1 oid aid st p q l t1) (emit_exec_report_fill e2 oid aid st p q l t2).
Proof. intros. emits. Qed.

Lemma emit_trade_lockstep e1 e2 f s :
  lockstep e1 e2 → orel lockstep (emit_trade_print_for_fill e1 f s) (emit_trade_print_for_fill e2 f s).
Proof. intros. emits. Qed.

Lemma emit_l2_delta_lockstep e1 e2 s p q :
  lockstep e1 e2 → orel lockstep (emit_l2_delta e1 s p q) (emit_l2_delta e2 s p q).
Proof. intros. emits. Qed.

Lemma emit_top_lockstep e1 e2 : lockstep e1 e2 → orel lockstep (emit_book_update_top e1) (emit_book_update_top e2).
Proof.
  intros H. unfold emit_book_update_top. pose proof (un_book _ _ H) as Hb.
  unfold qty_at. rewrite (sim_best_bid _ _ Hb), (sim_best_ask _ _ Hb), !(sim_side_qty _ _ _ Hb). emits.
Qed.

Lemma snapshot_lockstep e1 e2 msg t1 t2 :
  TR t1 t2 → lockstep e1 e2 → orel lockstep (handle_snapshot_request e1 msg t1) (handle_snapshot_request e2 msg t2).
Proof.
  intros Ht H. unfold handle_snapshot_request. pose proof (un_book _ _ H) as Hb.
  rewrite (sim_bid_levels _ _ Hb), (sim_ask_levels _ _ Hb). emits.
Qed.

(** ** State updates *)

Lemma set_risk_lockstep e1 e2 r : lockstep e1 e2 → lockstep (set_risk e1 r) (set_risk e2 r).
Proof. intros []. by split. Qed.
Lemma set_book_lockstep e1 e2 b1 b2 : BR b1 b2 → lockstep e1 e2 → lockstep (set_book e1 b1) (set_book e2 b2).
Proof. intros Hb []. by split. Qed.
Lemma set_registry_lockstep e1 e2 m : lockstep e1 e2 → lockstep (set_registry e1 m) (set_registry e2 m).
Proof. intros []. by split. Qed.
Lemma set_match_lockstep e1 e2 b1 b2 i f s :
  BR b1 b2 → lockstep e1 e2 → lockstep (set_match e1 b1 i f s) (set_match e2 b2 i f s).
Proof. intros Hb []. by split. Qed.
Lemma set_mass_lockstep e1 e2 b1 b2 o : BR b1 b2 → lockstep e1 e2 → lockstep (set_mass e1 b1 o) (set_mass e2 b2 o).
Proof. intros Hb []. by split. Qed.
Lemma set_clock_lockstep e1 e2 c1 c2 : lockstep e1 e2 → CR c1 c2 → lockstep (set_clock e1 c1) (set_clock e2 c2).
Proof. intros []. by split. Qed.
Lemma set_pre_lockstep e1 e2 v : lockstep e1 e2 → lockstep (set_pre_step_levels e1 v) (set_pre_step_levels e2 v).
Proof. intros []. by split. Qed.
Lemma set_post_lockstep e1 e2 v : lockstep e1 e2 → lockstep (set_post_step_levels e1 v) (set_post_step_levels e2 v).
Proof. intros []. by split. Qed.

Create HintDb lockstep.
#[local] Hint Resolve set_risk_lockstep set_book_lockstep set_registry_lockstep set_match_lockstep
  set_mass_lockstep set_clock_lockstep set_pre_lockstep set_post_lockstep emit_rejected_lockstep
  emit_accepted_lockstep emit_cancelled_lockstep emit_replaced_lockstep emit_fill_lockstep
  emit_trade_lockstep emit_l2_delta_lockstep emit_top_lockstep snapshot_lockstep : lockstep.

Lemma settle_maker_lockstep e1 e2 f : lockstep e1 e2 → lockstep (settle_maker e1 f) (settle_maker e2 f).
Proof.
  intros H. unfold settle_maker. cbn [set_risk e_registry e_risk]. rewrite (un_risk _ _ H), (un_registry _ _ H).
  destruct (e_registry e2 !! _) as [ent|]; [destruct (f_maker_fully_filled f)|]; eauto with lockstep.
Qed.

Lemma unregister_lockstep e1 e2 oid : lockstep e1 e2 → lockstep (unregister e1 oid) (unregister e2 oid).
Proof.
  intros H. unfold unregister. rewrite (un_risk _ _ H), (un_registry _ _ H).
  destruct (e_registry e2 !! _); eauto with lockstep.
Qed.
#[local] Hint Resolve settle_maker_lockstep unregister_lockstep : lockstep.

(** ** Fills and self-trade reports *)

Definition lockstep_pair (x1 : E1 * Z) (x2 : E2 * Z) : Prop := lockstep x1.1 x2.1 ∧ x1.2 = x2.2.

Lemma emit_fills_loop_lockstep oid aid t1 t2 fills x1 x2 :
  TR t1 t2 → lockstep_pair x1 x2 → orel lockstep_pair (emit_fills_loop oid aid t1 fills x1) (emit_fills_loop oid aid t2 fills x2).
Proof.
  intros Ht. revert x1 x2. induction fills as [|f fills IH]; intros [e1 r1] [e2 r2] [H Hr]; simpl in *; [done|]. subst r2.
  eapply orel_bind with (R := lockstep_pair); [|auto].
  eapply orel_bind; [eauto with lockstep|]. intros a1 a2 Ha. rewrite (un_registry _ _ Ha).
  eapply orel_bind; [eauto with lockstep|]. intros b1 b2 Hb.
  eapply orel_bind; [eauto with lockstep|]. intros c1 c2 Hc. split; eauto with lockstep.
Qed.

Lemma emit_fills_lockstep oid aid q t1 t2 e1 e2 :
  TR t1 t2 → lockstep e1 e2 → orel lockstep (emit_fills_for_taker e1 oid aid q t1) (emit_fills_for_taker e2 oid aid q t2).
Proof.
  intros Ht H. unfold emit_fills_for_taker. rewrite (un_fills _ _ H).
  eapply orel_bind; [by apply emit_fills_loop_lockstep|]. by intros [a1 r1] [a2 r2] [Ha _].
Qed.

Lemma emit_stp_lockstep t1 t2 e1 e2 : TR t1 t2 → lockstep e1 e2 → orel lockstep (emit_stp_cancels e1 t1) (emit_stp_cancels e2 t2).
Proof.
  intros Ht H. unfold emit_stp_cancels. rewrite (un_stp _ _ H). generalize (e_stp_buf e2) as stps.
  intros stps. revert e1 e2 H. induction stps as [|s stps IH]; intros e1 e2 H; simpl; [done|].
  eapply orel_bind; [eauto with lockstep|]. eauto with lockstep.
Qed.
#[local] Hint Resolve emit_fills_lockstep emit_stp_lockstep : lockstep.

(** ** Handlers *)

Lemma rest_leftover_lockstep e1 e2 msg p q t1 t2 :
  CV (In_NewOrder msg) → no_price msg = Some p → no_tif msg ≠ Ioc → RV msg q → TR t1 t2 → lockstep e1 e2 →
  orel lockstep (rest_leftover e1 msg p q t1) (rest_leftover e2 msg p q t2).
Proof.
  intros Hv Hp Htif Hq Ht H. unfold rest_leftover. rewrite (un_risk _ _ H).
  destruct (on_order_resting _ _ _) as [r [u|reason]]; [|eauto with lockstep].
  cbn [set_risk e_book]. destruct (sim_add _ _ msg p q Hv Hp Htif Hq (un_book _ _ H)) as [Hb Heq].
  destruct (add_resting (e_book e1) _) as [b1 r1], (add_resting (e_book e2) _) as [b2 r2]. simpl in Hb, Heq. subst r2.
  destruct r1; cbn [set_book set_risk e_registry e_risk]; rewrite ?(un_registry _ _ H); eauto with lockstep.
Qed.

Lemma handle_new_order_lockstep e1 e2 msg t1 t2 :
  CV (In_NewOrder msg) → TR t1 t2 → lockstep e1 e2 →
  orel lockstep (handle_new_order e1 msg t1) (handle_new_order e2 msg t2).
Proof.
  intros Hv Ht H. unfold handle_new_order. pose proof (un_book _ _ H) as Hb.
  rewrite (sim_best_bid _ _ Hb), (sim_best_ask _ _ Hb), (un_risk _ _ H), (un_ids _ _ H).
  destruct (check_new_order _ _ _); [|eauto with lockstep].
  destruct (is_kill_switched _); [eauto with lockstep|].
  eapply orel_bind; [by apply sim_match|]. intros [[[[bk1 ids] fills] stp] res] [[[[bk2 ?] ?] ?] ?] (Hbk & <- & <- & <- & <- & Hrem).
  destruct (mr_taker_post_only_rejected res); [eauto with lockstep|].
  eapply orel_bind; [eauto with lockstep|]. intros a1 a2 Ha.
  eapply orel_bind; [eauto with lockstep|]. intros b1 b2 Hb12.
  destruct (mr_taker_stp_cancelled res); [eauto with lockstep|].
  destruct (mr_taker_remaining res); [|done].
  destruct (no_tif msg) eqn:?, (no_price msg) eqn:?; try (eauto with lockstep; done); apply rest_leftover_lockstep; congruence || done.
Qed.

Lemma handle_cancel_order_lockstep e1 e2 msg t1 t2 :
  TR t1 t2 → lockstep e1 e2 → orel lockstep (handle_cancel_order e1 msg t1) (handle_cancel_order e2 msg t2).
Proof.
  intros Ht H. unfold handle_cancel_order. rewrite (un_risk _ _ H), (un_registry _ _ H).
  destruct (check_cancel _ _); [|eauto with lockstep]. destruct (is_kill_switched _); [eauto with lockstep|].
  destruct (from_option _ _ _); [eauto with lockstep|].
  destruct (sim_cancel _ _ (co_order_id msg) (un_book _ _ H)) as [Hb Heq].
  destruct (cancel (e_book e1) _) as [b1 r1], (cancel (e_book e2) _) as [b2 r2]. simpl in Hb, Heq. subst r2.
  destruct r1; eauto 6 with lockstep.
Qed.

Lemma rest_replaced_lockstep e1 e2 msg old q t1 t2 :
  TR t1 t2 → lockstep e1 e2 → orel lockstep (rest_replaced e1 msg old q t1) (rest_replaced e2 msg old q t2).
Proof.
  intros Ht H. unfold rest_replaced. rewrite (un_risk _ _ H).
  destruct (sim_cancel _ _ (cr_order_id msg) (un_book _ _ H)) as [Hb _].
  destruct (on_order_resting _ _ _) as [r [u|reason]]; cbn [set_risk e_book e_registry];
    rewrite ?(un_registry _ _ H); [simpl|]; eauto with lockstep.
Qed.

Lemma commit_replace_lockstep e1 e2 msg old res t1 t2 :
  TR t1 t2 → lockstep e1 e2 → orel lockstep (commit_replace e1 msg old res t1) (commit_replace e2 msg old res t2).
Proof.
  intros Ht H. unfold commit_replace.
  assert (Hf : lockstep
    (match old with Some ent => set_risk e1 (on_order_removed (e_risk e1) (re_account_id ent) (re_notional ent)) | None => e1 end)
    (match old with Some ent => set_risk e2 (on_order_removed (e_risk e2) (re_account_id ent) (re_notional ent)) | None => e2 end)).
  { destruct old; rewrite ?(un_risk _ _ H); eauto with lockstep. }
  revert Hf. match goal with |- lockstep ?x ?y → _ => generalize x, y end. intros a1 a2 Ha. rewrite (un_registry _ _ Ha).
  eapply orel_bind; [eauto with lockstep|]. intros b1 b2 Hb.
  eapply orel_bind; [eauto with lockstep|]. intros c1 c2 Hc.
  eapply orel_bind; [eauto with lockstep|]. intros d1 d2 Hd.
  destruct (match res with Some r => _ | None => _ end) as [[] [q|]]; eauto using rest_replaced_lockstep with lockstep.
Qed.

Lemma handle_cancel_replace_lockstep e1 e2 msg t1 t2 :
  CV (In_CancelReplace msg) → TR t1 t2 → lockstep e1 e2 → orel lockstep (handle_cancel_replace e1 msg t1) (handle_cancel_replace e2 msg t2).
Proof.
  intros Hv Ht H. unfold handle_cancel_replace.
  rewrite (un_risk _ _ H), (un_registry _ _ H), (un_ids _ _ H).
  destruct (check_cancel_replace _ _); [|eauto with lockstep]. destruct (is_kill_switched _); [eauto with lockstep|].
  destruct (from_option _ _ _); [eauto with lockstep|].
  eapply orel_bind; [apply sim_replace; [done|apply (un_book _ _ H)]|].
  intros [[[[bk1 ids] fills] stp] r] [[[[bk2 ?] ?] ?] ?] (Hbk & <- & <- & <- & <- & _).
  destruct r as [res|err]; [|eauto with lockstep].
  destruct (from_option _ false _); eauto using commit_replace_lockstep with lockstep.
Qed.

Lemma handle_mass_cancel_lockstep e1 e2 msg t1 t2 :
  TR t1 t2 → lockstep e1 e2 → orel lockstep (handle_mass_cancel e1 msg t1) (handle_mass_cancel e2 msg t2).
Proof.
  intros Ht H. unfold handle_mass_cancel, emit_rejected_mass. rewrite (un_risk _ _ H).
  destruct (check_mass_cancel _ _); [|apply orel_eq_bind; eauto with lockstep].
  destruct (is_kill_switched _); [apply orel_eq_bind; eauto with lockstep|].
  pose proof (sim_mass _ _ (mcl_account_id msg) (un_book _ _ H)) as Hb.
  destruct (mass_cancel (e_book e1) _ _) as [[bk1 out] n], (mass_cancel (e_book e2) _ _) as [[bk2 out2] n2].
  destruct Hb as (Hb & <- & <-).
  assert (Hm : lockstep (set_mass e1 bk1 out) (set_mass e2 bk2 out)) by eauto with lockstep. revert Hm.
  generalize (set_mass e1 bk1 out) as a1, (set_mass e2 bk2 out) as a2. clear H Hb.
  induction out as [|mc out IH]; intros a1 a2 Ha; simpl; [done|].
  eapply orel_bind; [eauto with lockstep|]. eauto.
Qed.

Lemma handle_lockstep e1 e2 msg t1 t2 :
  CV msg → TR t1 t2 → lockstep e1 e2 → orel lockstep (handle e1 msg t1) (handle e2 msg t2).
Proof.
  intros Hv Ht H. destruct msg; simpl;
    eauto using handle_new_order_lockstep, handle_cancel_order_lockstep, handle_cancel_replace_lockstep,
      handle_mass_cancel_lockstep with lockstep.
  unfold handle_kill_switch. rewrite (un_risk _ _ H). eauto with lockstep.
Qed.

Lemma emit_l2_deltas_lockstep e1 e2 : lockstep e1 e2 → orel lockstep (emit_l2_deltas e1) (emit_l2_deltas e2).
Proof.
  intros H. unfold emit_l2_deltas. rewrite (un_pre _ _ H), (un_post _ _ H).
  apply (orel_loop (λ x1 x2, lockstep x1.1.1 x2.1.1 ∧ x1.1.2 = x2.1.2 ∧ x1.2 = x2.2)); [|done].
  intros [[a1 i] j] [[a2 i'] j']. simpl. intros (Ha & <- & <-). unfold l2_round.
  assert (He : ∀ s p q i j, orel (λ r1 r2, match r1, r2 with
      | inl x1, inl x2 => lockstep x1.1.1 x2.1.1 ∧ x1.1.2 = x2.1.2 ∧ x1.2 = x2.2
      | inr v1, inr v2 => lockstep v1 v2
      | _, _ => False end)
    (let! e := emit_l2_delta a1 s p q in Ret (inl (e, i, j) : E1 * nat * nat + E1))
    (let! e := emit_l2_delta a2 s p q in Ret (inl (e, i, j) : E2 * nat * nat + E2))).
  { intros. eapply orel_bind; [eauto with lockstep|]. intros b1 b2 Hb. done. }
  destruct (negb _); [done|].
  destruct (e_pre_step_levels e2 !! i) as [[[ps pp] pq]|], (e_post_step_levels e2 !! j) as [[[qs qp] qq]|]; try done.
  destruct (level_key_eq _ _ _ _); [|by destruct (level_key_lt _ _ _ _)]. by destruct (pq =? qq).
Qed.

Lemma capture_levels_lockstep e1 e2 : lockstep e1 e2 → capture_levels (e_book e1) = capture_levels (e_book e2).
Proof. intros H. unfold capture_levels. by rewrite (sim_bid_levels _ _ (un_book _ _ H)), (sim_ask_levels _ _ (un_book _ _ H)). Qed.

Lemma step_lockstep e1 e2 msg : CV msg → lockstep e1 e2 → orel lockstep (step e1 msg) (step e2 msg).
Proof.
  intros Hv H. unfold step. destruct (CR_now _ _ (un_clock _ _ H)) as [Ht Hcl].
  destruct (now (e_clock e1)) as [t1 c1], (now (e_clock e2)) as [t2 c2]. simpl in Ht, Hcl.
  assert (Hc : lockstep (set_clock e1 c1) (set_clock e2 c2)) by eauto with lockstep.
  destruct (emit_book_changes msg); [|by apply handle_lockstep]. rewrite (capture_levels_lockstep _ _ Hc).
  eapply orel_bind; [apply handle_lockstep; eauto with lockstep|]. intros a1 a2 Ha. rewrite (capture_levels_lockstep _ _ Ha).
  eapply orel_bind; [apply emit_l2_deltas_lockstep; eauto with lockstep|]. eauto with lockstep.
Qed.

Lemma run_lockstep e1 e2 msgs : Forall CV msgs → lockstep e1 e2 → orel lockstep (run e1 msgs) (run e2 msgs).
Proof.
  intros Hv. revert e1 e2. induction Hv as [|m msgs Hm Hv IH]; intros e1 e2 H; simpl; [done|].
  eapply orel_bind; [by apply step_lockstep|]. auto.
Qed.

End Lockstep.

(** ** Any two clocks *)

Lemma zero_timestamps_idem m : zero_timestamps (zero_timestamps m) = zero_timestamps m.
Proof. by destruct m. Qed.

Definition same_untimed (s1 s2 : VecSink) : Prop :=
  zero_timestamps <$> events s1 = zero_timestamps <$> events s2.

Lemma same_untimed_emit (TR : RecvTs → RecvTs → Prop) s1 s2 m1 m2 :
  same_untimed s1 s2 → stamped TR m1 m2 → same_untimed (emit s1 m1) (emit s2 m2).
Proof. unfold same_untimed. simpl. intros Hs [Hm _]. rewrite !fmap_app, Hs. csimpl. by rewrite Hm. Qed.

(** A session under one clock, and the same commands each at its own recorded time. *)
Lemma timed_run_lockstep {L C} `{!PriceLevelOps L} `{!Clock C} (e1 : Engine L C CounterIdGenerator VecSink)
    (e2 : Engine L StubClock CounterIdGenerator VecSink) session :
  lockstep eq (λ _ _, True) same_untimed e1 e2 →
  orel (lockstep eq (λ _ _, True) same_untimed) (run e1 session.*1) (timed_run e2 session).
Proof.
  revert e1 e2. induction session as [|[m ts] session IH]; intros e1 e2 H; csimpl; [done|].
  eapply orel_bind; [|intros a b Hab; by apply IH].
  eapply (step_lockstep (CV := λ _, True) eq (λ _ _, True)); [done|by apply same_untimed_emit|done|]. destruct H. by split.
Qed.

(** ** A channel instead of a vector *)

Lemma stamped_eq m1 m2 : stamped eq m1 m2 → m1 = m2.
Proof.
  intros [Hz Ht]. apply list_eq_Forall2 in Ht.
  destruct m1 as [[]|[]|[]|[]|[]], m2 as [[]|[]|[]|[]|[]]; simpl in *; simplify_eq; done.
Qed.

Section Channel.
Context {B R : Type} `{!BroadcastOps B R} (capacity : nat).

Definition channel_of (v : VecSink) (c : ChannelSink B) : Prop := c = foldl emit (ChannelSink_new capacity) (events v).

Lemma channel_of_emit v c m1 m2 : channel_of v c → stamped eq m1 m2 → channel_of (emit v m1) (emit c m2).
Proof. unfold channel_of. simpl. intros -> <-%stamped_eq. by rewrite foldl_app. Qed.

Lemma run_channel {L C I} `{!PriceLevelOps L} `{!Clock C} `{!IdGenerator I} (clock : C) (ids : I) msgs :
  orel (lockstep eq eq channel_of)
    (run (engine_new clock ids VecSink_new : Engine L C I VecSink) msgs)
    (run (engine_new clock ids (ChannelSink_new capacity) : Engine L C I (ChannelSink B)) msgs).
Proof.
  apply (run_lockstep (CV := λ _, True) eq eq); [by intros c ? <-|by apply channel_of_emit|by apply Forall_true|]. by split.
Qed.
End Channel.
