(* ===== verification/ReplayTotal.v ===== *)
(** * ReplayTotal: replaying any log, and replaying a live session

    [replay_bytes] over the engine's session theorems: whatever the bytes of the
    log, the tool returns; and the log of a live session, taken under any clock,
    replays to the live feed up to its timestamps. *)

From S2P Require Import Prelude Script BTree Domain PriceLevel Book Messages Ids Engine EngineBounds Bytes Framing WireInbound WireOutbound MarketData EngineInv EngineRun EngineFeed Recorder Client Replay EngineLockstep.
#[local] Open Scope Z_scope.

Section Total.
Context {L : Type} `{!PriceLevelOps L} `{!PriceLevelLaws L} `{!SnapshotSucceeds L}.
Local Abbreviation Eng := (Engine L StubClock CounterIdGenerator VecSink).

(** A record that decodes is a valid command. *)
Lemma record_command bytes fr n m :
  bytes_ok bytes → Frame_parse bytes = Ok (fr, n) → inbound_parse_frame fr = Ok m → command_ok m.
Proof.
  intros Hb Hp Hm. apply Frame_parse_bytes in Hp; [|done].
  destruct (inbound_parse_frame_sound fr m Hp Hm) as (? & ? & _). by split.
Qed.

Lemma replay_records_live rs k (e : Eng) :
  live k e → 0 <= k → k + Z.of_nat (length rs) <= MAX_SESSION →
  Forall (λ r, bytes_ok (rec_frame r) ∧ is_i64 (rec_recv_ts r)) rs →
  wp False (replay_records e rs) (λ x, match x with Ok e' => ∃ k', live k' e' | Err _ => True end).
Proof.
  intros Hl Hk Hlen Hrs. revert k e Hl Hk Hlen.
  induction Hrs as [|r rs [Hb Hts] Hrs IH]; intros k e Hl Hk Hlen; cbn [replay_records]; [by exists k|].
  simpl in Hlen. unfold replay_record. destruct (Frame_parse (rec_frame r)) as [[fr n]|] eqn:Hp; [|done].
  destruct (inbound_parse_frame fr) as [m|] eqn:Hm; [|done]. do 2 apply wp_bind.
  eapply wp_conseq; [apply (step_live k)|].
  - by apply set_clock_live.
  - lia.
  - by eapply record_command.
  - intros e' Hl'. apply (IH (k + 1)); [done|lia|lia].
Qed.

Lemma zero_feed_ok ms : feed_ok ms → feed_ok (zero_timestamps <$> ms).
Proof.
  unfold feed_ok. intros H. apply Forall_fmap. eapply Forall_impl; [done|].
  intros [r|t|b|d|s] (Hok & Hw & Hf); (split_and!; [exact Hok| |exact Hf]); simpl in *;
    unfold is_i64, i64_min, i64_max in *; intuition lia.
Qed.

Lemma untimed_feed_ok (b : bool) ms : feed_ok ms → feed_ok ((if b then zero_timestamps else id) <$> ms).
Proof. destruct b; [apply zero_feed_ok|by rewrite list_fmap_id]. Qed.

(** Whatever the bytes, the replay returns; it fails only on bytes that do not
    decode, since every event can be encoded. *)
Lemma replay_bytes_total bytes b :
  bytes_ok bytes → Z.of_nat (length bytes) <= MAX_SESSION →
  ∃ r, replay_bytes (L := L) bytes b = Ret r.
Proof.
  intros Hb Hlen. apply wp_returns. unfold replay_bytes. apply wp_bind.
  eapply wp_conseq; [by apply read_records_total|]. intros [[rs trailing]|e]; [|done]. intros [Hn Hrs].
  apply wp_bind. eapply wp_conseq; [apply (replay_records_live rs 0); [by apply fresh_live|done| |done]|].
  - unfold FRAME_HEADER_BYTES, FRAME_LEN_BYTES, FRAME_KIND_BYTES in Hn. lia.
  - intros [e|err]; [|done]. intros [k Hl]. rewrite encode_events_all. apply wp_bind.
    destruct (encode_all_frames _ [] (untimed_feed_ok b _ (live_feed _ _ Hl))) as (fs & Henc & _).
    unfold VecSink_take. cbn [fst]. by rewrite Henc.
Qed.

(** The log of a live session, its last record possibly torn, replays to the
    session's own feed with the timestamps zeroed, whatever the live clock was and
    whatever times were recorded. *)
Lemma replay_live {C} `{!Clock C} `{!ClockWidth C} (clock : C) session rs torn n :
  clock_ok clock → session_ok session → Z.of_nat (length session) <= MAX_SESSION →
  Forall2 logged session rs → record_ok torn → (n < length (record_bytes torn))%nat →
  ∃ e out,
    run (engine_new clock CounterIdGenerator_new VecSink_new : Engine L C CounterIdGenerator VecSink) session.*1 = Ret e ∧
    encode_all (zero_timestamps <$> events (e_sink e)) [] = Ret (Ok out) ∧
    replay_bytes (L := L) (record_all rs [] ++ take n (record_bytes torn)) true = Ret (Ok out).
Proof.
  intros Hc Hok Hlen Hl Ht Hn.
  destruct (fresh_session (L := L) clock session.*1) as (e & He & _ & Hfeed).
  - done.
  - apply Forall_fmap. eapply Forall_impl; [done|]. intros [m ts] (? & ? & _). by split.
  - by rewrite length_fmap.
  - destruct (encode_all_frames _ [] (zero_feed_ok _ Hfeed)) as (fs & Henc & _).
    exists e, (List.concat fs). split_and!; [done..|]. rewrite (replay_bytes_ok session) by done.
    pose proof (timed_run_lockstep (engine_new clock CounterIdGenerator_new VecSink_new) replay_engine session) as Hls.
    unfold orel in Hls. rewrite He in Hls. specialize (Hls ltac:(by split)).
    destruct (timed_run replay_engine session) as [e2| |]; [|done|done]. cbn [outcome_bind].
    pose proof (un_sink _ _ _ _ _ Hls) as Hs. unfold same_untimed in Hs. by rewrite <-Hs, Henc.
Qed.

(** A session taken at its recorded times returns. *)
Lemma timed_run_live k (e : Eng) session :
  live k e → 0 <= k → k + Z.of_nat (length session) <= MAX_SESSION → session_ok session →
  wp False (timed_run e session) (live (k + Z.of_nat (length session))).
Proof.
  intros Hl Hk Hlen Hs. revert k e Hl Hk Hlen.
  induction Hs as [|[m ts] session (Hm & Hw & Hts) Hs IH]; intros k e Hl Hk Hlen; cbn [timed_run length] in *.
  { by rewrite Z.add_0_r. }
  apply wp_bind. eapply wp_conseq; [apply (step_live k); [by apply set_clock_live|lia|by split]|]. intros e' Hl'.
  replace (k + Z.of_nat (S (length session))) with (k + 1 + Z.of_nat (length session)) by lia. apply IH; [done|lia|lia].
Qed.

(** The log of a session decodes, with or without timestamps in the output. *)
Lemma replay_logged session rs b :
  session_ok session → Z.of_nat (length session) <= MAX_SESSION → Forall2 logged session rs →
  ∃ out, replay_bytes (L := L) (record_all rs []) b = Ret (Ok out).
Proof.
  intros Hs Hlen Hl. rewrite <-(app_nil_r (record_all rs [])).
  pose proof (replay_bytes_ok (L := L) session rs (mkRecord [1; 0; 0; 0; 1] 0) 0 b Hs Hl) as H. simpl take in H. rewrite H.
  - pose proof (timed_run_live 0 replay_engine session ltac:(by apply fresh_live) ltac:(done) Hlen Hs) as (e & -> & He)%wp_total.
    cbn [outcome_bind]. destruct (encode_all_frames _ [] (untimed_feed_ok b _ (live_feed _ _ He))) as (fs & -> & _).
    cbn [outcome_bind map_err]. eauto.
  - split; [|by vm_compute]. split; [vm_compute; lia|done].
  - vm_compute. lia.
Qed.

(** ** The exit codes *)

Section Cli.
Context {E F : Type} (fs_read : F → string → result (list Z) E)
  (fs_write : F → string → list Z → F * result unit E).

(** What [fs::read] and [fs::write] promise: files hold bytes, and a file written
    is the file read. *)
Record fs_laws : Prop := {
  fs_bytes f p bs : fs_read f p = Ok bs → bytes_ok bs;
  fs_written f p bs f' : fs_write f p bs = (f', Ok tt) → fs_read f' p = Ok bs;
}.

(** [main] always exits: with 0 exactly when the replayed feed is in the outbound
    file, with 3 exactly when the log does not decode, and the file system is
    touched only after the whole log was replayed. *)
Lemma main_cli_ok f args :
  fs_laws → (∀ p bs, fs_read f p = Ok bs → Z.of_nat (length bs) <= MAX_SESSION) →
  ∃ f' code, main_cli (L := L) fs_read fs_write f args = Ret (f', code) ∧
    match code with
    | 0 => ∃ prog inp out rest bytes feed, args = prog :: inp :: out :: rest ∧ fs_read f inp = Ok bytes ∧
        replay_bytes (L := L) bytes (existsb (String.eqb "--no-timestamps") args) = Ret (Ok feed) ∧
        fs_read f' out = Ok feed
    | 3 => f' = f ∧ ∃ prog inp out rest bytes err, args = prog :: inp :: out :: rest ∧ fs_read f inp = Ok bytes ∧
        replay_bytes (L := L) bytes (existsb (String.eqb "--no-timestamps") args) = Ret (Err err)
    | 2 => (length args < 3)%nat ∨ (∃ inp e, args !! 1%nat = Some inp ∧ fs_read f inp = Err e) ∨
        ∃ out feed e, args !! 2%nat = Some out ∧ fs_write f out feed = (f', Err e)
    | _ => False
    end.
Proof.
  intros [Hfb Hfw] Hlen. unfold main_cli, run_cli. case_decide as Hargs; cbn [outcome_bind].
  { exists f, 2. eauto. }
  destruct args as [|prog [|inp [|out rest]]]; try (simpl in Hargs; lia). cbn [lookup list_lookup expect outcome_bind].
  destruct (fs_read f inp) as [bytes|e] eqn:Hr; [|exists f, 2; naive_solver].
  destruct (replay_bytes_total bytes (existsb (String.eqb "--no-timestamps") (prog :: inp :: out :: rest)))
    as [r Hrep]; [by eapply Hfb|by eapply Hlen|]. rewrite Hrep. cbn [outcome_bind].
  destruct r as [feed|err]; [|exists f, 3; naive_solver].
  destruct (fs_write f out feed) as [f' [[]|e]] eqn:Hw; [|exists f', 2; naive_solver].
  exists f', 0. split; [done|]. exists prog, inp, out, rest, bytes, feed. split_and!; [done..|by apply (Hfw f)].
Qed.
End Cli.
End Total.
