(* ===== verification/EngineCanon.v ===== *)
(** * EngineCanon: the engine does not depend on its price levels

    An engine over any lawful price level and the engine over [FifoLevel] run in
    lockstep: the same messages, risk state, registry and id source, and books of
    which one is the canonical form of the other.  So what is computed over
    [FifoLevel], such as the replay of the committed fixture, holds for every
    lawful implementation of the third-party crate. *)

From S2P Require Import Prelude Script BTree Domain PriceLevel FifoLevel Book BookSpec BookInv BookMatch BookOps BookReplace BookCanon Messages Ids Risk Engine EngineInv EngineStep EngineRun EngineBounds EngineFeed Bytes Framing WireInbound WireOutbound MarketData Channels Recorder Client Replay EngineLockstep ReplayTotal.
#[local] Open Scope Z_scope.

#[global] Instance CounterIdGenerator_converge : IdsConverge CounterIdGenerator.
Proof. intros [t s]. simpl. unfold checked_add. by case_decide. Qed.

Lemma book_new_ok {L} `{!PriceLevelOps L} `{!PriceLevelLaws L} : book_ok (book_new : Book L).
Proof. exact (ei_book _ (engine_new_inv (StubClock_new 0) CounterIdGenerator_new VecSink_new)). Qed.

Section Canon.
Context {L : Type} `{!PriceLevelOps L} `{!PriceLevelLaws L} `{!SnapshotSucceeds L}.

(** A well-formed book and its canonical form. *)
Definition canon_of (b : Book L) (b' : Book FifoLevel) : Prop := book_ok b ∧ b' = canon b.

Lemma canon_of_new : canon_of book_new book_new.
Proof. split; [apply book_new_ok|done]. Qed.

#[global] Instance canon_sim {I} `{!IdGenerator I} `{!IdsConverge I} :
  BookSim (I := I) inbound_ok (λ _, qty_ok) canon_of.
Proof.
  split.
  - intros b ? [Hok ->]. by rewrite canon_best_bid.
  - intros b ? [Hok ->]. by rewrite canon_best_ask.
  - intros b ? s [Hok ->]. by rewrite canon_side_qty.
  - intros b ? [Hok ->]. by rewrite canon_bid_levels.
  - intros b ? [Hok ->]. by rewrite canon_ask_levels.
  - intros b ? msg ids (_ & _ & Hq & _) [Hok ->] taker.
    eapply (orel_map _ True); [by apply canon_match_aggressive|by apply match_aggressive_keeps_ok|].
    intros [[[[b' ids'] fills] stp] res] [Hb' Hr]. by split_and!.
  - intros b ? msg p q (Hid & Hacct & _ & Hp) Hsome Htif Hq [Hok ->] ord.
    rewrite canon_add_resting by done. split; [|done]. split; [|done].
    assert (Hord : resting_ok ord).
    { refine (conj Hid (conj Hacct (conj _ (conj Hq Htif)))). simpl. destruct (no_order_type msg); [destruct Hp as (p' & ? & ?)|]; simplify_eq; done. }
    pose proof (add_resting_ok b ord Hok Hord) as H. destruct (add_resting b ord) as [b' [[]|e]]; simpl;
      [apply H|by destruct H as [-> _]].
  - intros b ? id [Hok ->]. rewrite canon_cancel by done. split; [|done]. split; [|done].
    rewrite cancel_eq by done. destruct (_ !! id) as [m|] eqn:Hm; simpl; [by apply cancelled_post|done].
  - intros b ? msg ids (_ & _ & Hp & Hq) [Hok ->].
    eapply (orel_map _ True); [by apply canon_replace|by apply replace_keeps_ok|].
    intros [[[[b' ids'] fills] stp] res] Hb'. by split_and!.
  - intros b ? a [Hok ->]. rewrite canon_mass_cancel by done. pose proof (mass_cancel_ok b a [] Hok) as H.
    destruct (mass_cancel b a []) as [[b' out] n]. split_and!; [split; [apply H|done]|done|done].
Qed.

Section Run.
Context {C I S : Type} `{!Clock C} `{!IdGenerator I} `{!IdsConverge I} `{!OutboundSink S}.

Definition same_engine (e : Engine L C I S) (e' : Engine FifoLevel C I S) : Prop := lockstep canon_of eq eq e e'.

Lemma step_canon e e' msg : inbound_ok msg → same_engine e e' → orel same_engine (step e msg) (step e' msg).
Proof.
  intros Hm. apply (step_lockstep canon_of eq); [by intros c ? <-| |done].
  by intros s ? m1 m2 <- <-%stamped_eq.
Qed.

Lemma run_canon e e' msgs : Forall inbound_ok msgs → same_engine e e' → orel same_engine (run e msgs) (run e' msgs).
Proof.
  intros Hm. apply (run_lockstep canon_of eq); [by intros c ? <-| |done].
  by intros s ? m1 m2 <- <-%stamped_eq.
Qed.

Lemma new_canon (clock : C) (ids : I) (sink : S) : same_engine (engine_new clock ids sink) (engine_new clock ids sink).
Proof. split; try done. apply canon_of_new. Qed.
End Run.

(** ** Replay *)

Definition same_replay (x : result (Engine L StubClock CounterIdGenerator VecSink) BoxError)
    (y : result (Engine FifoLevel StubClock CounterIdGenerator VecSink) BoxError) : Prop :=
  match x, y with Ok e, Ok e' => same_engine e e' | Err a, Err b => a = b | _, _ => False end.

Lemma replay_record_canon e e' r :
  bytes_ok (rec_frame r) → same_engine e e' → orel same_replay (replay_record e r) (replay_record e' r).
Proof.
  intros Hb He. unfold replay_record. destruct (Frame_parse (rec_frame r)) as [[fr n]|err] eqn:Hp; [|done].
  destruct (inbound_parse_frame fr) as [m|err] eqn:Hm; [|done].
  eapply orel_bind; [apply step_canon; [by eapply record_command|by destruct He; split]|]. done.
Qed.

Lemma replay_records_canon e e' rs :
  Forall (λ r, bytes_ok (rec_frame r)) rs → same_engine e e' →
  orel same_replay (replay_records e rs) (replay_records e' rs).
Proof.
  intros Hrs. revert e e'. induction Hrs as [|r rs Hr Hrs IH]; intros e e' He; [done|]. cbn [replay_records].
  eapply orel_bind; [by apply replay_record_canon|]. intros [a|a] [b|b] Hab; try done. by apply IH.
Qed.

Lemma replay_bytes_canon bytes b :
  bytes_ok bytes → replay_bytes (L := L) bytes b = replay_bytes (L := FifoLevel) bytes b.
Proof.
  intros Hb. unfold replay_bytes. pose proof (read_records_total bytes Hb) as Hr.
  destruct (read_records bytes) as [[[rs tr]|err]| |]; try done. simpl in Hr. destruct Hr as [_ Hrs]. cbn [outcome_bind].
  assert (H : orel same_replay (replay_records (L := L) replay_engine rs) (replay_records (L := FifoLevel) replay_engine rs)).
  { apply replay_records_canon; [|apply new_canon]. eapply Forall_impl; [exact Hrs|]. by intros r []. }
  destruct (replay_records _ rs) as [[e|a]| |], (replay_records _ rs) as [[e'|a']| |]; try done; simpl in *.
  - by rewrite (un_sink _ _ _ _ _ H).
  - by rewrite H.
Qed.

End Canon.
