(* ===== verification/BookTests.v ===== *)
(** * BookTests: the unit tests of the book

    The [#[test]] functions of [crates/matching/src/book.rs], each a script over a
    book that panics when an assertion fails.  The scripts are generic in the price
    level: [same_book_script] shows that no lawful level can change their verdict, so
    running them over [FifoLevel] runs them over every lawful implementation of
    [pricelevel].  A validated constant such as [Price::new(100).expect("ok")] is
    written as its value; the fixture builders validate their arguments. *)

From S2P Require Import Prelude Script BTree Domain PriceLevel FifoLevel Book BookSpec BookInv BookMatch BookOps BookReplace BookCanon Messages Ids Engine EngineLockstep EngineCanon.
#[local] Open Scope Z_scope.

#[global] Instance result_eq_dec {A E} `{!EqDecision A} `{!EqDecision E} : EqDecision (result A E).
Proof. solve_decision. Defined.
#[global] Instance MatchResult_eq_dec : EqDecision MatchResult.
Proof. solve_decision. Defined.
#[global] Instance ReplaceOutcome_eq_dec : EqDecision ReplaceOutcome.
Proof. solve_decision. Defined.

(** ** Fixtures *)

(** The id source of the tests; an overflow would panic in a test build. *)
Record MockIds := mkMockIds { mi_next_trade : Z; mi_next_seq : Z }.
Definition MockIds_new : MockIds := mkMockIds 1 1.
#[global] Instance MockIds_ids : IdGenerator MockIds := {
  next_trade_id g :=
    let v := mi_next_trade g in
    let! n := expect (checked_add u64_max v 1) in Ret (v, mkMockIds n (mi_next_seq g));
  next_engine_seq g :=
    let v := mi_next_seq g in
    let! n := expect (checked_add u64_max v 1) in Ret (v, mkMockIds (mi_next_trade g) n);
}.
#[global] Instance MockIds_converge : IdsConverge MockIds.
Proof. intros [t s]. simpl. unfold checked_add. by case_decide. Qed.

Definition order_tif (id account : Z) (side : Side) (price qty : Z) (tif : Tif) : outcome RestingOrder :=
  let! order_id := expect_ok (OrderId_new id) in
  let! account_id := expect_ok (AccountId_new account) in
  let! price := expect_ok (Price_new price) in
  let! qty := expect_ok (Qty_new qty) in
  Ret (mkResting order_id account_id side price qty tif).
Definition order_acct (id account : Z) (side : Side) (price qty : Z) : outcome RestingOrder :=
  order_tif id account side price qty Gtc.
Definition order (id : Z) (side : Side) (price qty : Z) : outcome RestingOrder := order_acct id 1 side price qty.

Definition taker_tif (id account : Z) (side : Side) (price : option Z) (qty : Z) (tif : Tif) : outcome AggressiveOrder :=
  let! order_id := expect_ok (OrderId_new id) in
  let! account_id := expect_ok (AccountId_new account) in
  let! price := match price with
                | Some p => let! p := expect_ok (Price_new p) in Ret (Some p)
                | None => Ret None
                end in
  let! qty := expect_ok (Qty_new qty) in
  Ret (mkAggressive order_id account_id side price qty tif).
Definition taker_acct (id account : Z) (side : Side) (price : option Z) (qty : Z) : outcome AggressiveOrder :=
  taker_tif id account side price qty Gtc.
Definition taker (id : Z) (side : Side) (price : option Z) (qty : Z) : outcome AggressiveOrder :=
  taker_acct id 99 side price qty.
Definition taker_post_only (id account : Z) (side : Side) (price qty : Z) : outcome AggressiveOrder :=
  taker_tif id account side (Some price) qty PostOnly.

(** ** The book's operations as scripts *)

Section Tests.
Context {L : Type} `{!PriceLevelOps L}.
Local Abbreviation test := (script (Book L)).

Definition do_add (o : RestingOrder) : test (result unit BookError) :=
  λ b, let '(b, r) := add_resting b o in Ret (r, b).
Definition do_cancel (id : OrderId) : test (result (Side * Price) BookError) :=
  λ b, let '(b, r) := cancel b id in Ret (r, b).
Definition do_mass_cancel (account : AccountId) : test (list MassCancellation * Z) :=
  λ b, let '(b, out, n) := mass_cancel b account [] in Ret ((out, n), b).

(** [let r = book.match_aggressive(.., &mut MockIds::new(), &mut buf, &mut stp)] on
    fresh buffers: the summary, the fills and the cancellations. *)
Definition do_match (t : AggressiveOrder) : test (MatchResult * list Fill * list StpCancellation) :=
  λ b, let! '(b, _, fills, stp, r) := match_aggressive b t MockIds_new [] [] in Ret ((r, fills, stp), b).

(** [do_replace]. *)
Definition do_replace (id price qty : Z) : test (result ReplaceOutcome BookError * list Fill * list StpCancellation) :=
  let* id := expected (OrderId_new id) in
  let* price := expected (Price_new price) in
  let* qty := expected (Qty_new qty) in
  λ b, let! '(b, _, fills, stp, r) := replace b id price qty MockIds_new [] [] in Ret ((r, fills, stp), b).

(** [book.add_resting(..).expect("add")], [book.cancel(..).expect("cancel")] and a
    match of an order just built. *)
Definition add_expect (o : outcome RestingOrder) : test unit :=
  let* o := lift o in let* r := do_add o in expected r.
Definition cancel_expect (id : OrderId) : test (Side * Price) := let* r := do_cancel id in expected r.
Definition run_taker (t : outcome AggressiveOrder) : test (MatchResult * list Fill * list StpCancellation) :=
  let* t := lift t in do_match t.

(** Assertions on the book. *)
Definition best_bid_is (p : option Price) : test unit := λ b, check_eq (best_bid b) p b.
Definition best_ask_is (p : option Price) : test unit := λ b, check_eq (best_ask b) p b.
Definition side_qty_is (s : Side) (q : Z) : test unit := λ b, check_eq (side_qty b s) q b.
Definition order_count_is (s : Side) (n : Z) : test unit := λ b, check_eq (side_order_count b s) n b.

(** [buf[i]]: indexing out of range panics. *)
Definition at_index {A} (l : list A) (i : nat) : test A := lift (expect (l !! i)).

Definition test_book_new_is_empty : test unit :=
  let* _ := best_bid_is None in
  let* _ := best_ask_is None in
  let* _ := side_qty_is Bid 0 in
  side_qty_is Ask 0.

Definition test_add_resting_records_qty_and_best_bid : test unit :=
  let* o := lift (order 1 Bid 100 10) in
  let* r := do_add o in
  let* _ := check (is_ok r) in
  let* _ := best_bid_is (Some 100) in
  side_qty_is Bid 10.

Definition test_add_duplicate_order_id_returns_err : test unit :=
  let* o := lift (order 1 Bid 100 10) in
  let* r := do_add o in
  let* _ := check (is_ok r) in
  let* r := do_add o in
  check_eq r (Err DuplicateOrderId).

Definition test_cancel_unknown_order_id_returns_err : test unit :=
  let* r := do_cancel 99 in
  check_eq r (Err UnknownOrderId).

Definition test_add_then_cancel_restores_state : test unit :=
  let* o := lift (order 1 Bid 100 10) in
  let* r := do_add o in
  let* _ := expected r in
  let* x := cancel_expect (ro_order_id o) in
  let* _ := check_eq x.1 Bid in
  let* _ := check_eq x.2 (ro_price o) in
  let* _ := best_bid_is None in
  let* _ := side_qty_is Bid 0 in
  order_count_is Bid 0.

Definition test_cancel_twice_returns_err_on_second_call : test unit :=
  let* o := lift (order 1 Bid 100 10) in
  let* r := do_add o in
  let* _ := expected r in
  let* r := do_cancel (ro_order_id o) in
  let* _ := check (is_ok r) in
  let* r := do_cancel (ro_order_id o) in
  check_eq r (Err UnknownOrderId).

Definition test_best_bid_picks_max_price : test unit :=
  let* _ := add_expect (order 1 Bid 100 10) in
  let* _ := add_expect (order 2 Bid 105 10) in
  let* _ := add_expect (order 3 Bid 102 10) in
  best_bid_is (Some 105).

Definition test_best_ask_picks_min_price : test unit :=
  let* _ := add_expect (order 1 Ask 100 10) in
  let* _ := add_expect (order 2 Ask 95 10) in
  let* _ := add_expect (order 3 Ask 98 10) in
  best_ask_is (Some 95).

Definition test_level_removed_when_last_order_cancelled : test unit :=
  let* _ := add_expect (order 1 Bid 100 10) in
  let* _ := add_expect (order 2 Bid 100 5) in
  let* _ := cancel_expect 1 in
  let* _ := best_bid_is (Some 100) in
  let* _ := side_qty_is Bid 5 in
  let* _ := cancel_expect 2 in
  let* _ := best_bid_is None in
  side_qty_is Bid 0.

Definition test_qty_conservation_across_add_cancel_sequence : test unit :=
  let* _ := for_each (seqZ 1 10) (λ i, add_expect (order i Bid (100 + i) 10)) in
  let* _ := side_qty_is Bid 100 in
  let* _ := order_count_is Bid 10 in
  let* _ := for_each (seqZ 1 10) (λ i, let* _ := cancel_expect i in script_ret tt) in
  let* _ := side_qty_is Bid 0 in
  let* _ := order_count_is Bid 0 in
  best_bid_is None.

Definition test_two_sided_book : test unit :=
  let* _ := add_expect (order 1 Bid 99 10) in
  let* _ := add_expect (order 2 Ask 101 5) in
  let* _ := best_bid_is (Some 99) in
  let* _ := best_ask_is (Some 101) in
  let* _ := side_qty_is Bid 10 in
  side_qty_is Ask 5.

Definition test_match_aggressive_empty_book_zero_fills : test unit :=
  let* '(r, buf, stp) := run_taker (taker 1 Bid (Some 100) 10) in
  let* _ := check_eq (mr_fills_count r) 0 in
  let* _ := check_eq (mr_taker_remaining r) (Some 10) in
  check_eq (length buf) O.

Definition test_match_aggressive_full_fill_single_maker : test unit :=
  let* _ := add_expect (order 1 Ask 100 10) in
  let* '(r, buf, stp) := run_taker (taker 2 Bid (Some 100) 10) in
  let* _ := check_eq (mr_fills_count r) 1 in
  let* _ := check_eq (mr_taker_remaining r) None in
  let* _ := check_eq (length buf) 1%nat in
  let* f := at_index buf 0 in
  let* _ := check_eq (f_qty f) 10 in
  let* _ := check_eq (f_price f) 100 in
  let* _ := check_eq (f_maker_order_id f) 1 in
  let* _ := check_eq (f_taker_order_id f) 2 in
  let* _ := check_eq (f_maker_side f) Ask in
  let* _ := check (f_maker_fully_filled f) in
  let* _ := best_ask_is None in
  side_qty_is Ask 0.

Definition test_match_aggressive_partial_taker_remaining : test unit :=
  let* _ := add_expect (order 1 Ask 100 5) in
  let* '(r, buf, stp) := run_taker (taker 2 Bid (Some 100) 10) in
  let* _ := check_eq (mr_fills_count r) 1 in
  let* _ := check_eq (mr_taker_remaining r) (Some 5) in
  let* f := at_index buf 0 in
  check_eq (f_qty f) 5.

Definition test_match_aggressive_walks_multiple_levels_best_first : test unit :=
  let* _ := add_expect (order 1 Ask 105 5) in
  let* _ := add_expect (order 2 Ask 100 5) in
  let* '(r, buf, stp) := run_taker (taker 3 Bid (Some 110) 8) in
  let* _ := check_eq (mr_fills_count r) 2 in
  let* _ := check_eq (mr_taker_remaining r) None in
  let* f := at_index buf 0 in
  let* _ := check_eq (f_price f) 100 in
  let* _ := check_eq (f_qty f) 5 in
  let* f := at_index buf 1 in
  let* _ := check_eq (f_price f) 105 in
  let* _ := check_eq (f_qty f) 3 in
  let* _ := best_ask_is (Some 105) in
  side_qty_is Ask 2.

Definition test_match_aggressive_limit_stops_at_non_crossing_level : test unit :=
  let* _ := add_expect (order 1 Ask 100 5) in
  let* _ := add_expect (order 2 Ask 105 5) in
  let* '(r, buf, stp) := run_taker (taker 3 Bid (Some 100) 10) in
  let* _ := check_eq (mr_fills_count r) 1 in
  let* _ := check_eq (mr_taker_remaining r) (Some 5) in
  let* f := at_index buf 0 in
  let* _ := check_eq (f_price f) 100 in
  side_qty_is Ask 5.

Definition test_match_aggressive_market_order_walks_all_crossing_levels : test unit :=
  let* _ := add_expect (order 1 Ask 100 3) in
  let* _ := add_expect (order 2 Ask 110 3) in
  let* _ := add_expect (order 3 Ask 200 3) in
  let* '(r, buf, stp) := run_taker (taker 4 Bid None 100) in
  let* _ := check_eq (mr_fills_count r) 3 in
  let* _ := check_eq (mr_taker_remaining r) (Some 91) in
  best_ask_is None.

Definition test_match_aggressive_bid_taker_walks_asks_ascending : test unit :=
  let* _ := add_expect (order 1 Ask 200 5) in
  let* _ := add_expect (order 2 Ask 100 5) in
  let* '(r, buf, stp) := run_taker (taker 3 Bid (Some 300) 5) in
  let* _ := check_eq (mr_fills_count r) 1 in
  let* f := at_index buf 0 in
  check_eq (f_price f) 100.

Definition test_match_aggressive_ask_taker_walks_bids_descending : test unit :=
  let* _ := add_expect (order 1 Bid 50 5) in
  let* _ := add_expect (order 2 Bid 100 5) in
  let* '(r, buf, stp) := run_taker (taker 3 Ask (Some 40) 5) in
  let* _ := check_eq (mr_fills_count r) 1 in
  let* f := at_index buf 0 in
  check_eq (f_price f) 100.

Definition test_match_aggressive_sidecar_clean_after_full_fills : test unit :=
  let* _ := add_expect (order 1 Ask 100 5) in
  let* _ := add_expect (order 2 Ask 100 5) in
  let* '(r, buf, stp) := run_taker (taker 3 Bid (Some 100) 10) in
  let* _ := check_eq (mr_fills_count r) 2 in
  let* _ := check_eq (mr_taker_remaining r) None in
  let* c := do_cancel 1 in
  let* _ := check_eq c (Err UnknownOrderId) in
  let* c := do_cancel 2 in
  check_eq c (Err UnknownOrderId).

Definition test_match_aggressive_trade_id_monotonic_per_fill : test unit :=
  let* _ := add_expect (order 1 Ask 100 3) in
  let* _ := add_expect (order 2 Ask 110 3) in
  let* '(r, buf, stp) := run_taker (taker 3 Bid (Some 120) 6) in
  let* _ := check_eq (mr_fills_count r) 2 in
  let* f := at_index buf 0 in
  let* _ := check_eq (f_trade_id f) 1 in
  let* f := at_index buf 1 in
  check_eq (f_trade_id f) 2.

Definition test_stp_same_account_first_maker_cancels_both : test unit :=
  let* _ := add_expect (order_acct 1 7 Ask 100 5) in
  let* '(r, buf, stp) := run_taker (taker_acct 2 7 Bid (Some 100) 5) in
  let* _ := check_eq (mr_fills_count r) 0 in
  let* _ := check_eq (mr_stp_cancellations r) 1 in
  let* _ := check (mr_taker_stp_cancelled r) in
  let* _ := check_eq (mr_taker_remaining r) (Some 5) in
  let* s := at_index stp 0 in
  let* _ := check_eq (stp_order_id s) 1 in
  let* _ := check_eq (stp_account_id s) 7 in
  let* _ := check_eq (stp_price s) 100 in
  let* _ := check_eq (stp_qty s) 5 in
  let* _ := best_ask_is None in
  let* c := do_cancel 1 in
  check_eq c (Err UnknownOrderId).

Definition test_stp_after_partial_fill_against_other_account : test unit :=
  let* _ := add_expect (order_acct 1 2 Ask 100 3) in
  let* _ := add_expect (order_acct 2 7 Ask 100 5) in
  let* '(r, buf, stp) := run_taker (taker_acct 99 7 Bid (Some 100) 10) in
  let* _ := check_eq (mr_fills_count r) 1 in
  let* _ := check_eq (mr_stp_cancellations r) 1 in
  let* _ := check (mr_taker_stp_cancelled r) in
  let* f := at_index buf 0 in
  let* _ := check_eq (f_maker_order_id f) 1 in
  let* _ := check_eq (f_qty f) 3 in
  let* s := at_index stp 0 in
  let* _ := check_eq (stp_order_id s) 2 in
  check_eq (mr_taker_remaining r) (Some 7).

Definition test_stp_no_fire_when_different_accounts : test unit :=
  let* _ := add_expect (order_acct 1 2 Ask 100 5) in
  let* '(r, buf, stp) := run_taker (taker_acct 2 7 Bid (Some 100) 5) in
  let* _ := check_eq (mr_fills_count r) 1 in
  let* _ := check_eq (mr_stp_cancellations r) 0 in
  let* _ := check (negb (mr_taker_stp_cancelled r)) in
  let* _ := check_eq (mr_taker_remaining r) None in
  check_eq (length stp) O.

Definition test_stp_cancels_first_same_account_skips_remaining_levels : test unit :=
  let* _ := add_expect (order_acct 1 7 Ask 100 1) in
  let* _ := add_expect (order_acct 2 2 Ask 105 5) in
  let* '(r, buf, stp) := run_taker (taker_acct 3 7 Bid (Some 110) 6) in
  let* _ := check_eq (mr_fills_count r) 0 in
  let* _ := check_eq (mr_stp_cancellations r) 1 in
  let* _ := check (mr_taker_stp_cancelled r) in
  let* _ := best_ask_is (Some 105) in
  side_qty_is Ask 5.

Definition test_post_only_rejected_when_would_cross_at_arrival : test unit :=
  let* _ := add_expect (order_acct 1 2 Ask 100 5) in
  let* '(r, buf, stp) := run_taker (taker_post_only 99 7 Bid 100 5) in
  let* _ := check (mr_taker_post_only_rejected r) in
  let* _ := check_eq (mr_fills_count r) 0 in
  let* _ := check_eq (mr_stp_cancellations r) 0 in
  let* _ := check (negb (mr_taker_stp_cancelled r)) in
  let* _ := check_eq (mr_taker_remaining r) (Some 5) in
  let* _ := check_eq (length buf) O in
  let* _ := check_eq (length stp) O in
  let* _ := best_ask_is (Some 100) in
  side_qty_is Ask 5.

Definition test_post_only_not_rejected_when_no_cross : test unit :=
  let* _ := add_expect (order_acct 1 2 Ask 105 5) in
  let* '(r, buf, stp) := run_taker (taker_post_only 99 7 Bid 100 5) in
  let* _ := check (negb (mr_taker_post_only_rejected r)) in
  let* _ := check_eq (mr_fills_count r) 0 in
  check_eq (mr_taker_remaining r) (Some 5).

Definition test_post_only_empty_book_not_rejected : test unit :=
  let* '(r, buf, stp) := run_taker (taker_post_only 99 7 Bid 100 5) in
  let* _ := check (negb (mr_taker_post_only_rejected r)) in
  check_eq (mr_fills_count r) 0.

Definition test_replace_qty_down_same_price_keeps_priority : test unit :=
  let* _ := add_expect (order 1 Bid 100 10) in
  let* '(outcome, fills, stp) := do_replace 1 100 7 in
  let* outcome := expected outcome in
  let* _ := check (rp_kept_priority outcome) in
  let* _ := check_eq (rp_match_result outcome) None in
  let* _ := check_eq (length fills) O in
  let* _ := side_qty_is Bid 7 in
  best_bid_is (Some 100).

Definition test_replace_qty_up_same_price_loses_priority : test unit :=
  let* _ := add_expect (order 1 Bid 100 10) in
  let* '(outcome, fills, stp) := do_replace 1 100 15 in
  let* outcome := expected outcome in
  let* _ := check (negb (rp_kept_priority outcome)) in
  let* _ := check_eq (length fills) O in
  let* _ := side_qty_is Bid 15 in
  best_bid_is (Some 100).

Definition test_replace_price_change_loses_priority : test unit :=
  let* _ := add_expect (order 1 Bid 100 10) in
  let* '(outcome, fills, stp) := do_replace 1 99 10 in
  let* outcome := expected outcome in
  let* _ := check (negb (rp_kept_priority outcome)) in
  let* _ := check_eq (length fills) O in
  let* _ := best_bid_is (Some 99) in
  side_qty_is Bid 10.

Definition test_replace_unknown_order_id_returns_err : test unit :=
  let* '(outcome, fills, stp) := do_replace 99 100 5 in
  check_eq (outcome) (Err UnknownOrderId).

Definition test_replace_qty_down_keeps_fifo_position_at_level : test unit :=
  let* _ := add_expect (order 1 Bid 100 5) in
  let* _ := add_expect (order 2 Bid 100 5) in
  let* '(outcome, fills, stp) := do_replace 1 100 3 in
  let* outcome := expected outcome in
  let* _ := check (rp_kept_priority outcome) in
  let* '(r, buf, stp) := run_taker (taker 99 Ask (Some 100) 1) in
  let* _ := check_eq (mr_fills_count r) 1 in
  let* f := at_index buf 0 in
  check_eq (f_maker_order_id f) 1.

Definition test_replace_reprice_through_spread_trades_and_book_not_crossed : test unit :=
  let* _ := add_expect (order_acct 1 1 Ask 100 10) in
  let* _ := add_expect (order_acct 2 2 Bid 99 10) in
  let* '(outcome, fills, stp) := do_replace 2 100 10 in
  let* outcome := expected outcome in
  let* _ := check (negb (rp_kept_priority outcome)) in
  let* result := lift (expect (rp_match_result outcome)) in
  let* _ := check_eq (mr_fills_count result) 1 in
  let* _ := check_eq (mr_taker_remaining result) None in
  let* _ := check_eq (length stp) O in
  let* _ := check_eq (length fills) 1%nat in
  let* f := at_index fills 0 in
  let* _ := check_eq (f_maker_order_id f) 1 in
  let* _ := check_eq (f_taker_order_id f) 2 in
  let* _ := check_eq (f_price f) 100 in
  let* _ := check_eq (f_qty f) 10 in
  let* _ := check (f_maker_fully_filled f) in
  let* _ := best_bid_is None in
  let* _ := best_ask_is None in
  let* _ := side_qty_is Bid 0 in
  side_qty_is Ask 0.

Definition test_replace_reprice_partial_cross_rests_residual : test unit :=
  let* _ := add_expect (order_acct 1 1 Ask 100 5) in
  let* _ := add_expect (order_acct 2 2 Bid 99 10) in
  let* '(outcome, fills, stp) := do_replace 2 100 10 in
  let* outcome := expected outcome in
  let* result := lift (expect (rp_match_result outcome)) in
  let* _ := check_eq (mr_fills_count result) 1 in
  let* _ := check_eq (mr_taker_remaining result) (Some 5) in
  let* f := at_index fills 0 in
  let* _ := check_eq (f_qty f) 5 in
  let* _ := best_ask_is None in
  let* _ := best_bid_is (Some 100) in
  side_qty_is Bid 5.

Definition test_replace_reprice_onto_own_order_stp_cancel_both : test unit :=
  let* _ := add_expect (order_acct 1 7 Ask 100 10) in
  let* _ := add_expect (order_acct 2 7 Bid 99 10) in
  let* '(outcome, fills, stp) := do_replace 2 100 10 in
  let* outcome := expected outcome in
  let* result := lift (expect (rp_match_result outcome)) in
  let* _ := check (mr_taker_stp_cancelled result) in
  let* _ := check_eq (length fills) O in
  let* _ := check_eq (length stp) 1%nat in
  let* s := at_index stp 0 in
  let* _ := check_eq (stp_order_id s) 1 in
  let* _ := best_bid_is None in
  best_ask_is None.

Definition test_replace_noncrossing_reprice_rests_no_fills : test unit :=
  let* _ := add_expect (order_acct 1 1 Ask 100 10) in
  let* _ := add_expect (order_acct 2 2 Bid 99 10) in
  let* '(outcome, fills, stp) := do_replace 2 98 10 in
  let* outcome := expected outcome in
  let* result := lift (expect (rp_match_result outcome)) in
  let* _ := check_eq (mr_fills_count result) 0 in
  let* _ := check_eq (length fills) O in
  let* _ := check_eq (length stp) O in
  let* _ := best_bid_is (Some 98) in
  let* _ := best_ask_is (Some 100) in
  side_qty_is Bid 10.

Definition test_replace_postonly_would_cross_rejected_book_unchanged : test unit :=
  let* _ := add_expect (order_acct 1 1 Ask 100 10) in
  let* _ := add_expect (order_tif 2 2 Bid 99 10 PostOnly) in
  let* '(outcome, fills, stp) := do_replace 2 100 10 in
  let* outcome := expected outcome in
  let* result := lift (expect (rp_match_result outcome)) in
  let* _ := check (mr_taker_post_only_rejected result) in
  let* _ := check_eq (length fills) O in
  let* _ := check_eq (length stp) O in
  let* _ := best_bid_is (Some 99) in
  let* _ := best_ask_is (Some 100) in
  let* _ := side_qty_is Bid 10 in
  side_qty_is Ask 10.

Definition test_replace_postonly_noncrossing_reprice_rests : test unit :=
  let* _ := add_expect (order_acct 1 1 Ask 100 10) in
  let* _ := add_expect (order_tif 2 2 Bid 99 10 PostOnly) in
  let* '(outcome, fills, stp) := do_replace 2 98 10 in
  let* outcome := expected outcome in
  let* result := lift (expect (rp_match_result outcome)) in
  let* _ := check (negb (mr_taker_post_only_rejected result)) in
  let* _ := check_eq (mr_fills_count result) 0 in
  let* _ := check_eq (length fills) O in
  let* _ := best_bid_is (Some 98) in
  side_qty_is Bid 10.

Definition test_mass_cancel_drops_all_account_orders : test unit :=
  let* _ := add_expect (order_acct 1 7 Bid 100 5) in
  let* _ := add_expect (order_acct 2 7 Ask 110 3) in
  let* _ := add_expect (order_acct 3 2 Bid 99 4) in
  let* '(out, n) := do_mass_cancel 7 in
  let* _ := check_eq n 2 in
  let* _ := check_eq (length out) 2%nat in
  let* _ := best_bid_is (Some 99) in
  let* _ := side_qty_is Bid 4 in
  let* _ := best_ask_is None in
  let* c := do_cancel 1 in
  let* _ := check_eq c (Err UnknownOrderId) in
  let* c := do_cancel 2 in
  check_eq c (Err UnknownOrderId).

Definition test_mass_cancel_emits_in_sorted_order_id_order : test unit :=
  let* _ := add_expect (order_acct 7 7 Bid 100 1) in
  let* _ := add_expect (order_acct 2 7 Bid 100 1) in
  let* _ := add_expect (order_acct 5 7 Bid 100 1) in
  let* '(out, n) := do_mass_cancel 7 in
  let* _ := check_eq n 3 in
  let* c := at_index out 0 in
  let* _ := check_eq (mc_order_id c) 2 in
  let* c := at_index out 1 in
  let* _ := check_eq (mc_order_id c) 5 in
  let* c := at_index out 2 in
  check_eq (mc_order_id c) 7.

Definition test_mass_cancel_unknown_account_returns_zero : test unit :=
  let* _ := add_expect (order_acct 1 2 Bid 100 1) in
  let* '(out, n) := do_mass_cancel 99 in
  let* _ := check_eq n 0 in
  let* _ := check_eq (length out) O in
  side_qty_is Bid 1.

Definition test_mass_cancel_carries_residual_qty : test unit :=
  let* _ := add_expect (order_acct 1 7 Bid 100 9) in
  let* '(out, _) := do_mass_cancel 7 in
  let* c := at_index out 0 in
  let* _ := check_eq (mc_qty c) 9 in
  let* _ := check_eq (mc_price c) 100 in
  let* _ := check_eq (mc_side c) Bid in
  check_eq (mc_account_id c) 7.

Definition book_tests : list (test unit) :=
  [test_book_new_is_empty;
   test_add_resting_records_qty_and_best_bid;
   test_add_duplicate_order_id_returns_err;
   test_cancel_unknown_order_id_returns_err;
   test_add_then_cancel_restores_state;
   test_cancel_twice_returns_err_on_second_call;
   test_best_bid_picks_max_price;
   test_best_ask_picks_min_price;
   test_level_removed_when_last_order_cancelled;
   test_qty_conservation_across_add_cancel_sequence;
   test_two_sided_book;
   test_match_aggressive_empty_book_zero_fills;
   test_match_aggressive_full_fill_single_maker;
   test_match_aggressive_partial_taker_remaining;
   test_match_aggressive_walks_multiple_levels_best_first;
   test_match_aggressive_limit_stops_at_non_crossing_level;
   test_match_aggressive_market_order_walks_all_crossing_levels;
   test_match_aggressive_bid_taker_walks_asks_ascending;
   test_match_aggressive_ask_taker_walks_bids_descending;
   test_match_aggressive_sidecar_clean_after_full_fills;
   test_match_aggressive_trade_id_monotonic_per_fill;
   test_stp_same_account_first_maker_cancels_both;
   test_stp_after_partial_fill_against_other_account;
   test_stp_no_fire_when_different_accounts;
   test_stp_cancels_first_same_account_skips_remaining_levels;
   test_post_only_rejected_when_would_cross_at_arrival;
   test_post_only_not_rejected_when_no_cross;
   test_post_only_empty_book_not_rejected;
   test_replace_qty_down_same_price_keeps_priority;
   test_replace_qty_up_same_price_loses_priority;
   test_replace_price_change_loses_priority;
   test_replace_unknown_order_id_returns_err;
   test_replace_qty_down_keeps_fifo_position_at_level;
   test_replace_reprice_through_spread_trades_and_book_not_crossed;
   test_replace_reprice_partial_cross_rests_residual;
   test_replace_reprice_onto_own_order_stp_cancel_both;
   test_replace_noncrossing_reprice_rests_no_fills;
   test_replace_postonly_would_cross_rejected_book_unchanged;
   test_replace_postonly_noncrossing_reprice_rests;
   test_mass_cancel_drops_all_account_orders;
   test_mass_cancel_emits_in_sorted_order_id_order;
   test_mass_cancel_unknown_account_returns_zero;
   test_mass_cancel_carries_residual_qty].
End Tests.

(** ** The verdict does not depend on the price level *)

(** The arguments of the fixture builders, within their integer types. *)
Definition in_widths (id account price qty : Z) : Prop :=
  is_u64 id ∧ is_u32 account ∧ is_i64 price ∧ is_u64 qty.

Lemma order_tif_valid id a s p q tif :
  in_widths id a p q → tif ≠ Ioc → wp True (order_tif id a s p q tif) resting_ok.
Proof.
  intros (Hid & Ha & Hp & Hq) Htif. unfold order_tif, OrderId_new, AccountId_new.
  destruct (Z.eqb_spec id 0); [done|]. destruct (Z.eqb_spec a 0); [done|]. simpl.
  destruct (Price_new p) as [p'|] eqn:Hp'; [|done]. destruct (Qty_new q) as [q'|] eqn:Hq'; [|done].
  apply Price_new_Ok in Hp' as (-> & ? & _). apply Qty_new_Ok in Hq' as (-> & ? & _); [|apply Hq].
  unfold is_u64, is_u32, is_i64 in *. unfold resting_ok. cbn. rewrite price_ok_pos, qty_ok_pos.
  unfold order_id_ok, account_id_ok. simpl. split_and!; try done; lia.
Qed.

Lemma taker_tif_valid id a s p q tif :
  is_u64 q → wp True (taker_tif id a s p q tif) (λ t, qty_ok (ao_qty t)).
Proof.
  intros Hq. unfold taker_tif. destruct (OrderId_new id); [|done]. destruct (AccountId_new a); [|done]. simpl.
  destruct (match p with Some _ => _ | None => _ end) as [lim| |] eqn:Hlim; simpl; [|done|].
  - destruct (Qty_new q) as [q'|] eqn:Hq'; [|done]. apply Qty_new_Ok in Hq' as (-> & ? & _); [|apply Hq].
    simpl. apply qty_ok_pos. unfold is_u64 in Hq. lia.
  - destruct p as [p|]; [|done]. by destruct (Price_new p).
Qed.

Section Related.
Context {L : Type} `{!PriceLevelOps L} `{!PriceLevelLaws L} `{!SnapshotSucceeds L}.
Local Abbreviation same := (same_script (canon_of (L := L))).

Lemma same_do_add o : resting_ok o → same (do_add o) (do_add o).
Proof.
  intros Ho b ? [Hok ->]. unfold do_add. rewrite canon_add_resting by (done || apply Ho).
  pose proof (add_resting_ok b o Hok Ho) as H. destruct (add_resting b o) as [b' [[]|e]]; simpl.
  - split; [done|]. split; [apply H|done].
  - split; [done|]. split; [by destruct H as [-> _]|done].
Qed.

Lemma same_do_cancel id : same (do_cancel id) (do_cancel id).
Proof.
  intros b ? Hb. pose proof (sim_cancel (I := CounterIdGenerator) _ _ id Hb) as [Hb' Hr]. unfold do_cancel.
  destruct (cancel b id) as [b1 r1], (cancel _ id) as [b2 r2]. simpl in *. by subst r2.
Qed.

Lemma same_mass_cancel a : same (do_mass_cancel a) (do_mass_cancel a).
Proof.
  intros b ? Hb. pose proof (sim_mass (I := CounterIdGenerator) _ _ a Hb) as H. unfold do_mass_cancel.
  destruct (mass_cancel b a []) as [[b1 o1] n1], (mass_cancel _ a []) as [[b2 o2] n2].
  by destruct H as (H & <- & <-).
Qed.

Lemma same_do_match t : qty_ok (ao_qty t) → same (do_match t) (do_match t).
Proof.
  intros Hq b ? [Hok ->]. unfold do_match. rewrite canon_match_aggressive by done. rewrite outcome_bind_map.
  pose proof (match_aggressive_keeps_ok b t MockIds_new [] [] Hok Hq) as H.
  destruct (match_aggressive b t MockIds_new [] []) as [[[[[b' ids] fills] stp] r]| |]; simpl in *; [|done..].
  by destruct H as [H _].
Qed.

Lemma same_do_replace id p q : in_widths id 1 p q → same (do_replace id p q) (do_replace id p q).
Proof.
  intros (Hid & _ & Hp & Hq). unfold do_replace. apply same_bind; [apply same_expected|]. intros id'.
  destruct (Price_new p) as [p'|] eqn:Hp'; [|intros b b' Hb; done].
  destruct (Qty_new q) as [q'|] eqn:Hq'; [|intros b b' Hb; done].
  apply Price_new_Ok in Hp' as (-> & ? & _). apply Qty_new_Ok in Hq' as (-> & ? & _); [|apply Hq].
  assert (price_ok p) by (apply price_ok_pos; unfold is_i64 in Hp; lia).
  assert (qty_ok q) by (apply qty_ok_pos; unfold is_u64 in Hq; lia).
  intros b ? [Hok ->]. cbn [script_bind expected lift expect_ok outcome_bind fst snd].
  rewrite canon_replace by done. rewrite outcome_bind_map.
  pose proof (replace_keeps_ok b id' p q MockIds_new [] [] Hok) as Hw. specialize (Hw ltac:(done) ltac:(done)).
  by destruct (replace b id' p q MockIds_new [] []) as [[[[[b' ids] fills] stp] r]| |].
Qed.

Lemma same_add_expect o : wp True o resting_ok → same (add_expect o) (add_expect o).
Proof.
  intros Ho. eapply same_lift_bind; [exact Ho|]. intros r Hr. apply same_bind; [by apply same_do_add|].
  intros a. apply same_expected.
Qed.

Lemma same_cancel_expect id : same (cancel_expect id) (cancel_expect id).
Proof. apply same_bind; [apply same_do_cancel|]. intros r. apply same_expected. Qed.

Lemma same_run_taker t : wp True t (λ t, qty_ok (ao_qty t)) → same (run_taker t) (run_taker t).
Proof. intros Ht. eapply same_lift_bind; [exact Ht|]. apply same_do_match. Qed.

Lemma same_best_bid p : same (best_bid_is p) (best_bid_is p).
Proof. intros b ? [Hok ->]. unfold best_bid_is. rewrite canon_best_bid. by apply same_check. Qed.
Lemma same_best_ask p : same (best_ask_is p) (best_ask_is p).
Proof. intros b ? [Hok ->]. unfold best_ask_is. rewrite canon_best_ask. by apply same_check. Qed.
Lemma same_side_qty s q : same (side_qty_is s q) (side_qty_is s q).
Proof. intros b ? [Hok ->]. unfold side_qty_is. rewrite canon_side_qty by done. by apply same_check. Qed.
Lemma same_order_count s n : same (order_count_is s n) (order_count_is s n).
Proof. intros b ? [Hok ->]. unfold order_count_is. rewrite canon_side_order_count. by apply same_check. Qed.
End Related.

(** Fixture arguments are in range: literals, or bounded by a hypothesis on the loop variable. *)
Ltac in_range := unfold in_widths, is_u64, is_u32, is_i64, u64_max, u32_max, i64_min, i64_max; lia.
Ltac built := first [apply order_tif_valid; [in_range|discriminate] | apply taker_tif_valid; in_range].

(** A named script, unfolded. *)
Ltac unfold_script :=
  lazymatch goal with |- same_script _ (?t _ _) _ => unfold t | |- same_script _ ?t _ => unfold t end.

(** One lemma per head of the left script. *)
Ltac same_book_scripts :=
  lazymatch goal with
  | |- same_script _ (script_bind (lift (order _ _ _ _)) _) _ =>
      eapply same_lift_bind; [built|intros ? ?; same_book_scripts]
  | |- same_script _ (script_bind _ _) _ => apply same_bind; [same_book_scripts|intros ?; same_book_scripts]
  | |- same_script _ (script_ret _) _ => apply same_ret
  | |- same_script _ (lift _) _ => apply same_lift
  | |- same_script _ (at_index _ _) _ => apply same_lift
  | |- same_script _ (expected _) _ => apply same_expected
  | |- same_script _ (check _) _ => apply same_check
  | |- same_script _ (do_add _) _ => by apply same_do_add
  | |- same_script _ (add_expect _) _ => apply same_add_expect; built
  | |- same_script _ (do_cancel _) _ => apply same_do_cancel
  | |- same_script _ (cancel_expect _) _ => apply same_cancel_expect
  | |- same_script _ (run_taker _) _ => apply same_run_taker; built
  | |- same_script _ (do_replace _ _ _) _ => apply same_do_replace; in_range
  | |- same_script _ (do_mass_cancel _) _ => apply same_mass_cancel
  | |- same_script _ (best_bid_is _) _ => apply same_best_bid
  | |- same_script _ (best_ask_is _) _ => apply same_best_ask
  | |- same_script _ (side_qty_is _ _) _ => apply same_side_qty
  | |- same_script _ (order_count_is _ _) _ => apply same_order_count
  | |- same_script _ (for_each _ _) _ =>
      apply same_for_each; intros ? ?%elem_of_seqZ; same_book_scripts
  | |- same_script _ (match ?x with _ => _ end) _ => destruct x; same_book_scripts
  end.

Lemma same_book_script {L} `{!PriceLevelOps L} `{!PriceLevelLaws L} `{!SnapshotSucceeds L} :
  Forall2 (same_script (canon_of (L := L))) book_tests book_tests.
Proof.
  unfold book_tests.
  repeat first [apply List.Forall2_nil | apply List.Forall2_cons; [unfold_script; same_book_scripts|]].
Qed.

Lemma fifo_book_tests_pass : forallb (passes (book_new : Book FifoLevel)) book_tests = true.
Proof. vm_compute. reflexivity. Qed.

Lemma book_tests_pass {L} `{!PriceLevelOps L} `{!PriceLevelLaws L} `{!SnapshotSucceeds L} :
  forallb (passes (book_new : Book L)) book_tests = true.
Proof. rewrite <-fifo_book_tests_pass. exact (same_passes _ _ _ _ _ same_book_script canon_of_new). Qed.
