(* ===== verification/BookRuns.v ===== *)
(** * BookRuns: the property tests of the book

    The generated-input tests of [crates/matching]: the driver of
    [tests/props_book_not_crossed.rs] and the [proptest!] blocks of [src/book.rs].
    Each is translated as a computation on its input and shown to pass for every
    input of its generator, over every lawful price level; the driver's test is shown
    for every list of commands of the machine's widths. *)

From S2P Require Import Prelude Script BTree Domain PriceLevel Book BookSpec BookInv BookMatch BookOps BookReplace Messages Ids Engine EngineInv EngineOrders EngineL2 EngineCanon BookTests.
#[local] Open Scope Z_scope.

(** ** The command driver *)

(** The driver's id source: the value after the increment. *)
Record TestIds := mkTestIds { ti_trade : Z; ti_seq : Z }.
Definition TestIds_new : TestIds := mkTestIds 0 0.
#[global] Instance TestIds_ids : IdGenerator TestIds := {
  next_trade_id g :=
    let! n := expect (checked_add u64_max (ti_trade g) 1) in Ret (n, mkTestIds n (ti_seq g));
  next_engine_seq g :=
    let! n := expect (checked_add u64_max (ti_seq g) 1) in Ret (n, mkTestIds (ti_trade g) n);
}.

#[global] Instance TestIds_laws : IdGeneratorLaws TestIds.
Proof.
  refine {| seq_mark := λ g, ti_seq g + 1; trade_mark := λ g, ti_trade g + 1;
    id_cap := λ g, Z.to_nat (u64_max - Z.max (ti_trade g) (ti_seq g)) |};
    intros [t s] Hcap; simpl in *; unfold checked_add; rewrite decide_True by lia; simpl;
    eexists; (split; [done|]); simpl; lia.
Defined.

Inductive Command :=
| C_NewOrder (order_id account_id : Z) (side : Side) (price qty : Z) (tif : Tif)
| C_Cancel (order_id : Z)
| C_Replace (order_id new_price new_qty : Z).

(** The fields of a command at their widths. *)
Definition command_ok (c : Command) : Prop :=
  match c with
  | C_NewOrder id account _ price qty _ => in_widths id account price qty
  | C_Cancel id => is_u64 id
  | C_Replace id price qty => in_widths id 1 price qty
  end.

Section Driver.
Context {L : Type} `{!PriceLevelOps L} {I : Type} `{!IdGenerator I}.

(** The book, the id source and the two output buffers of the test. *)
Local Abbreviation driver := (Book L * I * list Fill * list StpCancellation)%type.

Definition apply_new_order (st : driver) (order_id account_id : Z) (side : Side) (price qty : Z) (tif : Tif) :
    outcome driver :=
  let '(book, ids, fills, stp) := st in
  match OrderId_new order_id, AccountId_new account_id, Price_new price, Qty_new qty with
  | Ok order_id, Ok account_id, Ok price, Ok qty =>
      let! '(book, ids, fills, stp, result) :=
        match_aggressive book (mkAggressive order_id account_id side (Some price) qty tif) ids fills stp in
      if mr_taker_stp_cancelled result || mr_taker_post_only_rejected result || bool_decide (tif = Ioc)
      then Ret (book, ids, fills, stp) else
      match mr_taker_remaining result with
      | Some remaining =>
          Ret ((add_resting book (mkResting order_id account_id side price remaining tif)).1, ids, fills, stp)
      | None => Ret (book, ids, fills, stp)
      end
  | _, _, _, _ => Ret st
  end.

Definition apply_command (st : driver) (cmd : Command) : outcome driver :=
  match cmd with
  | C_NewOrder order_id account_id side price qty tif => apply_new_order st order_id account_id side price qty tif
  | C_Cancel order_id =>
      let '(book, ids, fills, stp) := st in
      match OrderId_new order_id with
      | Ok oid => Ret ((cancel book oid).1, ids, fills, stp)
      | Err _ => Ret st
      end
  | C_Replace order_id new_price new_qty =>
      let '(book, ids, fills, stp) := st in
      match OrderId_new order_id, Price_new new_price, Qty_new new_qty with
      | Ok oid, Ok p, Ok q =>
          let! '(book, ids, fills, stp, _) := replace book oid p q ids fills stp in Ret (book, ids, fills, stp)
      | _, _, _ => Ret st
      end
  end.

Definition assert_not_crossed (book : Book L) : outcome unit :=
  match best_bid book, best_ask book with
  | Some bid, Some ask => assert (bid <? ask)
  | _, _ => Ret tt
  end.

(** [for cmd in &commands]. *)
Fixpoint drive_commands (st : driver) (commands : list Command) : outcome unit :=
  match commands with
  | [] => Ret tt
  | cmd :: commands =>
      let! st := apply_command st cmd in
      let! _ := assert_not_crossed st.1.1.1 in
      drive_commands st commands
  end.

Definition book_never_crossed_across_add_cancel_replace (ids : I) (commands : list Command) : outcome unit :=
  drive_commands (book_new, ids, [], []) commands.
End Driver.

(** ** The driver keeps the book uncrossed *)

Section Uncrossed.
Context {L : Type} `{!PriceLevelOps L} `{!PriceLevelLaws L} `{!SnapshotSucceeds L}.
Context {I : Type} `{!IdGenerator I} `{!IdGeneratorLaws I}.
Implicit Types (b : Book L) (ids : I).

Lemma queue_index_size b s : book_ok b → (length (side_queue b s) <= size (index b))%nat.
Proof.
  intros Hok. rewrite <-(length_fmap q_id), <-size_dom, <-(size_list_to_set (C := gset Z)) by by eapply side_queue_ids_NoDup.
  apply subseteq_size. intros id. rewrite elem_of_list_to_set, list_elem_of_fmap, elem_of_dom.
  intros (q & -> & Hq). destruct (side_queue_index _ _ _ _ Hok Hq) as (m & -> & _). eauto.
Qed.

Lemma index_size_mono b b' : index b' ⊆ index b → (size (index b') <= size (index b))%nat.
Proof. intros H. by apply map_subseteq_size. Qed.

(** What one command may do: the book stays well-formed and uncrossed, at most one
    order is added and at most one trade per resting order happened. *)
Definition tame b ids b' ids' : Prop :=
  book_ok b' ∧ uncrossed b' ∧ (size (index b') <= S (size (index b)))%nat ∧
  (id_cap ids <= size (index b) + id_cap ids')%nat.

Lemma tame_refl b ids : book_ok b → uncrossed b → tame b ids b ids.
Proof. intros. split_and!; [done..|lia|lia]. Qed.

Section Matched.
Context (b : Book L) (taker : AggressiveOrder) (ids : I) (fills fills' : list Fill) (stp stp' : list StpCancellation)
  (b' : Book L) (ids' : I) (res : MatchResult).
Hypotheses (Hok : book_ok b) (Hcap : (size (index b) <= id_cap ids)%nat)
  (Hpost : match_post b taker ids fills stp (aggressive_spec b taker) b' ids' fills' stp' res).

Lemma match_cap : (id_cap ids <= size (index b) + id_cap ids')%nat.
Proof.
  destruct (mp_fills _ _ _ _ _ _ _ _ _ _ _ Hpost) as (nf & _ & Ht & _ & Hv).
  pose proof (queue_index_size b (Side_opposite (ao_side taker)) Hok) as Hq.
  assert (Hl : (length (f_trade_id <$> nf) <= length (side_queue b (Side_opposite (ao_side taker))))%nat).
  { rewrite length_fmap, <-(length_fmap fill_view), Hv. unfold aggressive_spec.
    destruct (post_only_blocked b taker); simpl; [lia|apply spec_match_fills_length]. }
  destruct (trades_laws _ _ _ Ht ltac:(lia)) as (_ & _ & _ & Hc). lia.
Qed.

Lemma match_tame : uncrossed b → tame b ids b' ids'.
Proof.
  intros Hu. split_and!; [apply Hpost|by eapply (match_uncrossed b taker)| |apply match_cap].
  pose proof (index_size_mono _ _ (mp_index _ _ _ _ _ _ _ _ _ _ _ Hpost)). lia.
Qed.

(** The remainder of a limit order that may rest. *)
Lemma match_rest_tame p n b2 :
  uncrossed b → ao_price taker = Some p → mr_taker_remaining res = Some n →
  mr_taker_stp_cancelled res = false → mr_taker_post_only_rejected res = false →
  add_post b' (mkResting (ao_order_id taker) (ao_account_id taker) (ao_side taker) p n (ao_tif taker)) b2 →
  tame b ids b2 ids'.
Proof.
  intros Hu Hp Hn Hs Hpo Hadd. split_and!; [apply Hadd| | |apply match_cap].
  - eapply uncrossed_add; [apply Hpost|exact Hadd|by eapply (match_uncrossed b taker)|]. simpl. rewrite <-Hp.
    by eapply (match_remainder_no_cross b taker).
  - rewrite (ap_index _ _ _ Hadd), map_size_insert_None by apply Hadd.
    pose proof (index_size_mono _ _ (mp_index _ _ _ _ _ _ _ _ _ _ _ Hpost)). lia.
Qed.
End Matched.

Definition tame_state b ids : Book L * I * list Fill * list StpCancellation → Prop :=
  λ st, tame b ids st.1.1.1 st.1.1.2.

Lemma new_order_tame b ids fills stp id account side price qty tif :
  book_ok b → uncrossed b → (size (index b) <= id_cap ids)%nat → in_widths id account price qty →
  wp False (apply_new_order (b, ids, fills, stp) id account side price qty tif) (tame_state b ids).
Proof.
  intros Hok Hu Hcap (Hid & Ha & Hp & Hq). unfold apply_new_order, OrderId_new, AccountId_new.
  destruct (Z.eqb_spec id 0); [by apply tame_refl|]. destruct (Z.eqb_spec account 0); [by apply tame_refl|].
  destruct (Price_new price) as [p|] eqn:Hp'; [|by apply tame_refl].
  destruct (Qty_new qty) as [q|] eqn:Hq'; [|by apply tame_refl].
  apply Price_new_Ok in Hp' as (-> & Hpp & _). apply Qty_new_Ok in Hq' as (-> & Hqp & _); [|apply Hq].
  unfold is_u64, is_u32, is_i64 in *. assert (Hqok : qty_ok qty) by (apply qty_ok_pos; lia).
  set (taker := mkAggressive id account side (Some price) qty tif). apply wp_bind. eapply wp_conseq.
  { apply (match_aggressive_ok False (λ ids n, (n <= id_cap ids)%nat)); [intros ids0 k; apply next_trade_cap|done..|].
    pose proof (queue_index_size b (Side_opposite (ao_side taker)) Hok). lia. }
  intros [[[[b1 ids1] fills1] stp1] res] [Hpost _]. pose proof (match_tame b taker _ _ _ _ _ _ _ _ Hok Hcap Hpost Hu) as Ht.
  destruct (mr_taker_stp_cancelled res) eqn:Hs; [done|]. destruct (mr_taker_post_only_rejected res) eqn:Hpo; [done|].
  simpl. case_bool_decide as Htif; [done|]. destruct (mr_taker_remaining res) as [n'|] eqn:Hr; [|done].
  assert (Hro : resting_ok (mkResting id account side price n' tif)).
  { unfold resting_ok. cbn. unfold order_id_ok, account_id_ok. rewrite price_ok_pos. split_and!; try lia; [|done].
    rewrite (mp_remaining _ _ _ _ _ _ _ _ _ _ _ Hpost) in Hr. by eapply (aggressive_remaining_ok b taker). }
  pose proof (add_resting_ok b1 _ (mp_ok _ _ _ _ _ _ _ _ _ _ _ Hpost) Hro) as Hadd. cbn [wp].
  destruct (add_resting b1 _) as [b2 [[]|e]]; cbn [fst].
  - by eapply (match_rest_tame b taker).
  - by destruct Hadd as [-> _].
Qed.

Lemma cancel_tame b ids id : book_ok b → uncrossed b → tame b ids (cancel b id).1 ids.
Proof.
  intros Hok Hu. rewrite cancel_eq by done. destruct (index b !! id) as [m|] eqn:Hm; [|by apply tame_refl].
  pose proof (cancelled_post _ _ _ Hok Hm) as Hc. simpl. split_and!; [apply Hc| | |lia].
  - eapply (uncrossed_filter b _ (λ q, q_id q ≠ id)); [done|apply Hc|done|]. intros s. apply (cp_queue _ _ _ Hc).
  - rewrite (cp_index _ _ _ Hc). pose proof (map_subseteq_size _ _ (delete_subseteq (index b) id)). lia.
Qed.

Lemma replace_tame b ids id p n fills stp b' ids' fills' stp' r :
  book_ok b → uncrossed b → (size (index b) <= id_cap ids)%nat →
  replace_post b id p n ids fills stp b' ids' fills' stp' r → tame b ids b' ids'.
Proof.
  intros Hok Hu Hcap. unfold replace_post. destruct (index b !! id) as [m|] eqn:Hm.
  2: { intros (-> & -> & _). by apply tame_refl. }
  intros (q & Hq & Hid & H). destruct (bool_decide (p = om_price m ∧ n <= q_qty q)).
  { destruct H as (_ & Hok' & Hqs & Hidx & _ & -> & _). split_and!; [done| |rewrite Hidx; lia|lia].
    eapply uncrossed_sub; [exact Hok|done..|]. intros s q'. rewrite Hqs. intros (q0 & -> & Hin)%list_elem_of_fmap.
    exists q0. split; [done|]. by case_decide. }
  destruct (bool_decide (om_tif m = PostOnly) && would_cross b (om_side m) (Some p)).
  { destruct H as (_ & -> & -> & _). by apply tame_refl. }
  destruct H as [(b1 & res & Hpost & Hpo & Hrest)]. pose proof (cancelled_post _ _ _ Hok Hm) as Hc.
  set (b0 := cancelled b id m) in *. set (taker := replace_taker id m p n) in *.
  assert (Ht0 : tame b ids b0 ids).
  { pose proof (cancel_tame b ids id Hok Hu) as Ht. by rewrite cancel_eq, Hm in Ht. }
  assert (Hsz : (size (index b0) <= size (index b))%nat).
  { apply index_size_mono. rewrite (cp_index _ _ _ Hc). apply delete_subseteq. }
  destruct Ht0 as (Hok0 & Hu0 & _ & _).
  enough (tame b0 ids b' ids') as (? & ? & ? & ?) by (split_and!; [done..|lia|lia]).
  assert (Hcap0 : (size (index b0) <= id_cap ids)%nat) by lia.
  pose proof (match_tame b0 taker _ _ _ _ _ _ _ _ Hok0 Hcap0 Hpost Hu0) as Ht.
  destruct (mr_taker_stp_cancelled res) eqn:Hs; [by destruct Hrest as [-> _]|].
  destruct (mr_taker_remaining res) as [rest|] eqn:Hr; [|by destruct Hrest as [-> _]].
  destruct Hrest as [[Hadd _]|[-> _]]; [|done].
  eapply (match_rest_tame b0 taker); try done. by rewrite (mp_post_only _ _ _ _ _ _ _ _ _ _ _ Hpost).
Qed.

Lemma apply_command_tame b ids fills stp cmd :
  book_ok b → uncrossed b → (size (index b) <= id_cap ids)%nat → command_ok cmd →
  wp False (apply_command (b, ids, fills, stp) cmd) (tame_state b ids).
Proof.
  intros Hok Hu Hcap Hc. destruct cmd as [id account side price qty tif|id|id price qty]; cbn [apply_command].
  - by apply new_order_tame.
  - destruct (OrderId_new id) as [oid|]; [by apply cancel_tame|by apply tame_refl].
  - destruct Hc as (_ & _ & Hp & Hq). destruct (OrderId_new id) as [oid|]; [|by apply tame_refl].
    destruct (Price_new price) as [p|] eqn:Hp'; [|by apply tame_refl].
    destruct (Qty_new qty) as [q|] eqn:Hq'; [|by apply tame_refl].
    apply Price_new_Ok in Hp' as (-> & Hpp & _). apply Qty_new_Ok in Hq' as (-> & Hqp & _); [|apply Hq].
    unfold is_u64, is_i64 in *. apply wp_bind. eapply wp_conseq.
    { apply (replace_ok False (λ ids n, (n <= id_cap ids)%nat)); [intros ids0 k; apply next_trade_cap|done|..].
      - apply price_ok_pos. lia.
      - apply qty_ok_pos. lia.
      - intros m _. pose proof (queue_index_size b (Side_opposite (om_side m)) Hok). lia. }
    intros [[[[b1 ids1] fills1] stp1] r] Hpost. by eapply replace_tame.
Qed.

Lemma not_crossed_passes b : uncrossed b → assert_not_crossed b = Ret tt.
Proof.
  unfold uncrossed, assert_not_crossed. intros Hu. destruct (best_bid b), (best_ask b); try done.
  specialize (Hu _ _ eq_refl eq_refl). by rewrite (proj2 (Z.ltb_lt _ _)).
Qed.

(** With [k] orders resting and [n] commands to go, at most [n * (k + n)] trades. *)
Lemma drive_commands_passes b ids fills stp commands :
  book_ok b → uncrossed b → Forall command_ok commands →
  (length commands * (size (index b) + length commands) <= id_cap ids)%nat →
  drive_commands (b, ids, fills, stp) commands = Ret tt.
Proof.
  intros Hok Hu Hc. revert b ids fills stp Hok Hu. induction Hc as [|cmd commands Hcmd Hc IH]; intros b ids fills stp Hok Hu Hcap;
    [done|]. cbn [drive_commands length] in *.
  pose proof (apply_command_tame b ids fills stp cmd Hok Hu ltac:(lia) Hcmd) as (st & -> & Ht)%wp_total.
  destruct st as [[[b1 ids1] fills1] stp1]. destruct Ht as (Hok1 & Hu1 & Hsz & Hids). cbn [outcome_bind fst snd] in *.
  rewrite not_crossed_passes by done. cbn [outcome_bind]. apply IH; [done..|].
  assert (Hm : (length commands * (size (index b1) + length commands) <=
                length commands * (S (size (index b)) + length commands))%nat) by (apply Nat.mul_le_mono_l; lia).
  lia.
Qed.
End Uncrossed.

Lemma book_never_crossed_passes {L} `{!PriceLevelOps L} `{!PriceLevelLaws L} `{!SnapshotSucceeds L} {I}
    `{!IdGenerator I} `{!IdGeneratorLaws I} (ids : I) commands :
  Forall command_ok commands → (length commands * length commands <= id_cap ids)%nat →
  book_never_crossed_across_add_cancel_replace (L := L) ids commands = Ret tt.
Proof. intros Hc Hcap. apply drive_commands_passes; [apply book_new_ok|done|done|done]. Qed.

(** ** The property tests of [book.rs] *)

Section Proptests.
Context {L : Type} `{!PriceLevelOps L}.

(** *** Quantity is conserved across adds and cancels *)

(** [expected += qty]: an overflow would panic in a test build. *)
Definition expect_more (side : Side) (qty : Qty) (expected : Z * Z) : outcome (Z * Z) :=
  match side with
  | Bid => let! x := expect (checked_add u64_max expected.1 qty) in Ret (x, expected.2)
  | Ask => let! x := expect (checked_add u64_max expected.2 qty) in Ret (expected.1, x)
  end.

(** [for (i, (side, price, qty)) in orders.iter().enumerate()]. *)
Fixpoint add_orders (i : Z) (orders : list (Side * Price * Qty)) (book : Book L) (expected : Z * Z) (ids : list OrderId) :
    outcome (Book L * (Z * Z) * list OrderId) :=
  match orders with
  | [] => Ret (book, expected, ids)
  | (side, price, qty) :: orders =>
      let! id := expect_ok (OrderId_new (i + 1)) in
      let '(book, added) := add_resting book (mkResting id 1 side price qty Gtc) in
      if is_ok added then
        let! expected := expect_more side qty expected in
        add_orders (i + 1) orders book expected (ids ++ [id])
      else add_orders (i + 1) orders book expected ids
  end.

Definition proptest_qty_conserved_across_add_cancel (orders : list (Side * Price * Qty)) : outcome unit :=
  let! '(book, expected, ids) := add_orders 0 orders book_new (0, 0) [] in
  let! _ := assert_eq (side_qty book Bid) expected.1 in
  let! _ := assert_eq (side_qty book Ask) expected.2 in
  let book := foldl (λ book id, (cancel book id).1) book ids in
  let! _ := assert_eq (side_qty book Bid) 0 in
  let! _ := assert_eq (side_qty book Ask) 0 in
  let! _ := assert_eq (best_bid book) None in
  assert_eq (best_ask book) None.

(** *** Fills *)

(** The asks of the two matching tests, numbered from one, and the prices recorded. *)
Fixpoint add_asks (i : Z) (asks : list (Z * Z)) (book : Book L) (maker_prices : gmap Z Z) :
    outcome (Book L * gmap Z Z) :=
  match asks with
  | [] => Ret (book, maker_prices)
  | (price, qty) :: asks =>
      let! o := order (i + 1) Ask price qty in
      add_asks (i + 1) asks (add_resting book o).1 (<[i + 1 := price]> maker_prices)
  end.

(** [prop_assert_eq!(Some(fill.price), expected_price.map(|p| Price::new(p).expect("ok")))] and the others. *)
Definition fill_at_maker_price (maker_prices : gmap Z Z) (fill : Fill) : outcome unit :=
  let! expected_price :=
    match maker_prices !! f_maker_order_id fill with
    | Some p => let! p := expect_ok (Price_new p) in Ret (Some p)
    | None => Ret None
    end in
  let! _ := assert_eq (Some (f_price fill)) expected_price in
  let! _ := assert (negb (bool_decide (f_maker_order_id fill = f_taker_order_id fill))) in
  assert_eq (f_maker_side fill) Ask.

(** [for fill in &buf]. *)
Fixpoint for_fills (fills : list Fill) (body : Fill → outcome unit) : outcome unit :=
  match fills with [] => Ret tt | f :: fills => let! _ := body f in for_fills fills body end.

Definition proptest_maker_price_equals_trade_price (ask_levels : list (Z * Z)) (taker_qty : Z) : outcome unit :=
  let! '(book, maker_prices) := add_asks 0 ask_levels book_new ∅ in
  let! t := taker 9999 Bid None taker_qty in
  let! '(_, _, buf, _, _) := match_aggressive book t MockIds_new [] [] in
  for_fills buf (fill_at_maker_price maker_prices).

Definition proptest_fill_has_distinct_maker_and_taker (asks : list (Z * Z)) : outcome unit :=
  let! '(book, _) := add_asks 0 asks book_new ∅ in
  let! t := taker 9999 Bid None 1000000 in
  let! '(_, _, buf, _, _) := match_aggressive book t MockIds_new [] [] in
  for_fills buf (λ fill, assert (negb (bool_decide (f_maker_order_id fill = f_taker_order_id fill)))).
End Proptests.

(** ** The quantity of a side *)

Section SideQty.
Context {L : Type} `{!PriceLevelOps L} `{!PriceLevelLaws L}.
Implicit Types (b : Book L).

Lemma queue_qty_perm q1 q2 : q1 ≡ₚ q2 → queue_qty q1 = queue_qty q2.
Proof. unfold queue_qty. induction 1; csimpl; lia. Qed.

(** The [u64] sum over the levels is the sum of the queue, modulo the width. *)
Lemma side_qty_queue b s : book_ok b → side_qty b s = wrap_u64 (queue_qty (side_queue b s)).
Proof.
  intros Hok.
  assert (Hsum : ∀ m acc, (∀ p l, (p, l) ∈ m → level_at b s p = Some l) →
    foldl (λ acc e, wrap_u64 (acc + level_total e.2)) (wrap_u64 acc) m =
    wrap_u64 (acc + queue_qty (m ≫= λ e, level_orders b e.1 e.2))).
  { unfold wrap_u64. induction m as [|[p l] m IH]; intros acc Hm; csimpl.
    - by rewrite Z.add_0_r.
    - rewrite Zplus_mod_idemp_l, queue_qty_app, queue_qty_level.
      destruct (level_total_ok b s p l Hok) as [-> _]; [apply Hm; set_solver|].
      rewrite IH by (intros; apply Hm; set_solver). f_equal. lia. }
  unfold side_qty. change 0 with (wrap_u64 0) at 1. rewrite Hsum.
  - rewrite Z.add_0_l. f_equal. apply queue_qty_perm. unfold side_queue, best_first.
    destruct s; [|done]. by rewrite reverse_Permutation.
  - intros p l Hin. by apply bt_get_elem; [apply Hok|].
Qed.

Lemma empty_index b : book_ok b → index b = ∅ →
  (∀ s, side_queue b s = []) ∧ (∀ s, side_qty b s = 0) ∧ best_bid b = None ∧ best_ask b = None.
Proof.
  intros Hok Hi. assert (Hq : ∀ s, side_queue b s = []).
  { intros s. destruct (side_queue b s) as [|q queue] eqn:E; [done|].
    destruct (side_queue_index _ b s q Hok) as (m & Hm & _); [rewrite E; set_solver|]. by rewrite Hi in Hm. }
  split_and!; [done| | |].
  - intros s. by rewrite side_qty_queue, Hq.
  - pose proof (best_key_queue b Bid Hok) as Hb. simpl in Hb. by rewrite Hb, Hq.
  - pose proof (best_key_queue b Ask Hok) as Hb. simpl in Hb. by rewrite Hb, Hq.
Qed.
End SideQty.

(** ** The property tests pass *)

Section Pass.
Context {L : Type} `{!PriceLevelOps L} `{!PriceLevelLaws L} `{!SnapshotSucceeds L}.
Implicit Types (b : Book L).

(** What the generators draw. *)
Definition arb_order (o : Side * Price * Qty) : Prop := 1 <= o.1.2 <= 1000 ∧ 1 <= o.2 <= 1000.
Definition arb_ask (o : Z * Z) : Prop := 1 <= o.1 <= 100 ∧ 1 <= o.2 <= 100.

(** The quantity the test expects on a side. *)
Definition expected_on (s : Side) (expected : Z * Z) : Z := match s with Bid => expected.1 | Ask => expected.2 end.

(** After [i] orders: the expected quantities are those of the queues, and every
    resting order is in the list to cancel. *)
Record added (i : Z) b (expected : Z * Z) (ids : list OrderId) : Prop := {
  ad_ok : book_ok b;
  ad_qty s : queue_qty (side_queue b s) = expected_on s expected;
  ad_bound s : 0 <= expected_on s expected <= 1000 * i;
  ad_ids id : is_Some (index b !! id) → id ∈ ids;
}.

Lemma expect_more_ok side qty expected i :
  (∀ s, 0 <= expected_on s expected <= 1000 * i) → 1 <= qty <= 1000 → 0 <= i <= 1000 →
  ∃ e', expect_more side qty expected = Ret e' ∧
    ∀ s, expected_on s e' = expected_on s expected + (if decide (s = side) then qty else 0).
Proof.
  intros He Hq Hi. destruct expected as [eb ea]. pose proof (He Bid) as Hb. pose proof (He Ask) as Ha. simpl in *.
  unfold expect_more, checked_add. destruct side; simpl; rewrite decide_True by (unfold u64_max; lia); simpl;
    (eexists; split; [done|]; intros []; simpl; lia).
Qed.

Lemma add_orders_ok orders i b expected ids :
  added i b expected ids → Forall arb_order orders → 0 <= i → i + Z.of_nat (length orders) <= 1000 →
  ∃ b' expected' ids', add_orders i orders b expected ids = Ret (b', expected', ids') ∧
    added (i + Z.of_nat (length orders)) b' expected' ids'.
Proof.
  intros Had Ho. revert i b expected ids Had. induction Ho as [|[[side price] qty] orders [Hp Hq] Ho IH];
    intros i b expected ids Had Hi Hlen; cbn [add_orders length] in *.
  { exists b, expected, ids. by rewrite Z.add_0_r. }
  simpl in Hp, Hq. rewrite OrderId_new_ok by (unfold order_id_ok, u64_max; lia). cbn [expect_ok outcome_bind].
  set (ord := mkResting (i + 1) 1 side price qty Gtc).
  assert (Hro : resting_ok ord).
  { unfold resting_ok, order_id_ok, account_id_ok. cbn. rewrite price_ok_pos, qty_ok_pos.
    unfold u64_max, u32_max, i64_max. split_and!; try lia. done. }
  pose proof (add_resting_ok b ord (ad_ok _ _ _ _ Had) Hro) as Hadd.
  destruct (add_resting b ord) as [b' [[]|e]]; cbn [is_ok].
  - destruct (expect_more_ok side qty expected i (ad_bound _ _ _ _ Had)) as (e' & -> & He'); [lia..|]. cbn [outcome_bind].
    destruct (IH (i + 1) b' e' (ids ++ [i + 1])) as (b2 & e2 & ids2 & -> & H2); [|lia|lia|].
    + split; [apply Hadd|..].
      * intros s. rewrite He', <-(ad_qty _ _ _ _ Had). case_decide as Hs.
        -- subst s. change side with (ro_side ord) at 1. rewrite (ap_queue _ _ _ Hadd).
           rewrite (queue_qty_perm _ _ (spec_insert_perm _ _ _)). unfold queue_qty. csimpl. lia.
        -- assert (s = Side_opposite (ro_side ord)) as -> by (by destruct s, side).
           rewrite (ap_same _ _ _ Hadd). lia.
      * intros s. rewrite He'. pose proof (ad_bound _ _ _ _ Had s). case_decide; lia.
      * intros id. rewrite (ap_index _ _ _ Hadd), lookup_insert_is_Some. rewrite elem_of_app, list_elem_of_singleton.
        intros [<-|[_ Hid]]; [by right|left; by apply (ad_ids _ _ _ _ Had)].
    + exists b2, e2, ids2. split; [done|]. by replace (i + Z.of_nat (S (length orders))) with (i + 1 + Z.of_nat (length orders)) by lia.
  - destruct Hadd as [-> _]. destruct (IH (i + 1) b expected ids) as (b2 & e2 & ids2 & -> & H2); [|lia|lia|].
    + split; [apply Had|apply Had|intros s; pose proof (ad_bound _ _ _ _ Had s); lia|apply Had].
    + exists b2, e2, ids2. split; [done|]. by replace (i + Z.of_nat (S (length orders))) with (i + 1 + Z.of_nat (length orders)) by lia.
Qed.

Lemma cancel_all b ids :
  book_ok b → (∀ id, is_Some (index b !! id) → id ∈ ids) →
  let b' := foldl (λ b id, (cancel b id).1) b ids in book_ok b' ∧ index b' = ∅.
Proof.
  revert b. induction ids as [|id ids IH]; intros b Hok Hids; cbn [foldl].
  { split; [done|]. apply map_empty. intros id. destruct (index b !! id) eqn:E; [|done].
    exfalso. apply (not_elem_of_nil id), Hids. by eexists. }
  rewrite cancel_eq by done. destruct (index b !! id) as [m|] eqn:Hm; cbn [fst].
  - pose proof (cancelled_post _ _ _ Hok Hm) as Hc. apply IH; [apply Hc|]. intros id'. rewrite (cp_index _ _ _ Hc).
    rewrite lookup_delete_is_Some. intros [Hne Hs]. specialize (Hids _ Hs). set_solver.
  - apply IH; [done|]. intros id' Hs. specialize (Hids _ Hs). apply elem_of_cons in Hids as [->|]; [|done].
    rewrite Hm in Hs. by destruct Hs.
Qed.

Lemma qty_conserved_passes orders :
  Forall arb_order orders → (length orders <= 50)%nat →
  proptest_qty_conserved_across_add_cancel (L := L) orders = Ret tt.
Proof.
  intros Ho Hlen. unfold proptest_qty_conserved_across_add_cancel.
  destruct (add_orders_ok orders 0 book_new (0, 0) []) as (b & e & ids & -> & Had); [|done|lia|lia|].
  { split; [apply book_new_ok|by intros []|intros []; simpl; lia|]. intros id [m Hm]. change (index book_new) with (∅ : gmap OrderId OrderMeta) in Hm.
    by rewrite lookup_empty in Hm. }
  cbn [outcome_bind]. assert (Hsq : ∀ s, side_qty b s = expected_on s e).
  { intros s. rewrite side_qty_queue, (ad_qty _ _ _ _ Had) by apply Had. pose proof (ad_bound _ _ _ _ Had s).
    unfold wrap_u64. apply Z.mod_small. lia. }
  rewrite !Hsq. cbn [expected_on]. rewrite !bool_decide_true by done. cbn [assert outcome_bind].
  destruct (cancel_all b ids (ad_ok _ _ _ _ Had) (ad_ids _ _ _ _ Had)) as [Hok Hi].
  destruct (empty_index _ Hok Hi) as (_ & Hq0 & -> & ->). by rewrite !Hq0.
Qed.

(** *** Fills *)

(** After [i] asks: only asks rest, each under its number and at its recorded price. *)
Record asked (i : Z) b (prices : gmap Z Z) : Prop := {
  ak_ok : book_ok b;
  ak_size : (size (index b) <= Z.to_nat i)%nat;
  ak_ask q : q ∈ side_queue b Ask → prices !! q_id q = Some (q_price q) ∧ 0 < q_id q <= i;
}.

Lemma add_asks_ok asks i b prices :
  asked i b prices → Forall arb_ask asks → 0 <= i → i + Z.of_nat (length asks) <= 1000 →
  ∃ b' prices', add_asks i asks b prices = Ret (b', prices') ∧ asked (i + Z.of_nat (length asks)) b' prices'.
Proof.
  intros Hak Ho. revert i b prices Hak. induction Ho as [|[price qty] asks [Hp Hq] Ho IH];
    intros i b prices Hak Hi Hlen; cbn [add_asks length] in *.
  { exists b, prices. by rewrite Z.add_0_r. }
  simpl in Hp, Hq. pose proof (order_tif_valid (i + 1) 1 Ask price qty Gtc) as Hv.
  unfold order, order_acct, order_tif in *. rewrite OrderId_new_ok in * by (unfold order_id_ok, u64_max; lia).
  rewrite Price_new_pos, Qty_new_pos in * by lia. cbn [expect_ok outcome_bind AccountId_new Z.eqb] in *.
  set (ord := mkResting (i + 1) 1 Ask price qty Gtc) in *.
  assert (Hro : resting_ok ord).
  { apply Hv; [|done]. unfold in_widths, is_u64, is_u32, is_i64, u64_max, u32_max, i64_min, i64_max. lia. }
  pose proof (add_resting_ok b ord (ak_ok _ _ _ Hak) Hro) as Hadd.
  replace (i + Z.of_nat (S (length asks))) with (i + 1 + Z.of_nat (length asks)) by lia.
  apply IH; [|lia|lia]. pose proof (ak_size _ _ _ Hak) as Hsz.
  assert (Hold : ∀ q, q ∈ side_queue b Ask → <[i + 1 := price]> prices !! q_id q = Some (q_price q) ∧ 0 < q_id q <= i + 1).
  { intros q Hin. destruct (ak_ask _ _ _ Hak q Hin) as [Hpr ?]. by rewrite lookup_insert_ne by lia; auto with lia. }
  destruct (add_resting b ord) as [b' [[]|e]]; cbn [fst].
  - split; [apply Hadd|..].
    + rewrite (ap_index _ _ _ Hadd), map_size_insert_None by apply Hadd. lia.
    + intros q. change Ask with (ro_side ord) at 1. rewrite (ap_queue _ _ _ Hadd), spec_insert_perm, elem_of_cons.
      intros [->|Hin]; [|by apply Hold]. simpl. by rewrite lookup_insert_eq; auto with lia.
  - destruct Hadd as [-> _]. split; [apply Hak|lia|done].
Qed.

Lemma mock_trade_ok ids n :
  mi_next_trade ids + Z.of_nat (S n) <= u64_max →
  wp False (next_trade_id ids) (λ r, mi_next_trade r.2 + Z.of_nat n <= u64_max).
Proof. intros H. simpl. unfold checked_add. rewrite decide_True by lia. simpl. lia. Qed.

(** The fills of the tests' taker: against resting asks, at their prices. *)
Lemma taker_fills b prices i qty :
  asked i b prices → 0 <= i <= 1000 → 1 <= qty <= 1000000 →
  ∃ t b' ids' fills' stp' res, taker 9999 Bid None qty = Ret t ∧
    match_aggressive b t MockIds_new [] [] = Ret (b', ids', fills', stp', res) ∧
    Forall (λ f, f_taker_order_id f = 9999 ∧ f_maker_side f = Ask ∧ 0 < f_maker_order_id f <= i ∧
      prices !! f_maker_order_id f = Some (f_price f) ∧ price_ok (f_price f)) fills'.
Proof.
  intros Hak Hi Hq. unfold taker, taker_acct, taker_tif. rewrite Qty_new_pos by lia.
  cbn [expect_ok outcome_bind OrderId_new AccountId_new Z.eqb]. set (t := mkAggressive 9999 99 Bid None qty Gtc). exists t.
  pose proof (queue_index_size b Ask (ak_ok _ _ _ Hak)) as Hlen. pose proof (ak_size _ _ _ Hak) as Hsz.
  assert (Hqty : qty_ok (ao_qty t)) by (apply qty_ok_pos; unfold u64_max; simpl; lia).
  pose proof (match_aggressive_ok False (λ ids n, mi_next_trade ids + Z.of_nat n <= u64_max) mock_trade_ok
    b t MockIds_new [] [] (ak_ok _ _ _ Hak) Hqty ltac:(simpl; unfold u64_max; lia))
    as ([[[[b' ids'] fills'] stp'] res] & Hrun & Hpost & _)%wp_total.
  exists b', ids', fills', stp', res. split_and!; [done|done|].
  destruct (mp_fills _ _ _ _ _ _ _ _ _ _ _ Hpost) as (nf & -> & _ & Hof & Hv). simpl.
  change (aggressive_spec b t) with (spec_match Bid None 99 qty (side_queue b Ask)) in Hv.
  destruct (spec_match_makers Bid None 99 qty (side_queue b Ask) _ eq_refl) as (mk & tl & Hqueue & Hid & Hpr & _).
  rewrite <-Hv, <-!list_fmap_compose in Hid, Hpr.
  apply Forall_lookup. intros k f Hf. rewrite Forall_lookup in Hof. destruct (Hof k f Hf) as [Ht Hs].
  assert (Hk : (q_id <$> mk) !! k = Some (f_maker_order_id f) ∧ (q_price <$> mk) !! k = Some (f_price f)).
  { rewrite Hid, Hpr, !list_lookup_fmap, Hf. done. }
  rewrite !list_lookup_fmap in Hk. destruct (mk !! k) as [q|] eqn:Hmk; [|by destruct Hk].
  destruct Hk as [[= Hqid] [= Hqp]]. assert (Hin : q ∈ side_queue b Ask).
  { rewrite Hqueue, elem_of_app. left. by eapply list_elem_of_lookup_2. }
  destruct (ak_ask _ _ _ Hak q Hin) as [Hprice Hrange]. rewrite <-Hqid, <-Hqp.
  destruct (side_queue_index _ _ _ _ (ak_ok _ _ _ Hak) Hin) as (_ & _ & _ & _ & _ & _ & _ & Hpok). exact (conj Ht (conj Hs (conj Hrange (conj Hprice Hpok)))).
Qed.

Lemma for_fills_passes fills body : Forall (λ f, body f = Ret tt) fills → for_fills fills body = Ret tt.
Proof. induction 1 as [|f fills Hf _ IH]; [done|]. cbn [for_fills]. rewrite Hf. apply IH. Qed.

Lemma asks_ready asks : Forall arb_ask asks → (length asks <= 10)%nat →
  ∃ b prices, add_asks (L := L) 0 asks book_new ∅ = Ret (b, prices) ∧ asked (Z.of_nat (length asks)) b prices.
Proof.
  intros Ha Hl. destruct (add_asks_ok asks 0 book_new ∅) as (b & prices & H & Hak); [|done|lia|lia|by eauto].
  split; [apply book_new_ok|done|]. intros q Hq. by apply not_elem_of_nil in Hq.
Qed.

Lemma maker_price_passes asks taker_qty :
  Forall arb_ask asks → (length asks <= 10)%nat → 1 <= taker_qty <= 1000 →
  proptest_maker_price_equals_trade_price (L := L) asks taker_qty = Ret tt.
Proof.
  intros Ha Hl Hq. unfold proptest_maker_price_equals_trade_price.
  destruct (asks_ready asks Ha Hl) as (b & prices & -> & Hak). cbn [outcome_bind].
  destruct (taker_fills b prices _ taker_qty Hak) as (t & b' & ids' & fills & stp & res & -> & Hrun & Hf); [lia..|].
  cbn [outcome_bind]. rewrite Hrun. cbn [outcome_bind]. apply for_fills_passes. eapply Forall_impl; [exact Hf|].
  intros f (Ht & Hs & Hid & Hp & Hpok). unfold fill_at_maker_price. rewrite Hp, Ht, Hs. cbn [outcome_bind].
  rewrite Price_new_ok by done. cbn [expect_ok outcome_bind]. rewrite bool_decide_true by done.
  by rewrite bool_decide_false by lia.
Qed.

Lemma distinct_maker_taker_passes asks :
  Forall arb_ask asks → (length asks <= 10)%nat →
  proptest_fill_has_distinct_maker_and_taker (L := L) asks = Ret tt.
Proof.
  intros Ha Hl. unfold proptest_fill_has_distinct_maker_and_taker.
  destruct (asks_ready asks Ha Hl) as (b & prices & -> & Hak). cbn [outcome_bind].
  destruct (taker_fills b prices _ 1000000 Hak) as (t & b' & ids' & fills & stp & res & -> & Hrun & Hf); [lia..|].
  cbn [outcome_bind]. rewrite Hrun. cbn [outcome_bind]. apply for_fills_passes. eapply Forall_impl; [exact Hf|].
  intros f (Ht & _ & Hid & _). rewrite Ht. by rewrite bool_decide_false by lia.
Qed.
End Pass.
