(* ===== verification/WireTests.v ===== *)
(** * WireTests: the unit tests of the codecs

    The [#[test]] functions of [crates/wire/src] and of [marketdata/src/encoder.rs],
    one Module per source file.  A test is a computation that panics when an assertion
    fails; the shared steps (encode then parse, parse a short payload, parse after
    corrupting a byte) are the functions of the first section. *)

From S2P Require Import Prelude Script Domain Messages Bytes Framing WireInbound WireOutbound MarketData BookTests.
#[local] Open Scope Z_scope.

#[global] Instance DomainError_eq_dec : EqDecision DomainError.
Proof. unfold EqDecision, Decision. repeat decide equality. Defined.
#[global] Instance WireError_eq_dec : EqDecision WireError.
Proof. solve_decision. Defined.
#[global] Instance MessageKind_eq_dec : EqDecision MessageKind.
Proof. solve_decision. Defined.
#[global] Instance NewOrder_eq_dec : EqDecision NewOrder.
Proof. solve_decision. Defined.
#[global] Instance CancelOrder_eq_dec : EqDecision CancelOrder.
Proof. solve_decision. Defined.
#[global] Instance CancelReplace_eq_dec : EqDecision CancelReplace.
Proof. solve_decision. Defined.
#[global] Instance MassCancel_eq_dec : EqDecision MassCancel.
Proof. solve_decision. Defined.
#[global] Instance KillSwitchSet_eq_dec : EqDecision KillSwitchSet.
Proof. solve_decision. Defined.
#[global] Instance SnapshotRequest_eq_dec : EqDecision SnapshotRequest.
Proof. solve_decision. Defined.
#[global] Instance ExecReport_eq_dec : EqDecision ExecReport.
Proof. solve_decision. Defined.
#[global] Instance TradePrint_eq_dec : EqDecision TradePrint.
Proof. solve_decision. Defined.
#[global] Instance BookUpdateTop_eq_dec : EqDecision BookUpdateTop.
Proof. solve_decision. Defined.
#[global] Instance BookUpdateL2Delta_eq_dec : EqDecision BookUpdateL2Delta.
Proof. solve_decision. Defined.
#[global] Instance SnapshotLevel_eq_dec : EqDecision SnapshotLevel.
Proof. solve_decision. Defined.
#[global] Instance SnapshotResponse_eq_dec : EqDecision SnapshotResponse.
Proof. solve_decision. Defined.
#[global] Instance Outbound_eq_dec : EqDecision Outbound.
Proof. solve_decision. Defined.

(** ** Shared steps *)

Section Steps.
Context {A : Type} `{!EqDecision A} (encode : A → list Z → list Z) (parse : list Z → result A WireError).

(** [encode(&msg, &mut buf); assert_eq!(parse(&buf).expect("decode"), msg)]. *)
Definition roundtrips (msg : A) : outcome unit :=
  let! decoded := expect_ok (parse (encode msg [])) in assert_eq decoded msg.

(** [let buf = [0u8; SIZE - 1]; assert!(matches!(parse(&buf), Err(PayloadSize { .. })))]. *)
Definition refuses_short (size : nat) : outcome unit :=
  assert match parse (replicate (size - 1) 0) with Err (PayloadSize _ _) => true | _ => false end.

(** [buf[i] = v] on an encoded message, and what parsing it gives. *)
Definition corrupted (msg : A) (i : nat) (v : Z) : outcome (result A WireError) :=
  let! buf := set_at (encode msg []) i v in Ret (parse buf).
End Steps.

(** ** [wire/src/framing.rs] *)

Module framing_tests.
Definition test_frame_write_then_parse_roundtrip : outcome unit :=
  let payload := [1; 2; 3; 4; 5] in
  let! buf := expect_ok (Frame_write K_NewOrder payload []) in
  let! '(frame, consumed) := expect_ok (Frame_parse buf) in
  let! _ := assert_eq (fr_kind frame) K_NewOrder in
  let! _ := assert_eq (fr_payload frame) payload in
  assert_eq consumed (length buf).
Definition test_frame_parse_truncated_len_returns_err : outcome unit :=
  assert match Frame_parse [1; 0; 0] with Err Truncated => true | _ => false end.
Definition test_frame_parse_truncated_payload_returns_err : outcome unit :=
  let buf := [10; 0; 0; 0] ++ [1] ++ replicate 2 0 in
  assert match Frame_parse buf with Err Truncated => true | _ => false end.
Definition test_frame_parse_unknown_kind_returns_err : outcome unit :=
  let buf := [1; 0; 0; 0] ++ [255] in
  assert match Frame_parse buf with Err (UnknownKind 255) => true | _ => false end.
Definition test_frame_parse_or_skip_unknown_kind_returns_outcome : outcome unit :=
  let buf := [3; 0; 0; 0] ++ [171] ++ replicate 2 0 in
  let! '(outcome, consumed) := expect_ok (parse_or_skip buf) in
  let! _ := assert_eq consumed (length buf) in
  match outcome with PO_UnknownKind byte => assert_eq byte 171 | PO_Frame _ => Panic end.
Definition test_frame_parse_or_skip_known_kind_returns_frame : outcome unit :=
  let payload := [9; 8; 7] in
  let! buf := expect_ok (Frame_write K_CancelOrder payload []) in
  let! '(outcome, consumed) := expect_ok (parse_or_skip buf) in
  let! _ := assert_eq consumed (length buf) in
  match outcome with
  | PO_Frame frame =>
      let! _ := assert_eq (fr_kind frame) K_CancelOrder in
      assert_eq (fr_payload frame) payload
  | PO_UnknownKind _ => Panic
  end.
Definition test_message_kind_try_from_unknown_returns_err : outcome unit :=
  let! _ := assert_eq (MessageKind_try_from 0) (Err (UnknownKind 0)) in
  assert_eq (MessageKind_try_from 127) (Err (UnknownKind 127)).
Definition tests : list (outcome unit) :=
  [test_frame_write_then_parse_roundtrip;
   test_frame_parse_truncated_len_returns_err;
   test_frame_parse_truncated_payload_returns_err;
   test_frame_parse_unknown_kind_returns_err;
   test_frame_parse_or_skip_unknown_kind_returns_outcome;
   test_frame_parse_or_skip_known_kind_returns_frame;
   test_message_kind_try_from_unknown_returns_err].
End framing_tests.

(** ** [wire/src/inbound/new_order.rs] *)

Module new_order_tests.
Definition sample_limit : NewOrder :=
  mkNewOrder 1700000000000000000 42 7 Bid Limit Gtc (Some 100) 5.
Definition sample_market : NewOrder :=
  mkNewOrder 0 1 1 Ask Market Ioc None 10.
Definition test_new_order_wire_size_is_40 : outcome unit :=
  assert_eq (layout_size new_order.NewOrderWire) 40%nat.
Definition test_new_order_limit_roundtrip : outcome unit :=
  roundtrips new_order.encode new_order.parse sample_limit.
Definition test_new_order_market_decodes_with_none_price : outcome unit :=
  let! decoded := expect_ok (new_order.parse (new_order.encode sample_market [])) in
  let! _ := assert_eq (no_price decoded) None in
  assert_eq (no_order_type decoded) Market.
Definition test_new_order_truncated_returns_payload_size_error : outcome unit :=
  refuses_short new_order.parse (layout_size new_order.NewOrderWire).
Definition test_new_order_non_zero_pad_returns_err : outcome unit :=
  let! r := corrupted new_order.encode new_order.parse sample_limit (new_order.PAD0_OFFSET) 255 in
  assert_eq r (Err (NonZeroPad (new_order.PAD0_OFFSET))).
Definition test_new_order_zero_order_id_returns_domain_err : outcome unit :=
  let! buf := fill_range (new_order.encode sample_limit []) 8 8 0 in
  assert match new_order.parse buf with Err (WireDomain _) => true | _ => false end.
Definition tests : list (outcome unit) :=
  [test_new_order_wire_size_is_40;
   test_new_order_limit_roundtrip;
   test_new_order_market_decodes_with_none_price;
   test_new_order_truncated_returns_payload_size_error;
   test_new_order_non_zero_pad_returns_err;
   test_new_order_zero_order_id_returns_domain_err].
End new_order_tests.

(** ** [wire/src/inbound/cancel_order.rs] *)

Module cancel_order_tests.
Definition sample : CancelOrder :=
  mkCancelOrder 100 42 7.
Definition test_cancel_order_wire_size_is_24 : outcome unit :=
  assert_eq (layout_size cancel_order.CancelOrderWire) 24%nat.
Definition test_cancel_order_roundtrip : outcome unit :=
  roundtrips cancel_order.encode cancel_order.parse sample.
Definition test_cancel_order_truncated_returns_payload_size_error : outcome unit :=
  refuses_short cancel_order.parse (layout_size cancel_order.CancelOrderWire).
Definition test_cancel_order_non_zero_pad_returns_err : outcome unit :=
  let! r := corrupted cancel_order.encode cancel_order.parse sample (cancel_order.PAD0_OFFSET) 171 in
  assert_eq r (Err (NonZeroPad (cancel_order.PAD0_OFFSET))).
Definition tests : list (outcome unit) :=
  [test_cancel_order_wire_size_is_24;
   test_cancel_order_roundtrip;
   test_cancel_order_truncated_returns_payload_size_error;
   test_cancel_order_non_zero_pad_returns_err].
End cancel_order_tests.

(** ** [wire/src/inbound/cancel_replace.rs] *)

Module cancel_replace_tests.
Definition sample : CancelReplace :=
  mkCancelReplace 100 42 7 200 11.
Definition test_cancel_replace_wire_size_is_40 : outcome unit :=
  assert_eq (layout_size cancel_replace.CancelReplaceWire) 40%nat.
Definition test_cancel_replace_roundtrip : outcome unit :=
  roundtrips cancel_replace.encode cancel_replace.parse sample.
Definition test_cancel_replace_truncated_returns_payload_size_error : outcome unit :=
  refuses_short cancel_replace.parse (layout_size cancel_replace.CancelReplaceWire).
Definition test_cancel_replace_non_zero_pad_returns_err : outcome unit :=
  let! r := corrupted cancel_replace.encode cancel_replace.parse sample (cancel_replace.PAD0_OFFSET) 1 in
  assert_eq r (Err (NonZeroPad (cancel_replace.PAD0_OFFSET))).
Definition tests : list (outcome unit) :=
  [test_cancel_replace_wire_size_is_40;
   test_cancel_replace_roundtrip;
   test_cancel_replace_truncated_returns_payload_size_error;
   test_cancel_replace_non_zero_pad_returns_err].
End cancel_replace_tests.

(** ** [wire/src/inbound/mass_cancel.rs] *)

Module mass_cancel_tests.
Definition sample : MassCancel :=
  mkMassCancel 0 9.
Definition test_mass_cancel_wire_size_is_16 : outcome unit :=
  assert_eq (layout_size mass_cancel.MassCancelWire) 16%nat.
Definition test_mass_cancel_roundtrip : outcome unit :=
  roundtrips mass_cancel.encode mass_cancel.parse sample.
Definition test_mass_cancel_truncated_returns_payload_size_error : outcome unit :=
  refuses_short mass_cancel.parse (layout_size mass_cancel.MassCancelWire).
Definition test_mass_cancel_non_zero_pad_returns_err : outcome unit :=
  let! r := corrupted mass_cancel.encode mass_cancel.parse sample (mass_cancel.PAD0_OFFSET) 119 in
  assert_eq r (Err (NonZeroPad (mass_cancel.PAD0_OFFSET))).
Definition tests : list (outcome unit) :=
  [test_mass_cancel_wire_size_is_16;
   test_mass_cancel_roundtrip;
   test_mass_cancel_truncated_returns_payload_size_error;
   test_mass_cancel_non_zero_pad_returns_err].
End mass_cancel_tests.

(** ** [wire/src/inbound/kill_switch.rs] *)

Module kill_switch_tests.
Definition sample (state : KillSwitchState) : KillSwitchSet :=
  mkKillSwitchSet 0 3735928559 state.
Definition test_kill_switch_wire_size_is_24 : outcome unit :=
  assert_eq (layout_size kill_switch.KillSwitchSetWire) 24%nat.
Definition test_kill_switch_halt_roundtrip : outcome unit :=
  roundtrips kill_switch.encode kill_switch.parse (sample Halt).
Definition test_kill_switch_resume_roundtrip : outcome unit :=
  roundtrips kill_switch.encode kill_switch.parse (sample Resume).
Definition test_kill_switch_unknown_state_returns_invalid_enum_value : outcome unit :=
  let! r := corrupted kill_switch.encode kill_switch.parse (sample Halt) 16 5 in
  assert_eq r (Err (InvalidEnumValue "state" 5)).
Definition test_kill_switch_non_zero_pad_returns_err : outcome unit :=
  let! r := corrupted kill_switch.encode kill_switch.parse (sample Halt) (kill_switch.PAD0_OFFSET_BASE + 3) 66 in
  assert_eq r (Err (NonZeroPad (kill_switch.PAD0_OFFSET_BASE + 3))).
Definition tests : list (outcome unit) :=
  [test_kill_switch_wire_size_is_24;
   test_kill_switch_halt_roundtrip;
   test_kill_switch_resume_roundtrip;
   test_kill_switch_unknown_state_returns_invalid_enum_value;
   test_kill_switch_non_zero_pad_returns_err].
End kill_switch_tests.

(** ** [wire/src/inbound/snapshot_request.rs] *)

Module snapshot_request_tests.
Definition test_snapshot_request_wire_size_is_16 : outcome unit :=
  assert_eq (layout_size snapshot_request.SnapshotRequestWire) 16%nat.
Definition test_snapshot_request_roundtrip : outcome unit :=
  roundtrips snapshot_request.encode snapshot_request.parse (mkSnapshotRequest 3405691582).
Definition test_snapshot_request_truncated_returns_payload_size_error : outcome unit :=
  refuses_short snapshot_request.parse (layout_size snapshot_request.SnapshotRequestWire).
Definition test_snapshot_request_non_zero_pad_returns_err : outcome unit :=
  let! r := corrupted snapshot_request.encode snapshot_request.parse (mkSnapshotRequest 1) (snapshot_request.PAD0_OFFSET_BASE + 5) 170 in
  assert_eq r (Err (NonZeroPad (snapshot_request.PAD0_OFFSET_BASE + 5))).
Definition tests : list (outcome unit) :=
  [test_snapshot_request_wire_size_is_16;
   test_snapshot_request_roundtrip;
   test_snapshot_request_truncated_returns_payload_size_error;
   test_snapshot_request_non_zero_pad_returns_err].
End snapshot_request_tests.

(** ** [wire/src/outbound/book_update_l2_delta.rs] *)

Module book_update_l2_delta_tests.
Definition sample_present : BookUpdateL2Delta :=
  mkL2Delta 200 50 (Some 13) Bid 1500000.
Definition sample_removed : BookUpdateL2Delta :=
  mkL2Delta 201 60 None Ask 1500001.
Definition test_book_update_l2_delta_wire_size_is_40 : outcome unit :=
  assert_eq (layout_size book_update_l2_delta.BookUpdateL2DeltaWire) 40%nat.
Definition test_book_update_l2_delta_present_roundtrip : outcome unit :=
  roundtrips book_update_l2_delta.encode book_update_l2_delta.parse sample_present.
Definition test_book_update_l2_delta_removed_decodes_with_none_qty : outcome unit :=
  let! decoded := expect_ok (book_update_l2_delta.parse (book_update_l2_delta.encode sample_removed [])) in
  assert_eq (l2_new_qty decoded) None.
Definition test_book_update_l2_delta_truncated_returns_payload_size_error : outcome unit :=
  refuses_short book_update_l2_delta.parse (layout_size book_update_l2_delta.BookUpdateL2DeltaWire).
Definition test_book_update_l2_delta_non_zero_pad_returns_err : outcome unit :=
  let! r := corrupted book_update_l2_delta.encode book_update_l2_delta.parse sample_present (book_update_l2_delta.PAD0_OFFSET_BASE + 2) 170 in
  assert_eq r (Err (NonZeroPad (book_update_l2_delta.PAD0_OFFSET_BASE + 2))).
Definition tests : list (outcome unit) :=
  [test_book_update_l2_delta_wire_size_is_40;
   test_book_update_l2_delta_present_roundtrip;
   test_book_update_l2_delta_removed_decodes_with_none_qty;
   test_book_update_l2_delta_truncated_returns_payload_size_error;
   test_book_update_l2_delta_non_zero_pad_returns_err].
End book_update_l2_delta_tests.

(** ** [wire/src/outbound/book_update_top.rs] *)

Module book_update_top_tests.
Definition sample_two_sided : BookUpdateTop :=
  mkBookUpdateTop 100 (Some (99, 5)) (Some (101, 7)) 1000000.
Definition sample_one_sided : BookUpdateTop :=
  mkBookUpdateTop 101 (Some (99, 5)) None 1000001.
Definition test_book_update_top_wire_size_is_48 : outcome unit :=
  assert_eq (layout_size book_update_top.BookUpdateTopWire) 48%nat.
Definition test_book_update_top_two_sided_roundtrip : outcome unit :=
  roundtrips book_update_top.encode book_update_top.parse sample_two_sided.
Definition test_book_update_top_one_sided_decodes_with_none : outcome unit :=
  let msg := sample_one_sided in
  let! decoded := expect_ok (book_update_top.parse (book_update_top.encode msg [])) in
  let! _ := assert_eq (bt_ask decoded) None in
  assert_eq (bt_bid decoded) (bt_bid msg).
Definition test_book_update_top_truncated_returns_payload_size_error : outcome unit :=
  refuses_short book_update_top.parse (layout_size book_update_top.BookUpdateTopWire).
Definition test_book_update_top_half_empty_bid_returns_err : outcome unit :=
  let! buf := fill_range (book_update_top.encode sample_two_sided []) 16 8 0 in
  assert match book_update_top.parse buf with Err (InconsistentPayload _) => true | _ => false end.
Definition test_book_update_top_half_empty_ask_returns_err : outcome unit :=
  let! buf := fill_range (book_update_top.encode sample_two_sided []) 24 8 0 in
  assert match book_update_top.parse buf with Err (InconsistentPayload _) => true | _ => false end.
Definition tests : list (outcome unit) :=
  [test_book_update_top_wire_size_is_48;
   test_book_update_top_two_sided_roundtrip;
   test_book_update_top_one_sided_decodes_with_none;
   test_book_update_top_truncated_returns_payload_size_error;
   test_book_update_top_half_empty_bid_returns_err;
   test_book_update_top_half_empty_ask_returns_err].
End book_update_top_tests.

(** ** [wire/src/outbound/exec_report.rs] *)

Module exec_report_tests.
Definition sample_accepted : ExecReport :=
  mkExecReport 42 7 3 Accepted None None (Some 10) None None 100 101.
Definition sample_rejected : ExecReport :=
  mkExecReport 43 7 3 Rejected None None None (Some PriceBand) None 200 201.
Definition sample_partial_fill : ExecReport :=
  mkExecReport 44 7 3 PartiallyFilled (Some 100) (Some 3) (Some 7) None None 300 301.
Definition test_exec_report_wire_size_is_64 : outcome unit :=
  assert_eq (layout_size exec_report.ExecReportWire) 64%nat.
Definition test_exec_report_accepted_roundtrip : outcome unit :=
  roundtrips exec_report.encode exec_report.parse sample_accepted.
Definition test_exec_report_rejected_roundtrip : outcome unit :=
  roundtrips exec_report.encode exec_report.parse sample_rejected.
Definition test_exec_report_partial_fill_roundtrip : outcome unit :=
  roundtrips exec_report.encode exec_report.parse sample_partial_fill.
Definition test_exec_report_truncated_returns_payload_size_error : outcome unit :=
  refuses_short exec_report.parse (layout_size exec_report.ExecReportWire).
Definition test_exec_report_non_zero_pad_returns_err : outcome unit :=
  let! r := corrupted exec_report.encode exec_report.parse sample_accepted (exec_report.PAD0_OFFSET) 255 in
  assert_eq r (Err (NonZeroPad (exec_report.PAD0_OFFSET))).
Definition test_exec_report_accepted_with_reject_reason_returns_err : outcome unit :=
  let! r := corrupted exec_report.encode exec_report.parse sample_accepted 21 (RejectReason_as_u8 PriceBand) in
  assert match r with Err (InconsistentPayload _) => true | _ => false end.
Definition test_exec_report_rejected_without_reason_returns_err : outcome unit :=
  let! r := corrupted exec_report.encode exec_report.parse sample_rejected 21 0 in
  assert match r with Err (InconsistentPayload _) => true | _ => false end.
Definition test_exec_report_encode_canonicalises_irrelevant_fields : outcome unit :=
  let sloppy := mkExecReport 42 7 3 Accepted None None (Some 10) (Some PriceBand) (Some UserRequested) 100 101 in
  let! decoded := expect_ok (exec_report.parse (exec_report.encode sloppy [])) in
  let! _ := assert_eq (er_state decoded) Accepted in
  let! _ := assert_eq (er_reject_reason decoded) None in
  assert_eq (er_cancel_reason decoded) None.
Definition tests : list (outcome unit) :=
  [test_exec_report_wire_size_is_64;
   test_exec_report_accepted_roundtrip;
   test_exec_report_rejected_roundtrip;
   test_exec_report_partial_fill_roundtrip;
   test_exec_report_truncated_returns_payload_size_error;
   test_exec_report_non_zero_pad_returns_err;
   test_exec_report_accepted_with_reject_reason_returns_err;
   test_exec_report_rejected_without_reason_returns_err;
   test_exec_report_encode_canonicalises_irrelevant_fields].
End exec_report_tests.

(** ** [wire/src/outbound/snapshot_response.rs] *)

Module snapshot_response_tests.
Definition level (price qty : Z) : outcome SnapshotLevel :=
  let! price := expect_ok (Price_new price) in
  let! qty := expect_ok (Qty_new qty) in
  Ret (mkSnapshotLevel price qty).
Definition sample : outcome SnapshotResponse :=
  let! b1 := level 100 5 in
  let! b2 := level 99 10 in
  let! a1 := level 101 3 in
  let! a2 := level 102 7 in
  let! a3 := level 103 2 in
  Ret (mkSnapshotResponse 42 7 1000 1001 [b1; b2] [a1; a2; a3]).
Definition test_snapshot_response_roundtrip : outcome unit :=
  let! msg := sample in
  let! buf := snapshot_response.encode msg [] in
  let! _ := assert_eq (length buf) (snapshot_response.encoded_len msg) in
  let! decoded := expect_ok (snapshot_response.parse buf) in
  assert_eq decoded msg.
Definition test_snapshot_response_empty_book : outcome unit :=
  let msg := mkSnapshotResponse 1 0 0 0 [] [] in
  let! buf := snapshot_response.encode msg [] in
  let! _ := assert_eq (length buf) snapshot_response.HEADER_BYTES in
  let! decoded := expect_ok (snapshot_response.parse buf) in
  assert_eq decoded msg.
Definition test_snapshot_response_truncated_returns_size_err : outcome unit :=
  refuses_short snapshot_response.parse snapshot_response.HEADER_BYTES.
Definition test_snapshot_response_invalid_level_count_returns_size_err : outcome unit :=
  let header := replicate snapshot_response.HEADER_BYTES 0 in
  let header := take 32 header ++ to_le 4 2 ++ drop 36 header in
  let buf := header ++ replicate snapshot_response.LEVEL_BYTES 0 in
  assert match snapshot_response.parse buf with Err (PayloadSize _ _) => true | _ => false end.
Definition tests : list (outcome unit) :=
  [test_snapshot_response_roundtrip;
   test_snapshot_response_empty_book;
   test_snapshot_response_truncated_returns_size_err;
   test_snapshot_response_invalid_level_count_returns_size_err].
End snapshot_response_tests.

(** ** [wire/src/outbound/trade_print.rs] *)

Module trade_print_tests.
Definition sample : TradePrint :=
  mkTradePrint 50 99 1234 5 Bid 1000000.
Definition test_trade_print_wire_size_is_48 : outcome unit :=
  assert_eq (layout_size trade_print.TradePrintWire) 48%nat.
Definition test_trade_print_roundtrip : outcome unit :=
  roundtrips trade_print.encode trade_print.parse sample.
Definition test_trade_print_truncated_returns_payload_size_error : outcome unit :=
  refuses_short trade_print.parse (layout_size trade_print.TradePrintWire).
Definition test_trade_print_non_zero_pad_returns_err : outcome unit :=
  let! r := corrupted trade_print.encode trade_print.parse sample (trade_print.PAD0_OFFSET_BASE + 4) 255 in
  assert_eq r (Err (NonZeroPad (trade_print.PAD0_OFFSET_BASE + 4))).
Definition tests : list (outcome unit) :=
  [test_trade_print_wire_size_is_48;
   test_trade_print_roundtrip;
   test_trade_print_truncated_returns_payload_size_error;
   test_trade_print_non_zero_pad_returns_err].
End trade_print_tests.

(** ** [marketdata/src/encoder.rs] *)

Module encoder_tests.
Definition test_encode_then_decode_roundtrip_exec_report : outcome unit :=
  let msg := Out_ExecReport (mkExecReport 1 42 7 Accepted None None (Some 5) None None 100 101) in
  let! buf := encode msg [] in
  let! buf := expect_ok buf in
  let! '(decoded, total) := expect_ok (decode buf) in
  let! _ := assert_eq total (length buf) in
  assert_eq decoded msg.
Definition test_encode_then_decode_roundtrip_trade_print : outcome unit :=
  let msg := Out_TradePrint (mkTradePrint 2 1 100 5 Bid 200) in
  let! buf := encode msg [] in
  let! buf := expect_ok buf in
  let! '(decoded, total) := expect_ok (decode buf) in
  let! _ := assert_eq total (length buf) in
  assert_eq decoded msg.
Definition test_encode_then_decode_roundtrip_book_update_top : outcome unit :=
  let msg := Out_BookUpdateTop (mkBookUpdateTop 3 (Some (99, 10)) (Some (101, 7)) 300) in
  let! buf := encode msg [] in
  let! buf := expect_ok buf in
  let! '(decoded, total) := expect_ok (decode buf) in
  let! _ := assert_eq total (length buf) in
  assert_eq decoded msg.
Definition test_encode_appends_to_existing_buffer : outcome unit :=
  let buf := [202; 254] in
  let msg := Out_TradePrint (mkTradePrint 1 1 100 1 Bid 0) in
  let! buf := encode msg buf in
  let! buf := expect_ok buf in
  let! _ := assert_eq (take 2 buf) [202; 254] in
  let! '(decoded, _) := expect_ok (decode (drop 2 buf)) in
  assert_eq decoded msg.
Definition tests : list (outcome unit) :=
  [test_encode_then_decode_roundtrip_exec_report;
   test_encode_then_decode_roundtrip_trade_print;
   test_encode_then_decode_roundtrip_book_update_top;
   test_encode_appends_to_existing_buffer].
End encoder_tests.

Definition wire_tests : list (outcome unit) :=
  framing_tests.tests ++
  new_order_tests.tests ++
  cancel_order_tests.tests ++
  cancel_replace_tests.tests ++
  mass_cancel_tests.tests ++
  kill_switch_tests.tests ++
  snapshot_request_tests.tests ++
  book_update_l2_delta_tests.tests ++
  book_update_top_tests.tests ++
  exec_report_tests.tests ++
  snapshot_response_tests.tests ++
  trade_print_tests.tests ++
  encoder_tests.tests.

Lemma wire_tests_pass : forallb passed wire_tests = true.
Proof. vm_compute. reflexivity. Qed.
