(* ===== verification/DomainTests.v ===== *)
(** * DomainTests: the unit and property tests of the domain types

    The [#[test]] functions of [crates/domain/src/types], one Module per source file.
    The generators of the property tests ([Arbitrary]) are translated with them: an
    enum's generator is the list of its values, an integer's is the map from the
    number drawn to the value.  A property test over integers is proved for every
    number its generator can draw. *)

From S2P Require Import Prelude Script Domain Messages WireTests.
#[local] Open Scope Z_scope.

(** Round trip of a newtype through its raw value: what the property tests of the
    validated newtypes assert. *)
Definition rebuilt {E} (new : Z → result Z E) (v : Z) : outcome unit :=
  let! v' := expect_ok (new v) in assert_eq v' v.

(** [try_from(as_u8(x)).expect(..) == x]. *)
Definition u8_roundtrip {A E} `{!EqDecision A} (as_u8 : A → Z) (try_from : Z → result A E) (x : A) : outcome unit :=
  let! x' := expect_ok (try_from (as_u8 x)) in assert_eq x' x.

(** [prop_assert!(t1 > t0); prop_assert_eq!(t1.as_raw(), seed + 1)]. *)
Definition advances {E} (next : Z → result Z E) (seed : Z) : outcome unit :=
  let! t1 := expect_ok (next seed) in
  let! _ := assert (seed <? t1) in
  assert_eq t1 (seed + 1).

(** [matches!(try_from(v), Err(Unknown(v)))] for each of the bytes. *)
Definition unknown_bytes {A E} `{!EqDecision A} `{!EqDecision E} (try_from : Z → result A E) (unknown : Z → E)
    (bytes : list Z) : outcome unit :=
  assert (forallb (λ v, bool_decide (try_from v = Err (unknown v))) bytes).

#[global] Instance PriceError_eq_dec : EqDecision PriceError.
Proof. solve_decision. Defined.
#[global] Instance QtyError_eq_dec : EqDecision QtyError.
Proof. solve_decision. Defined.
#[global] Instance OrderIdError_eq_dec : EqDecision OrderIdError.
Proof. solve_decision. Defined.
#[global] Instance AccountIdError_eq_dec : EqDecision AccountIdError.
Proof. solve_decision. Defined.
#[global] Instance EngineSeqError_eq_dec : EqDecision EngineSeqError.
Proof. solve_decision. Defined.
#[global] Instance TradeIdError_eq_dec : EqDecision TradeIdError.
Proof. solve_decision. Defined.
#[global] Instance SideError_eq_dec : EqDecision SideError.
Proof. solve_decision. Defined.
#[global] Instance OrderTypeError_eq_dec : EqDecision OrderTypeError.
Proof. solve_decision. Defined.
#[global] Instance TifError_eq_dec : EqDecision TifError.
Proof. solve_decision. Defined.
#[global] Instance RejectReasonError_eq_dec : EqDecision RejectReasonError.
Proof. solve_decision. Defined.
#[global] Instance CancelReasonError_eq_dec : EqDecision CancelReasonError.
Proof. solve_decision. Defined.
#[global] Instance ExecStateError_eq_dec : EqDecision ExecStateError.
Proof. solve_decision. Defined.

Module price_tests.
Definition arbitrary (n : Z) : outcome Price := expect_ok (Price_new (n * TICK_SIZE)).
Definition test_price_new_zero_returns_non_positive : outcome unit := assert_eq (Price_new 0) (Err PriceNonPositive).
Definition test_price_new_negative_returns_non_positive : outcome unit :=
  assert_eq (Price_new (-1)) (Err PriceNonPositive).
Definition test_price_new_one_tick_returns_ok : outcome unit := assert (is_ok (Price_new TICK_SIZE)).
Definition test_price_min_is_one_tick : outcome unit := assert_eq Price_MIN TICK_SIZE.
Definition proptest_price_roundtrip_ticks (n : Z) : outcome unit :=
  let! p := arbitrary n in rebuilt Price_new p.
Definition tests : list (outcome unit) :=
  [test_price_new_zero_returns_non_positive; test_price_new_negative_returns_non_positive;
   test_price_new_one_tick_returns_ok; test_price_min_is_one_tick].
Lemma price_proptests n : 1 <= n <= 1000000 → passed (proptest_price_roundtrip_ticks n) = true.
Proof.
  intros Hn. unfold proptest_price_roundtrip_ticks, arbitrary, rebuilt, TICK_SIZE.
  rewrite !Price_new_pos by lia. simpl. rewrite Price_new_pos by lia. simpl. by rewrite bool_decide_true.
Qed.
End price_tests.

Module qty_tests.
Definition arbitrary (n : Z) : outcome Qty := expect_ok (Qty_new (n * LOT_SIZE)).
Definition test_qty_new_zero_returns_zero_error : outcome unit := assert_eq (Qty_new 0) (Err QtyZero).
Definition test_qty_new_one_lot_returns_ok : outcome unit := assert (is_ok (Qty_new LOT_SIZE)).
Definition test_qty_min_is_one_lot : outcome unit := assert_eq Qty_MIN LOT_SIZE.
Definition proptest_qty_roundtrip_lots (n : Z) : outcome unit := let! q := arbitrary n in rebuilt Qty_new q.
Definition tests : list (outcome unit) :=
  [test_qty_new_zero_returns_zero_error; test_qty_new_one_lot_returns_ok; test_qty_min_is_one_lot].
Lemma qty_proptests n : 1 <= n <= 1000000 → passed (proptest_qty_roundtrip_lots n) = true.
Proof.
  intros Hn. unfold proptest_qty_roundtrip_lots, arbitrary, rebuilt, LOT_SIZE.
  rewrite !Qty_new_pos by lia. simpl. rewrite Qty_new_pos by lia. simpl. by rewrite bool_decide_true.
Qed.
End qty_tests.

Module order_id_tests.
Definition arbitrary (v : Z) : outcome OrderId := expect_ok (OrderId_new v).
Definition test_order_id_new_zero_returns_err : outcome unit := assert_eq (OrderId_new 0) (Err OrderIdZero).
Definition test_order_id_new_one_returns_ok : outcome unit := assert (is_ok (OrderId_new 1)).
Definition proptest_order_id_roundtrip (v : Z) : outcome unit := let! id := arbitrary v in rebuilt OrderId_new id.
Definition tests : list (outcome unit) := [test_order_id_new_zero_returns_err; test_order_id_new_one_returns_ok].
Lemma order_id_proptests v : 1 <= v <= u64_max → passed (proptest_order_id_roundtrip v) = true.
Proof.
  intros Hv. unfold proptest_order_id_roundtrip, arbitrary, rebuilt.
  rewrite OrderId_new_ok by (unfold order_id_ok; lia). simpl. rewrite OrderId_new_ok by (unfold order_id_ok; lia). simpl.
  by rewrite bool_decide_true.
Qed.
End order_id_tests.

Module account_id_tests.
Definition arbitrary (v : Z) : outcome AccountId := expect_ok (AccountId_new v).
Definition test_account_id_new_zero_returns_err : outcome unit := assert_eq (AccountId_new 0) (Err AccountIdZero).
Definition test_account_id_new_one_returns_ok : outcome unit := assert (is_ok (AccountId_new 1)).
Definition proptest_account_id_roundtrip (v : Z) : outcome unit := let! id := arbitrary v in rebuilt AccountId_new id.
Definition tests : list (outcome unit) := [test_account_id_new_zero_returns_err; test_account_id_new_one_returns_ok].
Lemma account_id_proptests v : 1 <= v <= u32_max → passed (proptest_account_id_roundtrip v) = true.
Proof.
  intros Hv. unfold proptest_account_id_roundtrip, arbitrary, rebuilt.
  rewrite AccountId_new_ok by (unfold account_id_ok; lia). simpl. rewrite AccountId_new_ok by (unfold account_id_ok; lia). simpl.
  by rewrite bool_decide_true.
Qed.
End account_id_tests.

Module engine_seq_tests.
Definition test_engine_seq_initial_is_zero : outcome unit := assert_eq EngineSeq_INITIAL 0.
Definition test_engine_seq_next_increments_by_one : outcome unit :=
  let! s := expect_ok (EngineSeq_next 41) in assert_eq s 42.
Definition test_engine_seq_next_overflow_returns_err : outcome unit :=
  assert_eq (EngineSeq_next u64_max) (Err EngineSeqOverflow).
Definition proptest_engine_seq_strictly_monotonic (seed : Z) : outcome unit := advances EngineSeq_next seed.
Definition tests : list (outcome unit) :=
  [test_engine_seq_initial_is_zero; test_engine_seq_next_increments_by_one; test_engine_seq_next_overflow_returns_err].
Lemma engine_seq_proptests seed : 0 <= seed <= u64_max - 1 → passed (proptest_engine_seq_strictly_monotonic seed) = true.
Proof.
  intros Hs. unfold proptest_engine_seq_strictly_monotonic, advances, EngineSeq_next, checked_add.
  rewrite decide_True by lia. simpl. rewrite (proj2 (Z.ltb_lt _ _)) by lia. simpl. by rewrite bool_decide_true.
Qed.
End engine_seq_tests.

Module trade_id_tests.
Definition test_trade_id_initial_is_zero : outcome unit := assert_eq TradeId_INITIAL 0.
Definition test_trade_id_next_increments_by_one : outcome unit :=
  let! s := expect_ok (TradeId_next 99) in assert_eq s 100.
Definition test_trade_id_next_overflow_returns_err : outcome unit :=
  assert_eq (TradeId_next u64_max) (Err TradeIdOverflow).
Definition proptest_trade_id_strictly_monotonic (seed : Z) : outcome unit := advances TradeId_next seed.
Definition tests : list (outcome unit) :=
  [test_trade_id_initial_is_zero; test_trade_id_next_increments_by_one; test_trade_id_next_overflow_returns_err].
Lemma trade_id_proptests seed : 0 <= seed <= u64_max - 1 → passed (proptest_trade_id_strictly_monotonic seed) = true.
Proof.
  intros Hs. unfold proptest_trade_id_strictly_monotonic, advances, TradeId_next, checked_add.
  rewrite decide_True by lia. simpl. rewrite (proj2 (Z.ltb_lt _ _)) by lia. simpl. by rewrite bool_decide_true.
Qed.
End trade_id_tests.

Module side_tests.
Definition arbitrary : list Side :=
  [Bid; Ask].
Definition test_side_as_u8_assigns_one_and_two : outcome unit :=
  let! _ := assert_eq (Side_as_u8 Bid) 1 in
  assert_eq (Side_as_u8 Ask) 2.
Definition test_side_opposite_swaps : outcome unit :=
  let! _ := assert_eq (Side_opposite Bid) Ask in
  assert_eq (Side_opposite Ask) Bid.
Definition test_side_try_from_unknown_returns_err : outcome unit :=
  unknown_bytes Side_try_from SideUnknown [0; 3; 255].
Definition proptest_side_u8_roundtrip : Side → outcome unit := u8_roundtrip Side_as_u8 Side_try_from.
Definition tests : list (outcome unit) :=
  [test_side_as_u8_assigns_one_and_two; test_side_opposite_swaps; test_side_try_from_unknown_returns_err] ++
  (proptest_side_u8_roundtrip <$> arbitrary).
(** The generator draws every value. *)
Lemma arbitrary_side_all x : x ∈ arbitrary.
Proof. destruct x; set_solver. Qed.
End side_tests.

Module order_type_tests.
Definition arbitrary : list OrderType :=
  [Limit; Market].
Definition test_order_type_as_u8_assigns_one_and_two : outcome unit :=
  let! _ := assert_eq (OrderType_as_u8 Limit) 1 in
  assert_eq (OrderType_as_u8 Market) 2.
Definition test_order_type_try_from_unknown_returns_err : outcome unit :=
  unknown_bytes OrderType_try_from OrderTypeUnknown [0; 3].
Definition proptest_order_type_u8_roundtrip : OrderType → outcome unit := u8_roundtrip OrderType_as_u8 OrderType_try_from.
Definition tests : list (outcome unit) :=
  [test_order_type_as_u8_assigns_one_and_two; test_order_type_try_from_unknown_returns_err] ++
  (proptest_order_type_u8_roundtrip <$> arbitrary).
(** The generator draws every value. *)
Lemma arbitrary_order_type_all x : x ∈ arbitrary.
Proof. destruct x; set_solver. Qed.
End order_type_tests.

Module tif_tests.
Definition arbitrary : list Tif :=
  [Gtc; Ioc; PostOnly].
Definition test_tif_as_u8_assigns_one_two_three : outcome unit :=
  let! _ := assert_eq (Tif_as_u8 Gtc) 1 in
  let! _ := assert_eq (Tif_as_u8 Ioc) 2 in
  assert_eq (Tif_as_u8 PostOnly) 3.
Definition test_tif_try_from_unknown_returns_err : outcome unit :=
  unknown_bytes Tif_try_from TifUnknown [0; 4].
Definition proptest_tif_u8_roundtrip : Tif → outcome unit := u8_roundtrip Tif_as_u8 Tif_try_from.
Definition tests : list (outcome unit) :=
  [test_tif_as_u8_assigns_one_two_three; test_tif_try_from_unknown_returns_err] ++
  (proptest_tif_u8_roundtrip <$> arbitrary).
(** The generator draws every value. *)
Lemma arbitrary_tif_all x : x ∈ arbitrary.
Proof. destruct x; set_solver. Qed.
End tif_tests.

Module reject_reason_tests.
Definition arbitrary : list RejectReason :=
  [KillSwitched; InvalidPrice; InvalidQty; TickViolation; LotViolation; PriceBand; MaxOpenOrders;
   MaxNotional; UnknownOrderIdReason; DuplicateOrderIdReason; PostOnlyWouldCross;
   SelfTradePreventedReject; MarketOrderInEmptyBook; UnknownAccount; MalformedMessage].
Definition test_reject_reason_discriminants_are_stable : outcome unit :=
  let! _ := assert_eq (RejectReason_as_u8 KillSwitched) 1 in
  assert_eq (RejectReason_as_u8 MalformedMessage) 15.
Definition test_reject_reason_try_from_unknown_returns_err : outcome unit :=
  unknown_bytes RejectReason_try_from RejectReasonUnknown [0; 16; 255].
Definition proptest_reject_reason_u8_roundtrip : RejectReason → outcome unit := u8_roundtrip RejectReason_as_u8 RejectReason_try_from.
Definition tests : list (outcome unit) :=
  [test_reject_reason_discriminants_are_stable; test_reject_reason_try_from_unknown_returns_err] ++
  (proptest_reject_reason_u8_roundtrip <$> arbitrary).
(** The generator draws every value. *)
Lemma arbitrary_reject_reason_all x : x ∈ arbitrary.
Proof. destruct x; set_solver. Qed.
End reject_reason_tests.

Module cancel_reason_tests.
Definition arbitrary : list CancelReason :=
  [UserRequested; MassCancelReason; IocRemaining; SelfTradePrevented; ReplacedReason].
Definition test_cancel_reason_discriminants_are_stable : outcome unit :=
  let! _ := assert_eq (CancelReason_as_u8 UserRequested) 1 in
  assert_eq (CancelReason_as_u8 ReplacedReason) 5.
Definition test_cancel_reason_try_from_unknown_returns_err : outcome unit :=
  unknown_bytes CancelReason_try_from CancelReasonUnknown [0; 6].
Definition proptest_cancel_reason_u8_roundtrip : CancelReason → outcome unit := u8_roundtrip CancelReason_as_u8 CancelReason_try_from.
Definition tests : list (outcome unit) :=
  [test_cancel_reason_discriminants_are_stable; test_cancel_reason_try_from_unknown_returns_err] ++
  (proptest_cancel_reason_u8_roundtrip <$> arbitrary).
(** The generator draws every value. *)
Lemma arbitrary_cancel_reason_all x : x ∈ arbitrary.
Proof. destruct x; set_solver. Qed.
End cancel_reason_tests.

Module exec_state_tests.
Definition arbitrary : list ExecState :=
  [Accepted; Rejected; PartiallyFilled; Filled; Cancelled; Replaced].
Definition test_exec_state_discriminants_are_stable : outcome unit :=
  let! _ := assert_eq (ExecState_as_u8 Accepted) 1 in
  assert_eq (ExecState_as_u8 Replaced) 6.
Definition test_exec_state_try_from_unknown_returns_err : outcome unit :=
  unknown_bytes ExecState_try_from ExecStateUnknown [0; 7].
Definition proptest_exec_state_u8_roundtrip : ExecState → outcome unit := u8_roundtrip ExecState_as_u8 ExecState_try_from.
Definition tests : list (outcome unit) :=
  [test_exec_state_discriminants_are_stable; test_exec_state_try_from_unknown_returns_err] ++
  (proptest_exec_state_u8_roundtrip <$> arbitrary).
(** The generator draws every value. *)
Lemma arbitrary_exec_state_all x : x ∈ arbitrary.
Proof. destruct x; set_solver. Qed.
End exec_state_tests.

Module client_ts_tests.
Definition arbitrary (n : Z) : ClientTs := ClientTs_new n.
Definition test_client_ts_zero_is_zero : outcome unit := assert_eq (ClientTs_as_nanos ClientTs_ZERO) 0.
Definition proptest_client_ts_roundtrip (n : Z) : outcome unit :=
  let ts := arbitrary n in assert_eq (ClientTs_new (ClientTs_as_nanos ts)) ts.
Lemma client_ts_proptests n : passed (proptest_client_ts_roundtrip n) = true.
Proof. unfold proptest_client_ts_roundtrip. by rewrite bool_decide_true. Qed.
End client_ts_tests.

Module recv_ts_tests.
Definition arbitrary (n : Z) : RecvTs := RecvTs_new n.
Definition test_recv_ts_zero_is_zero : outcome unit := assert_eq (RecvTs_as_nanos RecvTs_ZERO) 0.
Definition proptest_recv_ts_roundtrip (n : Z) : outcome unit :=
  let ts := arbitrary n in assert_eq (RecvTs_new (RecvTs_as_nanos ts)) ts.
Lemma recv_ts_proptests n : passed (proptest_recv_ts_roundtrip n) = true.
Proof. unfold proptest_recv_ts_roundtrip. by rewrite bool_decide_true. Qed.
End recv_ts_tests.

Definition domain_tests : list (outcome unit) :=
  price_tests.tests ++
  qty_tests.tests ++
  order_id_tests.tests ++
  account_id_tests.tests ++
  engine_seq_tests.tests ++
  trade_id_tests.tests ++
  side_tests.tests ++
  order_type_tests.tests ++
  tif_tests.tests ++
  reject_reason_tests.tests ++
  cancel_reason_tests.tests ++
  exec_state_tests.tests ++
  [client_ts_tests.test_client_ts_zero_is_zero; recv_ts_tests.test_recv_ts_zero_is_zero].

Lemma domain_tests_pass : forallb passed domain_tests = true.
Proof. vm_compute. reflexivity. Qed.
