(* ===== verification/RiskTests.v ===== *)
(** * RiskTests: the unit tests of the risk state, the id source and the clocks

    The [#[test]] functions of [crates/risk/src/state.rs], [engine/src/ids.rs] and
    [engine/src/clock.rs], one Module per source file; each test panics when an
    assertion fails.  The wall clock's test depends on the host's clock and is proved
    for every host whose clock reads after the epoch. *)

From S2P Require Import Prelude Script Domain Messages Ids Risk BookTests WireTests.
#[local] Open Scope Z_scope.

#[global] Instance AccountState_eq_dec : EqDecision AccountState.
Proof. solve_decision. Defined.

Module risk_tests.
Definition new_order_limit (account price qty : Z) : outcome NewOrder :=
  let! order_id := expect_ok (OrderId_new 1) in
  let! account_id := expect_ok (AccountId_new account) in
  let! price := expect_ok (Price_new price) in
  let! qty := expect_ok (Qty_new qty) in
  Ret (mkNewOrder 0 order_id account_id Bid Limit Gtc (Some price) qty).
Definition new_order_market (account qty : Z) : outcome NewOrder :=
  let! order_id := expect_ok (OrderId_new 1) in
  let! account_id := expect_ok (AccountId_new account) in
  let! qty := expect_ok (Qty_new qty) in
  Ret (mkNewOrder 0 order_id account_id Bid Market Ioc None qty).

(** [s.per_account.entry(acct).or_default()], then an assignment to a field of the entry. *)
Definition entry_update (s : RiskState) (acct : AccountId) (f : AccountState → AccountState) : RiskState :=
  set_accounts s (<[acct := f (default AccountState_default (per_account s !! acct))]> (per_account s)).

(** *** Kill switch *)
Definition test_kill_switch_rejects_new_order : outcome unit :=
  let s := set_kill_switch RiskState_new true in
  let! msg := new_order_limit 7 100 5 in
  let! p := expect_ok (Price_new 100) in
  assert_eq (check_new_order s msg (Some p)) (Err KillSwitched).
Definition test_kill_switch_rejects_cancel : outcome unit :=
  let s := set_kill_switch RiskState_new true in
  let msg := mkCancelOrder 0 1 7 in
  assert_eq (check_cancel s msg) (Err KillSwitched).
Definition test_kill_switch_rejects_cancel_replace : outcome unit :=
  let s := set_kill_switch RiskState_new true in
  let msg := mkCancelReplace 0 1 7 100 5 in
  assert_eq (check_cancel_replace s msg) (Err KillSwitched).
Definition test_kill_switch_rejects_mass_cancel : outcome unit :=
  let s := set_kill_switch RiskState_new true in
  let msg := mkMassCancel 0 7 in
  assert_eq (check_mass_cancel s msg) (Err KillSwitched).
Definition test_disengage_kill_switch_lets_new_order_pass : outcome unit :=
  let s := set_kill_switch RiskState_new true in
  let s := set_kill_switch s false in
  let! msg := new_order_limit 7 100 5 in
  assert_eq (check_new_order s msg None) (Ok tt).

(** *** Price band *)
Definition test_price_band_skipped_until_first_fill : outcome unit :=
  let s := RiskState_new in
  let! msg := new_order_limit 7 1000000 1 in
  assert_eq (check_new_order s msg None) (Ok tt).
Definition test_price_band_rejects_above_band : outcome unit :=
  let! p := expect_ok (Price_new 100) in
  let s := on_fill RiskState_new p in
  let! msg := new_order_limit 7 106 1 in
  assert_eq (check_new_order s msg None) (Err PriceBand).
Definition test_price_band_rejects_below_band : outcome unit :=
  let! p := expect_ok (Price_new 100) in
  let s := on_fill RiskState_new p in
  let! msg := new_order_limit 7 94 1 in
  assert_eq (check_new_order s msg None) (Err PriceBand).
Definition test_price_band_accepts_at_boundary : outcome unit :=
  let! p := expect_ok (Price_new 100) in
  let s := on_fill RiskState_new p in
  let! msg := new_order_limit 7 105 1 in
  assert_eq (check_new_order s msg None) (Ok tt).

(** *** Market order in an empty book *)
Definition test_market_order_in_empty_book_rejected : outcome unit :=
  let s := RiskState_new in
  let! msg := new_order_market 7 5 in
  assert_eq (check_new_order s msg None) (Err MarketOrderInEmptyBook).
Definition test_market_order_with_best_opposite_passes : outcome unit :=
  let s := RiskState_new in
  let! msg := new_order_market 7 5 in
  let! p := expect_ok (Price_new 100) in
  assert_eq (check_new_order s msg (Some p)) (Ok tt).

(** *** Per-account limits *)
Definition test_max_open_orders_rejected_after_ceiling : outcome unit :=
  let s := entry_update RiskState_new 7 (λ e, mkAccountState MAX_OPEN_ORDERS_PER_ACCT (notional e)) in
  let! msg := new_order_limit 7 100 1 in
  assert_eq (check_new_order s msg None) (Err MaxOpenOrders).
Definition test_max_notional_rejected_when_new_order_overflows : outcome unit :=
  let s := entry_update RiskState_new 7 (λ e, mkAccountState (open_orders e) (MAX_NOTIONAL_PER_ACCT - 50)) in
  let! msg := new_order_limit 7 100 1 in
  assert_eq (check_new_order s msg None) (Err MaxNotional).
Definition test_on_order_resting_increments_account_state : outcome unit :=
  let '(s, r) := on_order_resting RiskState_new 7 500 in
  let! _ := expect_ok r in
  let! st := expect (account s 7) in
  let! _ := assert_eq (open_orders st) 1 in
  assert_eq (notional st) 500.
Definition test_on_order_removed_decrements_and_prunes_zeroed_account : outcome unit :=
  let '(s, r) := on_order_resting RiskState_new 7 500 in
  let! _ := expect_ok r in
  let s := on_order_removed s 7 500 in
  assert_eq (account s 7) None.
Definition test_on_order_removed_saturating_subtract_does_not_panic : outcome unit :=
  let s := on_order_removed RiskState_new 7 999 in
  assert_eq (account s 7) None.
Definition test_on_order_resting_rejects_at_max_open_orders : outcome unit :=
  let s := set_accounts RiskState_new (<[7 := mkAccountState MAX_OPEN_ORDERS_PER_ACCT 0]> ∅) in
  assert_eq (on_order_resting s 7 1).2 (Err MaxOpenOrders).
Definition test_on_order_resting_rejects_at_max_notional : outcome unit :=
  let s := set_accounts RiskState_new (<[7 := mkAccountState 1 MAX_NOTIONAL_PER_ACCT]> ∅) in
  assert_eq (on_order_resting s 7 1).2 (Err MaxNotional).

(** *** Cancel-replace *)
Definition test_cancel_replace_passes_when_within_band_and_cap : outcome unit :=
  let! p := expect_ok (Price_new 100) in
  let s := on_fill RiskState_new p in
  let msg := mkCancelReplace 0 1 7 102 5 in
  assert_eq (check_cancel_replace s msg) (Ok tt).
Definition test_cancel_replace_rejected_outside_price_band : outcome unit :=
  let! p := expect_ok (Price_new 100) in
  let s := on_fill RiskState_new p in
  let msg := mkCancelReplace 0 1 7 150 5 in
  assert_eq (check_cancel_replace s msg) (Err PriceBand).

(** *** [notional_of] *)
Definition test_notional_of_multiplies_price_and_qty : outcome unit :=
  let! p := expect_ok (Price_new 7) in
  let! q := expect_ok (Qty_new 11) in
  assert_eq (notional_of p q) 77.
(** The product is taken in [u128]: the test's claim that it does not overflow. *)
Definition test_notional_of_handles_max_values : outcome unit :=
  let p := Price_MAX in
  let q := Qty_MAX in
  let! _ := expect (checked_mul u128_max (i64_as_u128 p) q) in
  let _ := notional_of p q in Ret tt.

Definition tests : list (outcome unit) :=
  [test_kill_switch_rejects_new_order; test_kill_switch_rejects_cancel;
   test_kill_switch_rejects_cancel_replace; test_kill_switch_rejects_mass_cancel;
   test_disengage_kill_switch_lets_new_order_pass; test_price_band_skipped_until_first_fill;
   test_price_band_rejects_above_band; test_price_band_rejects_below_band;
   test_price_band_accepts_at_boundary; test_market_order_in_empty_book_rejected;
   test_market_order_with_best_opposite_passes; test_max_open_orders_rejected_after_ceiling;
   test_max_notional_rejected_when_new_order_overflows; test_on_order_resting_increments_account_state;
   test_on_order_removed_decrements_and_prunes_zeroed_account;
   test_on_order_removed_saturating_subtract_does_not_panic;
   test_on_order_resting_rejects_at_max_open_orders; test_on_order_resting_rejects_at_max_notional;
   test_cancel_replace_passes_when_within_band_and_cap; test_cancel_replace_rejected_outside_price_band;
   test_notional_of_multiplies_price_and_qty; test_notional_of_handles_max_values].
End risk_tests.

Module ids_tests.
Definition test_counter_starts_at_one_for_both_streams : outcome unit :=
  let ids := CounterIdGenerator_new in
  let! '(t, ids) := next_trade_id ids in
  let! _ := assert_eq t 1 in
  let! '(s, ids) := next_engine_seq ids in
  assert_eq s 1.
Definition test_counter_increments_strictly_monotonically : outcome unit :=
  let ids := CounterIdGenerator_new in
  let! '(a, ids) := next_engine_seq ids in
  let! '(b, ids) := next_engine_seq ids in
  let! '(c, ids) := next_engine_seq ids in
  assert ((a <? b) && (b <? c)).
Definition test_counter_streams_are_independent : outcome unit :=
  let ids := CounterIdGenerator_new in
  let! '(_, ids) := next_engine_seq ids in
  let! '(_, ids) := next_engine_seq ids in
  let! '(t, ids) := next_trade_id ids in
  assert_eq t 1.
Definition test_resume_preserves_counters : outcome unit :=
  let ids := CounterIdGenerator_resume 50 100 in
  let! '(t, ids) := next_trade_id ids in
  let! _ := assert_eq t 50 in
  let! '(s, ids) := next_engine_seq ids in
  assert_eq s 100.
Definition tests : list (outcome unit) :=
  [test_counter_starts_at_one_for_both_streams; test_counter_increments_strictly_monotonically;
   test_counter_streams_are_independent; test_resume_preserves_counters].
End ids_tests.

Module clock_tests.
Definition test_wall_clock_returns_positive_nanos (c : WallClock) : outcome unit :=
  assert (0 <? (now c).1).
Definition test_stub_clock_returns_set_value : outcome unit :=
  let c := StubClock_new 42 in
  let '(t, c) := now c in
  let! _ := assert_eq t 42 in
  let c := StubClock_set c 123 in
  assert_eq (now c).1 123.

(** The host's clock reads after the epoch, and before the year 2262. *)
Lemma wall_clock_test_passes (c : WallClock) t :
  system_time c (reads c) = Some t → 0 < t <= i64_max →
  passed (test_wall_clock_returns_positive_nanos c) = true.
Proof.
  intros Ht Hr. unfold test_wall_clock_returns_positive_nanos. simpl. rewrite Ht. simpl.
  unfold wrap_i64, i64_max in *. rewrite Z.mod_small by lia. by rewrite (proj2 (Z.ltb_lt _ _)) by lia.
Qed.
End clock_tests.

Definition risk_and_id_tests : list (outcome unit) :=
  risk_tests.tests ++ ids_tests.tests ++ [clock_tests.test_stub_clock_returns_set_value].

Lemma risk_and_id_tests_pass : forallb passed risk_and_id_tests = true.
Proof. vm_compute. reflexivity. Qed.
