(* ===== verification/EngineTests.v ===== *)
(** * EngineTests: the unit tests of the engine

    The [#[test]] functions of [crates/engine/src/engine.rs]: scripts over an engine
    with a stub clock, counters from one and an in-memory sink.  As for the book, the
    scripts are generic in the price level, and [step_canon] carries their verdict
    from [FifoLevel] to every lawful implementation. *)

From S2P Require Import Prelude Script BTree Domain PriceLevel FifoLevel Book BookSpec BookInv Messages Ids Risk Engine EngineRun EngineFeed EngineLockstep EngineCanon BookTests WireTests.
#[local] Open Scope Z_scope.

(** ** Fixtures and observations *)

Definition limit_order (id account : Z) (side : Side) (price qty : Z) (tif : Tif) : outcome NewOrder :=
  let! order_id := expect_ok (OrderId_new id) in
  let! account_id := expect_ok (AccountId_new account) in
  let! price := expect_ok (Price_new price) in
  let! qty := expect_ok (Qty_new qty) in
  Ret (mkNewOrder 0 order_id account_id side Limit tif (Some price) qty).

Definition engine_seqs (events : list Outbound) : list Z := outbound_seq <$> events.

(** [for w in seqs.windows(2) { assert!(w[0] < w[1]) }]. *)
Fixpoint windows_increasing (seqs : list Z) : bool :=
  match seqs with
  | a :: (b :: _) as rest => (a <? b) && windows_increasing rest
  | _ => true
  end.

Definition is_rejected (reason : option RejectReason) (o : Outbound) : bool :=
  match o with
  | Out_ExecReport r =>
      bool_decide (er_state r = Rejected) &&
      match reason with Some x => bool_decide (er_reject_reason r = Some x) | None => true end
  | _ => false
  end.
Definition rejected_report (o : Outbound) : option ExecReport :=
  match o with
  | Out_ExecReport r => if decide (er_state r = Rejected) then Some r else None
  | _ => None
  end.
Definition is_trade (o : Outbound) : bool := match o with Out_TradePrint _ => true | _ => false end.
Definition is_fill_report (o : Outbound) : bool :=
  match o with
  | Out_ExecReport r => bool_decide (er_state r = Filled) || bool_decide (er_state r = PartiallyFilled)
  | _ => false
  end.
Definition is_mass_cancelled (o : Outbound) : bool :=
  match o with
  | Out_ExecReport r =>
      bool_decide (er_state r = Cancelled) && bool_decide (er_cancel_reason r = Some MassCancelReason)
  | _ => false
  end.
Definition count (p : Outbound → bool) (events : list Outbound) : nat := length (List.filter p events).

(** ** The tests *)

Section Tests.
Context {L : Type} `{!PriceLevelOps L}.
Local Abbreviation Eng := (Engine L StubClock CounterIdGenerator VecSink).
Local Abbreviation test := (script Eng).

Definition engine_with_stub : Eng := engine_new (StubClock_new 1000000000) CounterIdGenerator_new VecSink_new.

(** [e.step(..)] and [e.sink.take()]. *)
Definition do_step (m : Inbound) : test unit := λ e, let! e := step e m in Ret (tt, e).
Definition take_events : test (list Outbound) :=
  λ e, let '(evs, sink) := VecSink_take (e_sink e) in Ret (evs, set_sink e sink).
Definition step_order (o : outcome NewOrder) : test unit := let* o := lift o in do_step (In_NewOrder o).

Definition test_step_new_order_accept_emits_accepted_and_book_update : test unit :=
  let* _ := step_order (limit_order 1 7 Bid 100 5 Gtc) in
  let* events := take_events in
  let* _ := check (2 <=? length events)%nat in
  check (windows_increasing (engine_seqs events)).

Definition test_step_kill_switch_rejects_new_order : test unit :=
  let* _ := do_step (In_KillSwitchSet (mkKillSwitchSet 0 0 Halt)) in
  let* _ := step_order (limit_order 1 7 Bid 100 5 Gtc) in
  let* events := take_events in
  let* rejected := lift (expect (head (omap rejected_report events))) in
  check_eq (er_reject_reason rejected) (Some KillSwitched).

Definition test_step_cross_emits_trade_print_and_two_exec_reports : test unit :=
  let* _ := step_order (limit_order 1 2 Ask 100 5 Gtc) in
  let* _ := take_events in
  let* _ := step_order (limit_order 2 7 Bid 100 5 Gtc) in
  let* events := take_events in
  let* _ := check_eq (count is_trade events) 1%nat in
  check_eq (count is_fill_report events) 2%nat.

Definition test_step_engine_seq_strictly_monotonic_across_many_commands : test unit :=
  let* _ := step_order (limit_order 1 2 Ask 100 5 Gtc) in
  let* _ := step_order (limit_order 2 7 Bid 105 3 Gtc) in
  let* _ := do_step (In_CancelOrder (mkCancelOrder 0 2 7)) in
  let* _ := step_order (limit_order 3 7 Bid 100 5 Gtc) in
  let* events := take_events in
  check (windows_increasing (engine_seqs events)).

Definition test_step_cancel_unknown_order_emits_rejected : test unit :=
  let* _ := do_step (In_CancelOrder (mkCancelOrder 0 99 7)) in
  let* events := take_events in
  check (existsb (is_rejected (Some UnknownOrderIdReason)) events).

Definition test_step_kill_switch_disengage_lets_orders_through : test unit :=
  let* _ := do_step (In_KillSwitchSet (mkKillSwitchSet 0 0 Halt)) in
  let* _ := do_step (In_KillSwitchSet (mkKillSwitchSet 0 0 Resume)) in
  let* _ := step_order (limit_order 1 7 Bid 100 5 Gtc) in
  let* events := take_events in
  check (negb (existsb (is_rejected None) events)).

Definition test_step_mass_cancel_emits_per_order : test unit :=
  let* _ := step_order (limit_order 1 7 Bid 100 5 Gtc) in
  let* _ := step_order (limit_order 2 7 Bid 99 3 Gtc) in
  let* _ := take_events in
  let* _ := do_step (In_MassCancel (mkMassCancel 0 7)) in
  let* events := take_events in
  check_eq (count is_mass_cancelled events) 2%nat.

Definition engine_tests : list (test unit) :=
  [test_step_new_order_accept_emits_accepted_and_book_update;
   test_step_kill_switch_rejects_new_order;
   test_step_cross_emits_trade_print_and_two_exec_reports;
   test_step_engine_seq_strictly_monotonic_across_many_commands;
   test_step_cancel_unknown_order_emits_rejected;
   test_step_kill_switch_disengage_lets_orders_through;
   test_step_mass_cancel_emits_per_order].
End Tests.

Lemma fifo_engine_tests_pass : forallb (passes (engine_with_stub (L := FifoLevel))) engine_tests = true.
Proof. vm_compute. reflexivity. Qed.

(** ** For every lawful level *)

Section Related.
Context {L : Type} `{!PriceLevelOps L} `{!PriceLevelLaws L} `{!SnapshotSucceeds L}.
Local Abbreviation same := (same_script (same_engine (L := L) (C := StubClock) (I := CounterIdGenerator) (S := VecSink))).

Lemma limit_order_valid id account side price qty tif :
  in_widths id account price qty → wp True (limit_order id account side price qty tif) new_order_ok.
Proof.
  intros (Hid & Ha & Hp & Hq). unfold limit_order, OrderId_new, AccountId_new.
  destruct (Z.eqb_spec id 0); [done|]. destruct (Z.eqb_spec account 0); [done|]. simpl.
  destruct (Price_new price) as [p'|] eqn:Hp'; [|done]. destruct (Qty_new qty) as [q'|] eqn:Hq'; [|done].
  apply Price_new_Ok in Hp' as (-> & ? & _). apply Qty_new_Ok in Hq' as (-> & ? & _); [|apply Hq].
  unfold is_u64, is_u32, is_i64 in *. unfold new_order_ok. cbn. rewrite qty_ok_pos.
  unfold order_id_ok, account_id_ok. split_and!; try lia. exists price. rewrite price_ok_pos. split; [done|lia].
Qed.

Lemma same_do_step m : inbound_ok m → same (do_step m) (do_step m).
Proof. intros Hm e e' He. eapply orel_bind; [by apply step_canon|]. by intros ?? ?. Qed.

Lemma same_step_order o : wp True o new_order_ok → same (step_order o) (step_order o).
Proof. intros Ho. eapply same_lift_bind; [exact Ho|]. intros m Hm. by apply same_do_step. Qed.

Lemma same_take_events : same take_events take_events.
Proof.
  intros e e' [? ? ? ? ? ? ? ? ? ? Hs]. unfold take_events. rewrite Hs. simpl. split; [done|]. by split.
Qed.

(** One lemma per head of the left script. *)
Ltac same_engine_scripts :=
  lazymatch goal with
  | |- same_script _ (script_bind _ _) _ => apply same_bind; [same_engine_scripts|intros ?; same_engine_scripts]
  | |- same_script _ (lift _) _ => apply same_lift
  | |- same_script _ (check _) _ => apply same_check
  | |- same_script _ (step_order _) _ => apply same_step_order, limit_order_valid; in_range
  | |- same_script _ (do_step _) _ => apply same_do_step; first [exact I | split_and!; done]
  | |- same_script _ take_events _ => apply same_take_events
  end.

Lemma same_engine_tests : Forall2 same engine_tests engine_tests.
Proof.
  unfold engine_tests.
  repeat first [apply List.Forall2_nil | apply List.Forall2_cons; [unfold_script; same_engine_scripts|]].
Qed.

Lemma engine_tests_pass : forallb (passes (engine_with_stub (L := L))) engine_tests = true.
Proof. rewrite <-fifo_engine_tests_pass. exact (same_passes _ _ _ _ _ same_engine_tests (new_canon _ _ _)). Qed.
End Related.
