(* ===== verification/IntegrationTests.v ===== *)
(** * IntegrationTests: the engine's integration tests

    The [#[test]] functions of [crates/engine/tests/integration.rs]: scripts that step
    an engine, drain its sink and look at the drained events.  Like the engine's unit
    tests they are generic in the price level, and pass over every lawful one. *)

From S2P Require Import Prelude Script BTree Domain PriceLevel FifoLevel Book BookSpec BookInv Messages Ids Risk Engine EngineRun MarketData EngineFeed EngineLockstep EngineCanon BookTests WireTests EngineTests.
#[local] Open Scope Z_scope.

Module integration.

(** ** Fixtures and observations *)

Definition limit_order (id account : Z) (side : Side) (price qty : Z) : outcome NewOrder :=
  limit_order id account side price qty Gtc.

Definition cancel_replace (id account new_price new_qty : Z) : outcome Inbound :=
  let! order_id := expect_ok (OrderId_new id) in
  let! account_id := expect_ok (AccountId_new account) in
  let! new_price := expect_ok (Price_new new_price) in
  let! new_qty := expect_ok (Qty_new new_qty) in
  Ret (In_CancelReplace (mkCancelReplace 0 order_id account_id new_price new_qty)).

(** The [CancelOrder] literals of the tests. *)
Definition cancel_order (id account : Z) : outcome Inbound :=
  let! order_id := expect_ok (OrderId_new id) in
  let! account_id := expect_ok (AccountId_new account) in
  Ret (In_CancelOrder (mkCancelOrder 0 order_id account_id)).

(** The closures of the [filter_map]s. *)
Definition as_report (o : Outbound) : option ExecReport := match o with Out_ExecReport r => Some r | _ => None end.
Definition as_trade (o : Outbound) : option TradePrint := match o with Out_TradePrint t => Some t | _ => None end.
Definition as_top (o : Outbound) : option BookUpdateTop := match o with Out_BookUpdateTop b => Some b | _ => None end.
Definition as_delta (o : Outbound) : option BookUpdateL2Delta :=
  match o with Out_BookUpdateL2Delta d => Some d | _ => None end.
Definition as_snapshot (o : Outbound) : option SnapshotResponse :=
  match o with Out_SnapshotResponse s => Some s | _ => None end.
Definition with_state (s : ExecState) (o : Outbound) : option ExecReport :=
  match o with Out_ExecReport r => if decide (er_state r = s) then Some r else None | _ => None end.

(** [position(|o| ..)]. *)
Fixpoint position (p : Outbound → bool) (events : list Outbound) : option nat :=
  match events with
  | [] => None
  | o :: events => if p o then Some O else S <$> position p events
  end.

(** [for ev in &events { assert!(seq > last); last = seq; }]. *)
Fixpoint seqs_above (last : Z) (events : list Outbound) : bool :=
  match events with
  | [] => true
  | ev :: events => (last <? outbound_seq ev) && seqs_above (outbound_seq ev) events
  end.

(** [v[i]]: panics out of range. *)
Definition at_index {A} (v : list A) (i : nat) : outcome A := expect (v !! i).

(** [while cursor < bytes.len()]: decode one message, advance, compare its number. *)
Definition decode_round (st : list Z * Z * nat) : outcome ((list Z * Z * nat) + (Z * nat)) :=
  let '(rest, last_seq, decoded_count) := st in
  if bool_decide (rest = []) then Ret (inr (last_seq, decoded_count)) else
  let! '(msg, total) := expect_ok (decode rest) in
  let! _ := assert (last_seq <? outbound_seq msg) in
  Ret (inl (drop total rest, outbound_seq msg, S decoded_count)).

(** The mirror of the recovery test, a [BTreeMap<(Side, i64), u64>] of which the test
    uses insertion, removal and equality. *)
Definition insert_levels (side : Side) (levels : list SnapshotLevel) (mirror : gmap (Side * Z) Z) : gmap (Side * Z) Z :=
  foldl (λ m l, <[(side, sl_price l) := sl_qty l]> m) mirror levels.

Definition mirror_of (snap : SnapshotResponse) : gmap (Side * Z) Z :=
  insert_levels Ask (sp_asks snap) (insert_levels Bid (sp_bids snap) ∅).

Definition apply_delta (mirror : gmap (Side * Z) Z) (ev : Outbound) : gmap (Side * Z) Z :=
  match ev with
  | Out_BookUpdateL2Delta d =>
      match l2_new_qty d with
      | Some q => <[(l2_side d, l2_price d) := q]> mirror
      | None => delete (l2_side d, l2_price d) mirror
      end
  | _ => mirror
  end.
Definition apply_deltas (events : list Outbound) (mirror : gmap (Side * Z) Z) : gmap (Side * Z) Z :=
  foldl apply_delta mirror events.

(** ** The tests *)

Section Tests.
Context {L : Type} `{!PriceLevelOps L}.
Local Abbreviation Eng := (Engine L StubClock CounterIdGenerator VecSink).
Local Abbreviation test := (script Eng).

(** [engine.step(Inbound::NewOrder(limit_order(..)))], and a command built on the spot. *)
Definition step_limit (id account : Z) (side : Side) (price qty : Z) : test unit :=
  step_order (limit_order id account side price qty).
Definition step_built (m : outcome Inbound) : test unit := let* m := lift m in do_step m.
Definition step_snapshot (request_id : Z) : test unit := do_step (In_SnapshotRequest (mkSnapshotRequest request_id)).

Definition smoke_100_orders_engine_seq_is_strictly_monotonic_after_decode : test unit :=
  let* _ := for_each (seqZ 0 50) (λ i, step_limit (i + 1) 2 Ask (100 + i) 5) in
  let* _ := for_each (seqZ 0 50) (λ i,
    step_limit (1000 + i) 7 Bid (if i mod 2 =? 0 then 200 else 50) (i mod 5 + 1)) in
  let* events := take_events in
  let* _ := check (negb (bool_decide (events = []))) in
  let* bytes := lift (let! r := encode_all events [] in expect_ok r) in
  let* '(_, decoded_count) := lift (loop (S (length bytes)) decode_round (bytes, 0, O)) in
  check_eq decoded_count (length events).

Definition smoke_book_update_top_emits_exactly_once_per_step : test unit :=
  let* _ := step_limit 1 7 Bid 100 5 in
  let* events := take_events in
  check_eq (length (omap as_top events)) 1%nat.

Definition smoke_trade_print_emits_exactly_once_per_fill : test unit :=
  let* _ := step_limit 1 2 Ask 100 5 in
  let* _ := step_limit 2 2 Ask 100 5 in
  let* _ := take_events in
  let* _ := step_limit 3 7 Bid 100 8 in
  let* events := take_events in
  check_eq (length (omap as_trade events)) 2%nat.

Definition smoke_l2_delta_emits_for_new_resting_level : test unit :=
  let* _ := step_limit 1 7 Bid 100 5 in
  let* events := take_events in
  let l2_deltas := omap as_delta events in
  let* _ := check_eq (length l2_deltas) 1%nat in
  let* d := lift (at_index l2_deltas 0) in
  let* _ := check_eq (l2_side d) Bid in
  let* _ := check_eq (l2_price d) 100 in
  check_eq (l2_new_qty d) (Some 5).

Definition smoke_l2_delta_emits_for_level_removed : test unit :=
  let* _ := step_limit 1 7 Bid 100 5 in
  let* _ := take_events in
  let* _ := step_built (cancel_order 1 7) in
  let* events := take_events in
  let l2_deltas := omap as_delta events in
  let* _ := check_eq (length l2_deltas) 1%nat in
  let* d := lift (at_index l2_deltas 0) in
  let* _ := check_eq (l2_side d) Bid in
  let* _ := check_eq (l2_price d) 100 in
  check_eq (l2_new_qty d) None.

Definition smoke_l2_snapshot_plus_deltas_reconstruct_book_state : test unit :=
  let* _ := step_limit 1 7 Bid 99 5 in
  let* _ := step_limit 2 7 Bid 100 3 in
  let* _ := step_limit 3 2 Ask 101 4 in
  let* _ := step_limit 4 2 Ask 102 6 in
  let* _ := take_events in
  let* _ := step_snapshot 1 in
  let* snap_events := take_events in
  let* snap := lift (expect (head (omap as_snapshot snap_events))) in
  let mirror := mirror_of snap in
  let* _ := step_limit 99 9 Bid 102 2 in
  let* cross_events := take_events in
  let mirror := apply_deltas cross_events mirror in
  let* _ := step_built (cancel_order 1 7) in
  let* cancel_events := take_events in
  let mirror := apply_deltas cancel_events mirror in
  let* _ := step_limit 5 7 Bid 95 8 in
  let* add_events := take_events in
  let mirror := apply_deltas add_events mirror in
  let* _ := step_snapshot 2 in
  let* post_events := take_events in
  let* post_snap := lift (expect (head (omap as_snapshot post_events))) in
  check_eq mirror (mirror_of post_snap).

Definition smoke_snapshot_request_returns_book_levels_in_best_first_order : test unit :=
  let* _ := step_limit 1 7 Bid 99 5 in
  let* _ := step_limit 2 7 Bid 100 3 in
  let* _ := step_limit 3 7 Bid 95 7 in
  let* _ := step_limit 4 2 Ask 110 4 in
  let* _ := step_limit 5 2 Ask 101 6 in
  let* _ := step_limit 6 2 Ask 105 2 in
  let* _ := take_events in
  let* _ := step_snapshot 42 in
  let* events := take_events in
  let* snap := lift (expect (head (omap as_snapshot events))) in
  let* _ := check_eq (sp_request_id snap) 42 in
  let* _ := check_eq (sl_price <$> sp_bids snap) [100; 99; 95] in
  let* _ := check_eq (sl_price <$> sp_asks snap) [101; 105; 110] in
  let* _ := check_eq (sl_qty <$> sp_bids snap) [3; 5; 7] in
  check_eq (sl_qty <$> sp_asks snap) [6; 2; 4].

Definition smoke_snapshot_request_on_empty_book_returns_empty_levels : test unit :=
  let* _ := step_snapshot 1 in
  let* events := take_events in
  let* snap := lift (expect (head (omap as_snapshot events))) in
  let* _ := check (bool_decide (sp_bids snap = [])) in
  check (bool_decide (sp_asks snap = [])).

Definition smoke_snapshot_response_round_trips_through_marketdata_encoder : test unit :=
  let* _ := step_limit 1 7 Bid 100 5 in
  let* _ := step_limit 2 2 Ask 101 3 in
  let* _ := take_events in
  let* _ := step_snapshot 9 in
  let* events := take_events in
  let* original := lift (expect (head (omap as_snapshot events))) in
  let* bytes := lift (let! r := encode (Out_SnapshotResponse original) [] in expect_ok r) in
  let* '(decoded, total) := expected (decode bytes) in
  let* _ := check_eq total (length bytes) in
  match decoded with
  | Out_SnapshotResponse decoded => check_eq decoded original
  | _ => check false
  end.

Definition cancel_from_non_owner_is_rejected_book_unchanged : test unit :=
  let* _ := step_limit 1 7 Bid 100 5 in
  let* _ := take_events in
  let* _ := step_built (cancel_order 1 9) in
  let* events := take_events in
  let rejects := omap (with_state Rejected) events in
  let* _ := check_eq (length rejects) 1%nat in
  let* r := lift (at_index rejects 0) in
  let* _ := check_eq (er_reject_reason r) (Some UnknownOrderIdReason) in
  let* _ := check (negb (existsb (λ o, is_some (with_state Cancelled o)) events)) in
  let* top := lift (expect (last (omap as_top events))) in
  let* _ := check_eq (bt_bid top) (Some (100, 5)) in
  let* _ := step_built (cancel_order 1 7) in
  let* events := take_events in
  let cancelled := omap (with_state Cancelled) events in
  let* _ := check_eq (length cancelled) 1%nat in
  let* r := lift (at_index cancelled 0) in
  let* _ := check_eq (er_cancel_reason r) (Some UserRequested) in
  let* top := lift (expect (last (omap as_top events))) in
  check_eq (bt_bid top) None.

Definition cancel_replace_through_spread_emits_replaced_then_fills_and_flattens_book : test unit :=
  let* _ := step_limit 1 2 Ask 100 10 in
  let* _ := step_limit 2 7 Bid 99 10 in
  let* _ := take_events in
  let* _ := step_built (cancel_replace 2 7 100 10) in
  let* events := take_events in
  let trades := omap as_trade events in
  let* _ := check_eq (length trades) 1%nat in
  let* t := lift (at_index trades 0) in
  let* _ := check_eq (tp_price t) 100 in
  let* _ := check_eq (tp_qty t) 10 in
  let reports := omap as_report events in
  let* _ := check_eq (length reports) 3%nat in
  let* r0 := lift (at_index reports 0) in
  let* _ := check_eq (er_state r0) Replaced in
  let* _ := check_eq (er_order_id r0) 2 in
  let* _ := check_eq (er_cancel_reason r0) (Some ReplacedReason) in
  let* _ := check_eq (er_leaves_qty r0) (Some 10) in
  let* r1 := lift (at_index reports 1) in
  let* _ := check_eq (er_state r1) Filled in
  let* _ := check_eq (er_order_id r1) 1 in
  let* r2 := lift (at_index reports 2) in
  let* _ := check_eq (er_state r2) Filled in
  let* _ := check_eq (er_order_id r2) 2 in
  let* _ := check_eq (er_leaves_qty r2) None in
  let* replaced_pos := lift (expect (position (λ o, is_some (with_state Replaced o)) events)) in
  let* trade_pos := lift (expect (position is_trade events)) in
  let* _ := check (replaced_pos <? trade_pos)%nat in
  let* _ := check (seqs_above 0 events) in
  let* top := lift (expect (last (omap as_top events))) in
  let* _ := check_eq (bt_bid top) None in
  check_eq (bt_ask top) None.

Definition cancel_replace_partial_cross_rests_residual_at_new_price : test unit :=
  let* _ := step_limit 1 2 Ask 100 4 in
  let* _ := step_limit 2 7 Bid 99 10 in
  let* _ := take_events in
  let* _ := step_built (cancel_replace 2 7 100 10) in
  let* events := take_events in
  let reports := omap as_report events in
  let* _ := check_eq (length reports) 3%nat in
  let* r0 := lift (at_index reports 0) in
  let* _ := check_eq (er_state r0) Replaced in
  let* r1 := lift (at_index reports 1) in
  let* _ := check_eq (er_state r1) Filled in
  let* r2 := lift (at_index reports 2) in
  let* _ := check_eq (er_state r2) PartiallyFilled in
  let* _ := check_eq (er_leaves_qty r2) (Some 6) in
  let* top := lift (expect (last (omap as_top events))) in
  let* _ := check_eq (bt_bid top) (Some (100, 6)) in
  check_eq (bt_ask top) None.

Definition cancel_replace_onto_own_order_stp_cancels_both : test unit :=
  let* _ := step_limit 1 7 Ask 100 10 in
  let* _ := step_limit 2 7 Bid 99 10 in
  let* _ := take_events in
  let* _ := step_built (cancel_replace 2 7 100 10) in
  let* events := take_events in
  let* _ := check (negb (existsb is_trade events)) in
  let cancelled := omap (with_state Cancelled) events in
  let* _ := check_eq (length cancelled) 2%nat in
  let* _ := check (forallb (λ r, bool_decide (er_cancel_reason r = Some SelfTradePrevented)) cancelled) in
  let* r0 := lift (at_index cancelled 0) in
  let* _ := check_eq (er_order_id r0) 1 in
  let* r1 := lift (at_index cancelled 1) in
  let* _ := check_eq (er_order_id r1) 2 in
  let* top := lift (expect (last (omap as_top events))) in
  let* _ := check_eq (bt_bid top) None in
  check_eq (bt_ask top) None.

Definition cancel_replace_from_non_owner_is_rejected_book_unchanged : test unit :=
  let* _ := step_limit 1 2 Ask 100 10 in
  let* _ := step_limit 2 7 Bid 99 10 in
  let* _ := take_events in
  let* _ := step_built (cancel_replace 2 9 100 10) in
  let* events := take_events in
  let rejects := omap (with_state Rejected) events in
  let* _ := check_eq (length rejects) 1%nat in
  let* r := lift (at_index rejects 0) in
  let* _ := check_eq (er_reject_reason r) (Some UnknownOrderIdReason) in
  let* _ := check (negb (existsb is_trade events)) in
  let* top := lift (expect (last (omap as_top events))) in
  let* _ := check_eq (bt_bid top) (Some (99, 10)) in
  check_eq (bt_ask top) (Some (100, 10)).

Definition cancel_replace_postonly_would_cross_is_rejected_book_unchanged : test unit :=
  let* _ := step_limit 1 2 Ask 100 10 in
  let* _ := step_order (EngineTests.limit_order 2 7 Bid 99 10 PostOnly) in
  let* _ := take_events in
  let* _ := step_built (cancel_replace 2 7 100 10) in
  let* events := take_events in
  let rejects := omap (with_state Rejected) events in
  let* _ := check_eq (length rejects) 1%nat in
  let* r := lift (at_index rejects 0) in
  let* _ := check_eq (er_order_id r) 2 in
  let* _ := check_eq (er_reject_reason r) (Some PostOnlyWouldCross) in
  let* _ := check (negb (existsb is_trade events)) in
  let* top := lift (expect (last (omap as_top events))) in
  let* _ := check_eq (bt_bid top) (Some (99, 10)) in
  check_eq (bt_ask top) (Some (100, 10)).

Definition tests : list (test unit) :=
  [smoke_100_orders_engine_seq_is_strictly_monotonic_after_decode;
   smoke_book_update_top_emits_exactly_once_per_step;
   smoke_trade_print_emits_exactly_once_per_fill;
   smoke_l2_delta_emits_for_new_resting_level;
   smoke_l2_delta_emits_for_level_removed;
   smoke_l2_snapshot_plus_deltas_reconstruct_book_state;
   smoke_snapshot_request_returns_book_levels_in_best_first_order;
   smoke_snapshot_request_on_empty_book_returns_empty_levels;
   smoke_snapshot_response_round_trips_through_marketdata_encoder;
   cancel_from_non_owner_is_rejected_book_unchanged;
   cancel_replace_through_spread_emits_replaced_then_fills_and_flattens_book;
   cancel_replace_partial_cross_rests_residual_at_new_price;
   cancel_replace_onto_own_order_stp_cancels_both;
   cancel_replace_from_non_owner_is_rejected_book_unchanged;
   cancel_replace_postonly_would_cross_is_rejected_book_unchanged].
End Tests.

Lemma fifo_integration_tests_pass : forallb (passes (engine_with_stub (L := FifoLevel))) tests = true.
Proof. vm_compute. reflexivity. Qed.

(** ** For every lawful level *)

Section Related.
Context {L : Type} `{!PriceLevelOps L} `{!PriceLevelLaws L} `{!SnapshotSucceeds L}.
Local Abbreviation same := (same_script (same_engine (L := L) (C := StubClock) (I := CounterIdGenerator) (S := VecSink))).

Lemma same_step_built o : wp True o inbound_ok → same (step_built o) (step_built o).
Proof. intros Ho. eapply same_lift_bind; [exact Ho|]. intros m Hm. by apply same_do_step. Qed.

Lemma same_step_limit id account side price qty :
  in_widths id account price qty → same (step_limit id account side price qty) (step_limit id account side price qty).
Proof. intros H. by apply same_step_order, limit_order_valid. Qed.

(** One lemma per head of the left script. *)
Ltac same_integration_scripts :=
  lazymatch goal with
  | |- same_script _ (script_bind _ _) _ => apply same_bind; [same_integration_scripts|intros ?; same_integration_scripts]
  | |- same_script _ (lift _) _ => apply same_lift
  | |- same_script _ (expected _) _ => apply same_expected
  | |- same_script _ (check _) _ => apply same_check
  | |- same_script _ (step_limit _ _ _ _ _) _ => apply same_step_limit; in_range
  | |- same_script _ (step_order _) _ => apply same_step_order, limit_order_valid; in_range
  | |- same_script _ (step_built _) _ => apply same_step_built; split_and!; done
  | |- same_script _ (step_snapshot _) _ => apply same_do_step; exact I
  | |- same_script _ take_events _ => apply same_take_events
  | |- same_script _ (for_each _ _) _ =>
      apply same_for_each; intros i Hi%elem_of_seqZ; pose proof (Z.mod_pos_bound i 5 eq_refl);
      try destruct (i mod 2 =? 0); same_integration_scripts
  | |- same_script _ (match ?x with _ => _ end) _ => destruct x; same_integration_scripts
  end.

Lemma same_integration_tests : Forall2 same tests tests.
Proof.
  unfold tests.
  repeat first [apply List.Forall2_nil | apply List.Forall2_cons; [unfold_script; same_integration_scripts|]].
Qed.

Lemma integration_tests_pass : forallb (passes (engine_with_stub (L := L))) tests = true.
Proof. rewrite <-fifo_integration_tests_pass. exact (same_passes _ _ _ _ _ same_integration_tests (new_canon _ _ _)). Qed.
End Related.
End integration.
