(* ===== verification/EngineSnapshot.v ===== *)
(** * EngineSnapshot: what a snapshot tells a subscriber, and recovery from one

    The depth a snapshot request is answered with is the level map of the book, so a
    subscriber that joins in the middle of a session with a snapshot and follows the
    deltas from there ends with the level map of the book at the end. *)

From S2P Require Import Prelude BTree Domain PriceLevel FifoLevel Book BookSpec BookInv BookMatch BookOps BookReplace Messages Ids Risk Engine EngineInv EngineFills EngineOrders EngineStep EngineL2 EngineRun IntegrationTests.

(** The recovery test reads a delta as the specification of the feed does. *)
Lemma apply_deltas_l2 outs m : integration.apply_deltas outs m = foldl apply_l2 m outs.
Proof. done. Qed.

(** A level of a snapshot as an entry of the mirror. *)
Definition mirror_entry (s : Side) (l : SnapshotLevel) : level := ((s, sl_price l), sl_qty l).

Lemma insert_levels_eq (s : Side) (ls : list SnapshotLevel) (m : gmap (Side * Z) Z) :
  integration.insert_levels s ls m = list_to_map (reverse (mirror_entry s <$> ls)) ∪ m.
Proof.
  unfold integration.insert_levels. revert m. induction ls as [|l ls IH]; intros m; csimpl.
  { by rewrite (left_id_L ∅ (∪)). }
  rewrite IH, reverse_cons, list_to_map_app, <-(assoc_L (∪)). f_equal.
  unfold mirror_entry. by rewrite list_to_map_cons, <-insert_union_l, list_to_map_nil, (left_id_L ∅ (∪)).
Qed.

Section Snapshots.
Context {L C I Snk : Type} `{!PriceLevelOps L} `{!PriceLevelLaws L} `{!SnapshotSucceeds L}
  `{!Clock C} `{!IdGenerator I} `{!IdGeneratorLaws I} `{!OutboundSink Snk}.
Local Abbreviation Eng := (Engine L C I Snk).
Implicit Types (e : Eng) (b : Book L).

(** The levels of a side, best first, as the book's queries return them. *)
Definition side_depth b (s : Side) : list (Price * Z) :=
  match s with Bid => bid_levels b | Ask => ask_levels b end.

Lemma side_depth_total b s p n :
  book_ok b → (p, n) ∈ side_depth b s → n = queue_qty (filter (λ q, q_price q = p) (side_queue b s)).
Proof.
  intros Hok Hin. rewrite side_queue_at_price by done.
  assert (Hl : ∃ l, level_at b s p = Some l ∧ n = level_total l).
  { destruct s; simpl in Hin; apply list_elem_of_fmap in Hin as ([p' l] & [= -> ->] & Hin);
      rewrite ?elem_of_reverse in Hin; apply bt_get_elem in Hin; eauto; [apply (ok_sorted _ _ Hok Bid)|
        apply (ok_sorted _ _ Hok Ask)]. }
  destruct Hl as (l & Hl & ->). rewrite Hl. simpl. rewrite queue_qty_level.
  by apply (level_total_ok b s p l).
Qed.

Lemma snapshot_levels_depth b s :
  book_ok b → snapshot_levels (side_depth b s) = (λ x, mkSnapshotLevel x.1 x.2) <$> side_depth b s.
Proof. intros Hok. by apply snapshot_levels_ok, side_levels_valid. Qed.

(** The levels a request over [b] is answered with. *)
Definition depth_of b (s : Side) : list SnapshotLevel := (λ x, mkSnapshotLevel x.1 x.2) <$> side_depth b s.

Lemma mirror_entry_depth b s :
  mirror_entry s <$> depth_of b s = level_entry s <$> best_first s (levels b s).
Proof.
  unfold depth_of. destruct s; simpl; unfold bid_levels, ask_levels; by rewrite <-!list_fmap_compose.
Qed.

Lemma mirror_of_depth b n id ts ts' :
  book_ok b →
  integration.mirror_of (mkSnapshotResponse n id ts ts' (depth_of b Bid) (depth_of b Ask)) =
    level_map (capture_levels b).
Proof.
  intros Hok. pose proof (ksorted_NoDup _ (capture_sorted b Hok)) as Hnd. unfold integration.mirror_of, level_map. simpl.
  rewrite !insert_levels_eq, (right_id_L ∅ (∪)), <-list_to_map_app, !mirror_entry_depth. simpl.
  rewrite fmap_reverse, reverse_involutive. apply list_to_map_proper; rewrite capture_levels_eq in *.
  - by rewrite fmap_app, fmap_reverse, reverse_Permutation, (comm (++)), <-fmap_app.
  - by rewrite reverse_Permutation, (comm (++)).
Qed.

Lemma snapshot_answer e msg ts :
  book_ok (e_book e) → (0 < id_cap (e_ids e))%nat →
  ∃ e' emit_ts, handle e (In_SnapshotRequest msg) ts = Ret e' ∧ same_core e e' ∧
    e_sink e' = emit (e_sink e) (Out_SnapshotResponse (mkSnapshotResponse (seq_mark (e_ids e)) (sr_request_id msg)
      ts emit_ts (depth_of (e_book e) Bid) (depth_of (e_book e) Ask))).
Proof.
  intros Hok Hc. simpl. unfold handle_snapshot_request.
  change (bid_levels (e_book e)) with (side_depth (e_book e) Bid).
  change (ask_levels (e_book e)) with (side_depth (e_book e) Ask). rewrite !snapshot_levels_depth by done.
  destruct (proj1 (wp_total _ _) (emit_with_ok (λ _, True) e (λ s ts', Out_SnapshotResponse
    (mkSnapshotResponse s (sr_request_id msg) ts ts' (depth_of (e_book e) Bid) (depth_of (e_book e) Ask))) Hc ltac:(by intros)))
    as (e' & He & Hs & ets & [Hsink _ _ _ _]).
  exists e', ets. by split_and!.
Qed.

(** ** Sessions in two parts *)

Lemma run_app e before after :
  run e (before ++ after) = let! e := run e before in run e after.
Proof.
  revert e. induction before as [|m before IH]; intros e; [done|]. cbn [run app].
  destruct (step e m); [|done..]. apply IH.
Qed.

Lemma run_ready_suffix e e1 before after :
  run_ready e (before ++ after) → run e before = Ret e1 → run_ready e1 after.
Proof.
  revert e. induction before as [|m before IH]; intros e Hr Hrun; [by injection Hrun as <-|].
  destruct Hr as (Hm & Hc & Hrest). cbn [run] in Hrun.
  destruct (step e m) as [e2| |] eqn:He; [|discriminate Hrun..]. by apply (IH e2 (Hrest _ eq_refl)).
Qed.

Lemma run_ready_prefix e before after : run_ready e (before ++ after) → run_ready e before.
Proof.
  revert e. induction before as [|m before IH]; intros e Hr; [done|]. destruct Hr as (Hm & Hc & Hrest). split_and!; eauto.
Qed.

(** A subscriber that joins at a snapshot request: the deltas after the answer take
    its mirror to the level map of the final book. *)
Lemma run_recovers e before req after :
  einv e → run_ready e (before ++ In_SnapshotRequest req :: after) →
  ∃ e' missed snap deltas, run e (before ++ In_SnapshotRequest req :: after) = Ret e' ∧
    e_sink e' = foldl emit (e_sink e) (missed ++ Out_SnapshotResponse snap :: deltas) ∧
    sp_request_id snap = sr_request_id req ∧
    integration.apply_deltas deltas (integration.mirror_of snap) = level_map (capture_levels (e_book e')).
Proof.
  intros Hi Hr. destruct (proj1 (wp_total _ _) (run_ok _ _ Hi (run_ready_prefix _ _ _ Hr))) as (e1 & He1 & Hi1 & missed & ? & [Hs1 _ _ _ _] & _).
  destruct (run_ready_suffix _ _ _ _ Hr He1) as (Hm & Hc & Hrest).
  destruct (proj1 (wp_total _ _) (step_ok _ _ Hi1 Hm Hc)) as (e2 & He2 & ? & [Hi2 _ _ _]).
  destruct (proj1 (wp_total _ _) (run_ok _ _ Hi2 (Hrest _ He2))) as (e3 & He3 & _ & deltas & ? & [Hs3 _ _ _ _] & Hl).
  assert (Ha : ∃ snap, e_sink e2 = emit (e_sink e1) (Out_SnapshotResponse snap) ∧ sp_request_id snap = sr_request_id req ∧
    integration.mirror_of snap = level_map (capture_levels (e_book e2))).
  { unfold step in He2. destruct (now (e_clock e1)) as [ts c]. cbn [emit_book_changes] in He2.
    destruct (snapshot_answer (set_clock e1 c) req ts) as (e' & ets & He' & [Hb _] & Hs).
    { apply Hi1. } { unfold step_budget in Hc. simpl. lia. }
    rewrite He' in He2. injection He2 as <-. eexists. split_and!; [exact Hs|done|].
    rewrite mirror_of_depth by apply Hi1. simpl in Hb. by rewrite Hb. }
  destruct Ha as (snap & Hs2 & Hid & Hmir). exists e3, missed, snap, deltas. split_and!.
  - rewrite run_app, He1. cbn [outcome_bind run]. by rewrite He2.
  - by rewrite foldl_app, <-Hs1, Hs3, Hs2.
  - done.
  - by rewrite apply_deltas_l2, Hmir.
Qed.

End Snapshots.
