(* ===== verification/GatewayTests.v ===== *)
(** * GatewayTests: the unit tests of the gateway and of the replay tool

    The [#[test]] functions of [crates/gateway/src/sink.rs], [recorder.rs] and
    [listener.rs] and of [crates/engine/src/bin/replay.rs], one Module per source
    file.  What a test leaves to its environment is a parameter: the broadcast
    channel, the file system, how the kernel splits the bytes of a socket into reads,
    the room in the ring, the price level.  The tests are shown to pass whatever a
    lawful environment does. *)

From S2P Require Import Prelude Script BTree Domain PriceLevel FifoLevel Book Messages Ids Engine Bytes Framing WireInbound WireOutbound MarketData Channels Recorder Listener Client Replay EngineCanon BookTests WireTests.
#[local] Open Scope Z_scope.

Module sink_tests.
Definition sample_trade (seq trade_id : Z) : Outbound := Out_TradePrint (mkTradePrint seq trade_id 100 1 Bid 0).

Section Tests.
Context {B R : Type} `{!BroadcastOps B R}.

(** The sink and the test's receiver. *)
Record hub := mkHub { hub_sink : ChannelSink B; hub_rx : option R }.
Local Abbreviation test := (script hub).

Definition hub_new (capacity : nat) : hub := mkHub (ChannelSink_new capacity) None.
Definition do_emit (m : Outbound) : test unit := λ h, Ret (tt, mkHub (emit (hub_sink h) m) (hub_rx h)).
Definition do_subscribe : test unit :=
  λ h, let! b := tx (hub_sink h) in Ret (tt, mkHub (hub_sink h) (Some (ChannelSink_subscribe b))).

(** [rx.recv().await.expect("frame")]: waits when there is no frame. *)
Definition do_recv : test (list Z) :=
  λ h, let! b := tx (hub_sink h) in
       let! rx := expect (hub_rx h) in
       match broadcast_recv b rx with
       | (Received f, rx) => Ret (f, mkHub (hub_sink h) (Some rx))
       | (Lagged, _) => Panic
       | (Pending, _) => Diverge
       end.

(** The trade of a frame. *)
Definition decoded_trade (frame : list Z) : outcome TradePrint :=
  let! '(decoded, _) := expect_ok (decode frame) in
  match decoded with Out_TradePrint t => Ret t | _ => Panic end.

Definition test_channel_sink_subscriber_receives_framed_bytes : test unit :=
  let* _ := do_subscribe in
  let* _ := do_emit (sample_trade 1 1) in
  let* frame := do_recv in
  let* t := lift (decoded_trade frame) in
  let* _ := check_eq (tp_engine_seq t) 1 in
  check_eq (tp_trade_id t) 1.

Definition test_channel_sink_emit_without_subscribers_does_not_panic : test unit :=
  let* _ := do_emit (sample_trade 1 1) in
  let* _ := do_subscribe in
  let* _ := do_emit (sample_trade 2 2) in
  let* frame := do_recv in
  let* t := lift (decoded_trade frame) in
  check_eq (tp_engine_seq t) 2.

Fixpoint emit_each (l : list Z) : test unit :=
  match l with [] => script_ret tt | i :: l => let* _ := do_emit (sample_trade i i) in emit_each l end.
Fixpoint recv_increasing (n : nat) (last : Z) : test unit :=
  match n with
  | O => script_ret tt
  | S n =>
      let* frame := do_recv in
      let* t := lift (decoded_trade frame) in
      let* _ := check (last <? tp_engine_seq t) in
      recv_increasing n (tp_engine_seq t)
  end.
Definition test_channel_sink_engine_seq_monotonic_through_byte_stream : test unit :=
  let* _ := do_subscribe in
  let* _ := emit_each (seqZ 1 10) in
  recv_increasing 10 0.

(** The tests with the capacity of their channel. *)
Definition tests : list (nat * test unit) :=
  [(16%nat, test_channel_sink_subscriber_receives_framed_bytes);
   (4%nat, test_channel_sink_emit_without_subscribers_does_not_panic);
   (64%nat, test_channel_sink_engine_seq_monotonic_through_byte_stream)].
Definition run_test (t : nat * test unit) : bool := passes (hub_new t.1) t.2.
End Tests.
Arguments hub B R : clear implicits.

(** *** Any lawful channel does what a log of its frames does

    The log has the capacity asked for, the channel at least that. *)

Section Related.
Context {B R : Type} `{!BroadcastOps B R} `{!BroadcastLaws B R}.

Definition logs_hub (h : hub B R) (h' : hub FrameLog nat) : Prop :=
  match tx (hub_sink h') with
  | Ret b' => ∃ b, tx (hub_sink h) = Ret b ∧ log_frames b' = sent b ∧ (log_capacity b' <= broadcast_capacity b)%nat
  | _ => True
  end ∧ position <$> hub_rx h = hub_rx h'.
Local Abbreviation refines := (refines_script logs_hub).

Lemma logs_hub_new n : logs_hub (hub_new n) (hub_new n).
Proof. split; [|done]. simpl. destruct (broadcast_new_law n) as [Hs Hc]. eexists. split; [reflexivity|]. by rewrite Hs. Qed.

Lemma refines_emit m : refines (do_emit m) (do_emit m).
Proof.
  intros [[tb] rx] [[tb'] rx'] a t' [Hb Hr] [= <- <-]. simpl in *. eexists. split; [reflexivity|]. split; [|done]. simpl.
  unfold ChannelSink_emit. destruct tb' as [b'| |]; try done. simpl. destruct Hb as (b & -> & Hs & Hc). simpl.
  destruct (encode m []) as [[f|e]| |]; simpl; try done; [|by eexists]. destruct (broadcast_send_law b f) as [Hs' Hc'].
  eexists. split; [reflexivity|]. by rewrite Hs', Hs, Hc'.
Qed.

Lemma refines_subscribe : refines do_subscribe do_subscribe.
Proof.
  intros [[tb] rx] [[tb'] rx'] a t' [Hb Hr]. unfold do_subscribe. simpl in *.
  destruct tb' as [b'| |]; try done. simpl. intros [= <- <-]. destruct Hb as (b & -> & Hs & Hc).
  eexists. split; [reflexivity|]. split; [by eexists|]. simpl. unfold ChannelSink_subscribe. simpl. by rewrite broadcast_subscribe_law, Hs.
Qed.

Lemma refines_do_recv : refines do_recv do_recv.
Proof.
  intros [[tb] rx] [[tb'] rx'] a t' [Hb Hr]. unfold do_recv. simpl in *.
  destruct tb' as [b'| |]; try done. simpl. destruct Hb as (b & -> & Hs & Hc). subst rx'. destruct rx as [r|]; [|done]. simpl.
  pose proof (broadcast_recv_law b r) as H. case_decide as Hlag; [done|]. rewrite Hs in *.
  destruct (sent b !! position r) as [f|] eqn:Hf; [|done]. intros [= <- <-]. apply lookup_lt_Some in Hf as Hlt.
  destruct (broadcast_recv b r) as [[f'| |] r']; [|lia|lia]. destruct H as (Hf' & Hp & _). injection Hf' as <-.
  eexists. split; [reflexivity|]. split; [by eexists|]. simpl. by rewrite Hp.
Qed.

Lemma refines_emit_each l : refines (emit_each l) (emit_each l).
Proof. induction l; [apply refines_ret|]. apply refines_bind; [apply refines_emit|done]. Qed.

Lemma refines_recv_increasing n last : refines (recv_increasing n last) (recv_increasing n last).
Proof.
  revert last. induction n as [|n IH]; intros last; [apply refines_ret|]. apply refines_bind; [apply refines_do_recv|].
  intros f. apply refines_bind; [apply refines_lift|]. intros t. apply refines_bind; [apply refines_check|]. intros _. apply IH.
Qed.

#[local] Hint Resolve refines_emit refines_subscribe refines_do_recv refines_lift refines_check refines_ret
  refines_emit_each refines_recv_increasing : refines.

Lemma refines_tests : Forall2 (λ t t', t.1 = t'.1 ∧ refines t.2 t'.2) tests tests.
Proof.
  unfold tests, test_channel_sink_subscriber_receives_framed_bytes,
    test_channel_sink_emit_without_subscribers_does_not_panic,
    test_channel_sink_engine_seq_monotonic_through_byte_stream.
  repeat first [apply List.Forall2_nil | apply List.Forall2_cons; [split; [done|]; cbn [snd]|]];
    repeat (apply refines_bind; [auto with refines|intros ?]); auto with refines.
Qed.

Lemma tests_pass : forallb (run_test (B := B) (R := R)) tests = true.
Proof.
  assert (H : forallb (run_test (B := FrameLog) (R := nat)) tests = true) by (vm_compute; reflexivity).
  induction refines_tests as [|[n t] [n' t'] ts ts' [Hn Ht] _ IH]; [done|]. cbn [forallb fst snd] in *. subst n'.
  apply andb_true_iff in H as [H1 H2]. rewrite IH by done. rewrite andb_true_r. unfold run_test, passes in *. cbn [fst snd] in *.
  destruct (value_from t' (hub_new n)) as [a| |] eqn:E; [|done|done].
  by rewrite (refines_value _ _ _ _ _ _ Ht (logs_hub_new n) E).
Qed.
End Related.
End sink_tests.

Module recorder_tests.
Definition fixture_frame : outcome (list Z) := expect_ok (Frame_write K_CancelOrder (replicate 8 66) []).

(** [.expect(..)] on an [io::Result<()>]. *)
Definition no_error {E} (x : Recorder * option E) : outcome Recorder :=
  match x with (w, None) => Ret w | (_, Some _) => Panic end.

Section Tests.
(** The file of the test, a [NamedTempFile], on a file system [os_write]. *)
Context {E : Type} (os_write : list Z → list Z → list Z * option E).

Definition test_record_writes_frame_then_recv_ts : outcome unit :=
  let recorder := Recorder_open [] in
  let! frame := fixture_frame in
  let! recorder := no_error (Recorder_record os_write recorder frame 123456) in
  let! recorder := no_error (Recorder_flush os_write recorder) in
  let bytes := disk recorder in
  let! _ := assert_eq (take (length frame) bytes) frame in
  let ts_arr := drop (length frame) bytes in
  let! _ := assert (bool_decide (length ts_arr = 8%nat)) in
  assert_eq (from_le ts_arr) 123456.

Definition test_read_records_round_trips_count : outcome unit :=
  let recorder := Recorder_open [] in
  let! frame := fixture_frame in
  let! recorder := no_error (Recorder_run os_write recorder ((λ i, mkRecord frame (1000 + i)) <$> seqZ 0 100)) in
  let! recorder := no_error (Recorder_flush os_write recorder) in
  let bytes := disk recorder in
  let! r := read_records bytes in
  let! '(records, trailing) := expect_ok r in
  let! _ := assert_eq (length records) 100%nat in
  let! _ := assert_eq trailing 0%nat in
  let! first := expect (records !! 0%nat) in
  let! _ := assert_eq (rec_recv_ts first) 1000 in
  let! last := expect (records !! 99%nat) in
  assert_eq (rec_recv_ts last) 1099.
End Tests.

(** Three records packed by hand. *)
Definition three_records : outcome (list Z) :=
  let! frame := fixture_frame in
  Ret (seqZ 0 3 ≫= λ i, frame ++ to_le 8 i).

Definition test_read_records_tolerates_partial_final_record : outcome unit :=
  let! bytes := three_records in
  let bytes := bytes ++ to_le 4 20 ++ replicate 5 0 in
  let! r := read_records bytes in
  let! '(records, trailing) := expect_ok r in
  let! _ := assert_eq (length records) 3%nat in
  assert_eq trailing (4 + 5)%nat.

Definition test_read_records_tolerates_truncated_length_prefix : outcome unit :=
  let! bytes := three_records in
  let bytes := bytes ++ replicate 2 0 in
  let! r := read_records bytes in
  let! '(records, trailing) := expect_ok r in
  let! _ := assert_eq (length records) 3%nat in
  assert_eq trailing 2%nat.

Definition test_read_records_rejects_zero_length_frame : outcome unit :=
  let bytes := to_le 4 0 ++ to_le 8 0 in
  let! result := read_records bytes in
  assert match result with Err (InvalidData _) => true | _ => false end.

Definition tests {E} (os_write : list Z → list Z → list Z * option E) : list (outcome unit) :=
  [test_record_writes_frame_then_recv_ts os_write; test_read_records_round_trips_count os_write;
   test_read_records_tolerates_partial_final_record; test_read_records_tolerates_truncated_length_prefix;
   test_read_records_rejects_zero_length_frame].

(** *** On every file system whose writes succeed *)

Section Disk.
Context {E : Type} (os_write : list Z → list Z → list Z * option E).
Hypothesis Hwrites : ∀ d bs, os_write d bs = (d ++ bs, None).
Let appends : list Z → list Z → list Z * option E := λ d bs, (d ++ bs, None).

Lemma flush_appends w : Recorder_flush os_write w = Recorder_flush appends w.
Proof. unfold Recorder_flush. by rewrite Hwrites. Qed.

Lemma write_all_appends w bs : write_all os_write w bs = write_all appends w bs.
Proof.
  unfold write_all. rewrite flush_appends. repeat case_decide; try done;
    try destruct (Recorder_flush appends w) as [w' [e|]]; by rewrite ?Hwrites.
Qed.

Lemma record_appends w f t : Recorder_record os_write w f t = Recorder_record appends w f t.
Proof.
  unfold Recorder_record. rewrite write_all_appends. destruct (write_all appends w f) as [w' [e|]]; [done|].
  apply write_all_appends.
Qed.

Lemma run_appends w rs : Recorder_run os_write w rs = Recorder_run appends w rs.
Proof.
  revert w. induction rs as [|r rs IH]; intros w; [done|]. cbn [Recorder_run]. rewrite record_appends.
  destruct (Recorder_record appends w _ _) as [w' [e|]]; [done|apply IH].
Qed.

Lemma recorder_tests_pass : forallb passed (tests os_write) = true.
Proof.
  assert (H : forallb passed (tests appends) = true) by (vm_compute; reflexivity). rewrite <-H.
  unfold tests, test_record_writes_frame_then_recv_ts, test_read_records_round_trips_count.
  cbn [forallb]. apply f_equal2; [|apply f_equal2; [|reflexivity]]; apply (f_equal passed), outcome_bind_ext; intros f.
  - rewrite record_appends. apply outcome_bind_ext. intros w. by rewrite flush_appends.
  - rewrite run_appends. apply outcome_bind_ext. intros w. by rewrite flush_appends.
Qed.
End Disk.
End recorder_tests.

Module replay_tests.
Definition record_new_order (out : list Z) (id account price qty ts : Z) : outcome (list Z) :=
  let! order_id := expect_ok (OrderId_new id) in
  let! account_id := expect_ok (AccountId_new account) in
  let! price := expect_ok (Price_new price) in
  let! qty := expect_ok (Qty_new qty) in
  let msg := mkNewOrder 0 order_id account_id Bid Limit Gtc (Some price) qty in
  let! frame := expect_ok (Frame_write K_NewOrder (new_order.encode msg []) []) in
  Ret (out ++ frame ++ to_le 8 (i64_as_u64 ts)).

(** [for i in 0..n]. *)
Fixpoint record_orders (l : list Z) (out : list Z) : outcome (list Z) :=
  match l with
  | [] => Ret out
  | i :: l => let! out := record_new_order out (i + 1) 7 (100 + i) 5 (1000 + i) in record_orders l out
  end.
Definition torn_log : outcome (list Z) :=
  let! inbound := record_new_order [] 1 7 100 5 1000 in Ret (inbound ++ replicate 3 0).

Section Tests.
Context (L : Type) `{!PriceLevelOps L}.

Definition replayed (inbound : list Z) (no_timestamps : bool) : outcome (list Z) :=
  let! r := replay_bytes (L := L) inbound no_timestamps in expect_ok r.

Definition test_replay_bytes_two_independent_runs_identical_with_no_timestamps : outcome unit :=
  let! inbound := record_orders (seqZ 0 20) [] in
  let! a := replayed inbound true in
  let! b := replayed inbound true in
  let! _ := assert_eq a b in
  assert (negb (bool_decide (a = []))).

Definition test_replay_bytes_two_independent_runs_identical_with_timestamps_when_clock_deterministic : outcome unit :=
  let! inbound := record_orders (seqZ 0 10) [] in
  let! a := replayed inbound false in
  let! b := replayed inbound false in
  assert_eq a b.

Definition test_replay_bytes_partial_trailing_record_is_tolerated : outcome unit :=
  let! inbound := torn_log in
  let! out := replayed inbound true in
  assert (negb (bool_decide (out = []))).

Definition tests : list (outcome unit) :=
  [test_replay_bytes_two_independent_runs_identical_with_no_timestamps;
   test_replay_bytes_two_independent_runs_identical_with_timestamps_when_clock_deterministic;
   test_replay_bytes_partial_trailing_record_is_tolerated].
End Tests.

(** *** For every lawful price level *)

Definition gives_bytes (o : outcome (list Z)) : bool :=
  match o with Ret bs => forallb (λ x, bool_decide (byte_ok x)) bs | _ => false end.

Lemma gives_bytes_wp o : gives_bytes o = true → wp False o bytes_ok.
Proof.
  destruct o as [bs| |]; simpl; [|done..]. intros H. apply Forall_forall. intros x Hx.
  rewrite forallb_forall in H. apply list_elem_of_In, H in Hx. by apply bool_decide_eq_true in Hx.
Qed.

Lemma replay_tests_pass {L} `{!PriceLevelOps L} `{!PriceLevelLaws L} `{!SnapshotSucceeds L} :
  forallb passed (tests L) = true.
Proof.
  assert (H : forallb passed (tests FifoLevel) = true) by (vm_compute; reflexivity). rewrite <-H.
  assert (Hr : ∀ bs b, bytes_ok bs → replayed L bs b = replayed FifoLevel bs b).
  { intros bs b Hb. unfold replayed. by rewrite (replay_bytes_canon (L := L)). }
  unfold tests, test_replay_bytes_two_independent_runs_identical_with_no_timestamps,
    test_replay_bytes_two_independent_runs_identical_with_timestamps_when_clock_deterministic,
    test_replay_bytes_partial_trailing_record_is_tolerated.
  cbn [forallb]. apply f_equal2; [|apply f_equal2; [|apply f_equal2; [|reflexivity]]]; apply (f_equal passed);
    (eapply outcome_bind_wp; [apply gives_bytes_wp; vm_compute; reflexivity|]); intros bs Hbs;
    by rewrite !Hr by done.
Qed.
End replay_tests.

Module listener_tests.
Definition framed_new_order (id account price qty : Z) : outcome (list Z) :=
  let! order_id := expect_ok (OrderId_new id) in
  let! account_id := expect_ok (AccountId_new account) in
  let! price := expect_ok (Price_new price) in
  let! qty := expect_ok (Qty_new qty) in
  let msg := mkNewOrder 0 order_id account_id Bid Limit Gtc (Some price) qty in
  expect_ok (Frame_write K_NewOrder (new_order.encode msg []) []).

(** The writer task of [handle_connection] for at most [frames] frames: its
    subscription, the bytes written, and whether it still runs. *)
Fixpoint writer_task {B R} `{!BroadcastOps B R} (frames : nat) (b : B) (rx : R) (out : list Z) : R * list Z * bool :=
  match frames with
  | O => (rx, out, true)
  | S frames =>
      match broadcast_recv b rx with
      | (Received f, rx) => writer_task frames b rx (out ++ f)
      | (Lagged, rx) => (rx, out, false)
      | (Pending, rx) => (rx, out, true)
      end
  end.

Section Tests.
(** How the client's bytes arrive, and the ring of capacity 8 the test drains at
    its own pace. *)
Context (split : list Z → list (list Z)) (try_send : list Inbound → Inbound → bool).

(** The client writes [bytes], then shuts its end down. *)
Definition serve_to_eof (bytes : list Z) : outcome (list Inbound * option CloseReason) :=
  handle_connection try_send ((Some <$> split bytes) ++ [Some []]) [] [].

Definition test_listener_decodes_one_new_order : outcome unit :=
  let! frame := framed_new_order 42 7 100 5 in
  let! '(sent, closed) := serve_to_eof frame in
  let! received := expect (head sent) in
  let! _ := match received with
            | In_NewOrder n =>
                let! _ := assert_eq (no_order_id n) 42 in
                assert_eq (no_qty n) 5
            | _ => Panic
            end in
  assert (is_some closed).

Definition test_listener_handles_multiple_frames_per_read : outcome unit :=
  let! f1 := framed_new_order 1 7 100 5 in
  let! f2 := framed_new_order 2 7 99 3 in
  let! f3 := framed_new_order 3 7 98 1 in
  let! '(sent, closed) := serve_to_eof (f1 ++ f2 ++ f3) in
  let! _ := assert (forallb (λ m, match m with In_NewOrder _ => true | _ => false end) sent) in
  let! _ := assert_eq (length sent) 3%nat in
  assert (is_some closed).

(** The client does not shut down: the server closes on its own. *)
Definition test_listener_closes_on_malformed_frame : outcome unit :=
  let! framed := expect_ok (Frame_write K_NewOrder (replicate 10 0) []) in
  let! '(sent, closed) := handle_connection try_send (Some <$> split framed) [] [] in
  let! _ := assert (is_some closed) in
  assert_eq (length sent) 0%nat.

(** The writer wakes up after each send, or after both. *)
Definition test_listener_pumps_outbound_frames_to_client {B R} `{!BroadcastOps B R} (early : bool) : outcome unit :=
  let outbound_tx : B := broadcast_new 16 in
  let rx : R := broadcast_subscribe outbound_tx in
  let payload_a := [1; 0; 0; 0; 101] in
  let payload_b := [2; 0; 0; 0; 102; 171] in
  let outbound_tx := broadcast_send outbound_tx payload_a in
  let '(rx, out, _) := if early then writer_task 1 outbound_tx rx [] else (rx, [], true) in
  let outbound_tx := broadcast_send outbound_tx payload_b in
  let '(_, received, running) := writer_task (if early then 1 else 2) outbound_tx rx out in
  let! _ := assert running in
  assert_eq received (payload_a ++ payload_b).
End Tests.

(** *** Whatever the environment does *)

Section Env.
Context (split : list Z → list (list Z)) (try_send : list Inbound → Inbound → bool).
Hypothesis Hsplit : ∀ bs, concat (split bs) = bs ∧ Forall (λ c, c ≠ []) (split bs).
Hypothesis Hroom : ∀ before m, (length before < 8)%nat → try_send before m = true.

Lemma reads_at_once reads bytes :
  handle_connection try_send ((Some <$> split bytes) ++ reads) [] [] =
  (let! r := drain try_send bytes [] in
   match r with inl (b, s) => handle_connection try_send reads b s | inr (s, c) => Ret (s, Some c) end).
Proof. destruct (Hsplit bytes) as [Hc Hne]. by rewrite handle_connection_reads, Hc. Qed.

Definition order_of (id account price qty : Z) : Inbound := In_NewOrder (mkNewOrder 0 id account Bid Limit Gtc (Some price) qty).

Lemma framed_carries id account price qty :
  order_id_ok id → account_id_ok account → price_ok price → qty_ok qty →
  ∃ f, framed_new_order id account price qty = Ret f ∧ carries f (order_of id account price qty).
Proof.
  intros Hid Ha Hp Hq. unfold framed_new_order.
  rewrite OrderId_new_ok, AccountId_new_ok, Price_new_ok, Qty_new_ok by done. cbn [expect_ok outcome_bind].
  destruct (send_ok (order_of id account price qty)) as (f & Hf & Hc).
  - split_and!; try done. by exists price.
  - done.
  - exists f. split; [|done]. unfold send in Hf. cbn [inbound_kind inbound_payload order_of] in Hf. by rewrite Hf.
Qed.

Lemma ring_accepts msgs : (length msgs <= 8)%nat → accepted try_send [] msgs.
Proof. intros Hl pre m post ->. rewrite length_app in Hl. simpl in *. apply Hroom. lia. Qed.

Lemma serve_frames frames msgs :
  Forall2 carries frames msgs → (length msgs <= 8)%nat →
  serve_to_eof split try_send (concat frames) = Ret (msgs, Some PeerClosed).
Proof.
  intros Hf Hl. unfold serve_to_eof. rewrite reads_at_once. rewrite <-(app_nil_r (concat frames)).
  rewrite (drain_frames _ frames msgs), drain_nil by (done || by apply ring_accepts). done.
Qed.

Lemma decodes_one_passes : passed (test_listener_decodes_one_new_order split try_send) = true.
Proof.
  unfold test_listener_decodes_one_new_order. destruct (framed_carries 42 7 100 5) as (f & -> & Hf); [done..|].
  cbn [outcome_bind]. pose proof (serve_frames [f] [order_of 42 7 100 5]) as H. csimpl in H. rewrite app_nil_r in H.
  by rewrite H by (repeat constructor; done || simpl; lia).
Qed.

Lemma multiple_frames_passes : passed (test_listener_handles_multiple_frames_per_read split try_send) = true.
Proof.
  unfold test_listener_handles_multiple_frames_per_read.
  destruct (framed_carries 1 7 100 5) as (f1 & -> & H1); [done..|].
  destruct (framed_carries 2 7 99 3) as (f2 & -> & H2); [done..|].
  destruct (framed_carries 3 7 98 1) as (f3 & -> & H3); [done..|].
  cbn [outcome_bind]. pose proof (serve_frames [f1; f2; f3] [order_of 1 7 100 5; order_of 2 7 99 3; order_of 3 7 98 1]) as H.
  csimpl in H. rewrite app_nil_r in H. by rewrite H by (repeat constructor; done || simpl; lia).
Qed.

Lemma malformed_passes : passed (test_listener_closes_on_malformed_frame split try_send) = true.
Proof.
  unfold test_listener_closes_on_malformed_frame. cbn [outcome_bind expect_ok].
  destruct (Frame_write K_NewOrder (replicate 10 0) []) as [f|] eqn:Hf; [|done]. cbn [expect_ok outcome_bind].
  rewrite <-(app_nil_r (Some <$> split f)), reads_at_once, drain_eq.
  vm_compute in Hf. injection Hf as <-. done.
Qed.

(** A writer that has not fallen behind writes the frames after its position. *)
Lemma writer_task_ok {B R} `{!BroadcastOps B R} `{!BroadcastLaws B R} n (b : B) (rx : R) out :
  (position rx + n <= length (sent b) <= position rx + broadcast_capacity b)%nat →
  ∃ rx', writer_task n b rx out = (rx', out ++ concat (take n (drop (position rx) (sent b))), true) ∧
    position rx' = (position rx + n)%nat.
Proof.
  revert rx out. induction n as [|n IH]; intros rx out Hn; cbn [writer_task].
  { exists rx. csimpl. rewrite app_nil_r. split; [done|lia]. }
  pose proof (broadcast_recv_law b rx) as H. destruct (broadcast_recv b rx) as [[f| |] rx1]; [|lia|lia].
  destruct H as (Hf & Hp & _). destruct (IH rx1 (out ++ f)) as (rx' & -> & Hp'); [lia|]. exists rx'. split; [|lia].
  rewrite Hp, (drop_S _ _ _ Hf). csimpl. by rewrite <-app_assoc.
Qed.

Lemma pumps_passes {B R} `{!BroadcastOps B R} `{!BroadcastLaws B R} early :
  passed (test_listener_pumps_outbound_frames_to_client (B := B) (R := R) early) = true.
Proof.
  unfold test_listener_pumps_outbound_frames_to_client. set (pa := [1; 0; 0; 0; 101]). set (pb := [2; 0; 0; 0; 102; 171]).
  destruct (broadcast_new_law (B := B) 16) as [Hs0 Hc0]. set (b0 := broadcast_new 16 : B) in *.
  destruct (broadcast_send_law b0 pa) as [Hs1 Hc1]. set (b1 := broadcast_send b0 pa) in *.
  destruct (broadcast_send_law b1 pb) as [Hs2 Hc2]. set (b2 := broadcast_send b1 pb) in *.
  pose proof (broadcast_subscribe_law b0) as Hp. set (rx := broadcast_subscribe b0) in *.
  rewrite Hs0 in Hs1, Hp. rewrite Hs1 in Hs2. rewrite Hc1 in Hc2. cbn [app length] in Hs1, Hs2, Hp. destruct early.
  - destruct (writer_task_ok 1 b1 rx []) as (rx1 & -> & Hp1); [rewrite Hp, Hs1, Hc1; simpl; lia|].
    destruct (writer_task_ok 1 b2 rx1 (concat (take 1 (drop (position rx) (sent b1))))) as (rx2 & Hw & _);
      [rewrite Hp1, Hp, Hs2, Hc2; simpl; lia|]. rewrite app_nil_l, Hw, Hp1, Hp, Hs2, Hs1. done.
  - destruct (writer_task_ok 2 b2 rx []) as (rx2 & Hw & _); [rewrite Hp, Hs2, Hc2; simpl; lia|].
    by rewrite Hw, Hp, Hs2.
Qed.
End Env.
End listener_tests.
