(* ===== verification/PropTests.v ===== *)
(** * PropTests: the generated-input tests of the [tests/] directories

    [crates/wire/tests/roundtrip.rs], [crates/engine/tests/replay_equality.rs] and
    [crates/matching/tests/invariants.rs]: each test as a computation on its input, a
    predicate that says what its generator draws, and the proof that it passes on
    every such input. *)

From S2P Require Import Prelude Script BTree Domain PriceLevel Book BookSpec BookInv BookMatch BookOps Messages Ids Engine EngineInv EngineOrders EngineL2 EngineRun EngineBounds Bytes Framing WireInbound WireOutbound MarketData EngineFeed Recorder Client Replay ReplayTotal EngineCanon BookTests BookRuns WireTests.
#[local] Open Scope Z_scope.

(** ** [wire/tests/roundtrip.rs] *)

Module roundtrip.

(** The body the macro [roundtrip_proptest!] gives each test. *)
Definition roundtrip_proptest {A} `{!EqDecision A} (encode : A → list Z → list Z) (parse : list Z → result A WireError)
    (msg : A) : outcome unit :=
  let buf1 := encode msg [] in
  let! decoded := expect_ok (parse buf1) in
  let! _ := assert_eq decoded msg in
  let buf2 := encode decoded [] in
  assert_eq buf1 buf2.

(** What the strategies draw. *)
Definition arb_price (p : Z) : Prop := 1 <= p <= 1000000.
Definition arb_qty (q : Z) : Prop := 1 <= q <= 1000000.
Definition arb_order_id (id : Z) : Prop := 1 <= id < u64_max.
Definition arb_account_id (id : Z) : Prop := 1 <= id < u32_max.

Definition arb_new_order (m : NewOrder) : Prop :=
  is_i64 (no_client_ts m) ∧ arb_order_id (no_order_id m) ∧ arb_account_id (no_account_id m) ∧ arb_qty (no_qty m) ∧
  match no_order_type m, no_price m with
  | Limit, Some p => arb_price p
  | Market, None => True
  | _, _ => False
  end.
Definition arb_cancel_order (m : CancelOrder) : Prop :=
  is_i64 (co_client_ts m) ∧ arb_order_id (co_order_id m) ∧ arb_account_id (co_account_id m).
Definition arb_cancel_replace (m : CancelReplace) : Prop :=
  is_i64 (cr_client_ts m) ∧ arb_order_id (cr_order_id m) ∧ arb_account_id (cr_account_id m) ∧
  arb_price (cr_new_price m) ∧ arb_qty (cr_new_qty m).
Definition arb_mass_cancel (m : MassCancel) : Prop := is_i64 (mcl_client_ts m) ∧ arb_account_id (mcl_account_id m).
Definition arb_kill_switch_set (m : KillSwitchSet) : Prop := is_i64 (ks_client_ts m) ∧ is_u64 (ks_admin_token m).
Definition arb_snapshot_request (m : SnapshotRequest) : Prop := is_u64 (sr_request_id m).

(** One strategy per state of the report. *)
Definition arb_exec_report (r : ExecReport) : Prop :=
  is_u64 (er_engine_seq r) ∧ arb_order_id (er_order_id r) ∧ arb_account_id (er_account_id r) ∧
  is_i64 (er_recv_ts r) ∧ is_i64 (er_emit_ts r) ∧
  match er_state r, er_fill_price r, er_fill_qty r, er_leaves_qty r, er_reject_reason r, er_cancel_reason r with
  | Accepted, None, None, Some leaves, None, None => arb_qty leaves
  | Rejected, None, None, None, Some _, None => True
  | PartiallyFilled, Some price, Some fqty, Some lqty, None, None => arb_price price ∧ arb_qty fqty ∧ arb_qty lqty
  | Filled, Some price, Some fqty, None, None, None => arb_price price ∧ arb_qty fqty
  | Cancelled, None, None, None, None, Some _ => True
  | Replaced, None, None, None, None, Some _ => True
  | _, _, _, _, _, _ => False
  end.
Definition arb_trade_print (t : TradePrint) : Prop :=
  is_u64 (tp_engine_seq t) ∧ is_u64 (tp_trade_id t) ∧ arb_price (tp_price t) ∧ arb_qty (tp_qty t) ∧ is_i64 (tp_emit_ts t).
Definition arb_side (o : option (Price * Qty)) : Prop :=
  match o with Some (p, q) => arb_price p ∧ arb_qty q | None => True end.
Definition arb_book_update_top (t : BookUpdateTop) : Prop :=
  is_u64 (bt_engine_seq t) ∧ arb_side (bt_bid t) ∧ arb_side (bt_ask t) ∧ is_i64 (bt_emit_ts t).
Definition arb_book_update_l2_delta (d : BookUpdateL2Delta) : Prop :=
  is_u64 (l2_engine_seq d) ∧ arb_price (l2_price d) ∧ match l2_new_qty d with Some q => arb_qty q | None => True end ∧
  is_i64 (l2_emit_ts d).

(** The ten tests. *)
Definition new_order_roundtrip := roundtrip_proptest new_order.encode new_order.parse.
Definition cancel_order_roundtrip := roundtrip_proptest cancel_order.encode cancel_order.parse.
Definition cancel_replace_roundtrip := roundtrip_proptest cancel_replace.encode cancel_replace.parse.
Definition mass_cancel_roundtrip := roundtrip_proptest mass_cancel.encode mass_cancel.parse.
Definition kill_switch_roundtrip := roundtrip_proptest kill_switch.encode kill_switch.parse.
Definition snapshot_request_roundtrip := roundtrip_proptest snapshot_request.encode snapshot_request.parse.
Definition exec_report_roundtrip := roundtrip_proptest exec_report.encode exec_report.parse.
Definition trade_print_roundtrip := roundtrip_proptest trade_print.encode trade_print.parse.
Definition book_update_top_roundtrip := roundtrip_proptest book_update_top.encode book_update_top.parse.
Definition book_update_l2_delta_roundtrip := roundtrip_proptest book_update_l2_delta.encode book_update_l2_delta.parse.

Lemma roundtrip_passes {A} `{!EqDecision A} (encode : A → list Z → list Z) parse (msg : A) :
  parse (encode msg []) = Ok msg → roundtrip_proptest encode parse msg = Ret tt.
Proof. intros H. unfold roundtrip_proptest. rewrite H. cbn [expect_ok outcome_bind]. by rewrite !bool_decide_true. Qed.

Lemma arb_price_ok p : arb_price p → price_ok p.
Proof. unfold arb_price. rewrite price_ok_pos. unfold i64_max. lia. Qed.
Lemma arb_qty_ok q : arb_qty q → qty_ok q.
Proof. unfold arb_qty. rewrite qty_ok_pos. unfold u64_max. lia. Qed.
Lemma arb_order_id_ok id : arb_order_id id → order_id_ok id.
Proof. unfold arb_order_id, order_id_ok. lia. Qed.
Lemma arb_account_id_ok id : arb_account_id id → account_id_ok id.
Proof. unfold arb_account_id, account_id_ok. lia. Qed.
#[local] Hint Resolve arb_price_ok arb_qty_ok arb_order_id_ok arb_account_id_ok : arb.

Lemma arb_side_ok o : arb_side o → side_ok o.
Proof. destruct o as [[p q]|]; [|by intros _ x]. intros [? ?] x [= <-]. simpl. auto with arb. Qed.
#[local] Hint Resolve arb_side_ok : arb.

Lemma inbound_roundtrips_pass :
  (∀ m, arb_new_order m → new_order_roundtrip m = Ret tt) ∧
  (∀ m, arb_cancel_order m → cancel_order_roundtrip m = Ret tt) ∧
  (∀ m, arb_cancel_replace m → cancel_replace_roundtrip m = Ret tt) ∧
  (∀ m, arb_mass_cancel m → mass_cancel_roundtrip m = Ret tt) ∧
  (∀ m, arb_kill_switch_set m → kill_switch_roundtrip m = Ret tt) ∧
  (∀ m, arb_snapshot_request m → snapshot_request_roundtrip m = Ret tt).
Proof.
  split_and!; intros m Hm; apply roundtrip_passes.
  - destruct Hm as (Hts & Hid & Ha & Hq & Hp). apply new_order_parse_encode; [|done].
    unfold new_order_ok. split_and!; [auto with arb..|].
    destruct (no_order_type m), (no_price m) as [p|]; try done; simpl; eauto with arb.
  - destruct Hm as (? & ? & ?). apply cancel_order_parse_encode; [|done]. split; auto with arb.
  - destruct Hm as (? & ? & ? & ? & ?). apply cancel_replace_parse_encode; [|done]. split_and!; auto with arb.
  - destruct Hm as (? & ?). apply mass_cancel_parse_encode; [|done]. simpl. auto with arb.
  - destruct Hm. by apply kill_switch_parse_encode.
  - by apply snapshot_request_parse_encode.
Qed.
(** The report the engine would send for a [Replaced] state has a remaining quantity,
    which the encoder does not write. *)
Lemma replaced_parse_encode r :
  is_u64 (er_engine_seq r) → order_id_ok (er_order_id r) → account_id_ok (er_account_id r) →
  is_i64 (er_recv_ts r) → is_i64 (er_emit_ts r) → er_state r = Replaced → er_fill_price r = None →
  er_fill_qty r = None → er_leaves_qty r = None → er_reject_reason r = None → is_Some (er_cancel_reason r) →
  exec_report.parse (exec_report.encode r []) = Ok r.
Proof.
  destruct r as [seq oid aid st fp fq lq rr cr rts ets]. simpl. intros Hs Ho Ha Hr He -> -> -> -> -> [c ->].
  apply (exec_report_parse_encode (mkExecReport seq oid aid Replaced None None (Some 1) None (Some c) rts ets)); [|done].
  unfold exec_report_ok. simpl. split_and!; try done. intros q [= <-]. by apply arb_qty_ok.
Qed.

Lemma exec_roundtrip_passes r : arb_exec_report r → exec_report_roundtrip r = Ret tt.
Proof.
  intros (Hs & Ho & Ha & Hr & He & Hsh). apply roundtrip_passes.
  assert (Hok : er_state r ≠ Replaced → exec_report_ok r).
  { destruct r as [seq oid aid st fp fq lq rr cr rts ets]. unfold exec_report_ok. simpl in *. intros Hst.
    split; [auto with arb|]. split; [auto with arb|].
    destruct st, fp, fq, lq, rr, cr; try done; (split_and!; [intros ? [=]; subst; intuition auto with arb..|done]). }
  destruct (decide (er_state r = Replaced)) as [Hst|Hst].
  - rewrite Hst in Hsh. destruct (er_fill_price r) eqn:E1, (er_fill_qty r) eqn:E2, (er_leaves_qty r) eqn:E3,
      (er_reject_reason r) eqn:E4, (er_cancel_reason r) eqn:E5; try done. apply replaced_parse_encode; try done; auto with arb.
  - rewrite exec_report_parse_encode by (auto || by split). f_equal. unfold exec_wire_view. by destruct (er_state r).
Qed.

Lemma outbound_roundtrips_pass :
  (∀ r, arb_exec_report r → exec_report_roundtrip r = Ret tt) ∧
  (∀ t, arb_trade_print t → trade_print_roundtrip t = Ret tt) ∧
  (∀ t, arb_book_update_top t → book_update_top_roundtrip t = Ret tt) ∧
  (∀ d, arb_book_update_l2_delta d → book_update_l2_delta_roundtrip d = Ret tt).
Proof.
  split_and!; [apply exec_roundtrip_passes|intros m Hm; apply roundtrip_passes..].
  - destruct Hm as (? & ? & ? & ? & ?). apply trade_print_parse_encode; split_and!; auto with arb.
  - destruct Hm as (? & ? & ? & ?). apply book_update_top_parse_encode; split_and!; auto with arb.
  - destruct Hm as (? & ? & Hq & ?). apply l2_delta_parse_encode; (split; [auto with arb|]); [|done].
    intros q Hn. rewrite Hn in Hq. auto with arb.
Qed.
End roundtrip.

(** ** [engine/tests/replay_equality.rs] *)

Module replay_equality.
Record InboundCase := mkCase { ic_side : Side; ic_price : Z; ic_qty : Z; ic_account : Z; ic_recv_ts : Z }.

Definition arb_inbound_case (c : InboundCase) : Prop :=
  50 <= ic_price c <= 200 ∧ 1 <= ic_qty c <= 20 ∧ 1 <= ic_account c <= 8 ∧ 1 <= ic_recv_ts c <= 10000.

(** [for (i, c) in cases.iter().enumerate()]. *)
Fixpoint encode_cases (i : Z) (cases : list InboundCase) (bytes : list Z) : outcome (list Z) :=
  match cases with
  | [] => Ret bytes
  | c :: cases =>
      let! order_id := expect_ok (OrderId_new (i + 1)) in
      let! account_id := expect_ok (AccountId_new (ic_account c)) in
      let! price := expect_ok (Price_new (ic_price c)) in
      let! qty := expect_ok (Qty_new (ic_qty c)) in
      let msg := mkNewOrder 0 order_id account_id (ic_side c) Limit Gtc (Some price) qty in
      let! frame := expect_ok (Frame_write K_NewOrder (new_order.encode msg []) []) in
      encode_cases (i + 1) cases (bytes ++ frame ++ to_le 8 (i64_as_u64 (ic_recv_ts c)))
  end.
Definition encode_recording (cases : list InboundCase) : outcome (list Z) := encode_cases 0 cases [].

Section Tests.
Context (L : Type) `{!PriceLevelOps L}.

(** The two tests differ in the flag and in the length of the input. *)
Definition replay_twice (no_timestamps : bool) (cases : list InboundCase) : outcome unit :=
  let! inbound := encode_recording cases in
  let! ra := replay_bytes (L := L) inbound no_timestamps in
  let! a := expect_ok ra in
  let! rb := replay_bytes (L := L) inbound no_timestamps in
  let! b := expect_ok rb in
  assert_eq a b.

Definition proptest_replay_byte_identical_no_timestamps : list InboundCase → outcome unit := replay_twice true.
Definition proptest_replay_byte_identical_with_timestamps_under_stub_clock : list InboundCase → outcome unit :=
  replay_twice false.
End Tests.

(** *** The recording is a log of a session *)

Definition case_session (i : Z) (c : InboundCase) : Inbound * RecvTs :=
  (In_NewOrder (mkNewOrder 0 (i + 1) (ic_account c) (ic_side c) Limit Gtc (Some (ic_price c)) (ic_qty c)), ic_recv_ts c).

Fixpoint case_sessions (i : Z) (cases : list InboundCase) : list (Inbound * RecvTs) :=
  match cases with [] => [] | c :: cases => case_session i c :: case_sessions (i + 1) cases end.

(** The orders of the recording, numbered from 1. *)
Definition case_orders (cases : list InboundCase) : list Inbound := (case_sessions 0 cases).*1.

Lemma length_case_sessions i cases : length (case_sessions i cases) = length cases.
Proof. revert i. induction cases as [|c cases IH]; intros i; simpl; [done|]. by rewrite IH. Qed.

Lemma case_ok i c :
  arb_inbound_case c → 0 <= i < 1000 →
  inbound_ok (case_session i c).1 ∧ inbound_width_ok (case_session i c).1 ∧ is_i64 (case_session i c).2.
Proof.
  intros (Hp & Hq & Ha & Hts) Hi. split_and!; [|simpl; unfold is_i64, i64_min, i64_max; lia..].
  simpl. unfold new_order_ok, order_id_ok, account_id_ok. cbn. rewrite qty_ok_pos.
  unfold u64_max, u32_max, i64_max. split_and!; try lia. exists (ic_price c). rewrite price_ok_pos.
  unfold i64_max. split; [done|lia].
Qed.

Lemma encode_cases_logged cases i bytes :
  Forall arb_inbound_case cases → 0 <= i → i + Z.of_nat (length cases) <= 1000 →
  ∃ rs, encode_cases i cases bytes = Ret (bytes ++ (rs ≫= record_bytes)) ∧ session_ok (case_sessions i cases) ∧
    Forall2 logged (case_sessions i cases) rs.
Proof.
  intros Hc. revert i bytes. induction Hc as [|c cases Hcase Hc IH]; intros i bytes Hi Hlen.
  { exists []. csimpl. rewrite app_nil_r. split_and!; [done|constructor|constructor]. }
  cbn [encode_cases length] in *. destruct (case_ok i c Hcase ltac:(lia)) as (Hin & Hw & Hts).
  destruct Hcase as (Hp & Hq & Ha & Hr).
  rewrite OrderId_new_ok, AccountId_new_ok, Price_new_ok, Qty_new_ok by
    (rewrite ?price_ok_pos, ?qty_ok_pos; unfold order_id_ok, account_id_ok, u64_max, u32_max, i64_max; lia).
  cbn [expect_ok outcome_bind]. destruct (send_ok _ Hin Hw) as (frame & Hf & _).
  assert (Hf' := Hf). unfold send in Hf'. cbn [case_session fst inbound_kind inbound_payload] in Hf'. rewrite Hf'.
  cbn [expect_ok outcome_bind].
  destruct (IH (i + 1) (bytes ++ frame ++ to_le 8 (i64_as_u64 (ic_recv_ts c)))) as (rs & -> & Hs & Hl); [lia..|].
  exists (mkRecord frame (ic_recv_ts c) :: rs). split_and!.
  - f_equal. csimpl. unfold record_bytes at 2, record. cbn [rec_frame rec_recv_ts]. by rewrite app_nil_l, <-!app_assoc.
  - by constructor.
  - by constructor.
Qed.

Section Pass.
Context {L : Type} `{!PriceLevelOps L} `{!PriceLevelLaws L} `{!SnapshotSucceeds L}.

(** The recording replays to the feed of the live session, and with its timestamps to
    some feed. *)
Lemma replay_of_cases cases :
  Forall arb_inbound_case cases → (length cases <= 30)%nat →
  ∃ bytes e out out_ts, encode_recording cases = Ret bytes ∧
    run (engine_new (StubClock_new 0) CounterIdGenerator_new VecSink_new : Engine L StubClock CounterIdGenerator VecSink)
      (case_orders cases) = Ret e ∧
    encode_all (zero_timestamps <$> events (e_sink e)) [] = Ret (Ok out) ∧
    replay_bytes (L := L) bytes true = Ret (Ok out) ∧ replay_bytes (L := L) bytes false = Ret (Ok out_ts).
Proof.
  intros Hc Hl. unfold encode_recording. destruct (encode_cases_logged cases 0 [] Hc) as (rs & -> & Hs & Hlog); [lia..|].
  assert (Hlen : Z.of_nat (length (case_sessions 0 cases)) <= MAX_SESSION).
  { rewrite length_case_sessions. unfold MAX_SESSION. lia. }
  destruct (replay_live (L := L) (StubClock_new 0) (case_sessions 0 cases) rs (mkRecord [1; 0; 0; 0; 1] 0) 0) as (e & out & He & Henc & Hout);
    [by vm_compute|done|done|done|..].
  { split; [|by vm_compute]. split; [vm_compute; lia|done]. }
  { vm_compute. lia. }
  destruct (replay_logged (L := L) (case_sessions 0 cases) rs false Hs Hlen Hlog) as (out_ts & Hts).
  rewrite take_0, app_nil_r, record_all_app, app_nil_l in Hout. rewrite record_all_app, app_nil_l in Hts.
  by exists (rs ≫= record_bytes), e, out, out_ts.
Qed.

Lemma replay_passes b cases :
  Forall arb_inbound_case cases → (length cases <= 30)%nat → replay_twice L b cases = Ret tt.
Proof.
  intros Hc Hl. destruct (replay_of_cases cases Hc Hl) as (bytes & e & out & out_ts & Henc & _ & _ & H1 & H2).
  unfold replay_twice. rewrite Henc. cbn [outcome_bind].
  destruct b; [rewrite H1|rewrite H2]; cbn [outcome_bind expect_ok]; by rewrite bool_decide_true.
Qed.
End Pass.
End replay_equality.

(** ** [matching/tests/invariants.rs] *)

Module invariants.
Inductive Command :=
| AddResting (order_id account_id : Z) (side : Side) (price qty : Z)
| Cancel (order_id : Z).

(** [OrderEntry]: side, price, quantity and account. *)
Definition OrderEntry : Type := Side * Price * Qty * AccountId.
Definition entry_side (e : OrderEntry) : Side := e.1.1.1.
Definition entry_price (e : OrderEntry) : Price := e.1.1.2.
Definition entry_qty (e : OrderEntry) : Qty := e.1.2.

Definition arb_command (c : Command) : Prop :=
  match c with
  | AddResting order_id account_id _ price qty =>
      1 <= order_id < 1000 ∧ 1 <= account_id < 100 ∧ 1 <= price < 10000 ∧ 1 <= qty < 100
  | Cancel order_id => 1 <= order_id < 1000
  end.
Definition arb_command_sequence (cs : list Command) : Prop := Forall arb_command cs ∧ (1 <= length cs < 50)%nat.

Section Tests.
Context {L : Type} `{!PriceLevelOps L}.

Definition apply_one (st : Book L * gmap Z OrderEntry * nat) (cmd : Command) : outcome (Book L * gmap Z OrderEntry * nat) :=
  let '(book, order_map, cancels) := st in
  match cmd with
  | AddResting order_id account_id side price qty =>
      match Price_try_from (u64_as_i64 price), Qty_try_from qty, AccountId_try_from account_id with
      | Ok p, Ok q, Ok acc_id =>
          let! oid := expect_ok (OrderId_try_from order_id) in
          let '(book, added) := add_resting book (mkResting oid acc_id side p q Gtc) in
          Ret (book, if is_ok added then <[order_id := (side, p, q, acc_id)]> order_map else order_map, cancels)
      | _, _, _ => Ret st
      end
  | Cancel order_id =>
      match OrderId_try_from order_id with
      | Ok oid =>
          let '(book, cancelled) := cancel book oid in
          if is_ok cancelled then Ret (book, delete order_id order_map, S cancels) else Ret (book, order_map, cancels)
      | Err _ => Ret st
      end
  end.

(** [for cmd in commands]. *)
Fixpoint apply_commands (st : Book L * gmap Z OrderEntry * nat) (commands : list Command) :
    outcome (Book L * gmap Z OrderEntry * nat) :=
  match commands with
  | [] => Ret st
  | cmd :: commands => let! st := apply_one st cmd in apply_commands st commands
  end.

Definition applied (commands : list Command) : outcome (Book L * gmap Z OrderEntry * nat) :=
  apply_commands (book_new, ∅, O) commands.

(** [.sum()] of [u64]: panics on overflow in a test build. *)
Fixpoint sum_u64 (acc : Z) (qs : list Z) : outcome Z :=
  match qs with
  | [] => Ret acc
  | q :: qs => let! acc := expect (checked_add u64_max acc q) in sum_u64 acc qs
  end.

(** [order_map.values().filter(side).map(qty).sum()]. *)
Definition map_qty (side : Side) (order_map : gmap Z OrderEntry) : outcome Z :=
  sum_u64 0 (entry_qty <$> filter (λ e, entry_side e = side) (map_to_list order_map).*2).

Definition inv_qty_conserved_across_add_cancel (commands : list Command) : outcome unit :=
  let! '(book, order_map, _) := applied commands in
  let! bid_qty := map_qty Bid order_map in
  let! ask_qty := map_qty Ask order_map in
  let! _ := assert_eq (side_qty book Bid) bid_qty in
  assert_eq (side_qty book Ask) ask_qty.

Definition inv_no_negative_inventory (commands : list Command) : outcome unit :=
  let! '(book, _, _) := applied commands in
  let _bid_qty := side_qty book Bid in
  let _ask_qty := side_qty book Ask in
  Ret tt.

Definition inv_all_orders_have_positive_price_and_qty (commands : list Command) : outcome unit :=
  let! '(_, order_map, _) := applied commands in
  assert (forallb (λ e, (0 <? entry_price e) && (0 <? entry_qty e)) (map_to_list order_map).*2).

Definition inv_book_has_valid_price_levels (commands : list Command) : outcome unit :=
  let! '(book, _, _) := applied commands in
  match best_bid book, best_ask book with _, _ => Ret tt end.

Definition inv_book_state_consistency (commands : list Command) : outcome unit :=
  inv_qty_conserved_across_add_cancel commands.
End Tests.

(** *** The order map mirrors the book *)

Section Pass.
Context {L : Type} `{!PriceLevelOps L} `{!PriceLevelLaws L} `{!SnapshotSucceeds L}.
Implicit Types (b : Book L) (m : gmap Z OrderEntry).

(** After [k] commands. *)
Record mirrors (k : nat) b m : Prop := {
  mr_ok : book_ok b;
  mr_map s id n : (∃ q, q ∈ side_queue b s ∧ q_id q = id ∧ q_qty q = n) ↔
                  ∃ e, m !! id = Some e ∧ entry_side e = s ∧ entry_qty e = n;
  mr_range id e : m !! id = Some e → 0 < entry_price e ∧ 1 <= entry_qty e < 100;
  mr_size : (size m <= k)%nat;
}.

Lemma mirrors_weaken k b m : mirrors k b m → mirrors (S k) b m.
Proof. intros [? ? ? ?]. split; [done..|lia]. Qed.

Lemma mirrors_absent k b m id : mirrors k b m → Book.index b !! id = None → m !! id = None.
Proof.
  intros Hm Hi. destruct (m !! id) as [e|] eqn:He; [|done].
  destruct (proj2 (mr_map _ _ _ Hm (entry_side e) id (entry_qty e)) ltac:(eauto)) as (q & Hq & <- & _).
  destruct (side_queue_index _ _ _ _ (mr_ok _ _ _ Hm) Hq) as (x & Hx & _). congruence.
Qed.

Lemma mirrors_add k b m o b' acc :
  mirrors k b m → add_post b o b' → 0 < ro_price o → 1 <= ro_qty o < 100 →
  mirrors (S k) b' (<[ro_order_id o := (ro_side o, ro_price o, ro_qty o, acc)]> m).
Proof.
  intros Hm Hadd Hp Hq. pose proof (mirrors_absent _ _ _ _ Hm (ap_fresh _ _ _ Hadd)) as Hnone. split.
  - apply Hadd.
  - intros s id n. assert (Hold : ∀ q, q ∈ side_queue b s → q_id q ≠ ro_order_id o).
    { intros q Hin Heq. destruct (side_queue_index _ _ _ _ (mr_ok _ _ _ Hm) Hin) as (x & Hx & _).
      rewrite Heq, (ap_fresh _ _ _ Hadd) in Hx. done. }
    assert (Hin : ∀ q, q ∈ side_queue b' s ↔ (s = ro_side o ∧ q = resting_q o) ∨ q ∈ side_queue b s).
    { intros q. destruct (decide (s = ro_side o)) as [->|Hs].
      - rewrite (ap_queue _ _ _ Hadd), spec_insert_perm, elem_of_cons. naive_solver.
      - assert (s = Side_opposite (ro_side o)) as -> by (by destruct s, (ro_side o)).
        rewrite (ap_same _ _ _ Hadd). naive_solver. }
    destruct (decide (id = ro_order_id o)) as [->|Hne].
    + rewrite lookup_insert_eq. setoid_rewrite Hin. split.
      * intros (q & [[-> ->]|Hq'] & Hid & <-); [by eexists|]. by apply Hold in Hq'.
      * intros (e & [= <-] & <- & <-). eexists. split; [by left|done].
    + rewrite lookup_insert_ne by done. rewrite <-(mr_map _ _ _ Hm). setoid_rewrite Hin. split.
      * intros (q & [[_ ->]|Hq'] & Hid & <-); [by destruct Hne|eauto].
      * intros (q & ? & ? & ?). eauto.
  - intros id e [[<- <-]|[_ He]]%lookup_insert_Some; [done|]. by apply (mr_range _ _ _ Hm id).
  - rewrite map_size_insert_None by done. pose proof (mr_size _ _ _ Hm). lia.
Qed.

Lemma mirrors_cancel k b m id b' :
  mirrors k b m → cancel_post b id b' → mirrors (S k) b' (delete id m).
Proof.
  intros Hm Hc. pose proof (cp_queue _ _ _ Hc) as Hcq. unfold spec_cancel in Hcq. split.
  - apply Hc.
  - intros s id' n. destruct (decide (id' = id)) as [->|Hne].
    + rewrite lookup_delete_eq. split; [|by intros (e & ? & _)].
      intros (q & Hq & Hid & _). rewrite Hcq, list_elem_of_filter in Hq. by destruct Hq.
    + rewrite lookup_delete_ne by done. rewrite <-(mr_map _ _ _ Hm). setoid_rewrite Hcq.
      setoid_rewrite list_elem_of_filter. naive_solver.
  - intros id' e [_ He]%lookup_delete_Some. by apply (mr_range _ _ _ Hm id').
  - pose proof (map_subseteq_size _ _ (delete_subseteq m id)). pose proof (mr_size _ _ _ Hm). lia.
Qed.

Lemma apply_one_ok k b m n cmd :
  mirrors k b m → arb_command cmd → ∃ b' m' n', apply_one (b, m, n) cmd = Ret (b', m', n') ∧ mirrors (S k) b' m'.
Proof.
  intros Hm Hc. destruct cmd as [id account side price qty|id]; simpl in Hc; cbn [apply_one].
  - destruct Hc as (Hid & Ha & Hp & Hq).
    assert (u64_as_i64 price = price) as ->.
    { rewrite <-(i64_u64_roundtrip price) at 2 by (unfold is_i64, i64_min, i64_max; lia). f_equal.
      unfold i64_as_u64, wrap_u64. rewrite Z.mod_small; lia. }
    unfold Price_try_from, Qty_try_from, AccountId_try_from, OrderId_try_from.
    rewrite Price_new_pos, Qty_new_pos, AccountId_new_ok, OrderId_new_ok by
      (unfold order_id_ok, account_id_ok, u64_max, u32_max; lia).
    cbn [expect_ok outcome_bind]. set (o := mkResting id account side price qty Gtc).
    assert (Hro : resting_ok o).
    { unfold resting_ok, order_id_ok, account_id_ok. cbn. rewrite price_ok_pos, qty_ok_pos.
      unfold u64_max, u32_max, i64_max. split_and!; try lia. done. }
    pose proof (add_resting_ok b o (mr_ok _ _ _ Hm) Hro) as Hadd.
    destruct (add_resting b o) as [b' [[]|e]]; cbn [is_ok]; do 3 eexists; (split; [done|]).
    + apply (mirrors_add k b m o b' account Hm Hadd); simpl; lia.
    + destruct Hadd as [-> _]. by apply mirrors_weaken.
  - unfold OrderId_try_from. rewrite OrderId_new_ok by (unfold order_id_ok, u64_max; lia).
    rewrite cancel_eq by apply Hm. destruct (Book.index b !! id) as [om|] eqn:Hi; cbn [is_ok]; do 3 eexists; (split; [done|]).
    + eapply mirrors_cancel; [done|]. apply cancelled_post; [apply Hm|done].
    + by apply mirrors_weaken.
Qed.

Lemma applied_ok commands :
  Forall arb_command commands → ∃ b m n, applied (L := L) commands = Ret (b, m, n) ∧ mirrors (length commands) b m.
Proof.
  intros Hc. assert (Hgen : ∀ k b m n, mirrors k b m →
    ∃ b' m' n', apply_commands (b, m, n) commands = Ret (b', m', n') ∧ mirrors (k + length commands) b' m').
  { induction Hc as [|cmd commands Hcmd Hc IH]; intros k b m n Hm; cbn [apply_commands length].
    { exists b, m, n. by rewrite Nat.add_0_r. }
    destruct (apply_one_ok k b m n cmd Hm Hcmd) as (b1 & m1 & n1 & -> & Hm1). cbn [outcome_bind].
    destruct (IH (S k) b1 m1 n1 Hm1) as (b2 & m2 & n2 & -> & Hm2). exists b2, m2, n2. split; [done|].
    by rewrite Nat.add_succ_r. }
  apply (Hgen O). split; [apply book_new_ok| |by intros id e|done].
  intros s id n. split; [|by intros (e & ? & _)]. intros (q & Hq & _). destruct s; by apply not_elem_of_nil in Hq.
Qed.

(** The quantities of the map's entries of a side are those of the side's queue. *)
Lemma mirrors_qtys k b m s :
  mirrors k b m →
  q_qty <$> side_queue b s ≡ₚ entry_qty <$> filter (λ e, entry_side e = s) (map_to_list m).*2.
Proof.
  intros Hm. assert (filter (λ e, entry_side e = s) (map_to_list m).*2 = (filter (λ x, entry_side x.2 = s) (map_to_list m)).*2)
    as -> by (symmetry; by apply fmap_filter_comm). rewrite <-list_fmap_compose.
  change (q_qty <$> side_queue b s) with ((snd ∘ (λ q, (q_id q, q_qty q))) <$> side_queue b s).
  change (entry_qty ∘ snd) with (snd ∘ (λ x : Z * OrderEntry, (x.1, entry_qty x.2))).
  rewrite (list_fmap_compose _ snd (side_queue b s)), (list_fmap_compose _ snd (filter _ _)). apply fmap_Permutation, NoDup_Permutation.
  - apply (NoDup_fmap_1 fst). rewrite <-list_fmap_compose. by eapply side_queue_ids_NoDup, Hm.
  - apply (NoDup_fmap_1 fst). rewrite <-list_fmap_compose. change (fst ∘ _) with (@fst Z OrderEntry).
    apply NoDup_fmap_filter, NoDup_fst_map_to_list.
  - intros [id n]. rewrite !list_elem_of_fmap. transitivity (∃ q, q ∈ side_queue b s ∧ q_id q = id ∧ q_qty q = n).
    + split; [intros (q & [= -> ->] & ?); eauto|intros (q & ? & <- & <-); eauto].
    + rewrite (mr_map _ _ _ Hm). setoid_rewrite list_elem_of_filter. setoid_rewrite elem_of_map_to_list'. split.
      * intros (e & He & <- & <-). by exists (id, e).
      * intros ([id' e] & [= -> ->] & <- & He). by exists e.
Qed.

Lemma sum_u64_ok qs acc :
  Forall (λ q, 1 <= q < 100) qs → 0 <= acc → acc + 100 * Z.of_nat (length qs) <= u64_max →
  sum_u64 acc qs = Ret (acc + foldr Z.add 0 qs) ∧ 0 <= foldr Z.add 0 qs <= 100 * Z.of_nat (length qs).
Proof.
  intros Hq. revert acc. induction Hq as [|q qs Hq Hqs IH]; intros acc Ha Hl; cbn [sum_u64 foldr length] in *.
  { rewrite Z.add_0_r. split; [done|lia]. }
  unfold checked_add. rewrite decide_True by lia. cbn [expect outcome_bind].
  destruct (IH (acc + q)) as [-> ?]; [lia..|]. split; [f_equal; lia|lia].
Qed.

Lemma map_qty_ok k b m s : mirrors k b m → (k < 50)%nat → map_qty s m = Ret (side_qty b s).
Proof.
  intros Hm Hk. pose proof (mirrors_qtys _ _ _ s Hm) as Hperm. unfold map_qty.
  destruct (sum_u64_ok (entry_qty <$> filter (λ e, entry_side e = s) (map_to_list m).*2) 0) as [-> Hb].
  - apply Forall_fmap, Forall_forall. intros e [_ He]%list_elem_of_filter.
    apply list_elem_of_fmap in He as ([id e'] & -> & He%elem_of_map_to_list). apply (mr_range _ _ _ Hm _ _ He).
  - done.
  - rewrite length_fmap. pose proof (length_filter (λ e, entry_side e = s) (map_to_list m).*2).
    rewrite length_fmap, length_map_to_list in *. pose proof (mr_size _ _ _ Hm). unfold u64_max. lia.
  - f_equal. rewrite side_qty_queue by apply Hm. unfold queue_qty.
    assert (Heq : foldr Z.add 0 (q_qty <$> side_queue b s) = foldr Z.add 0 (entry_qty <$> filter (λ e, entry_side e = s) (map_to_list m).*2)).
    { clear Hb. induction Hperm; simpl; lia. }
    rewrite Heq. unfold wrap_u64. rewrite Z.mod_small; [done|]. rewrite length_fmap in Hb.
    pose proof (length_filter (λ e, entry_side e = s) (map_to_list m).*2).
    rewrite length_fmap, length_map_to_list in *. pose proof (mr_size _ _ _ Hm). lia.
Qed.

Lemma invariants_pass commands :
  arb_command_sequence commands →
  inv_qty_conserved_across_add_cancel (L := L) commands = Ret tt ∧
  inv_no_negative_inventory (L := L) commands = Ret tt ∧
  inv_all_orders_have_positive_price_and_qty (L := L) commands = Ret tt ∧
  inv_book_has_valid_price_levels (L := L) commands = Ret tt ∧
  inv_book_state_consistency (L := L) commands = Ret tt.
Proof.
  intros [Hc Hlen]. destruct (applied_ok commands Hc) as (b & m & n & Ha & Hm).
  assert (Hq : inv_qty_conserved_across_add_cancel (L := L) commands = Ret tt).
  { unfold inv_qty_conserved_across_add_cancel. rewrite Ha. cbn [outcome_bind].
    rewrite !(map_qty_ok _ _ _ _ Hm) by lia. cbn [outcome_bind]. by rewrite !bool_decide_true. }
  split_and!; [done| | | |exact Hq].
  - unfold inv_no_negative_inventory. by rewrite Ha.
  - unfold inv_all_orders_have_positive_price_and_qty. rewrite Ha. cbn [outcome_bind].
    assert (forallb (λ e, (0 <? entry_price e) && (0 <? entry_qty e)) (map_to_list m).*2 = true) as ->; [|done].
    apply forallb_forall. intros e He%list_elem_of_In. apply list_elem_of_fmap in He as ([id e'] & -> & He%elem_of_map_to_list).
    destruct (mr_range _ _ _ Hm _ _ He). simpl. rewrite andb_true_iff, !Z.ltb_lt. lia.
  - unfold inv_book_has_valid_price_levels. rewrite Ha. by destruct (best_bid b), (best_ask b).
Qed.
End Pass.
End invariants.
