(* ===== verification/Fixture.v ===== *)
(** * Fixture: the committed inbound log and its golden output

    [crates/engine/src/bin/gen_fixture.rs] writes [fixtures/inbound.bin]; the replay
    tool turns it into [fixtures/outbound.golden].  Both files are here byte for
    byte, so that the generator and the whole pipeline (log reader, decoder,
    engine, encoder) can be compared with them. *)

From S2P Require Import Prelude BTree Domain PriceLevel FifoLevel Book Messages Ids Engine Bytes Framing WireInbound MarketData Recorder Replay.
#[local] Open Scope Z_scope.

Definition push_new_order (out : list Z) (id account : Z) (side : Side) (price qty recv_ts : Z) : outcome (list Z) :=
  let! order_id := expect_ok (OrderId_new id) in
  let! account_id := expect_ok (AccountId_new account) in
  let! price := expect_ok (Price_new price) in
  let! qty := expect_ok (Qty_new qty) in
  let msg := mkNewOrder 0 order_id account_id side Limit Gtc (Some price) qty in
  let payload := new_order.encode msg [] in
  let! frame := expect_ok (Frame_write K_NewOrder payload []) in
  Ret ((out ++ frame) ++ to_le 8 (i64_as_u64 recv_ts)).

Definition push_cancel (out : list Z) (id account recv_ts : Z) : outcome (list Z) :=
  let! order_id := expect_ok (OrderId_new id) in
  let! account_id := expect_ok (AccountId_new account) in
  let payload := cancel_order.encode (mkCancelOrder 0 order_id account_id) [] in
  let! frame := expect_ok (Frame_write K_CancelOrder payload []) in
  Ret ((out ++ frame) ++ to_le 8 (i64_as_u64 recv_ts)).

(** [for (i, (price, qty, ts)) in [...].iter().enumerate()], ids from [base]. *)
Fixpoint push_orders (out : list Z) (base account : Z) (side : Side) (rows : list (Z * Z * Z)) : outcome (list Z) :=
  match rows with
  | [] => Ret out
  | (price, qty, ts) :: rows =>
      let! out := push_new_order out base account side price qty ts in
      push_orders out (base + 1) account side rows
  end.

(** The bytes [main] builds. *)
Definition gen_fixture : outcome (list Z) :=
  let! bytes := push_orders [] 1 2 Ask [(100, 5, 1000); (102, 3, 1001); (105, 4, 1002)] in
  let! bytes := push_orders bytes 10 7 Bid [(95, 4, 1010); (97, 2, 1011)] in
  let! bytes := push_new_order bytes 100 9 Bid 102 6 2000 in
  let! bytes := push_new_order bytes 101 9 Ask 95 3 2001 in
  push_cancel bytes 3 2 2002.

(** [main] over the writes of the file system: the exit code. *)
Definition gen_fixture_main {E F} (fs_write : F → string → list Z → F * result unit E) (f : F) (args : list string) :
    outcome (F * Z) :=
  if decide (length args < 2)%nat then Ret (f, 2) else
  let! out := expect (args !! 1%nat) in
  let! bytes := gen_fixture in
  let '(f, w) := fs_write f out bytes in
  Ret (f, match w with Err _ => 2 | Ok _ => 0 end).

(** [fixtures/inbound.bin]. *)
Definition fixture_inbound : list Z :=
  [41; 0; 0; 0; 1; 0; 0; 0; 0; 0; 0; 0; 0; 1; 0; 0; 0; 0; 0; 0; 0; 2; 0; 0; 0; 2; 1; 1; 0; 100; 0; 0; 0; 0;
   0; 0; 0; 5; 0; 0; 0; 0; 0; 0; 0; 232; 3; 0; 0; 0; 0; 0; 0; 41; 0; 0; 0; 1; 0; 0; 0; 0; 0; 0; 0; 0; 2; 0;
   0; 0; 0; 0; 0; 0; 2; 0; 0; 0; 2; 1; 1; 0; 102; 0; 0; 0; 0; 0; 0; 0; 3; 0; 0; 0; 0; 0; 0; 0; 233; 3; 0;
   0; 0; 0; 0; 0; 41; 0; 0; 0; 1; 0; 0; 0; 0; 0; 0; 0; 0; 3; 0; 0; 0; 0; 0; 0; 0; 2; 0; 0; 0; 2; 1; 1; 0;
   105; 0; 0; 0; 0; 0; 0; 0; 4; 0; 0; 0; 0; 0; 0; 0; 234; 3; 0; 0; 0; 0; 0; 0; 41; 0; 0; 0; 1; 0; 0; 0; 0;
   0; 0; 0; 0; 10; 0; 0; 0; 0; 0; 0; 0; 7; 0; 0; 0; 1; 1; 1; 0; 95; 0; 0; 0; 0; 0; 0; 0; 4; 0; 0; 0; 0; 0;
   0; 0; 242; 3; 0; 0; 0; 0; 0; 0; 41; 0; 0; 0; 1; 0; 0; 0; 0; 0; 0; 0; 0; 11; 0; 0; 0; 0; 0; 0; 0; 7; 0;
   0; 0; 1; 1; 1; 0; 97; 0; 0; 0; 0; 0; 0; 0; 2; 0; 0; 0; 0; 0; 0; 0; 243; 3; 0; 0; 0; 0; 0; 0; 41; 0; 0;
   0; 1; 0; 0; 0; 0; 0; 0; 0; 0; 100; 0; 0; 0; 0; 0; 0; 0; 9; 0; 0; 0; 1; 1; 1; 0; 102; 0; 0; 0; 0; 0; 0;
   0; 6; 0; 0; 0; 0; 0; 0; 0; 208; 7; 0; 0; 0; 0; 0; 0; 41; 0; 0; 0; 1; 0; 0; 0; 0; 0; 0; 0; 0; 101; 0; 0;
   0; 0; 0; 0; 0; 9; 0; 0; 0; 2; 1; 1; 0; 95; 0; 0; 0; 0; 0; 0; 0; 3; 0; 0; 0; 0; 0; 0; 0; 209; 7; 0; 0; 0;
   0; 0; 0; 25; 0; 0; 0; 2; 0; 0; 0; 0; 0; 0; 0; 0; 3; 0; 0; 0; 0; 0; 0; 0; 2; 0; 0; 0; 0; 0; 0; 0; 210; 7;
   0; 0; 0; 0; 0; 0].

(** [fixtures/outbound.golden]. *)
Definition fixture_golden : list Z :=
  [65; 0; 0; 0; 101; 1; 0; 0; 0; 0; 0; 0; 0; 1; 0; 0; 0; 0; 0; 0; 0; 2; 0; 0; 0; 1; 0; 0; 0; 0; 0; 0; 0; 0;
   0; 0; 0; 0; 0; 0; 0; 0; 0; 0; 0; 5; 0; 0; 0; 0; 0; 0; 0; 0; 0; 0; 0; 0; 0; 0; 0; 0; 0; 0; 0; 0; 0; 0; 0;
   41; 0; 0; 0; 104; 2; 0; 0; 0; 0; 0; 0; 0; 100; 0; 0; 0; 0; 0; 0; 0; 5; 0; 0; 0; 0; 0; 0; 0; 2; 0; 0; 0;
   0; 0; 0; 0; 0; 0; 0; 0; 0; 0; 0; 0; 49; 0; 0; 0; 103; 3; 0; 0; 0; 0; 0; 0; 0; 0; 0; 0; 0; 0; 0; 0; 0; 0;
   0; 0; 0; 0; 0; 0; 0; 100; 0; 0; 0; 0; 0; 0; 0; 5; 0; 0; 0; 0; 0; 0; 0; 0; 0; 0; 0; 0; 0; 0; 0; 65; 0; 0;
   0; 101; 4; 0; 0; 0; 0; 0; 0; 0; 2; 0; 0; 0; 0; 0; 0; 0; 2; 0; 0; 0; 1; 0; 0; 0; 0; 0; 0; 0; 0; 0; 0; 0;
   0; 0; 0; 0; 0; 0; 0; 0; 3; 0; 0; 0; 0; 0; 0; 0; 0; 0; 0; 0; 0; 0; 0; 0; 0; 0; 0; 0; 0; 0; 0; 0; 41; 0;
   0; 0; 104; 5; 0; 0; 0; 0; 0; 0; 0; 102; 0; 0; 0; 0; 0; 0; 0; 3; 0; 0; 0; 0; 0; 0; 0; 2; 0; 0; 0; 0; 0;
   0; 0; 0; 0; 0; 0; 0; 0; 0; 0; 49; 0; 0; 0; 103; 6; 0; 0; 0; 0; 0; 0; 0; 0; 0; 0; 0; 0; 0; 0; 0; 0; 0; 0;
   0; 0; 0; 0; 0; 100; 0; 0; 0; 0; 0; 0; 0; 8; 0; 0; 0; 0; 0; 0; 0; 0; 0; 0; 0; 0; 0; 0; 0; 65; 0; 0; 0;
   101; 7; 0; 0; 0; 0; 0; 0; 0; 3; 0; 0; 0; 0; 0; 0; 0; 2; 0; 0; 0; 1; 0; 0; 0; 0; 0; 0; 0; 0; 0; 0; 0; 0;
   0; 0; 0; 0; 0; 0; 0; 4; 0; 0; 0; 0; 0; 0; 0; 0; 0; 0; 0; 0; 0; 0; 0; 0; 0; 0; 0; 0; 0; 0; 0; 41; 0; 0;
   0; 104; 8; 0; 0; 0; 0; 0; 0; 0; 105; 0; 0; 0; 0; 0; 0; 0; 4; 0; 0; 0; 0; 0; 0; 0; 2; 0; 0; 0; 0; 0; 0;
   0; 0; 0; 0; 0; 0; 0; 0; 0; 49; 0; 0; 0; 103; 9; 0; 0; 0; 0; 0; 0; 0; 0; 0; 0; 0; 0; 0; 0; 0; 0; 0; 0; 0;
   0; 0; 0; 0; 100; 0; 0; 0; 0; 0; 0; 0; 12; 0; 0; 0; 0; 0; 0; 0; 0; 0; 0; 0; 0; 0; 0; 0; 65; 0; 0; 0; 101;
   10; 0; 0; 0; 0; 0; 0; 0; 10; 0; 0; 0; 0; 0; 0; 0; 7; 0; 0; 0; 1; 0; 0; 0; 0; 0; 0; 0; 0; 0; 0; 0; 0; 0;
   0; 0; 0; 0; 0; 0; 4; 0; 0; 0; 0; 0; 0; 0; 0; 0; 0; 0; 0; 0; 0; 0; 0; 0; 0; 0; 0; 0; 0; 0; 41; 0; 0; 0;
   104; 11; 0; 0; 0; 0; 0; 0; 0; 95; 0; 0; 0; 0; 0; 0; 0; 4; 0; 0; 0; 0; 0; 0; 0; 1; 0; 0; 0; 0; 0; 0; 0;
   0; 0; 0; 0; 0; 0; 0; 0; 49; 0; 0; 0; 103; 12; 0; 0; 0; 0; 0; 0; 0; 95; 0; 0; 0; 0; 0; 0; 0; 4; 0; 0; 0;
   0; 0; 0; 0; 100; 0; 0; 0; 0; 0; 0; 0; 12; 0; 0; 0; 0; 0; 0; 0; 0; 0; 0; 0; 0; 0; 0; 0; 65; 0; 0; 0; 101;
   13; 0; 0; 0; 0; 0; 0; 0; 11; 0; 0; 0; 0; 0; 0; 0; 7; 0; 0; 0; 1; 0; 0; 0; 0; 0; 0; 0; 0; 0; 0; 0; 0; 0;
   0; 0; 0; 0; 0; 0; 2; 0; 0; 0; 0; 0; 0; 0; 0; 0; 0; 0; 0; 0; 0; 0; 0; 0; 0; 0; 0; 0; 0; 0; 41; 0; 0; 0;
   104; 14; 0; 0; 0; 0; 0; 0; 0; 97; 0; 0; 0; 0; 0; 0; 0; 2; 0; 0; 0; 0; 0; 0; 0; 1; 0; 0; 0; 0; 0; 0; 0;
   0; 0; 0; 0; 0; 0; 0; 0; 49; 0; 0; 0; 103; 15; 0; 0; 0; 0; 0; 0; 0; 97; 0; 0; 0; 0; 0; 0; 0; 6; 0; 0; 0;
   0; 0; 0; 0; 100; 0; 0; 0; 0; 0; 0; 0; 12; 0; 0; 0; 0; 0; 0; 0; 0; 0; 0; 0; 0; 0; 0; 0; 49; 0; 0; 0; 102;
   16; 0; 0; 0; 0; 0; 0; 0; 1; 0; 0; 0; 0; 0; 0; 0; 100; 0; 0; 0; 0; 0; 0; 0; 5; 0; 0; 0; 0; 0; 0; 0; 1; 0;
   0; 0; 0; 0; 0; 0; 0; 0; 0; 0; 0; 0; 0; 0; 65; 0; 0; 0; 101; 17; 0; 0; 0; 0; 0; 0; 0; 1; 0; 0; 0; 0; 0;
   0; 0; 2; 0; 0; 0; 4; 0; 0; 0; 100; 0; 0; 0; 0; 0; 0; 0; 5; 0; 0; 0; 0; 0; 0; 0; 0; 0; 0; 0; 0; 0; 0; 0;
   0; 0; 0; 0; 0; 0; 0; 0; 0; 0; 0; 0; 0; 0; 0; 0; 65; 0; 0; 0; 101; 18; 0; 0; 0; 0; 0; 0; 0; 100; 0; 0; 0;
   0; 0; 0; 0; 9; 0; 0; 0; 3; 0; 0; 0; 100; 0; 0; 0; 0; 0; 0; 0; 5; 0; 0; 0; 0; 0; 0; 0; 1; 0; 0; 0; 0; 0;
   0; 0; 0; 0; 0; 0; 0; 0; 0; 0; 0; 0; 0; 0; 0; 0; 0; 0; 49; 0; 0; 0; 102; 19; 0; 0; 0; 0; 0; 0; 0; 2; 0;
   0; 0; 0; 0; 0; 0; 102; 0; 0; 0; 0; 0; 0; 0; 1; 0; 0; 0; 0; 0; 0; 0; 1; 0; 0; 0; 0; 0; 0; 0; 0; 0; 0; 0;
   0; 0; 0; 0; 65; 0; 0; 0; 101; 20; 0; 0; 0; 0; 0; 0; 0; 2; 0; 0; 0; 0; 0; 0; 0; 2; 0; 0; 0; 3; 0; 0; 0;
   102; 0; 0; 0; 0; 0; 0; 0; 1; 0; 0; 0; 0; 0; 0; 0; 2; 0; 0; 0; 0; 0; 0; 0; 0; 0; 0; 0; 0; 0; 0; 0; 0; 0;
   0; 0; 0; 0; 0; 0; 65; 0; 0; 0; 101; 21; 0; 0; 0; 0; 0; 0; 0; 100; 0; 0; 0; 0; 0; 0; 0; 9; 0; 0; 0; 4; 0;
   0; 0; 102; 0; 0; 0; 0; 0; 0; 0; 1; 0; 0; 0; 0; 0; 0; 0; 0; 0; 0; 0; 0; 0; 0; 0; 0; 0; 0; 0; 0; 0; 0; 0;
   0; 0; 0; 0; 0; 0; 0; 0; 41; 0; 0; 0; 104; 22; 0; 0; 0; 0; 0; 0; 0; 100; 0; 0; 0; 0; 0; 0; 0; 0; 0; 0; 0;
   0; 0; 0; 0; 2; 0; 0; 0; 0; 0; 0; 0; 0; 0; 0; 0; 0; 0; 0; 0; 41; 0; 0; 0; 104; 23; 0; 0; 0; 0; 0; 0; 0;
   102; 0; 0; 0; 0; 0; 0; 0; 2; 0; 0; 0; 0; 0; 0; 0; 2; 0; 0; 0; 0; 0; 0; 0; 0; 0; 0; 0; 0; 0; 0; 0; 49; 0;
   0; 0; 103; 24; 0; 0; 0; 0; 0; 0; 0; 97; 0; 0; 0; 0; 0; 0; 0; 6; 0; 0; 0; 0; 0; 0; 0; 102; 0; 0; 0; 0; 0;
   0; 0; 6; 0; 0; 0; 0; 0; 0; 0; 0; 0; 0; 0; 0; 0; 0; 0; 65; 0; 0; 0; 101; 25; 0; 0; 0; 0; 0; 0; 0; 101; 0;
   0; 0; 0; 0; 0; 0; 9; 0; 0; 0; 2; 6; 0; 0; 0; 0; 0; 0; 0; 0; 0; 0; 0; 0; 0; 0; 0; 0; 0; 0; 0; 0; 0; 0; 0;
   0; 0; 0; 0; 0; 0; 0; 0; 0; 0; 0; 0; 0; 0; 0; 0; 0; 0; 0; 49; 0; 0; 0; 103; 26; 0; 0; 0; 0; 0; 0; 0; 97;
   0; 0; 0; 0; 0; 0; 0; 6; 0; 0; 0; 0; 0; 0; 0; 102; 0; 0; 0; 0; 0; 0; 0; 6; 0; 0; 0; 0; 0; 0; 0; 0; 0; 0;
   0; 0; 0; 0; 0; 65; 0; 0; 0; 101; 27; 0; 0; 0; 0; 0; 0; 0; 3; 0; 0; 0; 0; 0; 0; 0; 2; 0; 0; 0; 5; 0; 1;
   0; 0; 0; 0; 0; 0; 0; 0; 0; 0; 0; 0; 0; 0; 0; 0; 0; 0; 0; 0; 0; 0; 0; 0; 0; 0; 0; 0; 0; 0; 0; 0; 0; 0; 0;
   0; 0; 0; 0; 0; 0; 41; 0; 0; 0; 104; 28; 0; 0; 0; 0; 0; 0; 0; 105; 0; 0; 0; 0; 0; 0; 0; 0; 0; 0; 0; 0; 0;
   0; 0; 2; 0; 0; 0; 0; 0; 0; 0; 0; 0; 0; 0; 0; 0; 0; 0; 49; 0; 0; 0; 103; 29; 0; 0; 0; 0; 0; 0; 0; 97; 0;
   0; 0; 0; 0; 0; 0; 6; 0; 0; 0; 0; 0; 0; 0; 102; 0; 0; 0; 0; 0; 0; 0; 2; 0; 0; 0; 0; 0; 0; 0; 0; 0; 0; 0;
   0; 0; 0; 0].

Lemma gen_fixture_ok : gen_fixture = Ret fixture_inbound.
Proof. vm_compute. reflexivity. Qed.

Lemma fixture_replay_ok : replay_bytes (L := FifoLevel) fixture_inbound true = Ret (Ok fixture_golden).
Proof. vm_compute. reflexivity. Qed.
