(* ===== verification/Workload.v ===== *)
(** * Workload: the benchmark binaries

    [crates/engine/src/bin/throughput_bench.rs], [dhat_bench.rs], [co_bench.rs],
    [smoke_bench.rs] and [benches/add_cancel_mix.rs] share one workload: a seeded
    generator of adds, cancels and aggressive orders driven through an engine whose
    sink is emptied after every step.  The four binaries carry the same generator;
    the Criterion benchmark draws the price before the quantity, for every kind of
    operation.  [Instant::now] is a sequence of clock readings, the histogram and the
    heap profiler are the interfaces of their crates; printing is not modelled. *)

From S2P Require Import Prelude BTree Domain PriceLevel Book Messages Ids Engine EngineInv EngineRun EngineBounds Bytes Framing WireInbound WireOutbound MarketData EngineFeed Text.
#[local] Open Scope Z_scope.

(** ** The clock and the random numbers *)

(** [BenchClock]: one tick per read; [v + 1] wraps as in a release build. *)
Record BenchClock := mkBenchClock { next_tick : Z }.
Definition BenchClock_new : BenchClock := mkBenchClock 1.
#[global] Instance BenchClock_clock : Clock BenchClock := {
  now c := (next_tick c, mkBenchClock (wrap_i64 (next_tick c + 1)));
}.

#[global] Instance BenchClock_width : ClockWidth BenchClock.
Proof.
  refine {| clock_ok c := is_i64 (next_tick c) |}. intros c Hc. split; [done|]. simpl.
  apply (u64_as_i64_range (next_tick c + 1)).
Defined.

(** [Lcg::next]: the new state is the number drawn. *)
Definition Lcg_next (s : Z) : Z := wrap_u64 (wrap_u64 (s * 6364136223846793005) + 1).

(** ** Operations *)

Inductive Op :=
| Add (id account : Z) (side : Side) (price qty : Z)
| Cancel (id account : Z)
| Aggressive (id account : Z) (side : Side) (price qty : Z).

Definition ACCOUNT_COUNT : Z := 8.
Definition PRICE_LOW : Z := 90.
Definition PRICE_HIGH : Z := 110.

(** [Vec::swap_remove]: panics out of range. *)
Definition swap_remove {A} (v : list A) (idx : nat) : outcome (A * list A) :=
  match v !! idx, last v with
  | Some x, Some l => Ret (x, removelast (<[idx := l]> v))
  | _, _ => Panic
  end.

(** The local variables of [generate_ops]. *)
Record gen := mkGen { g_rng : Z; g_ops : list Op; g_next_id : Z; g_active_ids : list Z }.

Definition side_of (draw : Z) : Side := if draw mod 2 =? 0 then Bid else Ask.
Definition safe_price (side : Side) : Z := match side with Bid => PRICE_LOW | Ask => PRICE_HIGH end.

(** One round of the [for] loop in the binaries. *)
Definition generate_one (g : gen) : outcome gen :=
  let d1 := Lcg_next (g_rng g) in
  let r := d1 mod 100 in
  let d2 := Lcg_next d1 in
  let account := d2 mod ACCOUNT_COUNT + 1 in
  let d3 := Lcg_next d2 in
  let side := side_of d3 in
  let d4 := Lcg_next d3 in
  let qty := d4 mod 9 + 1 in
  if (r <? 20) && negb (bool_decide (g_active_ids g = [])) then
    let d5 := Lcg_next d4 in
    let idx := Z.to_nat (d5 mod Z.of_nat (length (g_active_ids g))) in
    let! x := swap_remove (g_active_ids g) idx in
    let '(id, active_ids) := x in
    Ret (mkGen d5 (g_ops g ++ [Cancel id account]) (g_next_id g) active_ids)
  else if r <? 30 then
    let d5 := Lcg_next d4 in
    let price := PRICE_LOW + Z.rem (u64_as_i64 d5) (PRICE_HIGH - PRICE_LOW + 1) in
    Ret (mkGen d5 (g_ops g ++ [Aggressive (g_next_id g) account side price qty])
      (wrap_u64 (g_next_id g + 1)) (g_active_ids g))
  else
    Ret (mkGen d4 (g_ops g ++ [Add (g_next_id g) account side (safe_price side) qty])
      (wrap_u64 (g_next_id g + 1)) (g_active_ids g ++ [g_next_id g])).

(** One round of the [for] loop in [benches/add_cancel_mix.rs]. *)
Definition mix_generate_one (g : gen) : outcome gen :=
  let d1 := Lcg_next (g_rng g) in
  let r := d1 mod 100 in
  let d2 := Lcg_next d1 in
  let account := d2 mod ACCOUNT_COUNT + 1 in
  let d3 := Lcg_next d2 in
  let side := side_of d3 in
  let d4 := Lcg_next d3 in
  let price := PRICE_LOW + Z.rem (u64_as_i64 d4) (PRICE_HIGH - PRICE_LOW + 1) in
  let d5 := Lcg_next d4 in
  let qty := d5 mod 9 + 1 in
  if (r <? 20) && negb (bool_decide (g_active_ids g = [])) then
    let d6 := Lcg_next d5 in
    let idx := Z.to_nat (d6 mod Z.of_nat (length (g_active_ids g))) in
    let! x := swap_remove (g_active_ids g) idx in
    let '(id, active_ids) := x in
    Ret (mkGen d6 (g_ops g ++ [Cancel id account]) (g_next_id g) active_ids)
  else if r <? 30 then
    Ret (mkGen d5 (g_ops g ++ [Aggressive (g_next_id g) account side price qty])
      (wrap_u64 (g_next_id g + 1)) (g_active_ids g))
  else
    Ret (mkGen d5 (g_ops g ++ [Add (g_next_id g) account side (safe_price side) qty])
      (wrap_u64 (g_next_id g + 1)) (g_active_ids g ++ [g_next_id g])).

(** [for _ in 0..n]. *)
Fixpoint generate_loop (one : gen → outcome gen) (n : nat) (g : gen) : outcome gen :=
  match n with
  | O => Ret g
  | S n => let! g := one g in generate_loop one n g
  end.

Definition generate_with (one : gen → outcome gen) (n seed : Z) : outcome (list Op) :=
  let! g := generate_loop one (Z.to_nat n) (mkGen seed [] 1 []) in Ret (g_ops g).

Definition generate_ops : Z → Z → outcome (list Op) := generate_with generate_one.
Definition mix_generate_ops : Z → Z → outcome (list Op) := generate_with mix_generate_one.

Definition op_to_inbound (op : Op) : outcome Inbound :=
  match op with
  | Add id account side price qty | Aggressive id account side price qty =>
      let! order_id := expect_ok (OrderId_new id) in
      let! account_id := expect_ok (AccountId_new account) in
      let! price := expect_ok (Price_new price) in
      let! qty := expect_ok (Qty_new qty) in
      Ret (In_NewOrder (mkNewOrder 0 order_id account_id side Limit Gtc (Some price) qty))
  | Cancel id account =>
      let! order_id := expect_ok (OrderId_new id) in
      let! account_id := expect_ok (AccountId_new account) in
      Ret (In_CancelOrder (mkCancelOrder 0 order_id account_id))
  end.

(** ** Driving an engine *)

Section Drive.
Context {L : Type} `{!PriceLevelOps L}.
Local Abbreviation Eng := (Engine L BenchClock CounterIdGenerator VecSink).

Definition bench_engine : Eng := engine_new BenchClock_new CounterIdGenerator_new VecSink_new.

(** [for op in ops { engine.step(op_to_inbound(op)); engine.sink_mut().events.clear(); }]. *)
Fixpoint drive (e : Eng) (ops : list Op) : outcome Eng :=
  match ops with
  | [] => Ret e
  | op :: ops =>
      let! inbound := op_to_inbound op in
      let! e := step e inbound in
      drive (set_sink e VecSink_new) ops
  end.
End Drive.

(** ** Time and histograms *)

(** The monotonic clock, in nanoseconds: what it reads the [n]th time it is asked, when
    the engine has done [k] steps by then; how often it was asked, and the steps so far. *)
Record Timer := mkTimer { tm_reading : nat → nat → Z; tm_reads : nat; tm_steps : nat }.

Definition Instant_now (t : Timer) : Z * Timer :=
  (tm_reading t (tm_reads t) (tm_steps t), mkTimer (tm_reading t) (S (tm_reads t)) (tm_steps t)).

(** Time passes while the engine does [n] steps. *)
Definition worked (n : nat) (t : Timer) : Timer := mkTimer (tm_reading t) (tm_reads t) (tm_steps t + n).

(** [start.elapsed()], which saturates at zero. *)
Definition elapsed (start : Z) (t : Timer) : Z * Timer :=
  let '(now, t) := Instant_now t in (Z.max 0 (now - start), t).

(** [elapsed.as_nanos() as u64], and [.max(1)]. *)
Definition latency_ns (d : Z) : Z := Z.max (wrap_u64 d) 1.

(** What the benchmarks use of [hdrhistogram::Histogram<u64>]. *)
Class HistogramOps (H : Type) := {
  new_with_bounds : Z → Z → Z → result H unit;
  hist_record : H → Z → H * result unit unit;
  hist_record_correct : H → Z → Z → H * result unit unit;
}.

(** The documented condition under which a histogram can be created. *)
Class HistogramLaws (H : Type) `{!HistogramOps H} : Prop :=
  new_with_bounds_ok low high sigfig :
    1 <= low → 2 * low <= high → 0 <= sigfig <= 5 → ∃ h : H, new_with_bounds low high sigfig = Ok h.

Section Timed.
Context {L : Type} `{!PriceLevelOps L} {H : Type} `{!HistogramOps H}.
Local Abbreviation Eng := (Engine L BenchClock CounterIdGenerator VecSink).

(** [Histogram::<u64>::new_with_bounds(1, 30_000_000_000, 3).expect(..)]. *)
Definition bench_histogram : outcome H := expect_ok (new_with_bounds 1 30000000000 3).

(** The loop of [smoke_bench] and [add_cancel_mix]: one sample per operation. *)
Fixpoint drive_timed (e : Eng) (t : Timer) (hist : H) (ops : list Op) : outcome (Eng * Timer * H) :=
  match ops with
  | [] => Ret (e, t, hist)
  | op :: ops =>
      let! inbound := op_to_inbound op in
      let '(t0, t) := Instant_now t in
      let! e := step e inbound in
      let '(d, t) := elapsed t0 (worked 1 t) in
      let hist := (hist_record hist (latency_ns d)).1 in
      drive_timed (set_sink e VecSink_new) t hist ops
  end.

(** [while Instant::now() < scheduled { spin_loop() }]. *)
Definition spin_round (scheduled : Z) (t : Timer) : outcome (Timer + Timer) :=
  let '(now, t) := Instant_now t in Ret (if now <? scheduled then inl t else inr t).

(** The loop of [co_bench]: operation [i] is due [interval * (i as u32)] after the
    start, and its sample is the time from then to its completion.  [fuel] bounds the
    readings of one wait. *)
Fixpoint drive_paced (fuel : nat) (bench_start interval : Z) (i : nat) (e : Eng) (t : Timer) (hist : H) (ops : list Op) :
    outcome (Eng * Timer * H) :=
  match ops with
  | [] => Ret (e, t, hist)
  | op :: ops =>
      let scheduled := bench_start + interval * (Z.of_nat i mod 2 ^ 32) in
      let! t := loop fuel (spin_round scheduled) t in
      let! inbound := op_to_inbound op in
      let '(t0, t) := Instant_now t in
      let! e := step e inbound in
      let '(_step_ns, t) := elapsed t0 (worked 1 t) in
      let '(d, t) := elapsed scheduled t in
      let hist := (hist_record_correct hist (latency_ns d) interval).1 in
      drive_paced fuel bench_start interval (S i) (set_sink e VecSink_new) t hist ops
  end.
End Timed.

(** ** The programs

    Each source file has its own copy of the generator; the copies in the binaries
    are identical. *)

Module throughput_bench.
Definition N_WARMUP : Z := 100000.
Definition N_MEASURE : Z := 1000000.

(** The engine, and the nanoseconds of the warm-up and of the measured run. *)
Definition main {L} `{!PriceLevelOps L} (reading : nat → nat → Z) :
    outcome (Engine L BenchClock CounterIdGenerator VecSink * Z * Z) :=
  let! warmup_ops := generate_ops N_WARMUP 0xdeadbeef in
  let! measure_ops := generate_ops N_MEASURE 0xc0ffee in
  let '(warmup_start, t) := Instant_now (mkTimer reading 0 0) in
  let! e := drive bench_engine warmup_ops in
  let '(warmup_elapsed, t) := elapsed warmup_start (worked (length warmup_ops) t) in
  let '(measure_start, t) := Instant_now t in
  let! e := drive e measure_ops in
  let '(measure_elapsed, _) := elapsed measure_start (worked (length measure_ops) t) in
  Ret (e, warmup_elapsed, measure_elapsed).
End throughput_bench.

Module dhat_bench.
Definition Lcg_next : Z → Z := Lcg_next.
Definition generate_ops : Z → Z → outcome (list Op) := generate_ops.
Definition op_to_inbound : Op → outcome Inbound := op_to_inbound.
Definition N_WARMUP : Z := 10000.
Definition N_MEASURE : Z := 100000.
Definition drive {L} `{!PriceLevelOps L} := drive (L := L).

(** The engine, and the allocated blocks and bytes of the measured run; [stats n k] is
    the [n]th [dhat::HeapStats::get()], total blocks and total bytes, when the engine has
    done [k] steps. *)
Definition main {L} `{!PriceLevelOps L} (stats : nat → nat → Z * Z) :
    outcome (Engine L BenchClock CounterIdGenerator VecSink * Z * Z) :=
  let! warmup_ops := generate_ops N_WARMUP 0xdeadbeef in
  let! measure_ops := generate_ops N_MEASURE 0xc0ffee in
  let! e := drive bench_engine warmup_ops in
  let warmup_stats := stats 0%nat (length warmup_ops) in
  let! e := drive e measure_ops in
  let measure_stats := stats 1%nat (length warmup_ops + length measure_ops)%nat in
  Ret (e, u64_sub measure_stats.1 warmup_stats.1, u64_sub measure_stats.2 warmup_stats.2).
Definition Op : Type := Op.
Definition BenchClock : Type := BenchClock.
Definition ACCOUNT_COUNT : Z := ACCOUNT_COUNT.
Definition PRICE_LOW : Z := PRICE_LOW.
Definition PRICE_HIGH : Z := PRICE_HIGH.
End dhat_bench.

Module smoke_bench.
Definition Lcg_next : Z → Z := Lcg_next.
Definition generate_ops : Z → Z → outcome (list Op) := generate_ops.
Definition op_to_inbound : Op → outcome Inbound := op_to_inbound.
Definition N_OPS : Z := 10000.

(** The engine, the histogram and the nanoseconds of the whole run. *)
Definition main {L} `{!PriceLevelOps L} {H} `{!HistogramOps H} (reading : nat → nat → Z) :
    outcome (Engine L BenchClock CounterIdGenerator VecSink * H * Z) :=
  let! ops := generate_ops N_OPS 0xdeadbeefdeadbeef in
  let! hist := bench_histogram in
  let '(bench_start, t) := Instant_now (mkTimer reading 0 0) in
  let! '(e, t, hist) := drive_timed bench_engine t hist ops in
  let '(total, _) := elapsed bench_start t in
  Ret (e, hist, total).
Definition Op : Type := Op.
Definition BenchClock : Type := BenchClock.
Definition ACCOUNT_COUNT : Z := ACCOUNT_COUNT.
Definition PRICE_LOW : Z := PRICE_LOW.
Definition PRICE_HIGH : Z := PRICE_HIGH.
End smoke_bench.

Module add_cancel_mix.
Definition op_to_inbound : Op → outcome Inbound := op_to_inbound.
Definition N_OPS : Z := 1000000.

(** One iteration of the measured closure, on a fresh engine. *)
Definition run_workload {L} `{!PriceLevelOps L} {H} `{!HistogramOps H} (reading : nat → nat → Z) :
    outcome (Engine L BenchClock CounterIdGenerator VecSink * H) :=
  let! ops := mix_generate_ops N_OPS 0xdeadbeefdeadbeef in
  let! hist := bench_histogram in
  let! '(e, _, hist) := drive_timed bench_engine (mkTimer reading 0 0) hist ops in
  Ret (e, hist).
End add_cancel_mix.

Module co_bench.
Definition Lcg_next : Z → Z := Lcg_next.
Definition generate_ops : Z → Z → outcome (list Op) := generate_ops.
Definition op_to_inbound : Op → outcome Inbound := op_to_inbound.
Definition N_WARMUP : Z := 50000.
Definition N_MEASURE : Z := 1000000.
Definition DEFAULT_TARGET_OPS_PER_SEC : Z := 200000.

(** The target rate from the environment variable, when it is set and parses. *)
Definition target_rate (var : option string) : Z :=
  default DEFAULT_TARGET_OPS_PER_SEC (var ≫= parse_uint u64_max).

(** [1_000_000_000 / target_rate]: division by zero panics. *)
Definition interval_ns (rate : Z) : outcome Z :=
  if rate =? 0 then Panic else Ret (1000000000 / rate).

Definition main {L} `{!PriceLevelOps L} {H} `{!HistogramOps H} (fuel : nat) (reading : nat → nat → Z) (var : option string) :
    outcome (Engine L BenchClock CounterIdGenerator VecSink * H * Z) :=
  let! interval := interval_ns (target_rate var) in
  let! warmup_ops := generate_ops N_WARMUP 0xdeadbeef in
  let! measure_ops := generate_ops N_MEASURE 0xc0ffee in
  let! e := drive bench_engine warmup_ops in
  let! hist := bench_histogram in
  let '(bench_start, t) := Instant_now (mkTimer reading 0 (length warmup_ops)) in
  let! '(e, t, hist) := drive_paced fuel bench_start interval 0 e t hist measure_ops in
  let '(total, _) := elapsed bench_start t in
  Ret (e, hist, total).
Definition Op : Type := Op.
Definition BenchClock : Type := BenchClock.
Definition ACCOUNT_COUNT : Z := ACCOUNT_COUNT.
Definition PRICE_LOW : Z := PRICE_LOW.
Definition PRICE_HIGH : Z := PRICE_HIGH.
End co_bench.

(** ** What the generators produce *)

(** The fields [op_to_inbound] relies on; ids below [bound]. *)
Definition op_ok (bound : Z) (op : Op) : Prop :=
  match op with
  | Add id account side price qty =>
      0 < id < bound ∧ 1 <= account <= ACCOUNT_COUNT ∧ price = safe_price side ∧ 1 <= qty <= 9
  | Cancel id account => 0 < id < bound ∧ 1 <= account <= ACCOUNT_COUNT
  | Aggressive id account side price qty =>
      0 < id < bound ∧ 1 <= account <= ACCOUNT_COUNT ∧
      PRICE_LOW - (PRICE_HIGH - PRICE_LOW) <= price <= PRICE_HIGH ∧ 1 <= qty <= 9
  end.

Definition new_ids (ops : list Op) : list Z :=
  ops ≫= λ op, match op with Add id _ _ _ _ | Aggressive id _ _ _ _ => [id] | Cancel _ _ => [] end.
Definition added (ops : list Op) : list Z := ops ≫= λ op, match op with Add id _ _ _ _ => [id] | _ => [] end.
Definition cancelled (ops : list Op) : list Z := ops ≫= λ op, match op with Cancel id _ => [id] | _ => [] end.

(** Every cancel names an order added before it and not cancelled since. *)
Definition self_consistent (ops : list Op) : Prop :=
  ∀ pre id account post, ops = pre ++ Cancel id account :: post → id ∈ added pre ∧ id ∉ cancelled pre.

Lemma self_consistent_snoc ops op :
  self_consistent ops →
  (∀ id account, op = Cancel id account → id ∈ added ops ∧ id ∉ cancelled ops) →
  self_consistent (ops ++ [op]).
Proof.
  intros Hops Hop pre id account post Heq. destruct post as [|x post _] using rev_ind.
  - apply app_inj_tail in Heq as [-> ->]. by eapply Hop.
  - rewrite app_comm_cons, app_assoc in Heq. apply app_inj_tail in Heq as [-> ->]. by eapply Hops.
Qed.

(** The abstract generator: any next operation of the three kinds. *)
Inductive gen_step : gen → gen → Prop :=
| gs_cancel g rng id account active :
    is_u64 rng → 1 <= account <= ACCOUNT_COUNT → g_active_ids g ≡ₚ id :: active →
    gen_step g (mkGen rng (g_ops g ++ [Cancel id account]) (g_next_id g) active)
| gs_aggressive g rng account side price qty :
    is_u64 rng → 1 <= account <= ACCOUNT_COUNT →
    PRICE_LOW - (PRICE_HIGH - PRICE_LOW) <= price <= PRICE_HIGH → 1 <= qty <= 9 →
    gen_step g (mkGen rng (g_ops g ++ [Aggressive (g_next_id g) account side price qty])
      (wrap_u64 (g_next_id g + 1)) (g_active_ids g))
| gs_add g rng account side qty :
    is_u64 rng → 1 <= account <= ACCOUNT_COUNT → 1 <= qty <= 9 →
    gen_step g (mkGen rng (g_ops g ++ [Add (g_next_id g) account side (safe_price side) qty])
      (wrap_u64 (g_next_id g + 1)) (g_active_ids g ++ [g_next_id g])).

Lemma Lcg_next_range s : is_u64 (Lcg_next s).
Proof. unfold is_u64, Lcg_next, wrap_u64, u64_max. pose proof (Z.mod_pos_bound (s * 6364136223846793005 mod 2 ^ 64 + 1) (2 ^ 64)). lia. Qed.

Lemma swap_remove_ok {A} (v : list A) idx :
  (idx < length v)%nat → wp False (swap_remove v idx) (λ r, v ≡ₚ r.1 :: r.2).
Proof.
  intros Hlt. unfold swap_remove. destruct (lookup_lt_is_Some_2 v idx Hlt) as [x Hx]. rewrite Hx.
  destruct v as [|l v _] using rev_ind; [done|]. rewrite last_snoc. simpl.
  rewrite length_app in Hlt. simpl in Hlt. destruct (decide (idx = length v)) as [->|Hne].
  - rewrite list_lookup_middle in Hx by done. injection Hx as <-. rewrite insert_app_r_alt, Nat.sub_diag by done. simpl.
    rewrite removelast_last. by rewrite Permutation_app_comm.
  - rewrite insert_app_l by lia. rewrite lookup_app_l in Hx by lia. rewrite removelast_last.
    rewrite Permutation_app_comm. simpl.
    assert (Hv : v = take idx v ++ x :: drop (S idx) v) by (symmetry; by apply take_drop_middle).
    rewrite (insert_take_drop v idx l) by lia. rewrite Hv at 1. rewrite <-!Permutation_middle. constructor.
Qed.

Lemma swap_index d n : (0 < n)%nat → (Z.to_nat (d mod Z.of_nat n) < n)%nat.
Proof. intros Hn. pose proof (Z.mod_pos_bound d (Z.of_nat n)). lia. Qed.

Lemma mod_succ_range d n : 0 < n → 1 <= d mod n + 1 <= n.
Proof. intros Hn. pose proof (Z.mod_pos_bound d n). lia. Qed.

(** The remainder keeps the sign of the drawn number. *)
Lemma aggressive_price_range d :
  PRICE_LOW - (PRICE_HIGH - PRICE_LOW) <= PRICE_LOW + Z.rem (u64_as_i64 d) (PRICE_HIGH - PRICE_LOW + 1) <= PRICE_HIGH.
Proof. unfold PRICE_LOW, PRICE_HIGH. pose proof (Z.rem_bound_abs (u64_as_i64 d) (110 - 90 + 1)). lia. Qed.

#[local] Arguments Lcg_next : simpl never.
#[local] Hint Resolve Lcg_next_range aggressive_price_range : workload.
#[local] Hint Extern 1 (1 <= _ mod _ + 1 <= _) => apply mod_succ_range; done : workload.

(** Picking an order to cancel, whatever the draws before it. *)
Lemma pick_cancel g d account :
  g_active_ids g ≠ [] → 1 <= account <= ACCOUNT_COUNT → is_u64 d →
  wp False (let! x := swap_remove (g_active_ids g) (Z.to_nat (d mod Z.of_nat (length (g_active_ids g)))) in
            let '(id, active_ids) := x in
            Ret (mkGen d (g_ops g ++ [Cancel id account]) (g_next_id g) active_ids)) (gen_step g).
Proof.
  intros Hne Ha Hd. apply wp_bind. eapply wp_conseq; [apply swap_remove_ok, swap_index|].
  - destruct (g_active_ids g); [done|simpl; lia].
  - intros [id active] Hp. by constructor.
Qed.

Lemma generate_one_step g : wp False (generate_one g) (gen_step g).
Proof.
  unfold generate_one. destruct (_ <? 20) eqn:H20; simpl.
  1: case_bool_decide; simpl; [|apply pick_cancel; auto with workload].
  all: destruct (_ <? 30); constructor; auto with workload.
Qed.

Lemma mix_generate_one_step g : wp False (mix_generate_one g) (gen_step g).
Proof.
  unfold mix_generate_one. destruct (_ <? 20) eqn:H20; simpl.
  1: case_bool_decide; simpl; [|apply pick_cancel; auto with workload].
  all: destruct (_ <? 30); constructor; auto with workload.
Qed.

(** The state of a generator after [k] rounds. *)
Record gen_ok (k : Z) (g : gen) : Prop := {
  go_len : Z.of_nat (length (g_ops g)) = k;
  go_next : 1 <= g_next_id g <= k + 1;
  go_new : new_ids (g_ops g) = seqZ 1 (g_next_id g - 1);
  go_ops : Forall (op_ok (g_next_id g)) (g_ops g);
  go_added : NoDup (added (g_ops g)) ∧ Forall (λ id, 0 < id < g_next_id g) (added (g_ops g));
  go_active : g_active_ids g ++ cancelled (g_ops g) ≡ₚ added (g_ops g);
  go_consistent : self_consistent (g_ops g);
}.

Lemma op_ok_mono b b' op : b <= b' → op_ok b op → op_ok b' op.
Proof. destruct op; simpl; intuition lia. Qed.

Lemma gen_step_ok k g g' : gen_step g g' → gen_ok k g → k < u64_max - 1 → gen_ok (k + 1) g'.
Proof.
  intros Hs [Hl Hn Hnew Hops [Hnd Hadd] Hact Hcon] Hk.
  assert (Hw : wrap_u64 (g_next_id g + 1) = g_next_id g + 1).
  { unfold wrap_u64, u64_max in *. rewrite Z.mod_small; lia. }
  assert (Hmono : ∀ op, op_ok (g_next_id g + 1) op → Forall (op_ok (g_next_id g + 1)) (g_ops g ++ [op])).
  { intros op Hop. apply Forall_app. split; [|by apply Forall_singleton].
    eapply Forall_impl; [done|]. intros ? ?. eapply op_ok_mono; [|done]. lia. }
  assert (Hids : new_ids (g_ops g) ++ [g_next_id g] = seqZ 1 (g_next_id g + 1 - 1)).
  { rewrite Hnew. replace (g_next_id g + 1 - 1) with (g_next_id g - 1 + 1) by lia. rewrite seqZ_app by lia.
    f_equal. unfold seqZ. simpl. f_equal. lia. }
  assert (Hwk : Forall (λ id, 0 < id < g_next_id g + 1) (added (g_ops g))).
  { eapply Forall_impl; [exact Hadd|]. simpl. lia. }
  destruct Hs as [g rng id account active Hr Ha Hp|g rng account side price qty Hr Ha Hpr Hq|g rng account side qty Hr Ha Hq];
    simpl in *; (split; simpl; [rewrite length_app; simpl; lia|try lia|..]); rewrite ?Hw;
    unfold new_ids, added, cancelled in *; rewrite ?bind_app; csimpl; rewrite ?app_nil_r; try done; try lia.
  - assert (Hin : id ∈ added (g_ops g)).
    { unfold added. rewrite <-Hact, Hp. set_solver. }
    apply Forall_app. split; [done|]. apply Forall_singleton. split; [|done].
    rewrite Forall_forall in Hadd. by apply Hadd.
  - rewrite <-Hact, Hp. simpl. rewrite (app_assoc active), (Permutation_app_comm _ [id]). done.
  - apply self_consistent_snoc; [done|]. intros i a [= <- <-]. unfold added, cancelled. split.
    + rewrite <-Hact, Hp. set_solver.
    + rewrite <-Hact, Hp in Hnd. apply NoDup_app in Hnd as (_ & Hd & _). apply Hd. set_solver.
  - apply Hmono. simpl. lia.
  - by apply self_consistent_snoc.
  - apply Hmono. simpl. repeat split; lia.
  - split; [|apply Forall_app; split; [done|apply Forall_singleton; lia]].
    apply NoDup_app. split; [done|]. split; [|apply NoDup_singleton].
    intros x Hx ->%list_elem_of_singleton. rewrite Forall_forall in Hadd. apply Hadd in Hx. lia.
  - rewrite <-Hact, <-!app_assoc. f_equiv. apply Permutation_app_comm.
  - by apply self_consistent_snoc.
Qed.

(** What a stream of [n] generated operations is: well-formed fields, new orders
    numbered 1, 2, 3, ... and cancels of orders that were added and are not
    cancelled yet. *)
Record workload (n : Z) (ops : list Op) : Prop := {
  wl_len : Z.of_nat (length ops) = n;
  wl_ops : Forall (op_ok (n + 1)) ops;
  wl_ids : new_ids ops = seqZ 1 (Z.of_nat (length (new_ids ops)));
  wl_consistent : self_consistent ops;
}.

Lemma generate_with_ok one n seed :
  (∀ g, wp False (one g) (gen_step g)) → 0 <= n < u64_max →
  ∃ ops, generate_with one n seed = Ret ops ∧ workload n ops.
Proof.
  intros Hone Hn. apply wp_total. unfold generate_with.
  assert (Hloop : ∀ m k g, gen_ok k g → k + Z.of_nat m < u64_max →
    wp False (generate_loop one m g) (gen_ok (k + Z.of_nat m))).
  { induction m as [|m IH]; intros k g Hg Hm; cbn [generate_loop]; [by rewrite Z.add_0_r|].
    apply wp_bind. eapply wp_conseq; [apply Hone|]. intros g' Hs.
    replace (k + Z.of_nat (S m)) with (k + 1 + Z.of_nat m) by lia.
    apply IH; [|lia]. eapply gen_step_ok; [done..|lia]. }
  apply wp_bind. eapply wp_conseq; [apply (Hloop _ 0); [|lia]|].
  - split; simpl; try done; try lia; [split; constructor|]. intros pre id account post H. by destruct pre.
  - intros g [Hl Hx Hnew Hops _ _ Hcon]. rewrite Z2Nat.id in * by lia. split; simpl; try done; try lia.
    + eapply Forall_impl; [done|]. intros op. apply op_ok_mono. lia.
    + rewrite Hnew at 2. rewrite length_seqZ, Z2Nat.id by lia. done.
Qed.

Lemma op_to_inbound_ok b op :
  b <= u64_max + 1 → op_ok b op → wp False (op_to_inbound op) command_ok.
Proof.
  unfold ACCOUNT_COUNT, PRICE_LOW, PRICE_HIGH. intros Hb Hop.
  assert (Hid : ∀ id, 0 < id < b → OrderId_new id = Ok id ∧ order_id_ok id).
  { intros id Hid. unfold OrderId_new, order_id_ok. rewrite (proj2 (Z.eqb_neq id 0)) by lia. split; [done|lia]. }
  assert (Hac : ∀ a, 1 <= a <= 8 → AccountId_new a = Ok a ∧ account_id_ok a).
  { intros a Ha. unfold AccountId_new, account_id_ok, u32_max. rewrite (proj2 (Z.eqb_neq a 0)) by lia. split; [done|lia]. }
  assert (Hpr : ∀ p, 0 < p <= 110 → Price_new p = Ok p ∧ price_ok p).
  { intros p Hp. unfold Price_new, price_ok, i64_max, TICK_SIZE. rewrite Z.rem_1_r.
    rewrite (proj2 (Z.leb_gt p 0)) by lia. split; [done|lia]. }
  assert (Hqt : ∀ q, 1 <= q <= 9 → Qty_new q = Ok q ∧ qty_ok q).
  { intros q Hq. unfold Qty_new, qty_ok, u64_max, LOT_SIZE. rewrite Z.rem_1_r.
    rewrite (proj2 (Z.eqb_neq q 0)) by lia. split; [done|lia]. }
  destruct op as [id a s p q|id a|id a s p q]; simpl in Hop; simpl.
  - destruct Hop as (Hi & Ha & -> & Hq). destruct (Hid id Hi) as [-> ?], (Hac a Ha) as [-> ?], (Hqt q Hq) as [-> ?].
    destruct (Hpr (safe_price s)) as [-> ?]; [by destruct s|]. by apply limit_command_ok.
  - destruct Hop as [Hi Ha]. destruct (Hid id Hi) as [-> ?], (Hac a Ha) as [-> ?]. by split.
  - destruct Hop as (Hi & Ha & Hp & Hq). destruct (Hid id Hi) as [-> ?], (Hac a Ha) as [-> ?], (Hqt q Hq) as [-> ?].
    destruct (Hpr p) as [-> ?]; [unfold PRICE_LOW, PRICE_HIGH in Hp; lia|]. by apply limit_command_ok.
Qed.

(** ** No benchmark can crash *)

Section DriveOk.
Context {L : Type} `{!PriceLevelOps L} `{!PriceLevelLaws L} `{!SnapshotSucceeds L}.
Local Abbreviation Eng := (Engine L BenchClock CounterIdGenerator VecSink).

Lemma drive_live k b (e : Eng) ops :
  live k e → 0 <= k → k + Z.of_nat (length ops) <= MAX_SESSION → b <= u64_max + 1 → Forall (op_ok b) ops →
  wp False (drive e ops) (live (k + Z.of_nat (length ops))).
Proof.
  intros Hl Hk Hlen Hb Hops. revert k e Hl Hk Hlen.
  induction Hops as [|op ops Hop Hops IH]; intros k e Hl Hk Hlen; cbn [drive length]; [by rewrite Z.add_0_r|].
  simpl in Hlen. apply wp_bind. eapply wp_conseq; [by eapply op_to_inbound_ok|]. intros m Hm.
  apply wp_bind. eapply wp_conseq; [apply (step_live k); [done|lia|done]|]. intros e' Hl'.
  replace (k + Z.of_nat (S (length ops))) with (k + 1 + Z.of_nat (length ops)) by lia.
  apply IH; [by apply clear_live|lia|lia].
Qed.

Lemma workload_fits n ops : workload n ops → n <= MAX_SESSION → n + 1 <= u64_max + 1.
Proof. intros _. unfold MAX_SESSION, u64_max. lia. Qed.
End DriveOk.
