(* ===== verification/Bench.v ===== *)
(** * Bench: what the benchmark programs compute

    Reading the clock and recording samples do not disturb a run: the engine a timed
    loop leaves is the one of the untimed loop, and the samples are a function of the
    clock's readings.  The paced loop of [co_bench] waits for the clock, so it ends
    when time passes. *)

From S2P Require Import Prelude Script BTree Domain PriceLevel Book Messages Ids Engine EngineInv EngineRun EngineBounds EngineFeed Workload.
#[local] Open Scope Z_scope.

(** An executable histogram: the values recorded, latest first. *)
Record SampleLog := mkSampleLog { samples : list Z }.
#[global] Instance SampleLog_ops : HistogramOps SampleLog := {
  new_with_bounds low high sigfig :=
    if bool_decide (1 <= low ∧ 2 * low <= high ∧ 0 <= sigfig <= 5) then Ok (mkSampleLog []) else Err tt;
  hist_record h v := (mkSampleLog (v :: samples h), Ok tt);
  hist_record_correct h v _ := (mkSampleLog (v :: samples h), Ok tt);
}.
#[global] Instance SampleLog_laws : HistogramLaws SampleLog.
Proof. intros low high sigfig Hl Hh Hs. simpl. rewrite bool_decide_true by done. eauto. Qed.

(** The latencies of [n] operations when the clock has been read [r] times and the
    engine has done [k] steps: each from a reading before its step to one after it. *)
Fixpoint latencies (reading : nat → nat → Z) (r k n : nat) : list Z :=
  match n with
  | O => []
  | S n => latency_ns (Z.max 0 (reading (S r) (S k) - reading r k)) :: latencies reading (S (S r)) (S k) n
  end.

Definition recorded {H} `{!HistogramOps H} (hist : H) (vs : list Z) : H := foldl (λ h v, (hist_record h v).1) hist vs.
Definition recorded_correct {H} `{!HistogramOps H} (interval : Z) (hist : H) (vs : list Z) : H :=
  foldl (λ h v, (hist_record_correct h v interval).1) hist vs.

(** The paced loop from operation [i] on, when the clock has been read [r] times and the
    engine has done [k] steps.  It reads the clock until it shows the due time of the
    operation, reads it once more, does the step, reads it for the time of the step, and
    reads it again for the sample, the time from when the operation was due. *)
Inductive paced (reading : nat → nat → Z) (bench_start interval : Z) : nat → nat → nat → list Z → nat → Prop :=
| paced_done i r k : paced reading bench_start interval i r k [] r
| paced_op i r k j vs r' :
    let due := bench_start + interval * (Z.of_nat i mod 2 ^ 32) in
    (r <= j)%nat → (∀ x, (r <= x < j)%nat → reading x k < due) → due <= reading j k →
    paced reading bench_start interval (S i) (j + 4) (S k) vs r' →
    paced reading bench_start interval i r k (latency_ns (Z.max 0 (reading (j + 3)%nat (S k) - due)) :: vs) r'.

Section Timed.
Context {L : Type} `{!PriceLevelOps L} {H : Type} `{!HistogramOps H}.
Local Abbreviation Eng := (Engine L BenchClock CounterIdGenerator VecSink).

(** The timed loop is the untimed loop, and its samples are the latencies. *)
Lemma drive_timed_eq (e : Eng) reading r k (hist : H) ops :
  drive_timed e (mkTimer reading r k) hist ops =
  (let! e := drive e ops in
   Ret (e, mkTimer reading (r + 2 * length ops) (k + length ops), recorded hist (latencies reading r k (length ops)))).
Proof.
  revert e r k hist. induction ops as [|op ops IH]; intros e r k hist; cbn [drive_timed drive length latencies].
  { cbn [outcome_bind]. by rewrite Nat.mul_0_r, !Nat.add_0_r. }
  destruct (op_to_inbound op) as [m| |]; [|done..]. cbn [outcome_bind Instant_now tm_reading tm_reads tm_steps].
  destruct (step e m) as [e'| |]; [|done..].
  cbn [outcome_bind elapsed worked Instant_now tm_reading tm_reads tm_steps]. rewrite Nat.add_1_r, IH.
  apply outcome_bind_ext. intros e2. replace (r + 2 * S (length ops))%nat with (S (S r) + 2 * length ops)%nat by lia.
  by replace (k + S (length ops))%nat with (S k + length ops)%nat by lia.
Qed.

Lemma throughput_main_eq reading :
  throughput_bench.main (L := L) reading =
  (let! w := generate_ops throughput_bench.N_WARMUP 0xdeadbeef in
   let! m := generate_ops throughput_bench.N_MEASURE 0xc0ffee in
   let! e := drive bench_engine w in
   let! e := drive e m in
   Ret (e, Z.max 0 (reading 1%nat (length w) - reading 0%nat 0%nat),
        Z.max 0 (reading 3%nat (length w + length m)%nat - reading 2%nat (length w)))).
Proof. reflexivity. Qed.

(** Enough fuel for one wait: the clock reaches the time, and the wait ends at the first
    reading that shows it. *)
Lemma spin_ends reading r k due :
  (∃ j, (r <= j)%nat ∧ due <= reading j k) →
  ∃ fuel j, (r <= j)%nat ∧ (∀ x, (r <= x < j)%nat → reading x k < due) ∧ due <= reading j k ∧
    ∀ fuel', (fuel <= fuel')%nat → loop fuel' (spin_round due) (mkTimer reading r k) = Ret (mkTimer reading (S j) k).
Proof.
  intros (j & Hj & Hr). remember (j - r)%nat as d eqn:Hd. revert r Hj Hd. induction d as [d IH] using lt_wf_ind.
  intros r Hj Hd. destruct (Z.ltb_spec (reading r k) due) as [Hlt|Hge].
  - destruct (decide (r = j)) as [->|Hne]; [lia|].
    destruct (IH (j - S r)%nat ltac:(lia) (S r) ltac:(lia) eq_refl) as (fuel & i & Hi & Hw & Hri & Hrun).
    exists (S fuel), i. split_and!; [lia| |done|].
    + intros x Hx. destruct (decide (x = r)) as [->|]; [done|]. apply Hw. lia.
    + intros [|fuel'] Hf; [lia|]. cbn [loop spin_round Instant_now tm_reading tm_reads tm_steps].
      rewrite (proj2 (Z.ltb_lt _ _) Hlt). cbn [outcome_bind]. apply Hrun. lia.
  - exists 1%nat, r. split_and!; [lia|intros x Hx; lia|done|]. intros [|fuel'] Hf; [lia|].
    cbn [loop spin_round Instant_now tm_reading tm_reads tm_steps]. by rewrite (proj2 (Z.ltb_ge _ _) Hge).
Qed.

(** The paced loop ends once the clock passes every due time, and leaves the engine
    of the untimed loop. *)
Lemma drive_paced_ok reading bench_start interval i r k (e e' : Eng) (hist : H) ops :
  (∀ r k d, ∃ j, (r <= j)%nat ∧ d <= reading j k) → drive e ops = Ret e' →
  ∃ fuel r' vs, length vs = length ops ∧ paced reading bench_start interval i r k vs r' ∧
    ∀ fuel', (fuel <= fuel')%nat →
      drive_paced fuel' bench_start interval i e (mkTimer reading r k) hist ops =
      Ret (e', mkTimer reading r' (k + length ops), recorded_correct interval hist vs).
Proof.
  intros Hpass. revert i r k e hist. induction ops as [|op ops IH]; intros i r k e hist Hd; cbn [drive drive_paced length] in *.
  { injection Hd as <-. exists O, r, []. rewrite Nat.add_0_r. split_and!; [done|constructor|done]. }
  destruct (op_to_inbound op) as [m| |]; [|done..]. cbn [outcome_bind] in *.
  destruct (step e m) as [e1| |]; [|done..]. cbn [outcome_bind] in *.
  set (due := bench_start + interval * (Z.of_nat i mod 2 ^ 32)).
  destruct (spin_ends reading r k due (Hpass r k due)) as (f1 & j & Hj & Hw & Hr & Hspin).
  set (v := latency_ns (Z.max 0 (reading (j + 3)%nat (S k) - due))).
  destruct (IH (S i) (j + 4)%nat (S k) (set_sink e1 VecSink_new) (hist_record_correct hist v interval).1 Hd)
    as (f2 & r' & vs & Hlen & Hvs & Hrun).
  exists (f1 `max` f2)%nat, r', (v :: vs). split_and!; [simpl; by rewrite Hlen|by apply paced_op|].
  intros fuel Hf. rewrite Hspin by lia. cbn [outcome_bind elapsed worked Instant_now tm_reading tm_reads tm_steps].
  replace (S (S (S j))) with (j + 3)%nat by lia. replace (S (j + 3)) with (j + 4)%nat by lia.
  rewrite Nat.add_1_r. fold due. fold v. rewrite Hrun by lia. simpl. by replace (k + S (length ops))%nat with (S (k + length ops)) by lia.
Qed.
End Timed.

(** ** The programs return *)

Section Programs.
Context {L : Type} `{!PriceLevelOps L} `{!PriceLevelLaws L} `{!SnapshotSucceeds L} {H : Type} `{!HistogramOps H} `{!HistogramLaws H}.
Local Abbreviation Eng := (Engine L BenchClock CounterIdGenerator VecSink).

Lemma bench_histogram_ok : ∃ h : H, bench_histogram = Ret h.
Proof. unfold bench_histogram. destruct (new_with_bounds_ok (H := H) 1 30000000000 3) as (h & ->); [done..|]. by exists h. Qed.

(** A run of generated operations. *)
Lemma drive_workload k (e : Eng) n ops :
  live k e → 0 <= k → 0 <= n → k + n <= MAX_SESSION → workload n ops → ∃ e', drive e ops = Ret e' ∧ live (k + n) e'.
Proof.
  intros Hl Hk Hn Hm Hw. apply wp_total. pose proof (wl_len _ _ Hw) as Hlen. rewrite <-Hlen.
  apply (drive_live k (n + 1)); [done|done|lia|eapply workload_fits; [done|lia]|apply Hw].
Qed.

Lemma timed_workload generate n reading r (h : H) :
  (∀ seed, ∃ ops, generate n seed = Ret ops ∧ workload n ops) → 0 <= n <= MAX_SESSION →
  ∃ e : Eng, live n e ∧
    (let! ops := generate n 0xdeadbeefdeadbeef in drive_timed bench_engine (mkTimer reading r 0) h ops) =
    Ret (e, mkTimer reading (r + 2 * Z.to_nat n) (Z.to_nat n), recorded h (latencies reading r 0 (Z.to_nat n))).
Proof.
  intros Hg Hn. destruct (Hg 0xdeadbeefdeadbeef) as (ops & -> & Hw). cbn [outcome_bind].
  destruct (drive_workload 0 bench_engine n ops) as (e & He & Hl); [by apply fresh_live|done|lia|lia|done|].
  exists e. split; [done|]. rewrite drive_timed_eq, He. cbn [outcome_bind].
  pose proof (wl_len _ _ Hw) as Hlen. by replace (length ops) with (Z.to_nat n) by lia.
Qed.

Lemma generate_ops_ok n seed : 0 <= n <= MAX_SESSION → ∃ ops, generate_ops n seed = Ret ops ∧ workload n ops.
Proof. intros Hn. apply generate_with_ok; [apply generate_one_step|]. unfold MAX_SESSION, u64_max in *. lia. Qed.
Lemma mix_generate_ops_ok n seed : 0 <= n <= MAX_SESSION → ∃ ops, mix_generate_ops n seed = Ret ops ∧ workload n ops.
Proof. intros Hn. apply generate_with_ok; [apply mix_generate_one_step|]. unfold MAX_SESSION, u64_max in *. lia. Qed.

(** A warm-up and a measured run, with the numbers of operations. *)
Lemma warm_and_measured n_warmup n_measure :
  0 <= n_warmup → 0 <= n_measure → n_warmup + n_measure <= MAX_SESSION →
  ∃ w m (e1 e2 : Eng), generate_ops n_warmup 0xdeadbeef = Ret w ∧ generate_ops n_measure 0xc0ffee = Ret m ∧
    length w = Z.to_nat n_warmup ∧ length m = Z.to_nat n_measure ∧
    drive bench_engine w = Ret e1 ∧ drive e1 m = Ret e2 ∧ live (n_warmup + n_measure) e2.
Proof.
  intros Hw Hm Hmax. destruct (generate_ops_ok n_warmup 0xdeadbeef ltac:(lia)) as (w & Hgw & Hww).
  destruct (generate_ops_ok n_measure 0xc0ffee ltac:(lia)) as (m & Hgm & Hmw).
  pose proof (wl_len _ _ Hww). pose proof (wl_len _ _ Hmw).
  assert (Hl0 : live 0 (bench_engine : Eng)) by by apply fresh_live.
  destruct (drive_workload 0 bench_engine n_warmup w Hl0 ltac:(lia) ltac:(lia) ltac:(lia) Hww) as (e1 & He1 & Hl1).
  destruct (drive_workload (0 + n_warmup) e1 n_measure m Hl1 ltac:(lia) ltac:(lia) ltac:(lia) Hmw) as (e2 & He2 & Hl2).
  exists w, m, e1, e2. split_and!; try done; lia.
Qed.

Lemma throughput_main_ok reading :
  ∃ e : Eng, live (throughput_bench.N_WARMUP + throughput_bench.N_MEASURE) e ∧ throughput_bench.main reading =
    Ret (e, Z.max 0 (reading 1%nat (Z.to_nat throughput_bench.N_WARMUP) - reading 0%nat 0%nat),
      Z.max 0 (reading 3%nat (Z.to_nat throughput_bench.N_WARMUP + Z.to_nat throughput_bench.N_MEASURE)%nat -
               reading 2%nat (Z.to_nat throughput_bench.N_WARMUP))).
Proof.
  destruct (warm_and_measured throughput_bench.N_WARMUP throughput_bench.N_MEASURE) as (w & m & e1 & e2 & Hw & Hm & Hlw & Hlm & H1 & H2 & Hl); [done..|].
  exists e2. split; [done|]. rewrite throughput_main_eq, Hw, Hm. cbn [outcome_bind]. rewrite H1. cbn [outcome_bind].
  rewrite H2. cbn [outcome_bind]. by rewrite Hlw, Hlm.
Qed.

Lemma dhat_main_ok stats :
  ∃ e : Eng, live (dhat_bench.N_WARMUP + dhat_bench.N_MEASURE) e ∧
    let before := stats 0%nat (Z.to_nat dhat_bench.N_WARMUP) in
    let after := stats 1%nat (Z.to_nat dhat_bench.N_WARMUP + Z.to_nat dhat_bench.N_MEASURE)%nat in
    dhat_bench.main stats = Ret (e, u64_sub after.1 before.1, u64_sub after.2 before.2).
Proof.
  destruct (warm_and_measured dhat_bench.N_WARMUP dhat_bench.N_MEASURE) as (w & m & e1 & e2 & Hw & Hm & Hlw & Hlm & H1 & H2 & Hl); [done..|].
  exists e2. split; [done|]. unfold dhat_bench.main, dhat_bench.generate_ops, dhat_bench.drive. rewrite Hw, Hm. cbn [outcome_bind].
  rewrite H1. cbn [outcome_bind]. rewrite H2. cbn [outcome_bind]. by rewrite Hlw, Hlm.
Qed.

Lemma smoke_main_ok reading :
  ∃ (e : Eng) (h : H), bench_histogram = Ret h ∧ live smoke_bench.N_OPS e ∧
    smoke_bench.main reading =
    Ret (e, recorded h (latencies reading 1 0 (Z.to_nat smoke_bench.N_OPS)),
         Z.max 0 (reading (1 + 2 * Z.to_nat smoke_bench.N_OPS)%nat (Z.to_nat smoke_bench.N_OPS) - reading 0%nat 0%nat)).
Proof.
  destruct bench_histogram_ok as [h Hh].
  destruct (timed_workload generate_ops smoke_bench.N_OPS reading 1 h) as (e & Hl & He); [intros seed; by apply generate_ops_ok|done|].
  exists e, h. split_and!; [done..|]. unfold smoke_bench.main, smoke_bench.generate_ops. rewrite Hh.
  destruct (generate_ops smoke_bench.N_OPS _) as [ops| |]; [|done..]. cbn [outcome_bind Instant_now tm_reading tm_reads tm_steps] in *.
  rewrite He. reflexivity.
Qed.

Lemma mix_run_ok reading :
  ∃ (e : Eng) (h : H), bench_histogram = Ret h ∧ live add_cancel_mix.N_OPS e ∧
    add_cancel_mix.run_workload reading = Ret (e, recorded h (latencies reading 0 0 (Z.to_nat add_cancel_mix.N_OPS))).
Proof.
  destruct bench_histogram_ok as [h Hh].
  destruct (timed_workload mix_generate_ops add_cancel_mix.N_OPS reading 0 h) as (e & Hl & He); [intros seed; by apply mix_generate_ops_ok|done|].
  exists e, h. split_and!; [done..|]. unfold add_cancel_mix.run_workload. rewrite Hh.
  destruct (mix_generate_ops add_cancel_mix.N_OPS _) as [ops| |]; [|done..]. cbn [outcome_bind] in *.
  rewrite He. reflexivity.
Qed.

Lemma co_main_ok reading var interval :
  co_bench.interval_ns (co_bench.target_rate var) = Ret interval →
  (∀ a b k, (a <= b)%nat → reading a k <= reading b k) → (∀ k d, ∃ j, d <= reading j k) →
  let w := Z.to_nat co_bench.N_WARMUP in let m := Z.to_nat co_bench.N_MEASURE in
  ∃ (e : Eng) (h : H) fuel vs r, bench_histogram = Ret h ∧ live (co_bench.N_WARMUP + co_bench.N_MEASURE) e ∧
    length vs = m ∧ paced reading (reading 0%nat w) interval 0 1 w vs r ∧
    ∀ fuel', (fuel <= fuel')%nat → co_bench.main fuel' reading var =
      Ret (e, recorded_correct interval h vs, Z.max 0 (reading r (w + m)%nat - reading 0%nat w)).
Proof.
  intros Hi Hmono Hpass. destruct bench_histogram_ok as [h Hh].
  assert (Hreach : ∀ r k d, ∃ j, (r <= j)%nat ∧ d <= reading j k).
  { intros r k d. destruct (Hpass k d) as [j Hj]. exists (j `max` r)%nat. split; [lia|]. etrans; [exact Hj|]. apply Hmono. lia. }
  destruct (warm_and_measured co_bench.N_WARMUP co_bench.N_MEASURE) as (w & m & e1 & e2 & Hw & Hm & Hlw & Hlm & H1 & H2 & Hl); [done..|].
  rewrite <-Hlw, <-Hlm.
  destruct (drive_paced_ok reading (reading 0%nat (length w)) interval 0 1 (length w) e1 e2 h m Hreach H2) as (fuel & r & vs & Hlen & Hvs & Hrun).
  exists e2, h, fuel, vs, r. split_and!; [done..|]. intros fuel' Hf.
  unfold co_bench.main, co_bench.generate_ops. rewrite Hi, Hw, Hm. cbn [outcome_bind]. rewrite H1. cbn [outcome_bind]. rewrite Hh.
  cbn [outcome_bind Instant_now tm_reading tm_reads tm_steps]. rewrite (Hrun fuel' Hf). reflexivity.
Qed.
End Programs.
