(* ===== verification/Server.v ===== *)
(** * Server: the engine binary and its connections

    [crates/engine/src/bin/engine.rs] with [crates/gateway/src/listener.rs] and
    [sink.rs]: an accept loop, a reader and a writer task per connection, a
    forwarder between the two inbound queues, and the engine thread, as one
    transition system with labelled transitions, one label per task.  The tokio
    runtime is single-threaded, so what a task does between two awaits is one
    transition: a reader decodes all it has buffered, a writer takes one frame or
    writes a piece of it.  The engine thread runs beside them; it shares the command
    queue and the broadcast channel with the tasks, so taking a command is one
    transition and sending each of the frames the step emits is another.  A state also
    carries its history: the commands accepted into the ring in order, those the
    engine took, and what each socket delivered. *)

From Stdlib Require Import String.
From stdpp Require Import relations pretty.
From S2P Require Import Prelude BTree Domain PriceLevel Book Messages Ids Engine EngineInv EngineRun EngineBounds Bytes Framing WireInbound WireOutbound MarketData Channels EngineFeed EngineAnswers Listener Client EngineLockstep Text.
#[local] Open Scope Z_scope.

(** ** The command line *)

Definition DEFAULT_ADDR : string := "0.0.0.0:9000".
Definition OUTBOUND_BROADCAST_CAPACITY : nat := 1024.
Definition INBOUND_CHANNEL_CAPACITY : nat := 8192.

(** The bind address: the first argument that does not start with two dashes. *)
Definition bind_addr (args : list string) : string :=
  default DEFAULT_ADDR (List.find (λ a, negb (String.prefix "--" a)) (tail args)).

Fixpoint parse_engine_core (args : list string) : option Z :=
  match args with
  | [] => None
  | arg :: rest =>
      if String.eqb arg "--engine-core"
      then head rest ≫= parse_uint u64_max
      else parse_engine_core rest
  end.

(** ** The host *)

(** What the process does to its host: lines on standard error, and binding the
    thread to a core. *)
Inductive effect (CoreId E : Type) :=
| Eprint (line : string)
| SetAffinity (core : CoreId)
| Exit (r : result unit E).
Arguments Eprint {CoreId E}.
Arguments SetAffinity {CoreId E}.
Arguments Exit {CoreId E}.

Section Host.
(** The [core_affinity] crate, the error of the listener and how it prints. *)
Context {CoreId E : Type} (get_core_ids : option (list CoreId)) (set_for_current : CoreId → bool)
  (show_error : E → string).
Local Abbreviation eff := (effect CoreId E).
#[local] Open Scope string_scope.

(** [pin_to_core], built with the feature [pinned-engine] or without it. *)
Definition pin_to_core (pinned_engine : bool) (core : option Z) : list eff :=
  match core with
  | None => []
  | Some core_idx =>
      if pinned_engine then
        match get_core_ids with
        | Some ids =>
            match ids !! Z.to_nat core_idx with
            | Some id =>
                SetAffinity id ::
                if set_for_current id
                then [Eprint ("engine: pinned thread to core " +:+ pretty core_idx)]
                else [Eprint ("engine: pin to core " +:+ pretty core_idx +:+ " failed (continuing unpinned)")]
            | None =>
                [Eprint ("engine: requested core " +:+ pretty core_idx +:+ " out of range (have " +:+
                         pretty (length ids) +:+ " cores)")]
            end
        | None => [Eprint "engine: core_affinity::get_core_ids() returned None — cannot pin"]
        end
      else [Eprint "engine: --engine-core requested but binary not built with `--features pinned-engine`"]
  end.

(** The effects of [main] apart from the tasks: before the threads start, on the
    engine thread, and when the listener's [run] has returned. *)
Definition main_startup (args : list string) : list eff :=
  Eprint ("engine: binding gateway listener on " +:+ bind_addr args) ::
  match parse_engine_core args with
  | Some core => [Eprint ("engine: requested CPU pinning to core " +:+ pretty core)]
  | None => []
  end.
Definition main_engine_thread (pinned_engine : bool) (args : list string) : list eff :=
  pin_to_core pinned_engine (parse_engine_core args).
Definition main_finish (run : result unit E) : list eff :=
  match run with
  | Err e => [Eprint ("engine: listener error: " +:+ show_error e); Exit (Err e)]
  | Ok _ => [Exit (Ok tt)]
  end.

(** The thread is bound at most once, to a core the host has, the one requested. *)
Lemma pin_requested pinned args c :
  SetAffinity c ∈ main_engine_thread pinned args →
  ∃ n ids, parse_engine_core args = Some n ∧ 0 <= n <= u64_max ∧ get_core_ids = Some ids ∧ ids !! Z.to_nat n = Some c.
Proof.
  assert (Hr : ∀ l n, parse_engine_core l = Some n → 0 <= n <= u64_max).
  { induction l as [|a l IH]; intros n; cbn [parse_engine_core]; [done|]. destruct (String.eqb a _); [|apply IH].
    destruct l as [|v l]; simpl; [done|]. apply parse_uint_range. done. }
  unfold main_engine_thread, pin_to_core. destruct (parse_engine_core args) as [n|] eqn:Hn; [|set_solver].
  destruct pinned; [|set_solver]. destruct get_core_ids as [ids|]; [|set_solver].
  destruct (ids !! Z.to_nat n) as [id|] eqn:Hid; [|set_solver].
  rewrite elem_of_cons. intros [[= <-]|Hc]; [exists n, ids; by eauto|]. exfalso.
  destruct (set_for_current id); set_solver.
Qed.
End Host.

(** ** State *)

Section Server.
Context {L C M B R : Type} `{!PriceLevelOps L} `{!Clock C} `{!MpscOps M Inbound} `{!BroadcastOps B R}.
Local Abbreviation Eng := (Engine L C CounterIdGenerator VecSink).

(** A connection: the reader's buffer and why it ended, the writer's subscription,
    whether it runs and what is left of the frame that [write_all] is writing; then the
    subscription it started with, the bytes written to and read from the socket, and
    the commands sent on to the ring. *)
Record conn := mkConn {
  cn_buf : list Z;
  cn_reader : option CloseReason;
  cn_rx : R;
  cn_writer : bool;
  cn_pending : list Z;
  cn_rx0 : R;
  cn_out : list Z;
  cn_in : list Z;
  cn_sent : list Inbound;
}.

(** [sv_forwarding] is false once the forwarder has returned and dropped its end of the
    ring.  The engine's own sink records its messages; [sv_outbox] are those of the step
    under way that have not been sent on the broadcast channel [sv_tx] yet. *)
Record server := mkServer {
  sv_conns : list conn;
  sv_ring : M;
  sv_forwarding : bool;
  sv_queue : list Inbound;
  sv_engine : Eng;
  sv_outbox : list Outbound;
  sv_tx : B;
  sv_count : Z;
  sv_last_log : Z;
  sv_crashed : bool;
  sv_arrivals : list (nat * Inbound);
  sv_done : list Inbound;
}.

Definition server_engine (clock : C) : Eng := engine_new clock CounterIdGenerator_new VecSink_new.

(** [main] when every task has been spawned; [count] and [last_log] of [engine_loop]. *)
Definition server_new (clock : C) (inbound outbound : nat) : server :=
  mkServer [] (mpsc_new inbound) true [] (server_engine clock) [] (broadcast_new outbound) 0 0 false [] [].

Definition conn_new (rx : R) : conn := mkConn [] None rx true [] rx [] [] [].

(** ** What a task does between two awaits *)

(** The ring after these commands, [None] when one of them does not fit. *)
Definition push_all (ring : M) (msgs : list Inbound) : option M :=
  foldl (λ acc m, acc ≫= λ ring, try_send ring m) (Some ring) msgs.

(** [try_send] fails on a full ring and on one without a receiver. *)
Definition accepts (forwarding : bool) (ring : M) (before : list Inbound) (m : Inbound) : bool :=
  forwarding && match push_all ring (before ++ [m]) with Some _ => true | None => false end.

(** The reader after a read: the inner loop of [handle_connection]; leaving the
    function aborts the writer. *)
Definition conn_read (forwarding : bool) (ring : M) (c : conn) (bytes : list Z) : outcome (M * conn * list Inbound) :=
  let! r := drain (accepts forwarding ring) (cn_buf c ++ bytes) [] in
  Ret match r with
      | inl (buf, new) =>
          (default ring (push_all ring new),
           mkConn buf None (cn_rx c) (cn_writer c) (cn_pending c) (cn_rx0 c) (cn_out c) (cn_in c ++ bytes)
             (cn_sent c ++ new), new)
      | inr (new, reason) =>
          (default ring (push_all ring new),
           mkConn [] (Some reason) (cn_rx c) false (cn_pending c) (cn_rx0 c) (cn_out c) (cn_in c ++ bytes)
             (cn_sent c ++ new), new)
      end.

Definition conn_close (c : conn) (reason : CloseReason) : conn :=
  mkConn [] (Some reason) (cn_rx c) false (cn_pending c) (cn_rx0 c) (cn_out c) (cn_in c) (cn_sent c).

(** The writer takes a frame. *)
Definition conn_recv (c : conn) (rx : R) (frame : list Z) : conn :=
  mkConn (cn_buf c) (cn_reader c) rx (cn_writer c) frame (cn_rx0 c) (cn_out c) (cn_in c) (cn_sent c).

(** The socket took [n] bytes of the frame. *)
Definition conn_wrote (c : conn) (n : nat) : conn :=
  mkConn (cn_buf c) (cn_reader c) (cn_rx c) (cn_writer c) (drop n (cn_pending c)) (cn_rx0 c)
    (cn_out c ++ take n (cn_pending c)) (cn_in c) (cn_sent c).

(** The writer returns: a write failed or it fell behind; the reader is not told. *)
Definition conn_mute (c : conn) : conn :=
  mkConn (cn_buf c) (cn_reader c) (cn_rx c) false (cn_pending c) (cn_rx0 c) (cn_out c) (cn_in c) (cn_sent c).

(** The body of [while let Ok(msg) = rx.recv()] in [engine_loop]. *)
Definition engine_loop_body (st : Eng * Z * Z) (msg : Inbound) : outcome (Eng * Z * Z) :=
  let '(engine, count, last_log) := st in
  let! engine := step engine msg in
  let count := wrap_u64 (count + 1) in
  let last_log := if (count mod 10000 =? 0) && negb (count =? last_log) then count else last_log in
  Ret (engine, count, last_log).

(** ** Transitions *)

Definition set_conns (sv : server) (conns : list conn) : server :=
  mkServer conns (sv_ring sv) (sv_forwarding sv) (sv_queue sv) (sv_engine sv) (sv_outbox sv) (sv_tx sv) (sv_count sv)
    (sv_last_log sv) (sv_crashed sv) (sv_arrivals sv) (sv_done sv).
Definition set_conn (sv : server) (i : nat) (c : conn) : server := set_conns sv (<[i := c]> (sv_conns sv)).
Definition set_tx (sv : server) (outbox : list Outbound) (tx : B) : server :=
  mkServer (sv_conns sv) (sv_ring sv) (sv_forwarding sv) (sv_queue sv) (sv_engine sv) outbox tx (sv_count sv)
    (sv_last_log sv) (sv_crashed sv) (sv_arrivals sv) (sv_done sv).

(** The engine thread panics. *)
Definition crash (sv : server) : server :=
  mkServer (sv_conns sv) (sv_ring sv) (sv_forwarding sv) (sv_queue sv) (sv_engine sv) (sv_outbox sv) (sv_tx sv)
    (sv_count sv) (sv_last_log sv) true (sv_arrivals sv) (sv_done sv).

(** The accept loop of [run]: subscribe and spawn. *)
Definition accept_conn (sv : server) : server :=
  set_conns sv (sv_conns sv ++ [conn_new (ChannelSink_subscribe (sv_tx sv))]).

Definition byte_valued (bytes : list Z) : bool := forallb (λ x, (0 <=? x) && (x <? 256)) bytes.

(** A read of at least one byte on connection [i]. *)
Definition read_conn (sv : server) (i : nat) (bytes : list Z) : option server :=
  c ← sv_conns sv !! i;
  if negb (bool_decide (is_Some (cn_reader c))) && negb (bool_decide (bytes = [])) && byte_valued bytes then
    match conn_read (sv_forwarding sv) (sv_ring sv) c bytes with
    | Ret (ring, c', new) =>
        Some (mkServer (<[i := c']> (sv_conns sv)) ring (sv_forwarding sv) (sv_queue sv) (sv_engine sv) (sv_outbox sv)
          (sv_tx sv) (sv_count sv) (sv_last_log sv) (sv_crashed sv) (sv_arrivals sv ++ (pair i <$> new)) (sv_done sv))
    | _ => None
    end
  else None.

(** End of stream, or a read error. *)
Definition close_conn (sv : server) (i : nat) (error : bool) : option server :=
  c ← sv_conns sv !! i;
  if bool_decide (is_Some (cn_reader c)) then None
  else Some (set_conn sv i (conn_close c (if error then ReadError else PeerClosed))).

(** The forwarder moves a command, or finds the engine thread gone and returns. *)
Definition forward (sv : server) : option server :=
  if sv_forwarding sv then
    '(m, ring) ← mpsc_recv (sv_ring sv);
    Some (mkServer (sv_conns sv) ring (negb (sv_crashed sv)) (if sv_crashed sv then sv_queue sv else sv_queue sv ++ [m])
      (sv_engine sv) (sv_outbox sv) (sv_tx sv) (sv_count sv) (sv_last_log sv) (sv_crashed sv) (sv_arrivals sv) (sv_done sv))
  else None.

(** The engine thread takes a command when the last one's frames are out. *)
Definition engine_take (sv : server) : option server :=
  match sv_crashed sv, sv_outbox sv, sv_queue sv with
  | false, [], m :: queue =>
      match engine_loop_body (sv_engine sv, sv_count sv, sv_last_log sv) m with
      | Ret (e, count, last_log) =>
          Some (mkServer (sv_conns sv) (sv_ring sv) (sv_forwarding sv) queue e
            (drop (length (events (e_sink (sv_engine sv)))) (events (e_sink e))) (sv_tx sv) count last_log
            false (sv_arrivals sv) (sv_done sv ++ [m]))
      | Panic => Some (crash sv)
      | Diverge => None
      end
  | _, _, _ => None
  end.

(** The engine thread sends the next frame of the step under way. *)
Definition engine_emit (sv : server) : option server :=
  match sv_crashed sv, sv_outbox sv with
  | false, m :: outbox =>
      match ChannelSink_emit (sv_tx sv) m with
      | Ret tx => Some (set_tx sv outbox tx)
      | Panic => Some (crash sv)
      | Diverge => None
      end
  | _, _ => None
  end.

(** A writer between two frames takes the next one, or fell behind and returns. *)
Definition writer_recv (sv : server) (i : nat) : option server :=
  c ← sv_conns sv !! i;
  match cn_writer c, cn_pending c with
  | true, [] =>
      match broadcast_recv (sv_tx sv) (cn_rx c) with
      | (Received f, rx) => Some (set_conn sv i (conn_recv c rx f))
      | (Lagged, _) => Some (set_conn sv i (conn_mute c))
      | (Pending, _) => None
      end
  | _, _ => None
  end.

(** A writer in the middle of [write_all]: the socket takes [n] bytes, or fails. *)
Definition writer_write (sv : server) (i n : nat) : option server :=
  c ← sv_conns sv !! i;
  if cn_writer c && bool_decide (0 < n <= length (cn_pending c))%nat then Some (set_conn sv i (conn_wrote c n)) else None.
Definition writer_fail (sv : server) (i : nat) : option server :=
  c ← sv_conns sv !! i;
  if cn_writer c && negb (bool_decide (cn_pending c = [])) then Some (set_conn sv i (conn_mute c)) else None.

(** What happens next, and the task that does it. *)
Inductive action :=
| Act_accept
| Act_read (i : nat) (bytes : list Z)
| Act_close (i : nat) (error : bool)
| Act_forward
| Act_take
| Act_emit
| Act_recv (i : nat)
| Act_write (i n : nat)
| Act_fail (i : nat).

Inductive task := Acceptor | Reader (i : nat) | Writer (i : nat) | Forwarder | EngineThread.

Definition task_of (a : action) : task :=
  match a with
  | Act_accept => Acceptor
  | Act_read i _ | Act_close i _ => Reader i
  | Act_forward => Forwarder
  | Act_take | Act_emit => EngineThread
  | Act_recv i | Act_write i _ | Act_fail i => Writer i
  end.

Definition perform (sv : server) (a : action) : option server :=
  match a with
  | Act_accept => Some (accept_conn sv)
  | Act_read i bytes => read_conn sv i bytes
  | Act_close i error => close_conn sv i error
  | Act_forward => forward sv
  | Act_take => engine_take sv
  | Act_emit => engine_emit sv
  | Act_recv i => writer_recv sv i
  | Act_write i n => writer_write sv i n
  | Act_fail i => writer_fail sv i
  end.

Inductive server_step : task → server → server → Prop :=
| server_step_intro sv a sv' : perform sv a = Some sv' → server_step (task_of a) sv sv'.

(** Transitions of the tasks in [P]; an execution; the states it reaches. *)
Definition steps_of (P : task → Prop) (sv sv' : server) : Prop := ∃ t, P t ∧ server_step t sv sv'.

Definition perform_all (sv : server) (actions : list action) : option server :=
  foldl (λ acc a, acc ≫= λ sv, perform sv a) (Some sv) actions.

Definition reachable (sv0 sv : server) : Prop := rtc (steps_of (λ _, True)) sv0 sv.

Lemma perform_all_snoc sv actions a : perform_all sv (actions ++ [a]) = perform_all sv actions ≫= λ sv, perform sv a.
Proof. unfold perform_all. by rewrite foldl_app. Qed.

Lemma perform_all_app sv xs ys : perform_all sv (xs ++ ys) = perform_all sv xs ≫= λ sv, perform_all sv ys.
Proof.
  induction ys as [|y ys IH] using rev_ind; [by rewrite app_nil_r; destruct (perform_all sv xs)|].
  rewrite app_assoc, perform_all_snoc, IH. destruct (perform_all sv xs) as [sv'|]; [|done]. simpl. by rewrite perform_all_snoc.
Qed.

Lemma perform_all_reachable sv actions sv' : perform_all sv actions = Some sv' → reachable sv sv'.
Proof.
  revert sv'. induction actions as [|a actions IH] using rev_ind; intros sv'; [intros [= <-]; constructor|].
  rewrite perform_all_snoc. destruct (perform_all sv actions) as [sv1|]; [|done]. simpl. intros H.
  eapply rtc_r; [by apply IH|]. by exists (task_of a).
Qed.
End Server.
Arguments conn R : clear implicits.
Arguments server L C M B R : clear implicits.

(** The engine binary. *)
Definition server_main {L M B R} `{!PriceLevelOps L} `{!MpscOps M Inbound} `{!BroadcastOps B R}
    (time : nat → option Z) : server L WallClock M B R :=
  server_new (mkWallClock time 0) INBOUND_CHANNEL_CAPACITY OUTBOUND_BROADCAST_CAPACITY.
