(* ===== verification/ServerInv.v ===== *)
(** * ServerInv: the invariant of the server

    What holds in every reachable state of [Server]: commands flow through the ring
    and the queue without loss or reordering, the engine is the sequential run of
    the commands it took, each reader's commands are the decoding of its bytes, and
    each writer's bytes are a contiguous piece of the feed. *)

From stdpp Require Import relations.
From S2P Require Import Prelude Script BTree Domain PriceLevel Book Messages Ids Engine EngineInv EngineRun EngineBounds Bytes Framing WireInbound WireOutbound MarketData Channels EngineFeed EngineAnswers Listener Client Recorder Replay EngineLockstep Text Server.
#[local] Open Scope Z_scope.

(** ** Reading *)

(** The decoder with a ring that is never full. *)
Definition unbounded (before : list Inbound) (m : Inbound) : bool := true.

Definition drained (r : list Z * list Inbound + list Inbound * CloseReason) : list Inbound :=
  match r with inl (_, s) => s | inr (s, _) => s end.

Lemma try_decode_command buf m total :
  bytes_ok buf → try_decode buf = Decoded m total → command_ok m.
Proof.
  intros Hb. unfold try_decode. repeat (case_decide; [done|]).
  destruct (parse_or_skip buf) as [[[f|b] t]|] eqn:E; [|done..].
  destruct (inbound_parse_frame f) as [m'|] eqn:Em; [|done]. intros [= -> _].
  apply parse_or_skip_bytes in E; [|done]. destruct (inbound_parse_frame_sound f m E Em) as (? & ? & _). by split.
Qed.

#[local] Arguments drain : simpl never.

Lemma drain_unbounded buf s0 : ∃ r, drain unbounded buf s0 = Ret r ∧ s0 `prefix_of` drained r.
Proof.
  remember (length buf) as n eqn:Hn. revert buf s0 Hn. induction n as [n IH] using lt_wf_ind. intros buf s0 ->.
  rewrite drain_eq. pose proof (try_decode_consumes buf) as Hc.
  destruct (try_decode buf) as [m t|e t|b t|]; [|by eexists..]. simpl.
  destruct (IH (length (drop t buf)) ltac:(rewrite length_drop; lia) (drop t buf) (s0 ++ [m]) eq_refl) as (r & Hr & Hp).
  exists r. split; [done|]. etrans; [|exact Hp]. by apply prefix_app_r.
Qed.

(** What one drain does, against the same drain on a ring that is never full. *)
Lemma drain_spec ts buf sent :
  bytes_ok buf → ∃ new, Forall command_ok new ∧ accepted ts sent new ∧
  match drain ts buf sent with
  | Ret (inl (buf', s)) => s = sent ++ new ∧ bytes_ok buf' ∧
      ∀ s0, drain unbounded buf s0 = Ret (inl (buf', s0 ++ new))
  | Ret (inr (s, _)) => s = sent ++ new ∧
      ∀ s0, ∃ r, drain unbounded buf s0 = Ret r ∧ s0 ++ new `prefix_of` drained r
  | _ => False
  end.
Proof.
  remember (length buf) as n eqn:Hn. revert buf sent Hn. induction n as [n IH] using lt_wf_ind.
  intros buf sent -> Hb. assert (Hnil : accepted ts sent []) by (intros pre m post H; by destruct pre).
  assert (Hstop : ∀ s0, ∃ r, drain unbounded buf s0 = Ret r ∧ s0 ++ [] `prefix_of` drained r).
  { intros s0. rewrite app_nil_r. apply drain_unbounded. }
  rewrite drain_eq. pose proof (try_decode_consumes buf) as Hc.
  destruct (try_decode buf) as [m t|e t|b t|] eqn:E;
    [|by exists []; rewrite app_nil_r; split_and!; [constructor|..]..|].
  - destruct (ts sent m) eqn:Hts; [|exists []; rewrite app_nil_r; split_and!; [constructor|done..]].
    destruct (IH (length (drop t buf)) ltac:(rewrite length_drop; lia) (drop t buf) (sent ++ [m]) eq_refl)
      as (new & Hcmd & Hacc & Hd); [by apply bytes_ok_drop|]. exists (m :: new). split_and!.
    + constructor; [by eapply try_decode_command|done].
    + intros pre x post Heq. destruct pre as [|y pre]; injection Heq as -> Heq; [by rewrite app_nil_r|].
      specialize (Hacc pre x post Heq). by rewrite <-app_assoc in Hacc.
    + destruct (drain ts (drop t buf) (sent ++ [m])) as [[[buf' s]|[s r]]| |]; try done.
      * destruct Hd as (-> & Hb' & Hu). split_and!; [by rewrite <-app_assoc|done|]. intros s0.
        rewrite drain_eq, E. simpl. by rewrite Hu, <-app_assoc.
      * destruct Hd as (-> & Hu). split; [by rewrite <-app_assoc|]. intros s0.
        destruct (Hu (s0 ++ [m])) as (r' & Hr & Hp). exists r'. rewrite drain_eq, E. simpl. rewrite <-app_assoc in Hp. done.
  - exists []. rewrite app_nil_r. split_and!; [constructor|done..|]. intros s0. rewrite drain_eq, E, app_nil_r. done.
Qed.

Section Inv.
Context {L C M B R : Type} `{!PriceLevelOps L} `{!PriceLevelLaws L} `{!SnapshotSucceeds L} `{!Clock C} `{!ClockWidth C}
  `{!MpscOps M Inbound} `{!MpscLaws M Inbound} `{!BroadcastOps B R} `{!BroadcastLaws B R}.
Context (clock : C) (inbound outbound : nat).
Local Abbreviation Eng := (Engine L C CounterIdGenerator VecSink).
Local Abbreviation Srv := (server L C M B R).
Implicit Types (sv : Srv) (c : conn R) (b : B).

Lemma push_all_snoc (ring : M) msgs m : push_all ring (msgs ++ [m]) = push_all ring msgs ≫= λ r, try_send r m.
Proof. unfold push_all. by rewrite foldl_app. Qed.

Lemma push_all_items (ring ring' : M) msgs :
  push_all ring msgs = Some ring' → (length (mpsc_items ring) <= mpsc_capacity ring)%nat →
  mpsc_items ring' = mpsc_items ring ++ msgs ∧ mpsc_capacity ring' = mpsc_capacity ring ∧
  (length (mpsc_items ring') <= mpsc_capacity ring')%nat.
Proof.
  revert ring'. induction msgs as [|m msgs IH] using rev_ind; intros ring' H Hl.
  { injection H as <-. by rewrite app_nil_r. }
  rewrite push_all_snoc in H. destruct (push_all ring msgs) as [r|]; [|done]. simpl in H.
  destruct (IH r eq_refl Hl) as (Hi & Hc & _). pose proof (try_send_law r m) as Hs. rewrite H in Hs.
  destruct Hs as (Hlt & Hi' & Hc'). split_and!; [by rewrite Hi', Hi, app_assoc|by rewrite Hc', Hc|].
  rewrite Hi', Hc', length_app. simpl. lia.
Qed.

Lemma accepted_push fw (ring : M) new : accepted (accepts fw ring) [] new → is_Some (push_all ring new).
Proof.
  destruct new as [|m new _] using rev_ind; intros Hacc; [by eexists|].
  specialize (Hacc new m [] eq_refl). rewrite app_nil_l in Hacc. unfold accepts in Hacc.
  apply andb_prop in Hacc as [_ Hacc]. by destruct (push_all ring (new ++ [m])).
Qed.

(** ** One connection *)

Definition reader_ok c : Prop :=
  bytes_ok (cn_buf c) ∧
  match cn_reader c with
  | None => drain unbounded (cn_in c) [] = Ret (inl (cn_buf c, cn_sent c))
  | Some _ => ∃ r, drain unbounded (cn_in c) [] = Ret r ∧ cn_sent c `prefix_of` drained r
  end.

(** The bytes written are [n] whole frames of the feed from the subscription on, then
    the part already written of the next one, whose rest is pending. *)
Definition writer_ok b c : Prop :=
  ∃ n part, cn_out c = List.concat (take n (drop (position (cn_rx0 c)) (sent b))) ++ part ∧
    (position (cn_rx0 c) + n <= length (sent b))%nat ∧
    ((part = [] ∧ cn_pending c = [] ∧ (cn_writer c = true → position (cn_rx c) = (position (cn_rx0 c) + n)%nat)) ∨
     (sent b !! (position (cn_rx0 c) + n)%nat = Some (part ++ cn_pending c) ∧ cn_pending c ≠ [] ∧
      (cn_writer c = true → position (cn_rx c) = S (position (cn_rx0 c) + n)))).

Lemma writer_ok_mono b b' c : sent b `prefix_of` sent b' → writer_ok b c → writer_ok b' c.
Proof.
  intros [more Hm] (n & part & Ho & Hn & Hp). exists n, part. rewrite Hm, length_app. split_and!; [|lia|].
  - rewrite drop_app_le by lia. rewrite take_app_le; [done|]. rewrite length_drop. lia.
  - destruct Hp as [Hp|(Hf & Hp)]; [by left|]. right. by rewrite (lookup_app_l_Some _ _ _ _ Hf).
Qed.

Lemma conn_new_ok b : reader_ok (conn_new (ChannelSink_subscribe b)) ∧ writer_ok b (conn_new (ChannelSink_subscribe b)).
Proof.
  split; [split; [constructor|by rewrite drain_eq]|]. exists O, []. simpl. split_and!; [done| |left; split_and!; [done..|intros _; lia]].
  unfold ChannelSink_subscribe. rewrite broadcast_subscribe_law. lia.
Qed.

(** The writer sees the same connection when it did not move itself. *)
Lemma writer_ok_still b c c' :
  cn_rx c' = cn_rx c → cn_rx0 c' = cn_rx0 c → cn_out c' = cn_out c → cn_pending c' = cn_pending c →
  (cn_writer c' = true → cn_writer c = true) → writer_ok b c → writer_ok b c'.
Proof.
  intros H1 H2 H3 H4 H5 (n & part & ? & ? & Hw). exists n, part. rewrite H1, H2, H3, H4. split_and!; [done..|].
  destruct Hw as [(? & ? & ?)|(? & ? & ?)]; [left|right]; split_and!; auto.
Qed.

Lemma conn_read_ok fw (ring ring' : M) c c' bytes new :
  reader_ok c → cn_reader c = None → bytes_ok bytes → (length (mpsc_items ring) <= mpsc_capacity ring)%nat →
  conn_read fw ring c bytes = Ret (ring', c', new) →
  reader_ok c' ∧ cn_sent c' = cn_sent c ++ new ∧ Forall command_ok new ∧
  (mpsc_items ring' = mpsc_items ring ++ new ∧ mpsc_capacity ring' = mpsc_capacity ring ∧
   (length (mpsc_items ring') <= mpsc_capacity ring')%nat) ∧
  ∀ b, writer_ok b c → writer_ok b c'.
Proof.
  intros [Hbuf Hr] Ho Hb Hl. rewrite Ho in Hr. unfold conn_read.
  destruct (drain_spec (accepts fw ring) (cn_buf c ++ bytes) []) as (new' & Hcmd & Hacc & Hd).
  { by apply Forall_app. }
  apply accepted_push in Hacc as [ring1 Hp]. pose proof (push_all_items _ _ _ Hp Hl) as Hring.
  assert (Hin : drain unbounded (cn_in c ++ bytes) [] = drain unbounded (cn_buf c ++ bytes) (cn_sent c)).
  { by rewrite drain_app, Hr. }
  destruct (drain (accepts fw ring) (cn_buf c ++ bytes) []) as [[[buf s]|[s reason]]| |]; [| |done|done]; cbn [outcome_bind].
  - destruct Hd as (-> & Hb' & Hu). rewrite app_nil_l, Hp. cbn [default]. intros [= <- <- <-].
    refine (conj _ (conj eq_refl (conj Hcmd (conj Hring _)))).
    + split; [done|]. simpl. by rewrite Hin, Hu.
    + intros b. by apply writer_ok_still.
  - destruct Hd as (-> & Hu). rewrite app_nil_l, Hp. cbn [default]. intros [= <- <- <-].
    refine (conj _ (conj eq_refl (conj Hcmd (conj Hring _)))).
    + split; [constructor|]. simpl. rewrite Hin. apply Hu.
    + intros b. by apply writer_ok_still.
Qed.

Lemma conn_close_ok c reason : reader_ok c → cn_reader c = None → reader_ok (conn_close c reason).
Proof. intros [Hb Hr] Ho. rewrite Ho in Hr. split; [constructor|]. simpl. eexists. split; [exact Hr|]. done. Qed.

(** A writer between two frames takes the next one. *)
Lemma conn_recv_ok b c f rx :
  writer_ok b c → cn_writer c = true → cn_pending c = [] → broadcast_recv b (cn_rx c) = (Received f, rx) → f ≠ [] →
  writer_ok b (conn_recv c rx f).
Proof.
  intros (n & part & Ho & Hn & Hp) Hw He Hrecv Hf. destruct Hp as [(-> & _ & Hpos)|(_ & Hne & _)]; [|done].
  pose proof (broadcast_recv_law b (cn_rx c)) as Hl. rewrite Hrecv in Hl. destruct Hl as (Hf' & Hpos' & _).
  rewrite (Hpos Hw) in Hf', Hpos'. exists n, []. simpl. split_and!; [done..|]. right. by split_and!.
Qed.

(** Part of a frame goes out; with its last byte the frame is whole. *)
Lemma conn_wrote_ok b c n :
  writer_ok b c → (0 < n <= length (cn_pending c))%nat → writer_ok b (conn_wrote c n).
Proof.
  intros (k & part & Ho & Hk & Hp) Hn. destruct Hp as [(_ & He & _)|(Hf & _ & Hpos)]; [rewrite He in Hn; simpl in Hn; lia|].
  destruct (decide (n = length (cn_pending c))) as [->|Hne].
  - exists (S k), []. simpl. rewrite firstn_all, drop_all. split_and!.
    + rewrite app_nil_r, Ho, (take_S_r _ k (part ++ cn_pending c)) by by rewrite lookup_drop.
      by rewrite List.concat_app, List.concat_cons, List.concat_nil, app_nil_r, app_assoc.
    + apply lookup_lt_Some in Hf. lia.
    + left. split_and!; [done..|]. intros Hw. rewrite (Hpos Hw). lia.
  - exists k, (part ++ take n (cn_pending c)). simpl. split_and!; [by rewrite Ho, app_assoc|done|]. right.
    rewrite <-app_assoc, take_drop. split_and!; [done| |done]. intros Hd. apply (f_equal length) in Hd. rewrite length_drop in Hd. simpl in Hd. lia.
Qed.

(** ** The engine thread *)

Definition from_conn (i : nat) (arrivals : list (nat * Inbound)) : list Inbound :=
  snd <$> filter (λ x, x.1 = i) arrivals.

Definition frame_of (f : list Z) (m : Outbound) : Prop := ∀ more, decode (f ++ more) = Ok (wire_view m, length f).

Lemma frame_of_ne f m : frame_of f m → f ≠ [].
Proof. intros H ->. specialize (H []). apply decode_len in H. unfold FRAME_LEN_BYTES in H. simpl in H. lia. Qed.

Lemma run_snoc {C' I Snk} `{!Clock C'} `{!IdGenerator I} `{!OutboundSink Snk} (e : Engine L C' I Snk) msgs m :
  run e (msgs ++ [m]) = (let! e := run e msgs in step e m).
Proof.
  revert e. induction msgs as [|x msgs IH]; intros e; cbn [run app].
  - cbn [outcome_bind]. by destruct (step e m).
  - destruct (step e x) as [e'| |]; [|done|done]. apply IH.
Qed.

(** A step within the bound returns, appends its messages, and they fit the wire. *)
Lemma step_within (e : Eng) n m :
  live n e → command_ok m → 0 <= n < MAX_SESSION →
  ∃ e' outs, step e m = Ret e' ∧ live (n + 1) e' ∧ events (e_sink e') = events (e_sink e) ++ outs ∧ feed_ok (events (e_sink e')).
Proof.
  intros Hl Hm Hn. assert (Hans : owp (step e m) (says (e_sink e) (answered e m))).
  { apply step_answers; [by eapply live_inv|apply Hm|]. pose proof (lv_cap _ _ Hl) as Hc.
    pose proof (sz_total _ _ (lv_sized _ _ Hl)) as Ht. unfold STEP_IDS in Hc. nia. }
  pose proof (step_live _ e m Hl ltac:(lia) Hm) as Hs.
  destruct (step e m) as [e'| |]; [|done|done]. simpl in Hans, Hs. destruct Hans as (outs & Hout & _).
  rewrite VecSink_emit_all in Hout. exists e', outs. split_and!; [done|done|by rewrite Hout|by eapply live_feed].
Qed.

Lemma ChannelSink_emit_ok b m :
  outbound_ok m ∧ outbound_width_ok m ∧ frame_fits m →
  ∃ b' f, ChannelSink_emit b m = Ret b' ∧ sent b' = sent b ++ [f] ∧ broadcast_capacity b' = broadcast_capacity b ∧ frame_of f m.
Proof.
  intros Hm. destruct (ChannelSink_feed (R := R) b [m]) as (b' & frames & Hfold & Hs & Hc & Hf); [by constructor|].
  inversion Hf as [|f x fs xs Hf1 Hfs]; subst. inversion Hfs; subst. injection Hfold as Hfold. by exists b', f.
Qed.

(** ** The invariant *)

Record server_ok sv : Prop := {
  so_alive : sv_crashed sv = false;
  so_forwarding : sv_forwarding sv = true;
  so_flow : (sv_arrivals sv).*2 = sv_done sv ++ sv_queue sv ++ mpsc_items (sv_ring sv);
  so_ring : mpsc_capacity (sv_ring sv) = inbound ∧
    (length (mpsc_items (sv_ring sv)) <= mpsc_capacity (sv_ring sv))%nat;
  so_cmds : Forall command_ok (sv_arrivals sv).*2;
  so_run : run (server_engine clock) (sv_done sv) = Ret (sv_engine sv);
  so_live : live (Z.of_nat (length (sv_done sv))) (sv_engine sv);
  so_count : sv_count sv = Z.of_nat (length (sv_done sv));
  so_feed : ∃ emitted, events (e_sink (sv_engine sv)) = emitted ++ sv_outbox sv ∧
    Forall2 frame_of (sent (sv_tx sv)) emitted;
  so_cap : (outbound <= broadcast_capacity (sv_tx sv))%nat;
  so_writers : ∀ i c, sv_conns sv !! i = Some c → writer_ok (sv_tx sv) c;
  so_conns : ∀ i c, sv_conns sv !! i = Some c → reader_ok c ∧ cn_sent c = from_conn i (sv_arrivals sv);
  so_ids : Forall (λ x, (x.1 < length (sv_conns sv))%nat) (sv_arrivals sv);
}.

Lemma server_new_ok : clock_ok clock → server_ok (server_new clock inbound outbound).
Proof.
  intros Hclock. destruct (mpsc_new_law inbound) as [Hi Hc]. destruct (broadcast_new_law outbound) as [Hs Hb]. split; simpl.
  - done.
  - done.
  - by rewrite Hi.
  - rewrite Hi, Hc. split; [done|simpl; lia].
  - constructor.
  - done.
  - by apply fresh_live.
  - done.
  - exists []. rewrite Hs. by split.
  - done.
  - done.
  - done.
  - constructor.
Qed.

(** Only one connection changed, and it sent nothing. *)
Lemma set_conn_ok sv i c c' :
  server_ok sv → sv_conns sv !! i = Some c → reader_ok c' → cn_sent c' = cn_sent c →
  (writer_ok (sv_tx sv) c → writer_ok (sv_tx sv) c') → server_ok (set_conn sv i c').
Proof.
  intros H Hi Hr Hs Hw. destruct (so_conns _ H i c Hi) as [_ Hsent].
  split; try apply H.
  - intros j x Hj. simpl in Hj. apply list_lookup_insert_Some in Hj as [(-> & <- & _)|[_ Hj]].
    + apply Hw. by eapply so_writers.
    + by apply (so_writers _ H j).
  - intros j x Hj. simpl in Hj. apply list_lookup_insert_Some in Hj as [(-> & <- & _)|[_ Hj]]; [|by apply H].
    by rewrite Hs.
  - simpl. rewrite length_insert. apply H.
Qed.

Lemma from_conn_app i a1 a2 : from_conn i (a1 ++ a2) = from_conn i a1 ++ from_conn i a2.
Proof. unfold from_conn. by rewrite filter_app, fmap_app. Qed.

Lemma from_conn_pair i j msgs : from_conn i (pair j <$> msgs) = if decide (i = j) then msgs else [].
Proof.
  unfold from_conn. induction msgs as [|m msgs IH]; csimpl; [by case_decide|].
  rewrite filter_cons. simpl. case_decide; case_decide; subst; try done. csimpl. by rewrite IH.
Qed.

Lemma from_conn_fresh i arrivals : Forall (λ x, (x.1 < i)%nat) arrivals → from_conn i arrivals = [].
Proof.
  unfold from_conn. induction 1 as [|x arrivals Hx Ha IH]; [done|]. rewrite filter_cons.
  case_decide; [lia|done].
Qed.

Lemma accept_ok sv : server_ok sv → server_ok (accept_conn sv).
Proof.
  intros H. destruct (conn_new_ok (sv_tx sv)) as [Hr0 Hw0].
  split; try apply H; simpl.
  - intros i c Hi. apply lookup_app_Some in Hi as [Hi|[_ Hi]]; [by apply (so_writers _ H i)|].
    apply list_lookup_singleton_Some in Hi as [_ <-]. done.
  - intros i c Hi. apply lookup_app_Some in Hi as [Hi|[Hge Hi]]; [by apply H|].
    apply list_lookup_singleton_Some in Hi as [Hi <-]. split; [done|]. simpl. rewrite from_conn_fresh; [done|].
    eapply Forall_impl; [apply H|]. simpl. lia.
  - eapply Forall_impl; [apply H|]. intros x. rewrite length_app. simpl. lia.
Qed.

Lemma byte_valued_ok bytes : byte_valued bytes = true ↔ bytes_ok bytes.
Proof.
  unfold byte_valued, bytes_ok. rewrite forallb_forall, Forall_forall. unfold byte_ok.
  split; intros Hb x Hx; apply list_elem_of_In in Hx; specialize (Hb x Hx); lia.
Qed.

Lemma read_ok sv i bytes sv' : server_ok sv → read_conn sv i bytes = Some sv' → server_ok sv'.
Proof.
  intros H. unfold read_conn. destruct (sv_conns sv !! i) as [c|] eqn:Hi; [|done]. simpl. case_bool_decide as Ho; [done|].
  case_bool_decide; [done|]. simpl. destruct (byte_valued bytes) eqn:Hb; [|done]. apply byte_valued_ok in Hb.
  destruct (conn_read _ _ c bytes) as [[[ring c'] new]| |] eqn:Hread; [|done|done]. intros [= <-].
  assert (Hn : cn_reader c = None) by (by destruct (cn_reader c); [destruct Ho|]). clear Ho.
  destruct (so_conns _ H i c Hi) as [Hr Hsent]. destruct (so_ring _ H) as [Hcap Hlen].
  destruct (conn_read_ok _ _ _ _ _ _ _ Hr Hn Hb Hlen Hread) as (Hr' & Hs' & Hcmd & (Hitems & Hcap' & Hlen') & Hw').
  assert (Hnew : (pair i <$> new).*2 = new).
  { rewrite <-list_fmap_compose. apply list_fmap_id. }
  split; try apply H; simpl.
  - rewrite fmap_app, Hnew, (so_flow _ H), Hitems, <-!app_assoc. done.
  - split; [by rewrite Hcap'|done].
  - rewrite fmap_app, Hnew. apply Forall_app. split; [apply H|done].
  - intros j x Hj. apply list_lookup_insert_Some in Hj as [(-> & <- & _)|[_ Hj]]; [apply Hw'|]; by eapply so_writers.
  - intros j x Hj. rewrite from_conn_app, from_conn_pair.
    apply list_lookup_insert_Some in Hj as [(-> & <- & _)|[Hne Hj]].
    + rewrite decide_True by done. split; [done|]. by rewrite Hs', Hsent.
    + rewrite decide_False by done. rewrite app_nil_r. by apply H.
  - rewrite length_insert. apply Forall_app. split; [apply H|]. apply Forall_fmap, Forall_true. intros x. simpl.
    by apply lookup_lt_Some in Hi.
Qed.

Lemma close_ok sv i err sv' : server_ok sv → close_conn sv i err = Some sv' → server_ok sv'.
Proof.
  intros H. unfold close_conn. destruct (sv_conns sv !! i) as [c|] eqn:Hi; [|done]. simpl. case_bool_decide as Ho; [done|].
  intros [= <-]. eapply set_conn_ok; [done|done| |done|by apply writer_ok_still].
  apply conn_close_ok; [by apply (so_conns _ H i)|by destruct (cn_reader c); [destruct Ho|]].
Qed.

Lemma forward_ok sv sv' : server_ok sv → forward sv = Some sv' → server_ok sv'.
Proof.
  intros H. unfold forward. rewrite (so_forwarding _ H), (so_alive _ H). pose proof (mpsc_recv_law (sv_ring sv)) as Hl.
  destruct (mpsc_recv (sv_ring sv)) as [[m ring]|]; [|done]. simpl. intros [= <-]. destruct Hl as [Hitems Hcap].
  destruct (so_ring _ H) as [Hc Hlen]. rewrite Hitems in Hlen. simpl in Hlen.
  split; try apply H; simpl; try done.
  - rewrite (so_flow _ H), Hitems, <-!app_assoc. done.
  - rewrite Hcap. split; [done|lia].
Qed.

(** The engine thread always gets on with its work. *)
Lemma take_ok sv m queue :
  server_ok sv → sv_outbox sv = [] → sv_queue sv = m :: queue → Z.of_nat (length (sv_arrivals sv)) <= MAX_SESSION →
  ∃ sv', engine_take sv = Some sv' ∧ server_ok sv' ∧ sv_queue sv' = queue ∧ sv_ring sv' = sv_ring sv ∧
    sv_conns sv' = sv_conns sv ∧ sv_arrivals sv' = sv_arrivals sv ∧ sv_tx sv' = sv_tx sv.
Proof.
  intros H Hout Hq Hmax. unfold engine_take. rewrite (so_alive _ H), Hout, Hq.
  assert (Hlen : (length (sv_done sv) < length (sv_arrivals sv))%nat).
  { rewrite <-(length_fmap snd (sv_arrivals sv)), (so_flow _ H), Hq, !length_app. simpl. lia. }
  assert (Hm : command_ok m).
  { pose proof (so_cmds _ H) as Hc. rewrite (so_flow _ H), Hq, Forall_forall in Hc. apply Hc. set_solver. }
  destruct (step_within _ _ m (so_live _ H) Hm ltac:(lia)) as (e & outs & Hstep & Hl & Hev & _).
  unfold engine_loop_body. rewrite Hstep. cbn [outcome_bind]. eexists. split; [reflexivity|]. split; [|done].
  split; try apply H; cbn -[wrap_u64].
  - done.
  - rewrite (so_flow _ H), Hq, <-!app_assoc. done.
  - by rewrite run_snoc, (so_run _ H).
  - rewrite length_app. simpl. by replace (Z.of_nat (length (sv_done sv) + 1)) with (Z.of_nat (length (sv_done sv)) + 1) by lia.
  - rewrite (so_count _ H), length_app. simpl. unfold wrap_u64, MAX_SESSION in *. rewrite Z.mod_small; lia.
  - destruct (so_feed _ H) as (emitted & He & Hf). rewrite Hout, app_nil_r in He. exists emitted.
    rewrite Hev, drop_app_length, He. done.
Qed.

Lemma emit_ok sv m outbox :
  server_ok sv → sv_outbox sv = m :: outbox →
  ∃ sv', engine_emit sv = Some sv' ∧ server_ok sv' ∧ sv_outbox sv' = outbox ∧ sv_queue sv' = sv_queue sv ∧
    sv_ring sv' = sv_ring sv ∧ sv_conns sv' = sv_conns sv ∧ sv_arrivals sv' = sv_arrivals sv ∧
    ∃ f, sent (sv_tx sv') = sent (sv_tx sv) ++ [f].
Proof.
  intros H Hout. unfold engine_emit. rewrite (so_alive _ H), Hout. destruct (so_feed _ H) as (emitted & He & Hf).
  pose proof (live_feed _ _ (so_live _ H)) as Hok. rewrite He, Hout in Hok. apply Forall_app in Hok as [_ Hok].
  apply Forall_cons in Hok as [Hm _]. destruct (ChannelSink_emit_ok (sv_tx sv) m Hm) as (b & f & -> & Hs & Hc & Hfr).
  eexists. split; [reflexivity|]. split; [|split_and!; try done; by exists f].
  split; try apply H; simpl.
  - exists (emitted ++ [m]). rewrite He, Hout, <-app_assoc. split; [done|]. rewrite Hs. apply Forall2_app; [done|by repeat constructor].
  - rewrite Hc. apply H.
  - intros i c Hi. eapply writer_ok_mono; [|by eapply so_writers]. rewrite Hs. by apply prefix_app_r.
Qed.

Lemma sent_ne sv i f : server_ok sv → sent (sv_tx sv) !! i = Some f → f ≠ [].
Proof.
  intros H Hi. destruct (so_feed _ H) as (emitted & _ & Hf). destruct (Forall2_lookup_l _ _ _ _ _ Hf Hi) as (m & _ & Hm).
  by eapply frame_of_ne.
Qed.

Lemma writer_recv_ok sv i sv' : server_ok sv → writer_recv sv i = Some sv' → server_ok sv'.
Proof.
  intros H. unfold writer_recv. destruct (sv_conns sv !! i) as [c|] eqn:Hi; [|done]. simpl.
  destruct (cn_writer c) eqn:Hw; [|done]. destruct (cn_pending c) eqn:Hp; [|done].
  pose proof (broadcast_recv_law (sv_tx sv) (cn_rx c)) as Hl.
  destruct (broadcast_recv (sv_tx sv) (cn_rx c)) as [[f| |] rx] eqn:Hr; [| |done]; intros [= <-].
  - eapply set_conn_ok; [done|done|exact (proj1 (so_conns _ H i c Hi))|done|]. intros Hok. eapply conn_recv_ok; try done.
    by eapply sent_ne, Hl.
  - eapply set_conn_ok; [done|done|exact (proj1 (so_conns _ H i c Hi))|done|]. by apply writer_ok_still.
Qed.

Lemma writer_write_ok sv i n sv' : server_ok sv → writer_write sv i n = Some sv' → server_ok sv'.
Proof.
  intros H. unfold writer_write. destruct (sv_conns sv !! i) as [c|] eqn:Hi; [|done]. simpl.
  destruct (cn_writer c); [|done]. case_bool_decide; [|done]. intros [= <-].
  eapply set_conn_ok; [done|done|exact (proj1 (so_conns _ H i c Hi))|done|]. intros Hok. by apply conn_wrote_ok.
Qed.

Lemma writer_fail_ok sv i sv' : server_ok sv → writer_fail sv i = Some sv' → server_ok sv'.
Proof.
  intros H. unfold writer_fail. destruct (sv_conns sv !! i) as [c|] eqn:Hi; [|done]. simpl.
  destruct (_ && _); [|done]. intros [= <-].
  eapply set_conn_ok; [done|done|exact (proj1 (so_conns _ H i c Hi))|done|]. by apply writer_ok_still.
Qed.

(** ** Every transition *)

Lemma perform_ok sv a sv' :
  perform sv a = Some sv' → server_ok sv → Z.of_nat (length (sv_arrivals sv)) <= MAX_SESSION → server_ok sv'.
Proof.
  intros Hs H Hmax. destruct a; simpl in Hs.
  - injection Hs as <-. by apply accept_ok.
  - by eapply read_ok.
  - by eapply close_ok.
  - by eapply forward_ok.
  - unfold engine_take in Hs. destruct (sv_crashed sv) eqn:Hc, (sv_outbox sv) eqn:Ho, (sv_queue sv) eqn:Hq; try done.
    destruct (take_ok sv _ _ H Ho Hq Hmax) as (sv1 & Ht & Hok & _). unfold engine_take in Ht. rewrite Hc, Ho, Hq, Hs in Ht.
    by injection Ht as <-.
  - unfold engine_emit in Hs. destruct (sv_crashed sv) eqn:Hc, (sv_outbox sv) eqn:Ho; try done.
    destruct (emit_ok sv _ _ H Ho) as (sv1 & Ht & Hok & _). unfold engine_emit in Ht. rewrite Hc, Ho, Hs in Ht.
    by injection Ht as <-.
  - by eapply writer_recv_ok.
  - by eapply writer_write_ok.
  - by eapply writer_fail_ok.
Qed.

(** Accepted commands, sent frames and connections are never forgotten. *)
Record grows sv sv' : Prop := {
  gr_arrivals : (length (sv_arrivals sv) <= length (sv_arrivals sv'))%nat;
  gr_sent : sent (sv_tx sv) `prefix_of` sent (sv_tx sv');
  gr_conns : ∀ i c, sv_conns sv !! i = Some c → ∃ c', sv_conns sv' !! i = Some c' ∧ cn_rx0 c' = cn_rx0 c;
}.

Lemma grows_trans sv1 sv2 sv3 : grows sv1 sv2 → grows sv2 sv3 → grows sv1 sv3.
Proof.
  intros [A1 S1 C1] [A2 S2 C2]. split; [lia|by etrans|]. intros i c Hi. destruct (C1 i c Hi) as (c2 & H2 & <-). by apply C2.
Qed.

Lemma grows_quiet sv sv' :
  sv_arrivals sv' = sv_arrivals sv → sv_tx sv' = sv_tx sv → sv_conns sv' = sv_conns sv → grows sv sv'.
Proof. intros H1 H2 H3. split; rewrite ?H1, ?H2, ?H3; [done|done|]. intros i c Hi. by exists c. Qed.

Lemma insert_conn_kept (conns : list (conn R)) i c c' :
  conns !! i = Some c → cn_rx0 c' = cn_rx0 c →
  ∀ j x, conns !! j = Some x → ∃ y, <[i := c']> conns !! j = Some y ∧ cn_rx0 y = cn_rx0 x.
Proof.
  intros Hi H0 j x Hj. destruct (decide (i = j)) as [<-|Hne].
  - exists c'. rewrite list_lookup_insert_eq by (by apply lookup_lt_Some in Hi). split; [done|]. congruence.
  - exists x. by rewrite list_lookup_insert_ne.
Qed.

Lemma set_conn_grows sv i c c' : sv_conns sv !! i = Some c → cn_rx0 c' = cn_rx0 c → grows sv (set_conn sv i c').
Proof. intros Hi H0. split; [done|done|]. by apply (insert_conn_kept _ i c c'). Qed.

Lemma conn_read_rx0 fw (ring ring' : M) c c' bytes new : conn_read fw ring c bytes = Ret (ring', c', new) → cn_rx0 c' = cn_rx0 c.
Proof. unfold conn_read. destruct (drain _ _ _) as [[[]|[]]| |]; [..|done|done]; by intros [= _ <- _]. Qed.

Lemma perform_grows sv a sv' : perform sv a = Some sv' → grows sv sv'.
Proof.
  intros Hs. destruct a; simpl in Hs.
  - injection Hs as <-. split; [done|done|]. intros i c Hi. exists c. split; [by apply lookup_app_l_Some|done].
  - unfold read_conn in Hs. destruct (sv_conns sv !! i) as [c|] eqn:Hi; [|done]. simpl in Hs. destruct (_ && _); [|done].
    destruct (conn_read _ _ _ _) as [[[ring c'] new]| |] eqn:Hr; [|done|done]. injection Hs as <-.
    split; simpl; [rewrite length_app; lia|done|]. by eapply insert_conn_kept, conn_read_rx0.
  - unfold close_conn in Hs. destruct (sv_conns sv !! i) as [c|] eqn:Hi; [|done]. simpl in Hs. destruct (bool_decide _); [done|].
    injection Hs as <-. by eapply set_conn_grows.
  - unfold forward in Hs. destruct (sv_forwarding _); [|done]. destruct (mpsc_recv _) as [[m ring]|]; [|done].
    injection Hs as <-. by apply grows_quiet.
  - unfold engine_take in Hs. destruct (sv_crashed sv), (sv_outbox sv), (sv_queue sv); try done.
    destruct (engine_loop_body _ _) as [[[]]| |]; [|..|done]; injection Hs as <-; by apply grows_quiet.
  - unfold engine_emit in Hs. destruct (sv_crashed sv), (sv_outbox sv) as [|m outbox]; try done. unfold ChannelSink_emit in Hs.
    destruct (encode m []) as [[f|]| |]; [..|done]; injection Hs as <-; [|by apply grows_quiet..].
    split; simpl; [done| |]; [rewrite (proj1 (broadcast_send_law _ _)); by apply prefix_app_r|]. intros i c Hi. by exists c.
  - unfold writer_recv in Hs. destruct (sv_conns sv !! i) as [c|] eqn:Hi; [|done]. simpl in Hs.
    destruct (cn_writer c), (cn_pending c); try done.
    destruct (broadcast_recv _ _) as [[] ?]; [..|done]; injection Hs as <-; by eapply set_conn_grows.
  - unfold writer_write in Hs. destruct (sv_conns sv !! i) as [c|] eqn:Hi; [|done]. simpl in Hs. destruct (_ && _); [|done].
    injection Hs as <-. by eapply set_conn_grows.
  - unfold writer_fail in Hs. destruct (sv_conns sv !! i) as [c|] eqn:Hi; [|done]. simpl in Hs. destruct (_ && _); [|done].
    injection Hs as <-. by eapply set_conn_grows.
Qed.

Lemma reachable_grows sv sv' : reachable sv sv' → grows sv sv'.
Proof.
  induction 1 as [|sv1 sv2 sv3 (t & _ & [sva a svb Hs]) _ IH]; [by apply grows_quiet|].
  eapply grows_trans; [by eapply perform_grows|done].
Qed.

Lemma reachable_ok sv sv' :
  reachable sv sv' → server_ok sv → Z.of_nat (length (sv_arrivals sv')) <= MAX_SESSION → server_ok sv'.
Proof.
  intros Hr H. pattern sv'. revert sv' Hr. apply rtc_ind_r; [done|].
  intros sv1 sv2 Hr [t [_ Hs]] IH Hmax. assert (Hg : (length (sv_arrivals sv1) <= length (sv_arrivals sv2))%nat).
  { apply reachable_grows. eapply rtc_once. by exists t. }
  destruct Hs as [sv1 a sv2 Hs]. eapply perform_ok; [done|apply IH; lia|lia].
Qed.

(** ** Progress *)

Definition backend (t : task) : Prop := t = Forwarder ∨ t = EngineThread.

(** The forwarder and the engine thread alone can always empty the queues. *)
Lemma server_ok_drains sv :
  server_ok sv → Z.of_nat (length (sv_arrivals sv)) <= MAX_SESSION →
  ∃ sv', rtc (steps_of backend) sv sv' ∧ server_ok sv' ∧ sv_outbox sv' = [] ∧ sv_queue sv' = [] ∧
    mpsc_items (sv_ring sv') = [] ∧ sv_conns sv' = sv_conns sv ∧ sv_arrivals sv' = sv_arrivals sv.
Proof.
  assert (Hgo : ∀ a sv1 sv2, perform sv1 a = Some sv2 → backend (task_of a) → steps_of backend sv1 sv2).
  { intros a sv1 sv2 Ha Hb. by exists (task_of a). }
  remember (2 * length (mpsc_items (sv_ring sv)) + length (sv_queue sv))%nat as n eqn:Hn.
  remember (length (sv_outbox sv)) as k eqn:Hk. revert k sv Hn Hk.
  induction n as [n IH] using lt_wf_ind. induction k as [|k IHk]; intros sv -> Hk H Hmax.
  - symmetry in Hk. apply nil_length_inv in Hk as Hout. destruct (sv_queue sv) as [|m queue] eqn:Hq.
    + pose proof (mpsc_recv_law (sv_ring sv)) as Hl. destruct (forward sv) as [sv1|] eqn:Hf.
      * pose proof (forward_ok _ _ H Hf) as H1. unfold forward in Hf. rewrite (so_forwarding _ H), (so_alive _ H) in Hf.
        destruct (mpsc_recv (sv_ring sv)) as [[m ring]|] eqn:Hr; [|done]. destruct Hl as [Hitems _].
        destruct (IH (2 * length (mpsc_items ring) + 1)%nat ltac:(rewrite Hitems; simpl; lia) (length (sv_outbox sv1)) sv1)
          as (sv' & Hs & ? & ? & ? & ? & Hc & Ha); [simpl in Hf; injection Hf as <-; simpl; rewrite Hq; simpl; lia|done|done|by injection Hf as <-|].
        exists sv'. split; [eapply rtc_l; [|exact Hs]|].
        -- apply (Hgo Act_forward); [|by left]. cbn [perform]. unfold forward. by rewrite (so_forwarding _ H), (so_alive _ H), Hr.
        -- injection Hf as <-. by split_and!.
      * unfold forward in Hf. rewrite (so_forwarding _ H) in Hf. destruct (mpsc_recv (sv_ring sv)) as [[m ring]|]; [done|].
        exists sv. split_and!; [constructor|done..].
    + destruct (take_ok sv m queue H Hout Hq Hmax) as (sv1 & Ht & H1 & Hq1 & Hr1 & Hc1 & Ha1 & _).
      destruct (IH (2 * length (mpsc_items (sv_ring sv1)) + length (sv_queue sv1))%nat ltac:(rewrite Hr1, Hq1; simpl; lia)
        (length (sv_outbox sv1)) sv1) as (sv' & Hs & ? & ? & ? & ? & Hc & Ha); [done..|by rewrite Ha1|].
      exists sv'. split; [eapply rtc_l; [apply (Hgo Act_take); [exact Ht|by right]|exact Hs]|]. split_and!; congruence || done.
  - destruct (sv_outbox sv) as [|m outbox] eqn:Hout; [done|]. injection Hk as Hk.
    destruct (emit_ok sv m outbox H Hout) as (sv1 & Ht & H1 & Ho1 & Hq1 & Hr1 & Hc1 & Ha1 & _).
    destruct (IHk sv1) as (sv' & Hs & ? & ? & ? & ? & Hc & Ha); [by rewrite Hr1, Hq1|by rewrite Ho1|done|by rewrite Ha1|].
    exists sv'. split; [eapply rtc_l; [apply (Hgo Act_emit); [exact Ht|by right]|exact Hs]|]. split_and!; congruence || done.
Qed.
End Inv.
