(* ===== verification/Serving.v ===== *)
(** * Serving: a client and the server, under any schedule

    The socket tests and the client examples connect one client to a server and rely on
    its answers being there when they read.  Here the client's side of such a program
    runs against the transition system of [Server]: a command is written to the socket,
    a scheduler picks what the tasks do until everything is at rest, and the bytes the
    writer wrote come back to the client, cut into reads in any way.  The price level,
    the ring, the broadcast channel, the scheduler and the cuts are parameters.

    A second, much smaller world has the engine on its own and the messages the client
    has not read.  Every program that returns there returns the same value here
    ([refines_send], [refines_recv]), so a test is shown to pass by running it there. *)

From stdpp Require Import relations.
From S2P Require Import Prelude Script BTree Domain PriceLevel FifoLevel Book Messages Ids Risk Engine EngineInv EngineBounds Bytes Framing WireInbound WireOutbound MarketData Channels EngineFeed Listener Client EngineLockstep BookCanon EngineCanon Server ServerInv.
#[local] Open Scope Z_scope.

(** What a client program does with its connection; [next_order_id] is the counter of
    [crates/clob-client/examples/_common.rs]. *)
Class ClientOps (W : Type) := {
  send_cmd : Inbound → script W unit;
  recv_all : nat → script W (result (list Outbound) ClientError);
  next_order_id : script W OrderId;
}.

(** ** The client's world *)

Section World.
Context {L C M B R : Type} `{!PriceLevelOps L} `{!Clock C} `{!MpscOps M Inbound} `{!BroadcastOps B R}.
Local Abbreviation Srv := (server L C M B R).

(** The server, what the client's next reads deliver, the client's buffer, and the id
    counter. *)
Record world := mkWorld {
  w_server : Srv;
  w_reads : list client_read;
  w_rx_buf : list Z;
  w_next : Z;
}.

(** A freshly started server that has accepted the client. *)
Definition world_new (clock : C) (inbound outbound : nat) : world :=
  mkWorld (accept_conn (server_new clock inbound outbound)) [] [] 1.

(** The bytes written to the client, and read from it. *)
Definition written (sv : Srv) : list Z := match sv_conns sv with c :: _ => cn_out c | [] => [] end.
Definition received (sv : Srv) : list Z := match sv_conns sv with c :: _ => cn_in c | [] => [] end.

Context (sched : Srv → list Z → list action) (split : list Z → list (list Z)).

(** [client.send(..).await.expect(..)], what the server then does, and what of it
    reaches the client; a schedule that cannot be followed leaves the client waiting. *)
Definition world_send (m : Inbound) : script world unit := λ w,
  let! bytes := expect_ok (send m) in
  match perform_all (w_server w) (sched (w_server w) bytes) with
  | Some sv =>
      Ret (tt, mkWorld sv (w_reads w ++ (R_data <$> split (drop (length (written (w_server w))) (written sv))))
        (w_rx_buf w) (w_next w))
  | None => Diverge
  end.

(** [client.recv_until_timeout(timeout, max).await]; the timeout is long enough to take
    what has arrived. *)
Definition world_recv (max : nat) : script world (result (list Outbound) ClientError) := λ w,
  let '(r, rx_buf, reads) := recv_until_timeout (S max) max (w_reads w) (w_rx_buf w) in
  Ret (r, mkWorld (w_server w) reads rx_buf (w_next w)).

(** The counter, an atomic with wrapping increments. *)
Definition world_next_id : script world OrderId := λ w,
  let! id := expect_ok (OrderId_new (w_next w)) in
  Ret (id, mkWorld (w_server w) (w_reads w) (w_rx_buf w) (wrap_u64 (w_next w + 1))).

Definition world_ops : ClientOps world :=
  {| send_cmd := world_send; recv_all := world_recv; next_order_id := world_next_id |}.

(** ** Schedules *)

(** At rest: one connection, open both ways, everything it sent processed and
    everything the engine emitted written. *)
Definition settled (sv : Srv) : Prop :=
  sv_outbox sv = [] ∧ sv_queue sv = [] ∧ mpsc_recv (sv_ring sv) = None ∧
  ∃ c, sv_conns sv = [c] ∧ cn_buf c = [] ∧ cn_reader c = None ∧ cn_writer c = true ∧ cn_pending c = [] ∧
    fst (broadcast_recv (sv_tx sv) (cn_rx c)) = Pending.

(** A schedule that serves the client: from rest, and within the bound on commands,
    it delivers the bytes of one command, no others, the ring takes it, and the tasks come
    to rest. *)
Definition serves (sv0 : Srv) : Prop :=
  ∀ sv bytes m, reachable sv0 sv → settled sv → Z.of_nat (length (sv_arrivals sv)) < MAX_SESSION →
    bytes_ok bytes → drain unbounded bytes [] = Ret (inl ([], [m])) →
    ∃ sv', perform_all sv (sched sv bytes) = Some sv' ∧ settled sv' ∧ received sv' = received sv ++ bytes ∧
      length (sv_arrivals sv') = S (length (sv_arrivals sv)).

(** A socket delivers the bytes it was given, in reads of at least one. *)
Definition cuts : Prop := ∀ bs, concat (split bs) = bs ∧ Forall (λ c, c ≠ []) (split bs).
End World.
Arguments world : clear implicits.

(** ** The small world *)

Section Small.
Context {C : Type} `{!Clock C}.

(** The engine over the reference price level, the messages on their way to the client
    as the wire carries them, the number of commands, and the id counter. *)
Record small := mkSmall {
  sm_engine : Engine FifoLevel C CounterIdGenerator VecSink;
  sm_pending : list Outbound;
  sm_count : Z;
  sm_next : Z;
}.

Definition small_new (clock : C) : small := mkSmall (server_engine clock) [] 0 1.

Definition small_send (m : Inbound) : script small unit := λ s,
  let! bytes := expect_ok (send m) in
  match drain unbounded bytes [] with
  | Ret (inl ([], [m])) =>
      if sm_count s <? MAX_SESSION then
        let! e := step (sm_engine s) m in
        Ret (tt, mkSmall e (sm_pending s ++ (wire_view <$> drop (length (events (e_sink (sm_engine s)))) (events (e_sink e))))
          (sm_count s + 1) (sm_next s))
      else Panic
  | _ => Panic
  end.

Definition small_recv (max : nat) : script small (result (list Outbound) ClientError) := λ s,
  if decide (length (sm_pending s) <= max)%nat
  then Ret (Ok (sm_pending s), mkSmall (sm_engine s) [] (sm_count s) (sm_next s)) else Panic.

Definition small_next_id : script small OrderId := λ s,
  let! id := expect_ok (OrderId_new (sm_next s)) in
  Ret (id, mkSmall (sm_engine s) (sm_pending s) (sm_count s) (wrap_u64 (sm_next s + 1))).

#[global] Instance small_ops : ClientOps small :=
  {| send_cmd := small_send; recv_all := small_recv; next_order_id := small_next_id |}.
End Small.
Arguments small : clear implicits.

(** ** One command *)

Lemma send_bytes_ok m bytes : send m = Ok bytes → bytes_ok bytes.
Proof.
  unfold send, Frame_write. destruct (ok_or _ _) as [n|]; [|done]. cbn [result_bind]. case_decide; [|done]. intros [= <-].
  change (bytes_ok (to_le 4 n ++ [MessageKind_as_u8 (inbound_kind m)] ++ inbound_payload m)).
  apply Forall_app_2; [apply to_le_ok|]. constructor; [apply MessageKind_as_u8_ok|apply bytes_ok_inbound_payload].
Qed.

#[local] Arguments drain : simpl never.

(** Bytes that decode to one command do so for every reader that has room for it. *)
Lemma drain_one ts bytes m :
  drain unbounded bytes [] = Ret (inl ([], [m])) → ts [] m = true → drain ts bytes [] = Ret (inl ([], [m])).
Proof.
  intros H Hts. rewrite drain_eq in H. rewrite drain_eq. destruct (try_decode bytes) as [x t|e t|b t|]; [|done..]. simpl in H.
  rewrite drain_eq in H. destruct (try_decode (drop t bytes)) as [y t'|e t'|b t'|] eqn:E; [|done|done|].
  - simpl in H. destruct (drain_unbounded (drop t' (drop t bytes)) [x; y]) as (r & Hr & Hp). rewrite Hr in H.
    injection H as ->. apply prefix_length in Hp. simpl in Hp. lia.
  - injection H as Hd ->. rewrite Hts, drain_eq, E, Hd. done.
Qed.

Lemma drain_shift bytes m s0 :
  bytes_ok bytes → drain unbounded bytes [] = Ret (inl ([], [m])) →
  command_ok m ∧ drain unbounded bytes s0 = Ret (inl ([], s0 ++ [m])).
Proof.
  intros Hb H. destruct (drain_spec unbounded bytes [] Hb) as (new & Hcmd & _ & Hd). rewrite H in Hd.
  destruct Hd as (Hn & _ & Hu). simpl in Hn. subst new. rewrite Forall_singleton in Hcmd. split; [done|apply Hu].
Qed.

Section Serve.
Context {L C M B R : Type} `{!PriceLevelOps L} `{!PriceLevelLaws L} `{!SnapshotSucceeds L} `{!Clock C} `{!ClockWidth C}
  `{!MpscOps M Inbound} `{!MpscLaws M Inbound} `{!BroadcastOps B R} `{!BroadcastLaws B R}.
Context (clock : C) (inbound outbound : nat).
Local Abbreviation Srv := (server L C M B R).
Local Abbreviation started := (accept_conn (server_new clock inbound outbound) : Srv).
Local Abbreviation ok := (server_ok clock inbound outbound).
Implicit Types (sv : Srv).

Lemma started_ok : clock_ok clock → ok started.
Proof. intros Hc. by apply accept_ok, server_new_ok. Qed.

Lemma started_settled : settled started.
Proof.
  split_and!; [done|done| |]; simpl.
  - pose proof (mpsc_recv_law (mpsc_new inbound : M)) as H. destruct (mpsc_recv _) as [[m r]|]; [|done].
    destruct (mpsc_new_law (M := M) inbound) as [Hi _]. rewrite Hi in H. by destruct H.
  - eexists. split_and!; try done. simpl. destruct (broadcast_new_law (B := B) outbound) as [Hs _].
    pose proof (broadcast_recv_law (broadcast_new outbound) (broadcast_subscribe (broadcast_new outbound))) as H.
    rewrite broadcast_subscribe_law, Hs in H. unfold ChannelSink_subscribe.
    destruct (broadcast_recv _ _) as [[f| |] r]; [by destruct H|simpl in H; lia|done].
Qed.

(** What rest means for the history: every command accepted was taken, every message
    was written. *)
Lemma settled_history sv c :
  ok sv → settled sv → sv_conns sv = [c] → position (cn_rx0 c) = 0%nat →
  sv_done sv = cn_sent c ∧ (sv_arrivals sv).*2 = cn_sent c ∧ cn_out c = concat (sent (sv_tx sv)) ∧
  Forall2 frame_of (sent (sv_tx sv)) (events (e_sink (sv_engine sv))) ∧
  drain unbounded (cn_in c) [] = Ret (inl ([], cn_sent c)).
Proof.
  intros H (Hout & Hq & Hr & c' & Hc' & Hbuf & Hrd & Hw & Hp & Hrx) Hc H0. rewrite Hc in Hc'. injection Hc' as <-.
  assert (Hi : sv_conns sv !! 0%nat = Some c) by by rewrite Hc.
  destruct (so_conns _ _ _ _ H 0%nat c Hi) as [[_ Hread] Hsent]. rewrite Hrd, Hbuf in Hread.
  assert (Harr : (sv_arrivals sv).*2 = cn_sent c).
  { rewrite Hsent. pose proof (so_ids _ _ _ _ H) as Hids. rewrite Hc in Hids. unfold from_conn. f_equal.
    clear -Hids. induction Hids as [|x arr Hx Hids IH]; [done|]. simpl in Hx. rewrite filter_cons, decide_True by lia. by rewrite <-IH. }
  pose proof (so_flow _ _ _ _ H) as Hf. pose proof (mpsc_recv_law (sv_ring sv)) as Hl. rewrite Hr in Hl. rewrite Hq, Hl, !app_nil_r in Hf.
  destruct (so_writers _ _ _ _ H 0%nat c Hi) as (n & part & Ho & Hn & [(-> & _ & Hpos)|(_ & Hne & _)]); [|done].
  pose proof (broadcast_recv_law (sv_tx sv) (cn_rx c)) as Hb. destruct (broadcast_recv _ _) as [[] rx]; try done.
  destruct Hb as [Hb _]. rewrite (Hpos Hw) in Hb. rewrite H0 in *. destruct (so_feed _ _ _ _ H) as (emitted & He & Hfr).
  rewrite Hout, app_nil_r in He. split_and!; [congruence|done| |by rewrite He|done].
  rewrite Ho, app_nil_r. rewrite drop_0, take_ge by lia. done.
Qed.

(** ** The refinement *)

Context (sched : Srv → list Z → list action) (split : list Z → list (list Z)).

Record serves_as (w : world L C M B R) (s : small C) : Prop := {
  sa_reach : reachable started (w_server w);
  sa_settled : settled (w_server w);
  sa_first : ∃ c, sv_conns (w_server w) = [c] ∧ position (cn_rx0 c) = 0%nat;
  sa_engine : same_engine (sv_engine (w_server w)) (sm_engine s);
  sa_count : sm_count s = Z.of_nat (length (sv_arrivals (w_server w))) ∧ sm_count s <= MAX_SESSION;
  sa_reads : ∃ chunks frames, w_reads w = R_data <$> chunks ∧
    w_rx_buf w ++ concat chunks = concat frames ∧
    Forall2 (λ f m, ∀ more, decode (f ++ more) = Ok (m, length f)) frames (sm_pending s);
  sa_next : w_next w = sm_next s;
}.

Lemma world_new_serves : serves_as (world_new clock inbound outbound) (small_new clock).
Proof.
  split; simpl.
  - constructor.
  - apply started_settled.
  - eexists. split; [done|]. simpl. unfold ChannelSink_subscribe. rewrite broadcast_subscribe_law.
    by destruct (broadcast_new_law (B := B) outbound) as [-> _].
  - apply new_canon.
  - done.
  - exists [], []. by split_and!.
  - done.
Qed.

Lemma refines_next : refines_script serves_as world_next_id small_next_id.
Proof.
  intros w s id s' [] H. unfold small_next_id in H. unfold world_next_id. rewrite sa_next0.
  destruct (OrderId_new (sm_next s)) as [i|]; [|done]. simpl in *. injection H as <- <-. eexists. split; [reflexivity|].
  by split.
Qed.

Lemma refines_recv max : refines_script serves_as (world_recv max) (small_recv max).
Proof.
  intros w s r s' [Hr Hs Hf He Hc (chunks & frames & Hw & Hcat & Hfr) Hn] H. unfold small_recv in H.
  case_decide as Hlen; [|done]. injection H as <- <-. unfold world_recv. rewrite Hw.
  destruct (recv_until_timeout_feed (S max) max frames (sm_pending s) chunks (w_rx_buf w) Hfr Hcat ltac:(lia)) as (left & buf & Hl & ->).
  rewrite take_ge by done. eexists. split; [reflexivity|]. split; try done. simpl.
  rewrite drop_ge in Hl by (rewrite (Forall2_length _ _ _ Hfr); lia). apply app_nil in Hl as [-> Hl].
  exists left, []. by split_and!.
Qed.

Lemma settled_served sv sv' c m bytes :
  ok sv → ok sv' → reachable sv sv' → settled sv → settled sv' → sv_conns sv = [c] → position (cn_rx0 c) = 0%nat →
  Z.of_nat (length (sv_arrivals sv)) < MAX_SESSION → bytes_ok bytes → drain unbounded bytes [] = Ret (inl ([], [m])) → received sv' = received sv ++ bytes →
  (∃ c', sv_conns sv' = [c'] ∧ position (cn_rx0 c') = 0%nat) ∧
  step (sv_engine sv) m = Ret (sv_engine sv') ∧
  ∃ frames outs, drop (length (written sv)) (written sv') = concat frames ∧
    events (e_sink (sv_engine sv')) = events (e_sink (sv_engine sv)) ++ outs ∧ Forall2 frame_of frames outs.
Proof.
  intros H H' Hr Hs Hs' Hc H0 Hmax Hb Hd Hin. pose proof (reachable_grows _ _ Hr) as [_ [more Hmore] Hg].
  destruct (Hg 0%nat c) as (c' & Hc' & H0'); [by rewrite Hc|]. rewrite <-H0' in H0.
  assert (Hcs : sv_conns sv' = [c']).
  { destruct Hs' as (_ & _ & _ & x & Hx & _). rewrite Hx in *. by injection Hc' as ->. }
  destruct (settled_history sv c H Hs Hc ltac:(congruence)) as (D1 & A1 & O1 & F1 & R1).
  destruct (settled_history sv' c' H' Hs' Hcs H0) as (D2 & A2 & O2 & F2 & R2).
  unfold received in Hin. rewrite Hc, Hcs in Hin. rewrite Hin, drain_app, R1 in R2. cbn [outcome_bind] in R2.
  rewrite app_nil_l in R2. rewrite (proj2 (drain_shift bytes m (cn_sent c) Hb Hd)) in R2. injection R2 as R2.
  assert (Hstep : step (sv_engine sv) m = Ret (sv_engine sv')).
  { pose proof (so_run _ _ _ _ H') as Hrun. rewrite D2, <-R2, run_snoc, <-D1, (so_run _ _ _ _ H) in Hrun. exact Hrun. }
  split_and!; [by exists c'|done|].
  - rewrite Hmore in F2, O2. apply Forall2_app_inv_l in F2 as (evs & outs & Fe & Fo & He).
    exists more, outs. unfold written. rewrite Hc, Hcs, O1, O2, List.concat_app. split_and!; [apply drop_app_length| |done].
    rewrite He. f_equal. pose proof (Forall2_length _ _ _ F1) as Hl1. pose proof (Forall2_length _ _ _ Fe) as Hl2.
    destruct (step_within _ _ m (so_live _ _ _ _ H) (proj1 (drain_shift bytes m [] Hb Hd))) as (e' & outs' & He' & _ & Hev & _).
    { rewrite D1, <-A1, length_fmap. lia. }
    rewrite Hstep in He'. injection He' as <-. rewrite He in Hev. apply app_inj_1 in Hev as [? _]; [done|lia].
Qed.

Lemma refines_send m : clock_ok clock → serves sched started → cuts split →
  refines_script serves_as (world_send sched split m) (small_send m).
Proof.
  intros Hclock Hsch Hcut w s [] s' [Hr Hs (c & Hc & H0) He [Hn Hmax] (chunks & frames & Hw & Hcat & Hfr) Hnx] H.
  unfold small_send in H. unfold world_send. destruct (send m) as [bytes|] eqn:Hm; [|done]. cbn [expect_ok outcome_bind] in *.
  apply send_bytes_ok in Hm as Hb. destruct (drain unbounded bytes []) as [[[[|? ?] [|m' [|? ?]]]|?]| |] eqn:Hd; try done.
  destruct (Z.ltb_spec (sm_count s) MAX_SESSION) as [Hlt|]; [|done].
  destruct (Hsch _ bytes m' Hr Hs ltac:(lia) Hb Hd) as (sv & Hsv & Hset & Hin & Harr). rewrite Hsv.
  pose proof (perform_all_reachable _ _ _ Hsv) as Hr2.
  pose proof (reachable_ok _ _ _ _ _ Hr (started_ok Hclock) ltac:(lia)) as Hok.
  assert (Hr3 : reachable started sv) by (unfold reachable in *; by etrans).
  pose proof (reachable_ok _ _ _ _ _ Hr3 (started_ok Hclock) ltac:(lia)) as Hok'.
  destruct (settled_served (w_server w) sv c m' bytes Hok Hok' Hr2 Hs Hset Hc H0 ltac:(lia) Hb Hd Hin)
    as (Hfirst & Hstep & fs & outs & Hwr & Hev & Hfo).
  pose proof (step_canon _ _ m' (proj1 (proj1 (drain_shift bytes m' [] Hb Hd))) He) as Hcan. rewrite Hstep in Hcan.
  destruct (step (sm_engine s) m') as [e'| |]; [|done|done]. cbn [outcome_bind] in H. injection H as <-.
  eexists. split; [reflexivity|]. split; cbn [w_server w_reads w_rx_buf w_next sm_engine sm_pending sm_count sm_next]; try done.
  - rewrite Harr. split; lia.
  - exists (chunks ++ split (concat fs)), (frames ++ fs). rewrite Hwr, Hw, fmap_app. split_and!; [done| |].
    + rewrite !List.concat_app, app_assoc, Hcat. by rewrite (proj1 (Hcut _)).
    + apply Forall2_app; [done|]. simpl in Hcan. rewrite <-(un_sink _ _ _ _ _ Hcan), <-(un_sink _ _ _ _ _ He), Hev, drop_app_length.
      by apply Forall2_fmap_r.
Qed.
End Serve.

(** ** A schedule that serves

    Read the command, forward it, take it, then send and write its frames one by one. *)

Section Greedy.
Context {L C M B R : Type} `{!PriceLevelOps L} `{!Clock C} `{!MpscOps M Inbound} `{!BroadcastOps B R}.
Implicit Types (sv : server L C M B R).

Fixpoint pump (n : nat) sv : list action :=
  match n with
  | O => []
  | S n =>
      match perform_all sv [Act_emit; Act_recv 0] with
      | Some sv1 =>
          let len := match sv_conns sv1 with c :: _ => length (cn_pending c) | [] => O end in
          match perform sv1 (Act_write 0 len) with
          | Some sv2 => Act_emit :: Act_recv 0 :: Act_write 0 len :: pump n sv2
          | None => []
          end
      | None => []
      end
  end.

Definition greedy sv (bytes : list Z) : list action :=
  let start := [Act_read 0 bytes; Act_forward; Act_take] in
  match perform_all sv start with
  | Some sv => start ++ pump (length (sv_outbox sv)) sv
  | None => start
  end.
End Greedy.

Section GreedyServes.
Context {L C M B R : Type} `{!PriceLevelOps L} `{!PriceLevelLaws L} `{!SnapshotSucceeds L} `{!Clock C} `{!ClockWidth C}
  `{!MpscOps M Inbound} `{!MpscLaws M Inbound} `{!BroadcastOps B R} `{!BroadcastLaws B R}.
Context (clock : C) (inbound outbound : nat).
Local Abbreviation ok := (server_ok (L := L) (M := M) (B := B) (R := R) clock inbound outbound).
Implicit Types (sv : server L C M B R) (c : conn R).

(** A connection that has written every frame sent so far. *)
Definition caught_up sv c : Prop :=
  sv_conns sv = [c] ∧ cn_buf c = [] ∧ cn_reader c = None ∧ cn_writer c = true ∧ cn_pending c = [] ∧
  position (cn_rx c) = length (sent (sv_tx sv)).

Lemma caught_up_settled sv c :
  sv_outbox sv = [] → sv_queue sv = [] → mpsc_items (sv_ring sv) = [] → caught_up sv c → settled sv.
Proof.
  intros Ho Hq Hi (? & ? & ? & ? & ? & Hp). split_and!; [done|done| |exists c; split_and!; try done].
  - pose proof (mpsc_recv_law (sv_ring sv)) as Hl. destruct (mpsc_recv _) as [[m r]|]; [|done]. rewrite Hi in Hl. by destruct Hl.
  - pose proof (broadcast_recv_law (sv_tx sv) (cn_rx c)) as Hl. destruct (broadcast_recv _ _) as [[f| |] r]; [|lia|done].
    destruct Hl as [Hl%lookup_lt_Some _]. lia.
Qed.

Lemma settled_caught_up sv : ok sv → settled sv → ∃ c, caught_up sv c ∧ mpsc_items (sv_ring sv) = [].
Proof.
  intros H (Ho & Hq & Hr & c & Hc & Hb & Hrd & Hw & Hp & Hrx). exists c.
  pose proof (mpsc_recv_law (sv_ring sv)) as Hl. rewrite Hr in Hl. split; [|done]. split_and!; try done.
  destruct (so_writers _ _ _ _ H 0%nat c ltac:(by rewrite Hc)) as (n & part & _ & Hn & [(_ & _ & Hpos)|(_ & Hne & _)]); [|done].
  pose proof (broadcast_recv_law (sv_tx sv) (cn_rx c)) as Hb'. destruct (broadcast_recv _ _) as [[] rx]; try done.
  destruct Hb' as [Hb' _]. rewrite (Hpos Hw) in *. lia.
Qed.

(** What a served connection keeps. *)
Definition kept sv sv' : Prop :=
  sv_queue sv' = sv_queue sv ∧ sv_ring sv' = sv_ring sv ∧ sv_arrivals sv' = sv_arrivals sv ∧ received sv' = received sv.

(** One frame goes from the outbox to the socket. *)
Lemma pump_one sv c m outbox :
  (0 < outbound)%nat → ok sv → caught_up sv c → sv_outbox sv = m :: outbox →
  ∃ sv1 c1 sv2 c2, perform_all sv [Act_emit; Act_recv 0] = Some sv1 ∧ sv_conns sv1 = [c1] ∧
    perform sv1 (Act_write 0 (length (cn_pending c1))) = Some sv2 ∧
    sv_outbox sv2 = outbox ∧ caught_up sv2 c2 ∧ kept sv sv2 ∧ ok sv2.
Proof.
  intros Hpos H (Hc & Hb & Hrd & Hw & Hp & Hrx) Ho.
  destruct (emit_ok _ _ _ sv m outbox H Ho) as (sv1 & He & H1 & Ho1 & Hq1 & Hr1 & Hc1 & Ha1 & f & Hs).
  rewrite Hc in Hc1. pose proof (broadcast_recv_law (sv_tx sv1) (cn_rx c)) as Hl.
  destruct (broadcast_recv (sv_tx sv1) (cn_rx c)) as [res rx] eqn:Hrecv. rewrite Hrx, Hs, length_app in Hl. simpl in Hl.
  pose proof (so_cap _ _ _ _ H1) as Hcap. destruct res as [f'| |]; [|lia|lia]. destruct Hl as (Hf & Hpx & _).
  rewrite lookup_app_r, Nat.sub_diag in Hf by lia. injection Hf as <-.
  assert (Hrv : writer_recv sv1 0 = Some (set_conn sv1 0 (conn_recv c rx f))).
  { unfold writer_recv. rewrite Hc1. simpl. by rewrite Hw, Hp, Hrecv. }
  pose proof (writer_recv_ok _ _ _ _ _ _ H1 Hrv) as H2.
  assert (Hne : f ≠ []) by (eapply (sent_ne _ _ _ sv1 (length (sent (sv_tx sv)))); [done|]; by rewrite Hs, lookup_app_r, Nat.sub_diag).
  assert (Hwv : writer_write (set_conn sv1 0 (conn_recv c rx f)) 0 (length f) =
    Some (set_conn (set_conn sv1 0 (conn_recv c rx f)) 0 (conn_wrote (conn_recv c rx f) (length f)))).
  { unfold writer_write. simpl. rewrite Hc1. simpl. rewrite Hw, bool_decide_true; [done|]. split; [|done]. destruct f; [done|simpl; lia]. }
  pose proof (writer_write_ok _ _ _ _ _ _ _ H2 Hwv) as H3.
  exists (set_conn sv1 0 (conn_recv c rx f)), (conn_recv c rx f). eexists _, (conn_wrote (conn_recv c rx f) (length f)). split_and!.
  - unfold perform_all. cbn [foldl perform]. simpl. by rewrite He.
  - simpl. by rewrite Hc1.
  - exact Hwv.
  - done.
  - unfold caught_up. simpl. rewrite Hc1. simpl. split_and!; try done; [by rewrite drop_all|]. by rewrite Hpx, Hs, length_app, Nat.add_1_r.
  - unfold kept, received. simpl. rewrite Hc1, Hc. by split_and!.
  - done.
Qed.

Lemma pump_serves n sv c :
  (0 < outbound)%nat → ok sv → caught_up sv c → length (sv_outbox sv) = n →
  ∃ sv' c', perform_all sv (pump n sv) = Some sv' ∧ sv_outbox sv' = [] ∧ caught_up sv' c' ∧ kept sv sv'.
Proof.
  intros Hpos. revert sv c. induction n as [|n IH]; intros sv c H Hc Hn.
  { apply nil_length_inv in Hn. exists sv, c. by split_and!. }
  destruct (sv_outbox sv) as [|m outbox] eqn:Ho; [done|]. injection Hn as Hn.
  destruct (pump_one sv c m outbox Hpos H Hc Ho) as (sv1 & c1 & sv2 & c2 & E1 & Hc1 & E2 & Ho2 & Hc2 & K2 & H2).
  destruct (IH sv2 c2 H2 Hc2) as (sv' & c' & E' & Ho' & Hc' & K'); [by rewrite Ho2|].
  exists sv', c'. cbn [pump]. rewrite E1, Hc1, E2. split_and!; [|done|done|unfold kept in *; intuition congruence].
  change (Act_emit :: Act_recv 0 :: Act_write 0 (length (cn_pending c1)) :: pump n sv2)
    with ([Act_emit; Act_recv 0] ++ [Act_write 0 (length (cn_pending c1))] ++ pump n sv2).
  rewrite perform_all_app, E1. cbn [mbind option_bind]. rewrite perform_all_app.
  change (perform_all sv1 [Act_write 0 (length (cn_pending c1))]) with (perform sv1 (Act_write 0 (length (cn_pending c1)))).
  rewrite E2. exact E'.
Qed.

(** Reading, forwarding and taking one command. *)
Lemma greedy_start sv c m bytes :
  (0 < inbound)%nat → ok sv → caught_up sv c → sv_outbox sv = [] → sv_queue sv = [] → mpsc_items (sv_ring sv) = [] →
  Z.of_nat (length (sv_arrivals sv)) < MAX_SESSION → bytes_ok bytes → drain unbounded bytes [] = Ret (inl ([], [m])) →
  ∃ sv' c', perform_all sv [Act_read 0 bytes; Act_forward; Act_take] = Some sv' ∧ ok sv' ∧ caught_up sv' c' ∧
    sv_queue sv' = [] ∧ mpsc_items (sv_ring sv') = [] ∧ received sv' = received sv ++ bytes ∧
    length (sv_arrivals sv') = S (length (sv_arrivals sv)).
Proof.
  intros Hin H (Hc & Hb & Hrd & Hw & Hp & Hrx) Ho Hq Hi Hmax Hbs Hd. destruct (so_ring _ _ _ _ H) as [Hcap _].
  pose proof (try_send_law (sv_ring sv) m) as Hts. rewrite Hi, Hcap in Hts.
  destruct (try_send (sv_ring sv) m) as [ring|] eqn:Hring; [|simpl in Hts; lia]. destruct Hts as (_ & Hi1 & _).
  assert (Hpush : push_all (sv_ring sv) [m] = Some ring) by exact Hring.
  assert (Hread : ∃ c1 sv1, read_conn sv 0 bytes = Some sv1 ∧ caught_up sv1 c1 ∧ sv_outbox sv1 = [] ∧ sv_queue sv1 = [] ∧
    mpsc_items (sv_ring sv1) = [m] ∧ received sv1 = received sv ++ bytes ∧ length (sv_arrivals sv1) = S (length (sv_arrivals sv)) ∧
    sv_forwarding sv1 = true ∧ sv_crashed sv1 = false).
  { unfold read_conn, conn_read. rewrite Hc. simpl. rewrite Hrd, bool_decide_false by by intros []. simpl.
    rewrite bool_decide_false by (intros ->; by rewrite drain_eq in Hd).
    rewrite (proj2 (byte_valued_ok bytes) Hbs), Hb, app_nil_l. simpl. rewrite (drain_one _ bytes m Hd).
    2: { unfold accepts. rewrite (so_forwarding _ _ _ _ H), app_nil_l, Hpush. done. }
    simpl. rewrite Hpush. simpl. eexists _, _. split; [reflexivity|]. unfold caught_up, received. simpl. rewrite Hc.
    split_and!; try done; [by rewrite length_app, Nat.add_1_r|apply H|apply H]. }
  destruct Hread as (c1 & sv1 & Hr & (Hc1 & Hb1 & Hrd1 & Hw1 & Hp1 & Hrx1) & Ho1 & Hq1 & Hi1' & Hrc1 & Ha1 & Hf1 & Hcr1).
  pose proof (read_ok _ _ _ _ _ _ _ H Hr) as H1. pose proof (mpsc_recv_law (sv_ring sv1)) as Hl. rewrite Hi1' in Hl.
  destruct (mpsc_recv (sv_ring sv1)) as [[m' ring']|] eqn:Hrecv; [|done]. destruct Hl as [[= -> Hi2] _].
  set (sv2 := mkServer (sv_conns sv1) ring' true [m'] (sv_engine sv1) (sv_outbox sv1) (sv_tx sv1) (sv_count sv1)
    (sv_last_log sv1) false (sv_arrivals sv1) (sv_done sv1)).
  assert (Hfw : forward sv1 = Some sv2) by (unfold forward; by rewrite Hf1, Hrecv, Hcr1, Hq1).
  pose proof (forward_ok _ _ _ _ _ H1 Hfw) as H2.
  destruct (take_ok _ _ _ sv2 m' [] H2 Ho1 eq_refl) as (sv3 & Ht & H3 & Hq3 & Hr3 & Hc3 & Ha3 & Htx3); [simpl; lia|].
  exists sv3, c1. unfold perform_all. cbn [foldl perform]. simpl. rewrite Hr. simpl. rewrite Hfw. simpl. rewrite Ht.
  unfold caught_up, received in *. rewrite Hq3, Hr3, Hc3, Ha3, Htx3. by split_and!.
Qed.

Lemma greedy_serves :
  (0 < inbound)%nat → (0 < outbound)%nat → clock_ok clock →
  serves greedy (accept_conn (server_new clock inbound outbound) : server L C M B R).
Proof.
  intros Hin Hout Hclock sv bytes m Hr Hs Hmax Hb Hd.
  pose proof (reachable_ok _ _ _ _ _ Hr (started_ok _ _ _ Hclock) ltac:(lia)) as H.
  destruct (settled_caught_up sv H Hs) as (c & Hc & Hi). destruct Hs as (Ho & Hq & _).
  destruct (greedy_start sv c m bytes Hin H Hc Ho Hq Hi Hmax Hb Hd) as (sv1 & c1 & E1 & H1 & Hc1 & Hq1 & Hi1 & Hrc1 & Ha1).
  destruct (pump_serves _ sv1 c1 Hout H1 Hc1 eq_refl) as (sv2 & c2 & E2 & Ho2 & Hc2 & (Kq & Kr & Ka & Krc)).
  exists sv2. unfold greedy. rewrite E1, perform_all_app, E1. split_and!; [exact E2| |congruence|congruence].
  apply (caught_up_settled sv2 c2); congruence || done.
Qed.
End GreedyServes.
