(* ===== verification/Scenarios.v ===== *)
(** * Scenarios: the client examples

    [crates/clob-client/examples/]: scripts that drive a fresh engine through a client
    and check what comes back, written against the client interface of [Serving].  They
    are shown to succeed against the whole server: the client's encoder, the listener,
    the forwarder, the engine thread on any wall clock, the broadcast channel, the writer
    and the client's buffered reader, under every schedule that answers a command before
    the script reads. *)

From S2P Require Import Prelude Script BTree Domain PriceLevel FifoLevel Book Messages Ids Risk Engine Bytes Framing WireInbound WireOutbound MarketData Channels EngineFeed Listener Client Text Server ServerInv Serving.
#[local] Open Scope Z_scope.

(** ** [_common.rs] *)

Module common.
Definition ENGINE_ADDR : string := "127.0.0.1:9000".

(** The address from the environment variable, when it is set. *)
Definition engine_addr (var : option string) : string := default ENGINE_ADDR var.

(** [connect]: panics when the engine cannot be reached. *)
Definition connect {Stream E} (tcp_connect : string → result Stream E) (var : option string) : outcome (Client Stream) :=
  expect_ok (Client_connect tcp_connect (engine_addr var)).

Definition limit (id : OrderId) (account : Z) (side : Side) (price qty : Z) (tif : Tif) : outcome NewOrder :=
  let! account_id := expect_ok (AccountId_new account) in
  let! price := expect_ok (Price_new price) in
  let! qty := expect_ok (Qty_new qty) in
  Ret (mkNewOrder 0 id account_id side Limit tif (Some price) qty).

Definition market (id : OrderId) (account : Z) (side : Side) (qty : Z) : outcome NewOrder :=
  let! account_id := expect_ok (AccountId_new account) in
  let! qty := expect_ok (Qty_new qty) in
  Ret (mkNewOrder 0 id account_id side Market Ioc None qty).

Definition cancel (id : OrderId) (account : Z) : outcome CancelOrder :=
  let! account_id := expect_ok (AccountId_new account) in
  Ret (mkCancelOrder 0 id account_id).

Definition cancel_replace (id : OrderId) (account new_price new_qty : Z) : outcome CancelReplace :=
  let! account_id := expect_ok (AccountId_new account) in
  let! new_price := expect_ok (Price_new new_price) in
  let! new_qty := expect_ok (Qty_new new_qty) in
  Ret (mkCancelReplace 0 id account_id new_price new_qty).

Definition mass_cancel (account : Z) : outcome MassCancel :=
  let! account_id := expect_ok (AccountId_new account) in
  Ret (mkMassCancel 0 account_id).

Definition kill_switch (state : KillSwitchState) : KillSwitchSet := mkKillSwitchSet 0 0 state.

Definition snapshot_request (request_id : Z) : SnapshotRequest := mkSnapshotRequest request_id.
End common.

(** ** Scripts *)

Section Scripts.
Context {W : Type} `{!ClientOps W}.
Local Abbreviation script := (script W).

(** [client.send(&Inbound::NewOrder(common::limit(..)))]. *)
Definition send_limit (id account : Z) (side : Side) (price qty : Z) (tif : Tif) : script unit :=
  let* m := lift (common.limit id account side price qty tif) in send_cmd (In_NewOrder m).

(** ** What the examples look for *)

Definition any_report (events : list Outbound) (p : ExecReport → bool) : bool :=
  existsb (λ o, match o with Out_ExecReport r => p r | _ => false end) events.
Definition is_state (s : ExecState) (r : ExecReport) : bool := bool_decide (er_state r = s).
Definition has_id (id : OrderId) (r : ExecReport) : bool := er_order_id r =? id.
Definition cancelled_for (reason : CancelReason) (r : ExecReport) : bool :=
  is_state Cancelled r && bool_decide (er_cancel_reason r = Some reason).
Definition rejected_for (reason : RejectReason) (r : ExecReport) : bool :=
  is_state Rejected r && bool_decide (er_reject_reason r = Some reason).

(** ** The examples: [true] is OK, [false] is FAIL and exit code 1 *)

Definition cancel_order_example : script bool :=
  let* id := next_order_id in
  let* _ := send_limit id 7 Bid 100 5 Gtc in
  let* _ := recv_all 16 in
  let* m := lift (common.cancel id 7) in
  let* _ := send_cmd (In_CancelOrder m) in
  let* r := recv_all 16 in
  let* events := expected r in
  script_ret (any_report events (λ r, has_id id r && cancelled_for UserRequested r)).

Definition cancel_replace_keeps_priority_example : script bool :=
  let* id := next_order_id in
  let* _ := send_limit id 7 Bid 100 10 Gtc in
  let* _ := recv_all 16 in
  let* m := lift (common.cancel_replace id 7 100 5) in
  let* _ := send_cmd (In_CancelReplace m) in
  let* r := recv_all 16 in
  let* events := expected r in
  script_ret (any_report events (λ r, has_id id r && is_state Replaced r)).

(** [None] is SKIP. *)
Definition duplicate_order_id_example : script (option bool) :=
  let* id := next_order_id in
  let* _ := send_limit id 7 Bid 100 5 Gtc in
  let* _ := recv_all 16 in
  let* _ := send_limit id 7 Bid 100 5 Gtc in
  let* r := recv_all 16 in
  let* events := expected r in
  script_ret (if any_report events (λ r, has_id id r && rejected_for DuplicateOrderIdReason r) then Some true else None).

(** [for ev in &events { if seq <= last { FAIL } last = seq; }]. *)
Fixpoint strictly_monotonic (last : Z) (events : list Outbound) : bool :=
  match events with
  | [] => true
  | ev :: events =>
      let seq := outbound_seq ev in
      if seq <=? last then false else strictly_monotonic seq events
  end.

Definition engine_seq_monotonic_example : script bool :=
  let* _ := recv_all 64 in
  let* first := next_order_id in
  let* _ := send_limit first 2 Ask 100 5 Gtc in
  let* id := next_order_id in
  let* _ := send_limit id 7 Bid 100 3 Gtc in
  let* m := lift (common.cancel id 7) in
  let* _ := send_cmd (In_CancelOrder m) in
  let* r := recv_all 64 in
  let* events := expected r in
  script_ret (strictly_monotonic 0 events).

Definition kill_switch_example : script bool :=
  let* _ := send_cmd (In_KillSwitchSet (common.kill_switch Halt)) in
  let* _ := recv_all 8 in
  let* halted_id := next_order_id in
  let* _ := send_limit halted_id 7 Bid 100 5 Gtc in
  let* r := recv_all 16 in
  let* halted_events := expected r in
  if negb (any_report halted_events (λ r, has_id halted_id r && rejected_for KillSwitched r)) then script_ret false else
  let* _ := send_cmd (In_KillSwitchSet (common.kill_switch Resume)) in
  let* _ := recv_all 8 in
  let* resumed_id := next_order_id in
  let* _ := send_limit resumed_id 7 Bid 100 5 Gtc in
  let* r := recv_all 16 in
  let* resumed_events := expected r in
  script_ret (any_report resumed_events (λ r, has_id resumed_id r && is_state Accepted r)).

Definition market_in_empty_book_example : script bool :=
  let* _ := recv_all 64 in
  let* id := next_order_id in
  let* m := lift (common.market id 9 Ask 5) in
  let* _ := send_cmd (In_NewOrder m) in
  let* r := recv_all 16 in
  let* events := expected r in
  script_ret (any_report events (λ r, has_id id r && rejected_for MarketOrderInEmptyBook r)).

Definition mass_cancel_example : script bool :=
  let* id_a := next_order_id in
  let* id_b := next_order_id in
  let* id_c := next_order_id in
  let* _ := send_limit id_a 7 Bid 99 3 Gtc in
  let* _ := send_limit id_b 7 Bid 98 3 Gtc in
  let* _ := send_limit id_c 7 Ask 110 3 Gtc in
  let* _ := recv_all 64 in
  let* m := lift (common.mass_cancel 7) in
  let* _ := send_cmd (In_MassCancel m) in
  let* r := recv_all 64 in
  let* events := expected r in
  let cancelled_count := length (List.filter
    (λ o, match o with Out_ExecReport r => cancelled_for MassCancelReason r | _ => false end) events) in
  script_ret (negb (cancelled_count <? 3)%nat).

Definition is_trade (o : Outbound) : bool := match o with Out_TradePrint _ => true | _ => false end.
Definition is_book_top (o : Outbound) : bool := match o with Out_BookUpdateTop _ => true | _ => false end.

Definition new_order_gtc_crosses_example : script bool :=
  let* maker_id := next_order_id in
  let* _ := send_limit maker_id 2 Ask 100 5 Gtc in
  let* _ := recv_all 16 in
  let* taker_id := next_order_id in
  let* _ := send_limit taker_id 7 Bid 100 5 Gtc in
  let* r := recv_all 16 in
  let* events := expected r in
  script_ret (existsb is_trade events && any_report events (is_state Filled)).

Definition new_order_gtc_rests_example : script bool :=
  let* id := next_order_id in
  let* _ := send_limit id 7 Bid 100 5 Gtc in
  let* r := recv_all 16 in
  let* events := expected r in
  script_ret (any_report events (λ r, is_state Accepted r && has_id id r) && existsb is_book_top events).

Definition new_order_ioc_partial_example : script bool :=
  let* maker_id := next_order_id in
  let* _ := send_limit maker_id 2 Ask 100 3 Gtc in
  let* _ := recv_all 16 in
  let* taker_id := next_order_id in
  let* _ := send_limit taker_id 7 Bid 100 10 Ioc in
  let* r := recv_all 16 in
  let* events := expected r in
  script_ret (any_report events (λ r, has_id taker_id r && is_state PartiallyFilled r) &&
    any_report events (λ r, has_id taker_id r && cancelled_for IocRemaining r)).

Definition post_only_would_cross_example : script bool :=
  let* maker_id := next_order_id in
  let* _ := send_limit maker_id 2 Ask 100 5 Gtc in
  let* _ := recv_all 16 in
  let* post_only_id := next_order_id in
  let* _ := send_limit post_only_id 7 Bid 100 5 PostOnly in
  let* r := recv_all 16 in
  let* events := expected r in
  script_ret (any_report events (λ r, has_id post_only_id r && rejected_for PostOnlyWouldCross r)).

Fixpoint send_book (rows : list (Side * Z * Z)) : script unit :=
  match rows with
  | [] => script_ret tt
  | (side, price, qty) :: rows =>
      let* id := next_order_id in
      let* _ := send_limit id 7 side price qty Gtc in
      send_book rows
  end.

Definition snapshot_request_example : script bool :=
  let* _ := send_book [(Bid, 99, 5); (Bid, 100, 3); (Ask, 101, 4); (Ask, 102, 6)] in
  let* _ := recv_all 64 in
  let req_id := 7 in
  let* _ := send_cmd (In_SnapshotRequest (common.snapshot_request req_id)) in
  let* r := recv_all 64 in
  let* events := expected r in
  script_ret match List.find (λ o, match o with Out_SnapshotResponse _ => true | _ => false end) events with
             | Some (Out_SnapshotResponse snap) =>
                 (sp_request_id snap =? req_id) &&
                 negb (bool_decide (sp_bids snap = [])) && negb (bool_decide (sp_asks snap = []))
             | _ => false
             end.

(** The examples that end in OK or FAIL. *)
Definition examples : list (script bool) :=
  [cancel_order_example; cancel_replace_keeps_priority_example; engine_seq_monotonic_example; kill_switch_example;
   market_in_empty_book_example; mass_cancel_example; new_order_gtc_crosses_example; new_order_gtc_rests_example;
   new_order_ioc_partial_example; post_only_would_cross_example; snapshot_request_example].
End Scripts.

(** ** Examples in two worlds *)

(** One lemma per head of the script. *)
Ltac refine_scripts :=
  lazymatch goal with
  | |- refines_script _ (script_bind _ _) _ => apply refines_bind; [refine_scripts|intros ?; refine_scripts]
  | |- refines_script _ (script_ret _) _ => apply refines_ret
  | |- refines_script _ (lift _) _ => apply refines_lift
  | |- refines_script _ (expected _) _ => apply refines_expected
  | |- refines_script _ (check _) _ => apply refines_check
  | |- refines_script _ (if ?b then _ else _) _ => destruct b; refine_scripts
  | |- _ => by eauto with refines
  end.
Create HintDb refines.

Section Refined.
Context {W S : Type} (ops1 : ClientOps W) (ops2 : ClientOps S) (R : W → S → Prop).
Hypothesis Hsend : ∀ m, refines_script R (send_cmd (ClientOps := ops1) m) (send_cmd m).
Hypothesis Hrecv : ∀ max, refines_script R (recv_all (ClientOps := ops1) max) (recv_all max).
Hypothesis Hnext : refines_script R (next_order_id (ClientOps := ops1)) next_order_id.
#[local] Hint Resolve Hsend Hrecv Hnext : refines.

Lemma refines_send_limit id a s p q tif :
  refines_script R (send_limit (ClientOps0 := ops1) id a s p q tif) (send_limit id a s p q tif).
Proof. unfold send_limit. refine_scripts. Qed.
#[local] Hint Resolve refines_send_limit : refines.

Lemma refines_send_book rows : refines_script R (send_book (ClientOps0 := ops1) rows) (send_book rows).
Proof. induction rows as [|[[side price] qty] rows IH]; simpl; refine_scripts. Qed.
#[local] Hint Resolve refines_send_book : refines.

Lemma refines_examples : Forall2 (refines_script R) (examples (ClientOps0 := ops1)) examples.
Proof.
  unfold examples, cancel_order_example, cancel_replace_keeps_priority_example, engine_seq_monotonic_example,
    kill_switch_example, market_in_empty_book_example, mass_cancel_example, new_order_gtc_crosses_example,
    new_order_gtc_rests_example, new_order_ioc_partial_example, post_only_would_cross_example, snapshot_request_example.
  repeat first [apply List.Forall2_nil | apply List.Forall2_cons; [refine_scripts|]].
Qed.

Lemma refines_duplicate w s v :
  R w s → value_from duplicate_order_id_example s = Ret v →
  value_from (duplicate_order_id_example (ClientOps0 := ops1)) w = Ret v.
Proof. intros Hw. eapply refines_value; [|exact Hw]. unfold duplicate_order_id_example. refine_scripts. Qed.
End Refined.

(** ** They succeed *)

Lemma small_examples_ok time :
  Forall (λ s, value_from s (small_new (mkWallClock time 0)) = Ret true) examples ∧
  value_from duplicate_order_id_example (small_new (mkWallClock time 0)) = Ret (Some true).
Proof. split; [repeat constructor; vm_compute; reflexivity|vm_compute; reflexivity]. Qed.

(** The world of the examples: the engine binary and a client connected to it. *)
Definition fresh_world {L M B R} `{!PriceLevelOps L} `{!MpscOps M Inbound} `{!BroadcastOps B R} (time : nat → option Z) :
    world L WallClock M B R :=
  world_new (mkWallClock time 0) INBOUND_CHANNEL_CAPACITY OUTBOUND_BROADCAST_CAPACITY.

Section Examples.
Context {L M B R : Type} `{!PriceLevelOps L} `{!PriceLevelLaws L} `{!SnapshotSucceeds L}
  `{!MpscOps M Inbound} `{!MpscLaws M Inbound} `{!BroadcastOps B R} `{!BroadcastLaws B R}.
Context (time : nat → option Z) (sched : server L WallClock M B R → list Z → list action) (split : list Z → list (list Z)).
Local Abbreviation ops := (world_ops sched split).

Lemma examples_ok :
  serves sched (accept_conn (server_main time)) → cuts split →
  Forall (λ s, value_from s (fresh_world time) = Ret true) (examples (ClientOps0 := ops)) ∧
  value_from (duplicate_order_id_example (ClientOps0 := ops)) (fresh_world time) = Ret (Some true).
Proof.
  intros Hs Hc. set (clock := mkWallClock time 0). destruct (small_examples_ok time) as [H1 H2].
  pose proof (world_new_serves (L := L) (M := M) (B := B) (R := R) clock INBOUND_CHANNEL_CAPACITY OUTBOUND_BROADCAST_CAPACITY) as Hw.
  split; [eapply refines_verdicts; [|exact Hw|exact H1]; apply refines_examples|eapply refines_duplicate; [..|exact Hw|done]];
    intros; apply refines_recv || apply refines_next || by apply refines_send.
Qed.
End Examples.
