(* ===== verification/TcpTests.v ===== *)
(** * TcpTests: the tests of the TCP surface

    [crates/engine/tests/tcp_surface.rs] and [crates/gateway/tests/end_to_end.rs]: a
    client's session against a server on a stub clock, through the client's encoder, the
    listener, the forwarder, the engine thread, the broadcast channel, the writer and the
    client's reader; in the second file the reader is written by hand.  The price level,
    the ring, the channel, the schedule of the server and the cuts of the response are
    those of [Serving].  The engine threads of the tests keep no count of their commands,
    as that of the binary does; nothing observes it. *)

From S2P Require Import Prelude Script BTree Domain PriceLevel FifoLevel Book Messages Ids Risk Engine Bytes Framing WireInbound WireOutbound MarketData Channels EngineFeed Listener Client Server ServerInv Serving BookTests EngineTests IntegrationTests Scenarios.
#[local] Open Scope Z_scope.

Module tcp_surface.

Definition limit_order (id account : Z) (side : Side) (price qty : Z) (tif : Tif) : outcome NewOrder :=
  EngineTests.limit_order id account side price qty tif.

Section Tests.
Context {W : Type} `{!ClientOps W}.
Local Abbreviation test := (script W).

(** [c.send(&Inbound::NewOrder(limit_order(..))).await.expect(..)]. *)
Definition send_order (id account : Z) (side : Side) (price qty : Z) (tif : Tif) : test unit :=
  let* m := lift (limit_order id account side price qty tif) in send_cmd (In_NewOrder m).
Definition send_built (m : outcome Inbound) : test unit := let* m := lift m in send_cmd m.

(** [c.recv_until_timeout(..).await.expect("recv")]. *)
Definition recv_events (max : nat) : test (list Outbound) := let* r := recv_all max in expected r.

Definition tcp_surface_new_order_gtc_rests : test unit :=
  let* _ := send_order 1 7 Bid 100 5 Gtc in
  let* events := recv_events 16 in
  let* _ := check (any_report events (is_state Accepted)) in
  check (existsb is_book_top events).

Definition tcp_surface_new_order_gtc_crosses : test unit :=
  let* _ := send_order 1 2 Ask 100 5 Gtc in
  let* _ := recv_all 16 in
  let* _ := send_order 2 7 Bid 100 5 Gtc in
  let* events := recv_events 16 in
  let* _ := check (existsb is_trade events) in
  check (any_report events (is_state Filled)).

Definition tcp_surface_new_order_ioc_partial : test unit :=
  let* _ := send_order 1 2 Ask 100 3 Gtc in
  let* _ := recv_all 16 in
  let* _ := send_order 2 7 Bid 100 10 Ioc in
  let* events := recv_events 16 in
  check (any_report events (λ r, has_id 2 r && cancelled_for IocRemaining r)).

Definition tcp_surface_post_only_would_cross : test unit :=
  let* _ := send_order 1 2 Ask 100 5 Gtc in
  let* _ := recv_all 16 in
  let* _ := send_order 2 7 Bid 100 5 PostOnly in
  let* events := recv_events 16 in
  check (any_report events (rejected_for PostOnlyWouldCross)).

Definition tcp_surface_cancel_order_user_requested : test unit :=
  let* _ := send_order 1 7 Bid 100 5 Gtc in
  let* _ := recv_all 16 in
  let* _ := send_built (integration.cancel_order 1 7) in
  let* events := recv_events 16 in
  check (any_report events (cancelled_for UserRequested)).

Definition tcp_surface_mass_cancel : test unit :=
  let* _ := send_order 1 7 Bid 99 3 Gtc in
  let* _ := send_order 2 7 Bid 98 3 Gtc in
  let* _ := send_order 3 7 Ask 110 3 Gtc in
  let* _ := recv_all 64 in
  let* _ := send_built (let! account_id := expect_ok (AccountId_new 7) in Ret (In_MassCancel (mkMassCancel 0 account_id))) in
  let* events := recv_events 64 in
  check (3 <=? EngineTests.count is_mass_cancelled events)%nat.

Definition tcp_surface_kill_switch_halt_resume : test unit :=
  let* _ := send_cmd (In_KillSwitchSet (mkKillSwitchSet 0 0 Halt)) in
  let* _ := recv_all 16 in
  let* _ := send_order 1 7 Bid 100 5 Gtc in
  let* halted := recv_events 16 in
  let* _ := check (any_report halted (rejected_for KillSwitched)) in
  let* _ := send_cmd (In_KillSwitchSet (mkKillSwitchSet 0 0 Resume)) in
  let* _ := recv_all 16 in
  let* _ := send_order 2 7 Bid 100 5 Gtc in
  let* resumed := recv_events 16 in
  check (any_report resumed (is_state Accepted)).

Definition tcp_surface_snapshot_request_round_trip : test unit :=
  let* _ := send_order 1 7 Bid 100 5 Gtc in
  let* _ := send_order 2 2 Ask 101 3 Gtc in
  let* _ := recv_all 64 in
  let* _ := send_cmd (In_SnapshotRequest (mkSnapshotRequest 42)) in
  let* events := recv_events 64 in
  let* snap := lift (expect (head (omap integration.as_snapshot events))) in
  let* _ := check_eq (sp_request_id snap) 42 in
  let* _ := check (negb (bool_decide (sp_bids snap = []))) in
  check (negb (bool_decide (sp_asks snap = []))).

Definition tcp_surface_engine_seq_strictly_monotonic : test unit :=
  let* _ := send_order 1 2 Ask 100 5 Gtc in
  let* _ := send_order 2 7 Bid 100 3 Gtc in
  let* _ := send_built (integration.cancel_order 1 2) in
  let* events := recv_events 64 in
  check (integration.seqs_above 0 events).

Definition tests : list (test unit) :=
  [tcp_surface_new_order_gtc_rests; tcp_surface_new_order_gtc_crosses; tcp_surface_new_order_ioc_partial;
   tcp_surface_post_only_would_cross; tcp_surface_cancel_order_user_requested; tcp_surface_mass_cancel;
   tcp_surface_kill_switch_halt_resume; tcp_surface_snapshot_request_round_trip;
   tcp_surface_engine_seq_strictly_monotonic].
End Tests.

(** [fresh_client]: a client connected to a server of its own, with the capacities of
    [spawn_engine]. *)
Definition fresh_client {L M B R} `{!PriceLevelOps L} `{!MpscOps M Inbound} `{!BroadcastOps B R} : world L StubClock M B R :=
  world_new (StubClock_new 1000000) 1024 1024.

Lemma small_tcp_tests_pass : forallb (passes (small_new (StubClock_new 1000000))) tests = true.
Proof. vm_compute. reflexivity. Qed.

Section Refined.
Context {W S : Type} (ops1 : ClientOps W) (ops2 : ClientOps S) (R : W → S → Prop).
Hypothesis Hsend : ∀ m, refines_script R (send_cmd (ClientOps := ops1) m) (send_cmd m).
Hypothesis Hrecv : ∀ max, refines_script R (recv_all (ClientOps := ops1) max) (recv_all max).
#[local] Hint Resolve Hsend Hrecv : refines.

Lemma refines_tcp_tests : Forall2 (refines_script R) (tests (ClientOps0 := ops1)) tests.
Proof.
  unfold tests, tcp_surface_new_order_gtc_rests, tcp_surface_new_order_gtc_crosses, tcp_surface_new_order_ioc_partial,
    tcp_surface_post_only_would_cross, tcp_surface_cancel_order_user_requested, tcp_surface_mass_cancel,
    tcp_surface_kill_switch_halt_resume, tcp_surface_snapshot_request_round_trip,
    tcp_surface_engine_seq_strictly_monotonic, send_order, send_built, recv_events.
  repeat first [apply List.Forall2_nil | apply List.Forall2_cons; [refine_scripts|]].
Qed.
End Refined.

Section Pass.
Context {L M B R : Type} `{!PriceLevelOps L} `{!PriceLevelLaws L} `{!SnapshotSucceeds L}
  `{!MpscOps M Inbound} `{!MpscLaws M Inbound} `{!BroadcastOps B R} `{!BroadcastLaws B R}.
Context (sched : server L StubClock M B R → list Z → list action) (split : list Z → list (list Z)).

Lemma tcp_tests_pass :
  serves sched (w_server fresh_client) → cuts split →
  forallb (passes fresh_client) (tests (ClientOps0 := world_ops sched split)) = true.
Proof.
  intros Hs Hc. assert (Hclock : clock_ok (StubClock_new 1000000)) by (vm_compute; split; discriminate).
  eapply (refines_passes (serves_as (StubClock_new 1000000) 1024 1024));
    [apply refines_tcp_tests|apply world_new_serves|apply small_tcp_tests_pass].
  - intros m. by apply refines_send.
  - intros max. apply refines_recv.
Qed.
End Pass.
End tcp_surface.

Module end_to_end.

(** ** The hand-written reader *)

(** [while let Ok((decoded, total)) = encoder::decode(&buf) { buf.drain(..total); .. }]. *)
Definition drain_round (st : list Z * bool * bool) : outcome ((list Z * bool * bool) + (list Z * bool * bool)) :=
  let '(buf, got_exec, got_top) := st in
  match decode buf with
  | Ok (decoded, total) =>
      let buf := drop total buf in
      match decoded with
      | Out_ExecReport r =>
          let! _ := assert_eq (er_order_id r) 42 in
          let! _ := assert_eq (er_account_id r) 7 in
          Ret (inl (buf, true, got_top))
      | Out_BookUpdateTop _ => Ret (inl (buf, got_exec, true))
      | _ => Ret (inl (buf, got_exec, got_top))
      end
  | Err _ => Ret (inr st)
  end.

(** [while now < deadline && !(got_exec && got_top)], over what the reads deliver
    before the deadline; a read of nothing, an error or a timeout ends the loop. *)
Fixpoint read_loop (reads : list client_read) (buf : list Z) (got_exec got_top : bool) : outcome (bool * bool) :=
  if got_exec && got_top then Ret (got_exec, got_top) else
  match reads with
  | R_data (x :: tmp) :: reads =>
      let buf := buf ++ (x :: tmp) in
      let! '(buf, got_exec, got_top) := loop (S (length buf)) drain_round (buf, got_exec, got_top) in
      read_loop reads buf got_exec got_top
  | _ => Ret (got_exec, got_top)
  end.

Section Test.
Context {L M B R : Type} `{!PriceLevelOps L} `{!MpscOps M Inbound} `{!BroadcastOps B R}.
Context (sched : server L StubClock M B R → list Z → list action) (split : list Z → list (list Z)).

Definition connected : world L StubClock M B R := world_new (StubClock_new 1000000) 64 64.

(** What the client's reads deliver. *)
Definition response : script (world L StubClock M B R) (list client_read) := λ w, Ret (w_reads w, w).

Definition end_to_end_client_round_trip : script (world L StubClock M B R) unit :=
  let* msg := lift (tcp_surface.limit_order 42 7 Bid 100 5 Gtc) in
  let* _ := world_send sched split (In_NewOrder msg) in
  let* reads := response in
  let* '(got_exec, got_top) := lift (read_loop reads [] false false) in
  let* _ := check got_exec in
  check got_top.
End Test.

(** ** However the response is cut *)

Lemma decode_app buf m total more : decode buf = Ok (m, total) → decode (buf ++ more) = Ok (m, total).
Proof.
  unfold decode, Frame_parse. destruct (parse_or_skip buf) as [[o t]|] eqn:E; [|done].
  by rewrite (parse_or_skip_app _ more _ _ E).
Qed.

Definition is_exec (m : Outbound) : bool := match m with Out_ExecReport _ => true | _ => false end.
Definition is_top (m : Outbound) : bool := match m with Out_BookUpdateTop _ => true | _ => false end.

(** A report of the order the test sent. *)
Definition of_order (m : Outbound) : Prop :=
  match m with Out_ExecReport r => er_order_id r = 42 ∧ er_account_id r = 7 | _ => True end.
Abbreviation encodes := (λ f m, decode f = Ok (m, length f)).

(** The buffer holds no whole frame of the stream that is still to come. *)
Definition stuck (buf : list Z) (frames : list (list Z)) : Prop :=
  match frames with [] => True | f :: _ => (length buf < length f)%nat end.

Lemma drain_round_stuck frames msgs buf rest ge gt :
  Forall2 encodes frames msgs → buf ++ rest = concat frames → stuck buf frames →
  drain_round (buf, ge, gt) = Ret (inr (buf, ge, gt)).
Proof.
  intros Hf Hb Hs. unfold drain_round. destruct Hf as [|f m frames msgs Hf _].
  - apply app_nil in Hb as [-> _]. done.
  - simpl in Hs. assert (buf = take (length buf) f) as ->.
    { csimpl in Hb. rewrite <-(take_app_le f (concat frames)) by lia. by rewrite <-Hb, take_app_length. }
    by rewrite (decode_prefix _ _ _ _ Hf Hs).
Qed.

Lemma drain_round_frame f m buf ge gt :
  encodes f m → of_order m →
  drain_round (f ++ buf, ge, gt) = Ret (inl (buf, ge || is_exec m, gt || is_top m)).
Proof.
  intros Hf Ho. unfold drain_round. rewrite (decode_app _ _ _ buf Hf), drop_app_length.
  destruct m as [r| | | |]; simpl; rewrite ?orb_true_r, ?orb_false_r; try done.
  destruct Ho as [-> ->]. done.
Qed.

Lemma drain_ok frames msgs buf rest ge gt fuel :
  Forall2 encodes frames msgs → Forall of_order msgs → buf ++ rest = concat frames → (length buf < fuel)%nat →
  ∃ frames' msgs' seen buf', loop fuel drain_round (buf, ge, gt) =
      Ret (buf', ge || existsb is_exec seen, gt || existsb is_top seen) ∧
    Forall2 encodes frames' msgs' ∧ msgs = seen ++ msgs' ∧ buf' ++ rest = concat frames' ∧ stuck buf' frames'.
Proof.
  intros Hf. revert buf ge gt fuel. induction Hf as [|f m frames msgs Hf Hfs IH]; intros buf ge gt [|fuel] Ho Hb Hfuel; [lia| |lia|].
  - exists [], [], [], buf. cbn [loop existsb]. rewrite (drain_round_stuck [] [] buf rest), !orb_false_r by (done || constructor).
    split_and!; [done|constructor|done..].
  - destruct (decide (length f <= length buf)%nat) as [Hle|Hlt].
    + apply Forall_cons in Ho as [Hm Ho]. csimpl in Hb.
      assert (buf = f ++ drop (length f) buf) as Hbuf.
      { rewrite <-(take_drop (length f) buf) at 1. f_equal.
        rewrite <-(take_app_le buf rest) by done. by rewrite Hb, take_app_length. }
      set (buf1 := drop (length f) buf) in *. clearbody buf1. subst buf. cbn [loop].
      rewrite (drain_round_frame f m) by done. cbn [outcome_bind].
      pose proof (decode_len _ _ _ Hf) as Hl. unfold FRAME_LEN_BYTES in Hl. rewrite length_app in *.
      rewrite <-app_assoc in Hb. apply app_inv_head in Hb.
      destruct (IH buf1 (ge || is_exec m) (gt || is_top m) fuel Ho Hb) as (fs' & ms' & seen & buf' & Hrun & H); [lia|].
      exists fs', ms', (m :: seen), buf'. rewrite Hrun. simpl. rewrite !orb_assoc.
      destruct H as (? & -> & ? & ?). split_and!; done.
    + exists (f :: frames), (m :: msgs), [], buf. cbn [loop].
      rewrite (drain_round_stuck (f :: frames) (m :: msgs) buf rest) by (done || (by constructor) || (simpl; lia)).
      simpl. rewrite !orb_false_r. split_and!; [done|by constructor|done|done|simpl; lia].
Qed.

Lemma reader_sees_frames reads frames msgs buf ge gt :
  Forall2 encodes frames msgs → Forall of_order msgs → Forall (λ c, c ≠ []) reads →
  buf ++ concat reads = concat frames → stuck buf frames →
  ge || existsb is_exec msgs = true → gt || existsb is_top msgs = true →
  read_loop (R_data <$> reads) buf ge gt = Ret (true, true).
Proof.
  intros Hf Ho Hne. revert frames msgs buf ge gt Hf Ho.
  induction Hne as [|tmp reads Htmp Hne IH]; intros frames msgs buf ge gt Hf Ho Hb Hs He Ht; cbn [fmap list_fmap read_loop].
  - destruct Hf as [|f m frames msgs Hf _].
    + simpl in He, Ht. rewrite orb_false_r in He, Ht. by subst ge gt.
    + csimpl in Hb. rewrite app_nil_r in Hb. subst buf. simpl in Hs. rewrite length_app in Hs. lia.
  - destruct (ge && gt) eqn:Hgg; [by apply andb_true_iff in Hgg as [-> ->]|].
    destruct tmp as [|x tmp]; [done|]. set (c := x :: tmp) in *. clearbody c. csimpl in Hb. rewrite app_assoc in Hb.
    destruct (drain_ok frames msgs (buf ++ c) (concat reads) ge gt (S (length (buf ++ c))) Hf Ho Hb ltac:(lia))
      as (fs' & ms' & seen & buf' & -> & Hf' & -> & Hb' & Hs'). cbn [outcome_bind].
    rewrite existsb_app, orb_assoc in He, Ht. apply Forall_app in Ho as [_ Ho]. by apply (IH fs' ms').
Qed.

(** ** The test passes *)

(** The messages the client has to see. *)
Definition of_orderb (m : Outbound) : bool :=
  match m with Out_ExecReport r => (er_order_id r =? 42) && (er_account_id r =? 7) | _ => true end.

Section Pass.
Context {L M B R : Type} `{!PriceLevelOps L} `{!PriceLevelLaws L} `{!SnapshotSucceeds L}
  `{!MpscOps M Inbound} `{!MpscLaws M Inbound} `{!BroadcastOps B R} `{!BroadcastLaws B R}.
Context (sched : server L StubClock M B R → list Z → list action) (split : list Z → list (list Z)).

Lemma small_response msg :
  tcp_surface.limit_order 42 7 Bid 100 5 Gtc = Ret msg →
  ∃ s, small_send (In_NewOrder msg) (small_new (StubClock_new 1000000)) = Ret (tt, s) ∧
    Forall of_order (sm_pending s) ∧ existsb is_exec (sm_pending s) = true ∧ existsb is_top (sm_pending s) = true.
Proof.
  intros [= <-].
  assert (H : match small_send (In_NewOrder (mkNewOrder 0 42 7 Bid Limit Gtc (Some 100) 5)) (small_new (StubClock_new 1000000)) with
              | Ret (_, s) => forallb of_orderb (sm_pending s) && existsb is_exec (sm_pending s) && existsb is_top (sm_pending s)
              | _ => false end = true) by (vm_compute; reflexivity).
  destruct (small_send _ _) as [[[] s]| |]; [|done|done]. rewrite !andb_true_iff in H. destruct H as [[Ho He] Ht].
  exists s. split_and!; try done. apply Forall_forall. intros m Hm. rewrite forallb_forall in Ho.
  apply list_elem_of_In, Ho in Hm. destruct m; try done. apply andb_true_iff in Hm as [?%Z.eqb_eq ?%Z.eqb_eq]. by split.
Qed.

Lemma end_to_end_passes :
  serves sched (w_server connected) → cuts split → passes connected (end_to_end_client_round_trip sched split) = true.
Proof.
  intros Hs Hc. assert (Hclock : clock_ok (StubClock_new 1000000)) by (vm_compute; split; discriminate).
  unfold passes, value_from, end_to_end_client_round_trip, script_bind at 1, lift at 1.
  destruct (tcp_surface.limit_order 42 7 Bid 100 5 Gtc) as [msg| |] eqn:Hm; [|by vm_compute in Hm..]. cbn [outcome_bind fst snd].
  destruct (small_response msg Hm) as (s & Hsm & Ho & He & Ht).
  destruct (refines_send (StubClock_new 1000000) 64 64 sched split (In_NewOrder msg) Hclock Hs Hc connected _ _ _
    (world_new_serves _ _ _) Hsm) as (w & Hw & Hsa).
  unfold script_bind at 1. rewrite Hw. cbn [outcome_bind fst snd]. unfold script_bind, response, lift. cbn [outcome_bind fst snd].
  unfold world_send in Hw. destruct (send (In_NewOrder msg)) as [bytes|]; [|done]. cbn [expect_ok outcome_bind] in Hw.
  destruct (perform_all _ _) as [sv|]; [|done]. injection Hw as <-. destruct Hsa as [_ _ _ _ _ (chunks & frames & Hr & Hcat & Hf) _].
  cbn [w_reads w_rx_buf connected world_new] in *. simpl in Hr, Hcat. apply list_fmap_eq_inj in Hr; [|by intros ? ? [=]].
  rewrite (reader_sees_frames _ frames (sm_pending s) [] false false); try done.
  - eapply Forall2_impl; [exact Hf|]. intros f m Hd. specialize (Hd []). by rewrite app_nil_r in Hd.
  - apply Hc.
  - by rewrite Hr.
  - destruct Hf as [|f m fs ms Hd _]; [done|]. specialize (Hd []). rewrite app_nil_r in Hd. apply decode_len in Hd.
    unfold FRAME_LEN_BYTES in Hd. simpl. lia.
Qed.
End Pass.
End end_to_end.
