(* ===== verification/Demo.v ===== *)
(** * Demo: concrete instances

    A book of FIFO levels and an engine over counters, a stub clock and a vector
    sink, on which the theorems of the [*Props] files are applied. *)

From S2P Require Import Prelude BTree Domain PriceLevel FifoLevel Book BookSpec BookInv BookMatch BookOps BookReplace Messages Ids Risk Engine EngineInv EngineStep EngineRun EngineCanon.

Definition rest {L} `{!PriceLevelOps L} (b : Book L) (o : RestingOrder) : Book L := fst (add_resting b o).

Lemma book_new_uncrossed {L} `{!PriceLevelOps L} : uncrossed (book_new : Book L).
Proof. done. Qed.

Lemma rest_ok {L} `{!PriceLevelOps L} `{!PriceLevelLaws L} (b : Book L) o :
  book_ok b → resting_ok o → book_ok (rest b o).
Proof.
  intros Hb Ho. pose proof (add_resting_ok b o Hb Ho) as H. unfold rest.
  destruct (add_resting b o) as [b' [[]|e]]; simpl; [apply H|by destruct H as [-> _]].
Qed.

(** Decide the field conditions of a literal. *)
Ltac solve_fields := repeat split; first [by intros ?|vm_compute; by intros ?|vm_compute; done].

(** ** A book: two bids of account 1, three asks of accounts 2, 3 and 1 *)

Definition demo_order (id acct : Z) (s : Side) (p q : Z) : RestingOrder := mkResting id acct s p q Gtc.

Definition demo_book : Book FifoLevel :=
  rest (rest (rest (rest (rest book_new
    (demo_order 1 1 Bid 98 10)) (demo_order 2 1 Bid 97 5))
    (demo_order 3 2 Ask 100 4)) (demo_order 4 3 Ask 100 6)) (demo_order 5 1 Ask 101 7).

Lemma demo_book_ok : book_ok demo_book.
Proof.
  unfold demo_book. repeat (apply rest_ok; [|solve_fields]). apply book_new_ok.
Qed.

(** Account 9 buys 7 up to 100; account 1 buys 20 up to 101 and meets itself. *)
Definition demo_taker : AggressiveOrder := mkAggressive 10 9 Bid (Some 100) 7 Gtc.
Definition demo_self : AggressiveOrder := mkAggressive 11 1 Bid (Some 101) 20 Gtc.
Definition demo_ids : CounterIdGenerator := CounterIdGenerator_new.

(** A counter has at least [n] ids left. *)
Lemma counter_cap_ok (n : nat) (g : CounterIdGenerator) :
  Z.of_nat n <= u64_max - Z.max (next_trade g) (next_seq g) → (n <= id_cap g)%nat.
Proof. intros. change (id_cap g) with (counter_cap g). unfold counter_cap. lia. Qed.

Lemma demo_cap s : (length (side_queue demo_book s) <= id_cap demo_ids)%nat.
Proof. apply counter_cap_ok. by destruct s; vm_compute. Qed.

(** ** An engine *)

Abbreviation DemoEngine := (Engine FifoLevel StubClock CounterIdGenerator VecSink).

Definition demo_engine : DemoEngine := engine_new (StubClock_new 7) CounterIdGenerator_new VecSink_new.

Definition demo_new (id acct : Z) (s : Side) (p q : Z) (tif : Tif) : Inbound :=
  In_NewOrder (mkNewOrder 0 id acct s Limit tif (Some p) q).

Lemma demo_new_ok id acct s p q tif :
  order_id_ok id → account_id_ok acct → price_ok p → qty_ok q → inbound_ok (demo_new id acct s p q tif).
Proof. intros. split_and!; try done. simpl. eauto. Qed.

Lemma demo_engine_inv : einv demo_engine.
Proof. apply engine_new_inv. Qed.
