(* ===== verification/BookProps.v ===== *)
(** * BookProps: what the order book promises

    The properties of [Book]: matching is price-time priority with self-trade
    prevention and conserves quantity, every operation keeps the representation
    invariant and refines its queue function, the market is never crossed. *)

From S2P Require Import Prelude BTree Domain PriceLevel FifoLevel Book BookSpec BookInv BookMatch BookOps BookReplace Messages Ids Engine EngineInv EngineFills EngineOrders EngineL2 Demo.

(** ** Matching *)

Definition filled_qty (fs : list Fill) : Z := foldr Z.add 0 (f_qty <$> fs).
Definition stp_cancelled_qty (cs : list StpCancellation) : Z := foldr Z.add 0 (stp_qty <$> cs).

Lemma filled_view fs : filled_qty fs = fills_qty (fill_view <$> fs).
Proof. unfold filled_qty, fills_qty. by rewrite <-list_fmap_compose. Qed.

(** Where self-trade prevention fires: at the taker's first own order, after every
    maker ahead of it was filled completely and with quantity left. *)
Lemma spec_match_stp side limit account r queue h :
  0 <= r → qm_stp (spec_match side limit account r queue) = Some h →
  ∃ makers, queue = makers ++ h :: qm_rest (spec_match side limit account r queue) ∧
    q_account h = account ∧ crosses side limit (q_price h) = true ∧
    Forall (tradable side limit account) makers ∧ queue_qty makers < r ∧
    qm_fills (spec_match side limit account r queue) =
      (λ q, mkQFill (q_id q) (q_price q) (q_qty q) true) <$> makers.
Proof.
  revert r. induction queue as [|x queue IH]; intros r Hr; simpl; [done|].
  destruct (Z.eqb_spec r 0), (crosses side limit (q_price x)) eqn:Hc; simpl; try done.
  destruct (Z.eqb_spec (q_account x) account) as [Ha|Ha]; simpl.
  { intros [= <-]. exists []. split_and!; try done. unfold queue_qty. simpl. lia. }
  destruct (Z.leb_spec (q_qty x) r) as [Hq|]; simpl; [|done]. intros (mk & Hqu & ? & ? & Hall & Hlt & Hf)%IH; [|lia].
  exists (x :: mk). csimpl. split_and!; try done; [by rewrite Hqu at 1|by constructor|
    unfold queue_qty in *; csimpl; lia|by rewrite Hf].
Qed.

(** And it fires there. *)
Lemma spec_match_stp_fires side limit account r makers h tail :
  Forall (λ q, 0 < q_qty q) makers → Forall (tradable side limit account) makers →
  q_account h = account → crosses side limit (q_price h) = true → queue_qty makers < r →
  qm_stp (spec_match side limit account r (makers ++ h :: tail)) = Some h.
Proof.
  intros Hpos. revert r. induction Hpos as [|x makers Hx Hpos IH]; intros r Hall Ha Hc Hlt.
  - unfold queue_qty in Hlt. simpl in *. rewrite Hc, (proj2 (Z.eqb_neq r 0)) by lia. simpl. by rewrite (proj2 (Z.eqb_eq _ _) Ha).
  - apply Forall_cons in Hall as [[Hxa Hxc] Hall]. unfold queue_qty in Hlt. csimpl in Hlt.
    assert (0 <= foldr Z.add 0 (q_qty <$> makers)).
    { clear -Hpos. induction Hpos; csimpl; lia. }
    simpl. rewrite Hxc, (proj2 (Z.eqb_neq r 0)) by lia. simpl. rewrite (proj2 (Z.eqb_neq _ _) Hxa).
    rewrite (proj2 (Z.leb_le _ _)) by lia. simpl. apply IH; try done. unfold queue_qty. lia.
Qed.

Section Matching.
Context {L : Type} `{!PriceLevelOps L} `{!PriceLevelLaws L} `{!SnapshotSucceeds L}.
Context {I : Type} `{!IdGenerator I} `{!IdGeneratorLaws I}.
Context (b : Book L) (taker : AggressiveOrder) (ids : I).
Hypotheses (Hok : book_ok b) (Hq : qty_ok (ao_qty taker))
  (Hcap : (length (side_queue b (Side_opposite (ao_side taker))) <= id_cap ids)%nat).

Lemma match_total fills stp :
  wp False (match_aggressive b taker ids fills stp) (λ '(b', ids', fills', stp', res),
    match_post b taker ids fills stp (aggressive_spec b taker) b' ids' fills' stp' res ∧
    (post_only_blocked b taker = true → b' = b ∧ ids' = ids ∧ fills' = fills ∧ stp' = stp)).
Proof.
  apply (match_aggressive_ok False (λ ids n, (n <= id_cap ids)%nat)); [|done..].
  intros ids0 n. apply next_trade_cap.
Qed.

Context (fills : list Fill) (stp : list StpCancellation) (b' : Book L) (ids' : I)
  (fills' : list Fill) (stp' : list StpCancellation) (res : MatchResult).
Hypothesis Hrun : match_aggressive b taker ids fills stp = Ret (b', ids', fills', stp', res).

Lemma match_ran :
  match_post b taker ids fills stp (aggressive_spec b taker) b' ids' fills' stp' res ∧
  (post_only_blocked b taker = true → b' = b ∧ ids' = ids ∧ fills' = fills ∧ stp' = stp).
Proof. exact (wp_ret_inv _ _ _ _ (match_total fills stp) Hrun). Qed.

Lemma spec_conserves :
  fills_qty (qm_fills (aggressive_spec b taker)) + qm_remaining (aggressive_spec b taker) = ao_qty taker ∧
  queue_qty (side_queue b (Side_opposite (ao_side taker))) =
    fills_qty (qm_fills (aggressive_spec b taker)) + queue_qty (qm_rest (aggressive_spec b taker)) +
    from_option q_qty 0 (qm_stp (aggressive_spec b taker)).
Proof.
  apply qty_ok_pos in Hq as Hq'. unfold aggressive_spec. destruct (post_only_blocked b taker); [unfold fills_qty; simpl; lia|].
  edestruct (spec_match_conserves (ao_side taker) (ao_price taker) (ao_account_id taker) (ao_qty taker))
    as (? & _ & ?); [| |reflexivity|done]; [lia|by eapply side_queue_pos].
Qed.

(** C1. Total correctness of matching, as a refinement: on a well-formed book
    with enough trade ids left, and provided the snapshot of a level's orders can be
    allocated ([SnapshotSucceeds]), [match_aggressive] returns, keeps the book
    well-formed, and what it did to the book, the fills, the self-trade records
    and its result are those of matching the taker against the opposite queue in
    price-time order ([aggressive_spec]). *)
Theorem match_aggressive_refines fills0 stp0 :
  ∃ b1 ids1 fills1 stp1 res1,
    match_aggressive b taker ids fills0 stp0 = Ret (b1, ids1, fills1, stp1, res1) ∧
    match_post b taker ids fills0 stp0 (aggressive_spec b taker) b1 ids1 fills1 stp1 res1.
Proof.
  pose proof (match_total fills0 stp0) as ([[[[b1 ids1] fills1] stp1] res1] & Hr & Hp & _)%wp_total.
  by exists b1, ids1, fills1, stp1, res1.
Qed.

(** C2. Price-time priority: the new fills are against a prefix of the opposite
    queue, which is sorted best price first and then by time, one fill per maker
    and in that order, each at the maker's price; no maker belongs to the taker's
    account and every maker's price is within the taker's limit. *)
Theorem match_price_time_priority :
  queue_sorted (Side_opposite (ao_side taker)) (side_queue b (Side_opposite (ao_side taker))) ∧
  ∃ new makers tail, fills' = fills ++ new ∧
    side_queue b (Side_opposite (ao_side taker)) = makers ++ tail ∧
    f_maker_order_id <$> new = q_id <$> makers ∧ f_price <$> new = q_price <$> makers ∧
    Forall (λ q, q_account q ≠ ao_account_id taker ∧
                 crosses (ao_side taker) (ao_price taker) (q_price q) = true) makers ∧
    Forall (λ f, f_taker_order_id f = ao_order_id taker) new.
Proof.
  destruct match_ran as [Hp _]. destruct (mp_fills _ _ _ _ _ _ _ _ _ _ _ Hp) as (new & -> & _ & Hnew & Hv).
  split; [apply side_queue_sorted, Hok|].
  assert (Hn : Forall (λ f, f_taker_order_id f = ao_order_id taker) new)
    by (eapply Forall_impl; [exact Hnew|by intros f []]).
  unfold aggressive_spec in Hv. destruct (post_only_blocked b taker); simpl in Hv.
  { apply fmap_nil_inv in Hv as ->. by eexists [], [], _. }
  edestruct (spec_match_makers (ao_side taker) (ao_price taker) (ao_account_id taker) (ao_qty taker))
    as (mk & tl & Hqueue & Hid & Hpr & Hall & _); [reflexivity|].
  exists new, mk, tl. rewrite <-Hv, <-!list_fmap_compose in Hid, Hpr. split_and!; done.
Qed.

(** C3. Conservation of quantity: what was filled and what the taker has left
    add up to its quantity, and the opposite side lost exactly what was filled
    and what self-trade prevention cancelled. *)
Theorem match_conserves_quantity :
  ∃ new cancels, fills' = fills ++ new ∧ stp' = stp ++ cancels ∧
    filled_qty new + default 0 (mr_taker_remaining res) = ao_qty taker ∧
    queue_qty (side_queue b (Side_opposite (ao_side taker))) =
      filled_qty new + queue_qty (side_queue b' (Side_opposite (ao_side taker))) +
      stp_cancelled_qty cancels.
Proof.
  destruct match_ran as [Hp _]. destruct (mp_fills _ _ _ _ _ _ _ _ _ _ _ Hp) as (new & Hf & _ & _ & Hv).
  destruct spec_conserves as [Hsum Hside]. exists new. eexists.
  split_and!; [done|apply Hp|..]; rewrite filled_view, Hv.
  - rewrite (mp_remaining _ _ _ _ _ _ _ _ _ _ _ Hp). destruct (Z.eqb_spec (qm_remaining (aggressive_spec b taker)) 0);
      simpl; lia.
  - rewrite (mp_rest _ _ _ _ _ _ _ _ _ _ _ Hp). unfold stp_cancelled_qty.
    destruct (qm_stp (aggressive_spec b taker)); simpl in *; lia.
Qed.


(** C5. Self-trade prevention (cancel both).  When the taker is flagged, the opposite
    queue is the makers it may trade with, then its account's first crossing order,
    then a tail: none of the makers belongs to its account, they were all filled
    completely, at their prices and in order, for less than the taker's quantity; the
    own order is removed and reported, and the tail is untouched.  Conversely, a taker
    that is not refused as post-only is flagged whenever the queue has that shape. *)
Theorem match_self_trade_prevention :
  (mr_taker_stp_cancelled res = true →
   ∃ makers own tail new,
    side_queue b (Side_opposite (ao_side taker)) = makers ++ own :: tail ∧
    Forall (tradable (ao_side taker) (ao_price taker) (ao_account_id taker)) makers ∧
    q_account own = ao_account_id taker ∧
    crosses (ao_side taker) (ao_price taker) (q_price own) = true ∧
    queue_qty makers < ao_qty taker ∧
    side_queue b' (Side_opposite (ao_side taker)) = tail ∧
    stp' = stp ++ [stp_of (Side_opposite (ao_side taker)) own] ∧
    fills' = fills ++ new ∧ f_maker_order_id <$> new = q_id <$> makers ∧
    f_price <$> new = q_price <$> makers ∧ f_qty <$> new = q_qty <$> makers ∧
    Forall (λ f, f_maker_fully_filled f = true) new) ∧
  (∀ makers own tail,
    side_queue b (Side_opposite (ao_side taker)) = makers ++ own :: tail →
    Forall (tradable (ao_side taker) (ao_price taker) (ao_account_id taker)) makers →
    q_account own = ao_account_id taker → crosses (ao_side taker) (ao_price taker) (q_price own) = true →
    queue_qty makers < ao_qty taker → mr_taker_post_only_rejected res = false →
    mr_taker_stp_cancelled res = true).
Proof.
  destruct match_ran as [Hp _]. rewrite (mp_flag _ _ _ _ _ _ _ _ _ _ _ Hp), bool_decide_eq_true.
  assert (Hq0 : 0 <= ao_qty taker) by (apply qty_ok_pos in Hq; lia).
  rewrite (mp_post_only _ _ _ _ _ _ _ _ _ _ _ Hp). split.
  - intros [h Hh]. destruct (mp_fills _ _ _ _ _ _ _ _ _ _ _ Hp) as (new & Hf & _ & _ & Hv).
    pose proof (mp_rest _ _ _ _ _ _ _ _ _ _ _ Hp) as Hrest. pose proof (mp_stp _ _ _ _ _ _ _ _ _ _ _ Hp) as Hstp.
    rewrite Hh in Hstp. unfold aggressive_spec in Hh, Hrest, Hv. destruct (post_only_blocked b taker); [done|].
    destruct (spec_match_stp _ _ _ _ _ _ Hq0 Hh) as (mk & Hqueue & Ha & Hc & Hall & Hlt & Hfs). rewrite Hfs in Hv.
    exists mk, h, (side_queue b' (Side_opposite (ao_side taker))), new. rewrite Hrest.
    split_and!; try done; [apply (f_equal (fmap qf_maker)) in Hv|apply (f_equal (fmap qf_price)) in Hv|
      apply (f_equal (fmap qf_qty)) in Hv|apply (f_equal (fmap qf_full)) in Hv]; rewrite <-!list_fmap_compose in Hv; try done.
    apply Forall_forall. intros f Hin. apply (list_elem_of_fmap_2 (qf_full ∘ fill_view)) in Hin. rewrite Hv in Hin.
    by apply list_elem_of_fmap in Hin as (q & ? & _).
  - intros mk own tail Hqueue Hall Ha Hc Hlt Hpo. apply bool_decide_eq_true. exists own. unfold aggressive_spec. rewrite Hpo, Hqueue.
    apply spec_match_stp_fires; try done. pose proof (side_queue_pos _ _ (Side_opposite (ao_side taker)) Hok) as Hpos.
    rewrite Hqueue in Hpos. by apply Forall_app in Hpos as [? _].
Qed.

(** The market is never locked or crossed by one order: matching keeps an uncrossed book
    uncrossed, and so does resting the remainder of a limit order that was
    neither refused nor cancelled by self-trade prevention. *)
Theorem match_and_rest_uncrossed p n b2 :
  uncrossed b → ao_price taker = Some p → mr_taker_remaining res = Some n →
  mr_taker_stp_cancelled res = false → mr_taker_post_only_rejected res = false →
  resting_ok (mkResting (ao_order_id taker) (ao_account_id taker) (ao_side taker) p n (ao_tif taker)) →
  add_resting b' (mkResting (ao_order_id taker) (ao_account_id taker) (ao_side taker) p n (ao_tif taker))
    = (b2, Ok tt) →
  uncrossed b' ∧ uncrossed b2.
Proof.
  intros Hu Hpr Hrem Hs Hpo Hro Hadd. destruct match_ran as [Hp _].
  pose proof (match_uncrossed _ _ _ _ _ _ _ _ _ _ Hok Hp Hu) as Hu'. split; [done|].
  pose proof (add_resting_ok b' _ (mp_ok _ _ _ _ _ _ _ _ _ _ _ Hp) Hro) as Hpost. rewrite Hadd in Hpost.
  eapply uncrossed_add; [apply Hp|done..|]. simpl. rewrite <-Hpr.
  by eapply (match_remainder_no_cross b taker).
Qed.

End Matching.

(** C7. Termination of matching for any id source: whatever the ids do, the
    two nested walks stop; a panic can only be the id source's. *)
Theorem match_terminates {L} `{!PriceLevelOps L} `{!PriceLevelLaws L} `{!SnapshotSucceeds L}
    {I} `{!IdGenerator I} (b : Book L) taker (ids : I) fills stp :
  book_ok b → qty_ok (ao_qty taker) → (∀ i : I, next_trade_id i ≠ Diverge) →
  match_aggressive b taker ids fills stp ≠ Diverge ∧
  ((∀ i : I, next_trade_id i ≠ Panic) → match_aggressive b taker ids fills stp ≠ Panic).
Proof.
  intros Hok Hq Hd.
  assert (Hwp : ∀ P : Prop, (∀ i : I, next_trade_id i = Panic → P) →
    wp P (match_aggressive b taker ids fills stp) (λ _, True)).
  { intros P HP. eapply wp_conseq; [apply (match_aggressive_ok P (λ _ _, True)); [|done..]|done].
    intros i n _. specialize (Hd i). specialize (HP i). destruct (next_trade_id i); simpl; auto. }
  split.
  - specialize (Hwp True (λ _ _, Logic.I)). by destruct (match_aggressive b taker ids fills stp).
  - intros Hp. specialize (Hwp False Hp). by destruct (match_aggressive b taker ids fills stp).
Qed.

(** ** Resting, cancelling, replacing *)

(** Cancelling undoes inserting. *)
Lemma spec_cancel_insert s q queue :
  q_id q ∉ q_id <$> queue → spec_cancel (q_id q) (spec_insert s q queue) = queue.
Proof.
  intros Hn. induction queue as [|h queue IH]; simpl; [by apply spec_cancel_head|].
  csimpl in Hn. apply not_elem_of_cons in Hn as [Hh Hn]. case_decide.
  - unfold spec_cancel. rewrite filter_cons, decide_True by congruence. f_equal. by apply IH.
  - apply spec_cancel_head. csimpl. by apply not_elem_of_cons.
Qed.

Section Resting.
Context {L : Type} `{!PriceLevelOps L} `{!PriceLevelLaws L}.
Implicit Types (b : Book L) (id : OrderId) (ord : RestingOrder).

(** C8. [add_resting] on every branch: on success the book is well-formed and the
    order stands behind every order of an equal or better price, the other side
    is untouched, and the sequence advances by one; on an error the book is
    exactly as before and the error has its cause. *)
Theorem add_resting_refines b ord :
  book_ok b → resting_ok ord →
  match add_resting b ord with
  | (b', Ok _) => add_post b ord b'
  | (b', Err e) => b' = b ∧ add_error b ord e
  end.
Proof. apply add_resting_ok. Qed.

(** C9. [cancel] on every branch: an unknown id changes nothing and is reported;
    a known one is removed from its queue and from the index, its neighbours keep
    their places, and its side and price are returned. *)
Theorem cancel_refines b id :
  book_ok b →
  match cancel b id with
  | (b', Ok (s, p)) => cancel_post b id b' ∧
      ∃ q, q ∈ side_queue b s ∧ q_id q = id ∧ q_price q = p
  | (b', Err e) => b' = b ∧ e = UnknownOrderId ∧ index b !! id = None
  end.
Proof.
  intros Hok. rewrite cancel_eq by done. destruct (index b !! id) as [m|] eqn:Hm; [|done].
  split; [by apply cancelled_post|].
  destruct (resting_qty_ok b id m Hok Hm) as (q & ? & ? & _ & _ & ? & _). eauto.
Qed.

(** Resting an order and cancelling it is the identity on both queues and on
    the index, and the cancel reports where the order stood. *)
Theorem add_then_cancel b ord b1 :
  book_ok b → resting_ok ord → add_resting b ord = (b1, Ok tt) →
  ∃ b2, cancel b1 (ro_order_id ord) = (b2, Ok (ro_side ord, ro_price ord)) ∧ book_ok b2 ∧
    (∀ s, side_queue b2 s = side_queue b s) ∧ index b2 = index b.
Proof.
  intros Hok Hord Hadd. pose proof (add_resting_ok b ord Hok Hord) as Hp. rewrite Hadd in Hp.
  destruct Hp as [Hok1 Hfresh Hq Hsame Hidx _].
  assert (Hm : index b1 !! ro_order_id ord = Some (resting_meta ord)) by by rewrite Hidx, lookup_insert_eq.
  pose proof (cancelled_post _ _ _ Hok1 Hm) as Hc. rewrite cancel_eq, Hm by done.
  eexists. split; [done|]. split; [apply Hc|].
  assert (Hno : ∀ s, ro_order_id ord ∉ q_id <$> side_queue b s).
  { intros s (q & Heq & Hin)%list_elem_of_fmap. destruct (side_queue_index _ _ _ _ Hok Hin) as (m & Hm' & _).
    congruence. }
  split.
  - intros s. rewrite (cp_queue _ _ _ Hc). destruct (decide (s = ro_side ord)) as [->|Hne].
    + rewrite Hq. apply (spec_cancel_insert _ (resting_q ord)), Hno.
    + assert (s = Side_opposite (ro_side ord)) as -> by (by destruct s, (ro_side ord)).
      rewrite Hsame. by apply spec_cancel_notin.
  - rewrite (cp_index _ _ _ Hc), Hidx. by apply delete_insert_id.
Qed.

(** C10. [mass_cancel] removes exactly the account's orders from both sides, in
    place for every other order, and reports each of them once, in ascending
    order-id order; the count is the number of reports. *)
Theorem mass_cancel_refines b a out :
  book_ok b → let '(b', out', n) := mass_cancel b a out in mass_post b a out b' out' n.
Proof. apply mass_cancel_ok. Qed.

(** The book's queries agree with its queues: the best price is that of the
    first order in priority, and the quantity at a price is the sum of the orders
    resting there. *)
Theorem queries_agree b :
  book_ok b →
  best_bid b = q_price <$> head (side_queue b Bid) ∧
  best_ask b = q_price <$> head (side_queue b Ask) ∧
  (∀ s p, qty_at_level b s p = queue_qty (filter (λ q, q_price q = p) (side_queue b s))) ∧
  (∀ s q, q ∈ side_queue b s → resting_qty b (q_id q) = Some (q_qty q)) ∧
  (∀ id, index b !! id = None → resting_qty b id = None).
Proof.
  intros Hok. split_and!.
  - apply (best_key_queue b Bid Hok).
  - apply (best_key_queue b Ask Hok).
  - intros s p. rewrite side_queue_at_price by done. unfold qty_at_level.
    destruct (level_at b s p) as [l|] eqn:Hl; [|done]. simpl. rewrite queue_qty_level.
    by apply (level_total_ok b s p l).
  - intros s q Hq. destruct (side_queue_index _ _ _ _ Hok Hq) as (m & Hm & _).
    destruct (resting_qty_ok b _ m Hok Hm) as (q' & Hq' & Hid & -> & _).
    by destruct (side_queue_inj b _ _ _ _ Hok Hq' Hq Hid) as [_ ->].
  - apply resting_qty_None.
Qed.

End Resting.

Section Replacing.
Context {L : Type} `{!PriceLevelOps L} `{!PriceLevelLaws L} `{!SnapshotSucceeds L}.
Context {I : Type} `{!IdGenerator I} `{!IdGeneratorLaws I}.
Context (b : Book L) (id : OrderId) (p : Price) (n : Qty) (ids : I)
  (fills : list Fill) (stp : list StpCancellation).
Hypotheses (Hok : book_ok b) (Hp : price_ok p) (Hn : qty_ok n)
  (Hcap : ∀ m, index b !! id = Some m →
     (length (side_queue b (Side_opposite (om_side m))) <= id_cap ids)%nat).

Lemma replace_total :
  wp False (replace b id p n ids fills stp) (λ '(b', ids', fills', stp', r),
    replace_post b id p n ids fills stp b' ids' fills' stp' r).
Proof.
  apply (replace_ok False (λ ids n, (n <= id_cap ids)%nat)); [|done..].
  intros ids0 k. apply next_trade_cap.
Qed.

(** C11. [replace] on every branch: it returns; an unknown id is an error that
    changes nothing; the same price with no more quantity shrinks the order where
    it stands; a post-only order that would cross is refused with nothing changed;
    otherwise the order is cancelled, matched at its new price as a taker, and
    its remainder rests, unless self-trade prevention cancelled it. *)
Theorem replace_refines :
  ∃ b' ids' fills' stp' r,
    replace b id p n ids fills stp = Ret (b', ids', fills', stp', r) ∧
    replace_post b id p n ids fills stp b' ids' fills' stp' r.
Proof.
  pose proof replace_total as ([[[[b1 ids1] fills1] stp1] r1] & Hr & Hpost)%wp_total.
  by exists b1, ids1, fills1, stp1, r1.
Qed.

(** Reducing the quantity at the same price keeps the order's place: the
    queues hold the same orders in the same order with only its quantity changed,
    and nothing trades. *)
Theorem replace_keeps_priority m q b' ids' fills' stp' r :
  index b !! id = Some m → q ∈ side_queue b (om_side m) → q_id q = id →
  p = om_price m → n <= q_qty q →
  replace b id p n ids fills stp = Ret (b', ids', fills', stp', r) →
  r = Ok (mkReplaceOutcome true None) ∧ book_ok b' ∧
  (∀ s, q_id <$> side_queue b' s = q_id <$> side_queue b s) ∧
  resting_qty b' id = Some n ∧ ids' = ids ∧ fills' = fills ∧ stp' = stp.
Proof.
  intros Hm Hq Hid Hpr Hle Hrun. pose proof (wp_ret_inv _ _ _ _ replace_total Hrun) as Hpost.
  simpl in Hpost. unfold replace_post in Hpost. rewrite Hm in Hpost. destruct Hpost as (q' & Hq' & Hid' & Hbr).
  destruct (side_queue_inj b _ _ _ _ Hok Hq' Hq ltac:(congruence)) as [_ ->].
  rewrite bool_decide_true in Hbr by done. destruct Hbr as (-> & Hok' & Hqs & Hidx & _ & -> & -> & ->).
  split_and!; try done.
  - intros s. rewrite Hqs. unfold spec_set_qty. rewrite <-list_fmap_compose. apply list_fmap_ext.
    intros k x _. simpl. by case_decide.
  - assert (Hin : q_with_qty q n ∈ side_queue b' (om_side m)).
    { rewrite Hqs. apply list_elem_of_fmap. exists q. by rewrite decide_True. }
    destruct (resting_qty_ok b' id m Hok' ltac:(by rewrite Hidx)) as (q2 & Hq2 & Hid2 & -> & _).
    destruct (side_queue_inj b' _ _ _ _ Hok' Hq2 Hin) as [_ ->]; [simpl; congruence|done].
Qed.

End Replacing.

(** ** The theorems at concrete inputs *)

(** A taker of 7 lots takes all of order 3 and half of order 4. *)
Lemma match_aggressive_refines_witness :
  ∃ b1 ids1 fills1 stp1 res1,
    match_aggressive demo_book demo_taker demo_ids [] [] = Ret (b1, ids1, fills1, stp1, res1) ∧
    match_post demo_book demo_taker demo_ids [] [] (aggressive_spec demo_book demo_taker) b1 ids1 fills1 stp1 res1.
Proof.
  apply match_aggressive_refines; [apply demo_book_ok|solve_fields|apply demo_cap].
Defined.

(** The runs of the two takers, and of a bid at 99 that only rests. *)
Definition demo_bid : AggressiveOrder := mkAggressive 12 9 Bid (Some 99) 7 Gtc.

Definition demo_ran (t : AggressiveOrder) (view : list QFill) (res : MatchResult) (b' : Book FifoLevel) : Prop :=
  ∃ ids' fills' stp', match_aggressive demo_book t demo_ids [] [] = Ret (b', ids', fills', stp', res) ∧
    fill_view <$> fills' = view.

Ltac demo_evaluate := do 4 eexists; split; [vm_compute; reflexivity|vm_compute; reflexivity].

Lemma demo_taker_ran :
  ∃ b', demo_ran demo_taker [mkQFill 3 100 4 true; mkQFill 4 100 3 false] (mkMatchResult 2 0 None false false) b'.
Proof. demo_evaluate. Qed.

Lemma demo_self_ran :
  ∃ b', demo_ran demo_self [mkQFill 3 100 4 true; mkQFill 4 100 6 true] (mkMatchResult 2 1 (Some 10) true false) b'.
Proof. demo_evaluate. Qed.

Lemma demo_bid_ran : ∃ b', demo_ran demo_bid [] (mkMatchResult 0 0 (Some 7) false false) b'.
Proof. demo_evaluate. Qed.


Lemma match_price_time_priority_witness :
  ∃ new makers tail, fill_view <$> new = [mkQFill 3 100 4 true; mkQFill 4 100 3 false] ∧
    side_queue demo_book Ask = makers ++ tail ∧
    f_maker_order_id <$> new = q_id <$> makers ∧ f_price <$> new = q_price <$> makers.
Proof.
  destruct demo_taker_ran as (b' & ids' & fills' & stp' & Hrun & Hv).
  destruct (match_price_time_priority demo_book demo_taker demo_ids demo_book_ok ltac:(solve_fields)
    (demo_cap _) [] [] b' ids' fills' stp' _ Hrun) as (_ & new & makers & tail & Hf & Hq & Hid & Hp & _).
  exists new, makers, tail. rewrite app_nil_l in Hf. subst fills'. exact (conj Hv (conj Hq (conj Hid Hp))).
Defined.

Lemma match_conserves_quantity_witness :
  ∃ b' new cancels, fill_view <$> new = [mkQFill 3 100 4 true; mkQFill 4 100 6 true] ∧
    filled_qty new + 10 = 20 ∧
    queue_qty (side_queue demo_book Ask) =
      filled_qty new + queue_qty (side_queue b' Ask) + stp_cancelled_qty cancels.
Proof.
  destruct demo_self_ran as (b' & ids' & fills' & stp' & Hrun & Hv).
  destruct (match_conserves_quantity demo_book demo_self demo_ids demo_book_ok ltac:(solve_fields)
    (demo_cap _) [] [] b' ids' fills' stp' _ Hrun) as (new & cancels & Hf & _ & Hsum & Hside).
  exists b', new, cancels. rewrite app_nil_l in Hf. subst fills'. exact (conj Hv (conj Hsum Hside)).
Defined.


Lemma match_self_trade_prevention_witness :
  ∃ b' makers own tail, side_queue demo_book Ask = makers ++ own :: tail ∧ q_account own = 1 ∧
    Forall (tradable Bid (ao_price demo_self) 1) makers ∧ side_queue b' Ask = tail.
Proof.
  destruct demo_self_ran as (b' & ids' & fills' & stp' & Hrun & Hv).
  destruct (proj1 (match_self_trade_prevention demo_book demo_self demo_ids demo_book_ok ltac:(solve_fields)
    (demo_cap _) [] [] b' ids' fills' stp' _ Hrun) eq_refl) as (mk & own & tail & new & Hq & Hall & Ha & _ & _ & Ht & _).
  exists b', mk, own, tail. exact (conj Hq (conj Ha (conj Hall Ht))).
Defined.

Lemma demo_book_uncrossed : uncrossed demo_book.
Proof. intros pb pa. vm_compute. by intros [= <-] [= <-]. Qed.

Lemma match_and_rest_uncrossed_witness :
  ∃ b' b2 : Book FifoLevel, uncrossed b' ∧ uncrossed b2 ∧ best_bid b2 = Some 99.
Proof.
  destruct demo_bid_ran as (b' & ids' & fills' & stp' & Hrun & Hv).
  assert (Hadd : ∃ b2, add_resting b' (mkResting 12 9 Bid 99 7 Gtc) = (b2, Ok tt) ∧ best_bid b2 = Some 99).
  { vm_compute in Hrun. injection Hrun as <-. eexists. vm_compute. done. }
  destruct Hadd as (b2 & Hadd & Hbest). exists b', b2.
  destruct (match_and_rest_uncrossed demo_book demo_bid demo_ids demo_book_ok ltac:(solve_fields)
    (demo_cap _) [] [] b' ids' fills' stp' _ Hrun 99 7 b2 demo_book_uncrossed eq_refl eq_refl eq_refl eq_refl
    ltac:(solve_fields) Hadd) as [Hu1 Hu2]. exact (conj Hu1 (conj Hu2 Hbest)).
Defined.

Lemma match_terminates_witness :
  match_aggressive demo_book demo_taker demo_ids [] [] ≠ Diverge.
Proof.
  apply (match_terminates demo_book demo_taker demo_ids [] []); [apply demo_book_ok|solve_fields|].
  intros [t q]. simpl. by destruct (checked_add u64_max t 1).
Defined.

Lemma add_resting_refines_witness :
  add_post demo_book (demo_order 6 4 Ask 100 2) (rest demo_book (demo_order 6 4 Ask 100 2)).
Proof.
  pose proof (add_resting_refines demo_book (demo_order 6 4 Ask 100 2) demo_book_ok ltac:(solve_fields)) as H.
  unfold rest. destruct (add_resting demo_book (demo_order 6 4 Ask 100 2)) as [b' [u|e]] eqn:E; [exact H|].
  exfalso. vm_compute in E. discriminate E.
Defined.

Lemma cancel_refines_witness :
  ∃ b', cancel demo_book 3 = (b', Ok (Ask, 100)) ∧ cancel_post demo_book 3 b'.
Proof.
  pose proof (cancel_refines demo_book 3 demo_book_ok) as H.
  destruct (cancel demo_book 3) as [b' [[s p]|e]] eqn:E.
  - exists b'. vm_compute in E. injection E as <- <- <-. split; [reflexivity|apply H].
  - exfalso. vm_compute in E. discriminate E.
Defined.

Lemma add_then_cancel_witness :
  ∃ b2, cancel (rest demo_book (demo_order 6 4 Ask 100 2)) 6 = (b2, Ok (Ask, 100)) ∧
    (∀ s, side_queue b2 s = side_queue demo_book s).
Proof.
  destruct (add_then_cancel demo_book (demo_order 6 4 Ask 100 2) (rest demo_book (demo_order 6 4 Ask 100 2)))
    as (b2 & Hc & _ & Hq & _); [apply demo_book_ok|solve_fields|vm_compute; reflexivity|].
  exists b2. exact (conj Hc Hq).
Defined.

Lemma mass_cancel_refines_witness :
  ∃ b' out n, mass_post demo_book 1 [] b' out n ∧ mc_order_id <$> out = [1; 2; 5] ∧ n = 3.
Proof.
  pose proof (mass_cancel_refines demo_book 1 [] demo_book_ok) as H.
  destruct (mass_cancel demo_book 1 []) as [[b' out] n] eqn:E. exists b', out, n. split; [exact H|].
  vm_compute in E. injection E as _ <- <-. split; reflexivity.
Defined.

Lemma queries_agree_witness :
  best_bid demo_book = Some 98 ∧ qty_at_level demo_book Ask 100 = 10 ∧
  queue_qty (filter (λ q, q_price q = 100) (side_queue demo_book Ask)) = 10.
Proof.
  destruct (queries_agree demo_book demo_book_ok) as (Hb & _ & Hq & _). rewrite <-Hq, Hb.
  vm_compute. done.
Defined.

Lemma demo_replace_cap id m :
  index demo_book !! id = Some m → (length (side_queue demo_book (Side_opposite (om_side m))) <= id_cap demo_ids)%nat.
Proof. intros _. apply demo_cap. Qed.

(** Order 1 moves from 98 to 100 and trades. *)
Lemma replace_refines_witness :
  ∃ b' ids' fills' stp' r, replace demo_book 1 100 10 demo_ids [] [] = Ret (b', ids', fills', stp', r) ∧
    replace_post demo_book 1 100 10 demo_ids [] [] b' ids' fills' stp' r.
Proof.
  apply (replace_refines demo_book 1 100 10 demo_ids [] []);
    [apply demo_book_ok|solve_fields|solve_fields|apply demo_replace_cap].
Defined.

(** Order 3 shrinks from 4 to 2 ahead of order 4. *)
Lemma replace_keeps_priority_witness :
  ∃ b', (∀ s, q_id <$> side_queue b' s = q_id <$> side_queue demo_book s) ∧ resting_qty b' 3 = Some 2.
Proof.
  destruct (replace demo_book 3 100 2 demo_ids [] []) as [[[[[b' ids'] fills'] stp'] r]| |] eqn:E;
    [|exfalso; vm_compute in E; discriminate E..].
  destruct (replace_keeps_priority demo_book 3 100 2 demo_ids [] [] demo_book_ok ltac:(solve_fields)
    ltac:(solve_fields) (demo_replace_cap 3) (mkMeta Ask 100 2 Gtc) (mkQ 3 2 100 4) b' ids' fills' stp' r)
    as (_ & _ & Hq & Hr & _); try (vm_compute; reflexivity); [|vm_compute; discriminate|exact E|].
  - apply list_elem_of_In. vm_compute. by left.
  - exists b'. exact (conj Hq Hr).
Defined.
