(* ===== verification/RiskProps.v ===== *)
(** * RiskProps: what the pre-trade checks promise *)

From S2P Require Import Prelude BTree Domain PriceLevel FifoLevel Book BookSpec BookInv BookMatch BookOps BookReplace Messages Ids Risk Engine EngineInv Demo.

(** Counters within their machine widths and a valid reference price. *)
Definition risk_ok (r : RiskState) : Prop :=
  (∀ a, 0 <= open_orders (acct r a) <= u32_max ∧ 0 <= notional (acct r a) <= u128_max) ∧
  (∀ p, last_trade_price r = Some p → price_ok p).

(** The price an order is checked at. *)
Definition effective_price (msg : NewOrder) (best_opposite : option Price) : option Price :=
  match no_order_type msg with Limit => no_price msg | Market => best_opposite end.

(** Within [PRICE_BAND_BPS] basis points of the last trade, exactly. *)
Definition in_band (p : Price) (last : option Price) : Prop :=
  ∀ reference, last = Some reference → Z.abs (p - reference) * 10000 <= reference * PRICE_BAND_BPS.

Definition within_limits (r : RiskState) (a : AccountId) (p : Price) (q : Qty) : Prop :=
  open_orders (acct r a) + 1 <= MAX_OPEN_ORDERS_PER_ACCT ∧
  notional (acct r a) + p * q <= MAX_NOTIONAL_PER_ACCT.

Lemma check_price_band_ok p last :
  price_ok p → (∀ l, last = Some l → price_ok l) →
  match check_price_band p last with Ok _ => in_band p last | Err e => e = PriceBand ∧ ¬ in_band p last end.
Proof.
  intros Hp Hl. unfold check_price_band, in_band. destruct last as [l|]; [|done].
  specialize (Hl l eq_refl). apply price_ok_pos in Hp, Hl. unfold i64_max in *.
  unfold checked_mul, i64_as_u128, wrap_u128. rewrite (Z.mod_small l) by lia.
  rewrite decide_True by (unfold u128_max; lia). simpl.
  rewrite decide_True by (unfold u128_max, PRICE_BAND_BPS; lia). simpl.
  destruct (Z.ltb_spec (l * PRICE_BAND_BPS) (Z.abs (p - l) * 10000)); simpl.
  - split; [done|]. intros Hb. specialize (Hb l eq_refl). lia.
  - intros ? [= <-]. done.
Qed.

Lemma check_account_limits_ok r a p q :
  risk_ok r → price_ok p → qty_ok q →
  match check_account_limits r a p q with
  | Ok _ => within_limits r a p q
  | Err MaxOpenOrders => MAX_OPEN_ORDERS_PER_ACCT < open_orders (acct r a) + 1
  | Err MaxNotional => open_orders (acct r a) + 1 <= MAX_OPEN_ORDERS_PER_ACCT ∧
      MAX_NOTIONAL_PER_ACCT < notional (acct r a) + p * q
  | Err _ => False
  end.
Proof.
  intros [Hr _] Hp Hq. destruct (Hr a) as [Ho Hn]. unfold check_account_limits, within_limits.
  fold (acct r a). rewrite notional_of_exact by done. apply price_ok_pos in Hp. apply qty_ok_pos in Hq.
  unfold checked_add, MAX_OPEN_ORDERS_PER_ACCT, MAX_NOTIONAL_PER_ACCT, u32_max, u128_max in *.
  case_decide; simpl; [|lia].
  destruct (Z.ltb_spec 1000 (open_orders (acct r a) + 1)); simpl; [done|].
  case_decide; simpl; [|nia]. destruct (Z.ltb_spec 10000000000 (notional (acct r a) + p * q)); simpl; lia.
Qed.

Lemma effective_price_ok msg best p :
  new_order_ok msg → (∀ l, best = Some l → price_ok l) → effective_price msg best = Some p → price_ok p.
Proof.
  intros (_ & _ & _ & Hp) Hb. unfold effective_price. destruct (no_order_type msg); [|apply Hb].
  destruct Hp as (p' & -> & Hp'). by intros [= <-].
Qed.

(** C12. A new order passes the risk gate exactly when the kill switch is off, it
    has a price to be checked at, that price is within the band around the last
    trade, and one more open order and its notional stay within the account's
    limits; no step of the computation overflows. *)
Theorem check_new_order_accepts r msg best :
  risk_ok r → new_order_ok msg → (∀ p, best = Some p → price_ok p) →
  check_new_order r msg best = Ok tt ↔
  kill_switch r = false ∧ ∃ p, effective_price msg best = Some p ∧
    in_band p (last_trade_price r) ∧ within_limits r (no_account_id msg) p (no_qty msg).
Proof.
  intros Hr Hm Hb. pose proof Hm as (_ & _ & Hq & _). unfold check_new_order.
  destruct (kill_switch r); [split; [done|by intros [? _]]|].
  assert (Heff : (match no_order_type msg with
    | Limit => ok_or (no_price msg) MalformedMessage | Market => ok_or best MarketOrderInEmptyBook end) =
    ok_or (effective_price msg best) (match no_order_type msg with Limit => MalformedMessage | Market => MarketOrderInEmptyBook end)).
  { unfold effective_price. by destruct (no_order_type msg). }
  rewrite Heff. destruct (effective_price msg best) as [p|] eqn:He; simpl; [|split; [done|by intros (_ & ? & ? & _)]].
  pose proof (effective_price_ok msg best p Hm Hb He) as Hp.
  pose proof (check_price_band_ok p (last_trade_price r) Hp (proj2 Hr)) as Hband.
  destruct (check_price_band p (last_trade_price r)) as [u|e]; simpl; [|split; [done|]].
  2: { intros (_ & ? & [= <-] & ? & _). by destruct Hband. }
  pose proof (check_account_limits_ok r (no_account_id msg) p (no_qty msg) Hr Hp Hq) as Hlim.
  destruct (check_account_limits r (no_account_id msg) p (no_qty msg)) as [[]|e].
  - split; [|done]. intros _. split; [done|]. eauto.
  - split; [done|]. intros (_ & ? & [= <-] & _ & Hw). unfold within_limits in Hw. by destruct e; try lia.
Qed.

(** C13. Each rejection names the first check that failed. *)
Theorem check_new_order_reason r msg best reason :
  risk_ok r → new_order_ok msg → (∀ p, best = Some p → price_ok p) →
  check_new_order r msg best = Err reason →
  match reason with
  | KillSwitched => kill_switch r = true
  | MarketOrderInEmptyBook => kill_switch r = false ∧ no_order_type msg = Market ∧ best = None
  | PriceBand => kill_switch r = false ∧
      ∃ p, effective_price msg best = Some p ∧ ¬ in_band p (last_trade_price r)
  | MaxOpenOrders => ∃ p, effective_price msg best = Some p ∧ in_band p (last_trade_price r) ∧
      MAX_OPEN_ORDERS_PER_ACCT < open_orders (acct r (no_account_id msg)) + 1
  | MaxNotional => ∃ p, effective_price msg best = Some p ∧ in_band p (last_trade_price r) ∧
      open_orders (acct r (no_account_id msg)) + 1 <= MAX_OPEN_ORDERS_PER_ACCT ∧
      MAX_NOTIONAL_PER_ACCT < notional (acct r (no_account_id msg)) + p * no_qty msg
  | _ => False
  end.
Proof.
  intros Hr Hm Hb. pose proof Hm as (_ & _ & Hq & Hpr). unfold check_new_order.
  destruct (kill_switch r); [by intros [= <-]|].
  assert (Hcont : ∀ p, effective_price msg best = Some p →
    (let? _ := check_price_band p (last_trade_price r) in
     check_account_limits r (no_account_id msg) p (no_qty msg)) = Err reason →
    match reason with
    | PriceBand => ¬ in_band p (last_trade_price r)
    | MaxOpenOrders => in_band p (last_trade_price r) ∧
        MAX_OPEN_ORDERS_PER_ACCT < open_orders (acct r (no_account_id msg)) + 1
    | MaxNotional => in_band p (last_trade_price r) ∧
        open_orders (acct r (no_account_id msg)) + 1 <= MAX_OPEN_ORDERS_PER_ACCT ∧
        MAX_NOTIONAL_PER_ACCT < notional (acct r (no_account_id msg)) + p * no_qty msg
    | _ => False
    end).
  { intros p He. pose proof (effective_price_ok msg best p Hm Hb He) as Hp.
    pose proof (check_price_band_ok p (last_trade_price r) Hp (proj2 Hr)) as Hband.
    destruct (check_price_band p (last_trade_price r)) as [u|e]; simpl.
    - intros Hl. pose proof (check_account_limits_ok r (no_account_id msg) p (no_qty msg) Hr Hp Hq) as Hlim.
      rewrite Hl in Hlim. by destruct reason.
    - intros [= <-]. by destruct Hband as [-> ?]. }
  unfold effective_price in *. destruct (no_order_type msg).
  - destruct Hpr as (p & Hp & _). rewrite Hp. simpl. intros Hc. rewrite Hp in Hcont.
    specialize (Hcont p eq_refl Hc). destruct reason; try done; naive_solver.
  - destruct best as [p|]; simpl; [|by intros [= <-]]. intros Hc. specialize (Hcont p eq_refl Hc).
    destruct reason; try done; naive_solver.
Qed.

(** Accounting for a resting order and removing it again restores every
    account's counters; a refused order leaves them unchanged. *)
Theorem resting_then_removed r a n a' :
  risk_ok r → 0 <= n →
  match on_order_resting r a n with
  | (r', Ok _) => acct (on_order_removed r' a n) a' = acct r a' ∧
      notional (acct r' a) = notional (acct r a) + n ∧ notional (acct r' a) <= MAX_NOTIONAL_PER_ACCT
  | (r', Err _) => acct r' a' = acct r a'
  end.
Proof.
  intros [Hr _] Hn. destruct (on_order_resting r a n) as [r' [u|e]] eqn:E.
  2: by eapply acct_on_order_resting_err.
  pose proof (acct_on_order_resting_ok r a n r' u a E) as (Ha & Hcap & _). rewrite Z.eqb_refl in Ha.
  pose proof (acct_on_order_resting_ok r a n r' u a' E) as (Ha' & _).
  destruct (Hr a) as [Ho Hno].
  destruct (acct_on_order_removed r' a n a') as [H1 H2]; [rewrite Ha; simpl; lia..|].
  rewrite Ha in *. simpl in *. split; [|lia].
  assert (Hx : ∀ x y, open_orders x = open_orders y → notional x = notional y → x = y)
    by (intros [] []; simpl; congruence).
  apply Hx; rewrite ?H1, ?H2, Ha'; destruct (Z.eqb_spec a' a) as [->|]; simpl; lia.
Qed.

(** ** The theorems at concrete inputs *)

Definition demo_risk : RiskState := mkRiskState false {[ 7 := mkAccountState 999 100 ]} (Some 100).
Definition demo_msg (p q : Z) : NewOrder := mkNewOrder 0 1 7 Bid Limit Gtc (Some p) q.

Lemma demo_risk_ok : risk_ok demo_risk.
Proof.
  split.
  - intros a. unfold acct, demo_risk. simpl. destruct (decide (a = 7)) as [->|];
      [rewrite lookup_singleton_eq|rewrite lookup_singleton_ne by done]; vm_compute; done.
  - intros p [= <-]. solve_fields.
Qed.

Lemma demo_msg_ok p q : price_ok p → qty_ok q → new_order_ok (demo_msg p q).
Proof. intros Hp Hq. split_and!; [by vm_compute..|done|]. simpl. eauto. Qed.

Lemma check_new_order_accepts_witness : check_new_order demo_risk (demo_msg 105 10) None = Ok tt.
Proof.
  apply (check_new_order_accepts demo_risk (demo_msg 105 10) None demo_risk_ok
    (demo_msg_ok 105 10 ltac:(solve_fields) ltac:(solve_fields)) ltac:(done)).
  split; [done|]. exists 105. split; [done|]. split.
  - intros l [= <-]. vm_compute. done.
  - split; vm_compute; done.
Defined.

Lemma check_new_order_reason_witness : ¬ in_band 106 (Some 100).
Proof.
  destruct (check_new_order_reason demo_risk (demo_msg 106 10) None PriceBand demo_risk_ok
    (demo_msg_ok 106 10 ltac:(solve_fields) ltac:(solve_fields)) ltac:(done) ltac:(vm_compute; reflexivity))
    as (_ & p & [= <-] & Hn). exact Hn.
Defined.

Lemma resting_then_removed_witness :
  acct (on_order_removed (on_order_resting demo_risk 7 50).1 7 50) 7 = mkAccountState 999 100.
Proof.
  pose proof (resting_then_removed demo_risk 7 50 7 demo_risk_ok ltac:(done)) as H.
  destruct (on_order_resting demo_risk 7 50) as [r' [u|e]] eqn:E;
    [|exfalso; vm_compute in E; discriminate E].
  destruct H as [H _]. cbn [fst]. rewrite H. vm_compute. reflexivity.
Defined.
