(* ===== verification/EngineProps.v ===== *)
(** * EngineProps: what the engine promises

    Invariants of a session, the outbound stream, the level-2 feed, the gates
    (kill switch, ownership) and the time-in-force rules. *)

From S2P Require Import Prelude BTree Domain PriceLevel FifoLevel Book BookSpec BookInv BookMatch BookOps BookReplace Messages Ids Risk Engine EngineInv EngineFills EngineOrders EngineStep EngineL2 EngineRun EngineBounds EngineFeed EngineAnswers EngineFaults IntegrationTests EngineSnapshot Demo.

(** ** What a returning computation does, whatever it may panic on *)

Definition returns {A} (o : outcome A) (Q : A → Prop) : Prop := ∀ a, o = Ret a → Q a.

Lemma returns_bind {A B} (o : outcome A) (k : A → outcome B) Q :
  returns o (λ a, returns (k a) Q) → returns (outcome_bind o k) Q.
Proof. intros H b Hb. destruct o as [a| |]; [|discriminate Hb..]. exact (H a eq_refl b Hb). Qed.

Lemma returns_ret {A} (a : A) Q : Q a → returns (Ret a) Q.
Proof. by intros H a' [= <-]. Qed.

Lemma returns_mono {A} (o : outcome A) (Q Q' : A → Prop) :
  returns o Q → (∀ a, Q a → Q' a) → returns o Q'.
Proof. intros H HQ a Ha. apply HQ, H, Ha. Qed.

Section BookKept.
Context {L C I Snk : Type} `{!PriceLevelOps L} `{!Clock C} `{!IdGenerator I} `{!OutboundSink Snk}.
Local Abbreviation Eng := (Engine L C I Snk).
Implicit Types (e : Eng).

Definition keeps_book e (e' : Eng) : Prop := e_book e' = e_book e.

Lemma emit_keeps_book e mk : returns (emit_with e mk) (keeps_book e).
Proof.
  unfold emit_with. apply returns_bind. intros [s ids] _. destruct (now (e_clock e)). by apply returns_ret.
Qed.

Lemma settle_keeps_book e f : keeps_book e (settle_maker e f).
Proof.
  unfold settle_maker, keeps_book. simpl. destruct (e_registry e !! f_maker_order_id f); [|done].
  by destruct (f_maker_fully_filled f).
Qed.

Lemma unregister_keeps_book e id : keeps_book e (unregister e id).
Proof. unfold unregister, keeps_book. by destruct (e_registry e !! id). Qed.

Lemma fills_keep_book e tid taid n ts : returns (emit_fills_for_taker e tid taid n ts) (keeps_book e).
Proof.
  unfold emit_fills_for_taker. apply returns_bind. generalize (e_fills_buf e) as fs. intros fs.
  eapply (returns_mono _ (λ st, keeps_book e st.1)).
  2: { intros [e' r] H. by apply returns_ret. }
  revert e n. induction fs as [|f fs IH]; intros e n; [by apply returns_ret|]. cbn [emit_fills_loop].
  apply returns_bind. eapply (returns_mono _ (λ st, keeps_book e st.1)).
  - unfold emit_one_fill. do 3 (apply returns_bind; eapply returns_mono; [apply emit_keeps_book|]; intros ? ?).
    apply returns_ret. simpl. unfold keeps_book in *. rewrite settle_keeps_book. congruence.
  - intros [e1 r1] H1. simpl in H1. eapply returns_mono; [apply IH|]. unfold keeps_book. intros st. simpl. congruence.
Qed.

Lemma stp_keeps_book e ts : returns (emit_stp_cancels e ts) (keeps_book e).
Proof.
  unfold emit_stp_cancels. generalize (e_stp_buf e) as cs. intros cs. revert e.
  induction cs as [|c cs IH]; intros e; [by apply returns_ret|]. cbn [emit_stp_loop]. apply returns_bind.
  eapply returns_mono; [apply emit_keeps_book|]. intros e1 H1. eapply returns_mono; [apply IH|].
  unfold keeps_book in *. intros e2. rewrite unregister_keeps_book. congruence.
Qed.

End BookKept.

Section Properties.
Context {L C I Snk : Type} `{!PriceLevelOps L} `{!PriceLevelLaws L} `{!SnapshotSucceeds L}
  `{!Clock C} `{!IdGenerator I} `{!IdGeneratorLaws I} `{!OutboundSink Snk}.
Local Abbreviation Eng := (Engine L C I Snk).
Implicit Types (e : Eng).

(** C14. One step of the engine, in a state that satisfies the invariant, returns under
    three conditions: the command's fields are valid; the id source still has the ids a
    step can spend ([step_budget]: six for each resting order and six more); and, when the command is a replace that passes the risk gate, the
    arrival counter and the total of its level have room for the residual
    ([replace_room]).  Then no [expect] fails and no loop runs away; the invariant holds
    again, the book grew by at most one order, and the messages of the step are
    well-formed, are appended to the sink in order and continue the sequence without a
    gap.  Every state within 2^27 commands of a fresh engine meets the last two
    conditions ([fresh_run_ready], used by C15 to C18). *)
Theorem step_preserves_invariant e msg :
  einv e → step_ready e msg → (step_budget e <= id_cap (e_ids e))%nat →
  ∃ e' outs, step e msg = Ret e' ∧ einv e' ∧ (order_total e' <= S (order_total e))%nat ∧
    e_sink e' = foldl emit (e_sink e) outs ∧ Forall outbound_ok outs ∧
    outbound_seq <$> outs = seqZ (seq_mark (e_ids e)) (Z.of_nat (length outs)).
Proof.
  intros Hi Hr Hc. destruct (proj1 (wp_total _ _) (step_ok e msg Hi Hr Hc)) as (e' & He & outs & [? [? _] [] ?]).
  exists e', outs. by split_and!.
Qed.

(** A session whose every command is taken in a state ready for it. *)
Lemma ready_books_agree clock ids sink msgs :
  run_ready (engine_new clock ids sink : Eng) msgs →
  ∃ e', run (engine_new clock ids sink) msgs = Ret e' ∧ uncrossed (e_book e') ∧
    (∀ id ent, e_registry e' !! id = Some ent ↔
       ∃ so, so ∈ book_orders (e_book e') ∧ q_id so.2 = id ∧ ent = entry_of so) ∧
    (∀ a, notional (acct (e_risk e') a) = exposure a (book_orders (e_book e')) ∧
          exposure a (book_orders (e_book e')) <= MAX_NOTIONAL_PER_ACCT).
Proof.
  intros Hr. destruct (proj1 (wp_total _ _) (run_ok _ _ (engine_new_inv clock ids sink) Hr))
    as (e' & He & [_ Hu Hm _] & _).
  exists e'. split_and!; [done|done|apply Hm|].
  intros a. pose proof (mi_notional _ _ _ Hm a) as Hn. split; [done|]. rewrite <-Hn. apply Hm.
Qed.

(** The outbound stream of a session is gap-free: the messages the sink
    received carry consecutive sequence numbers from the id source's first one,
    and each of them is well-formed. *)
Theorem session_stream_gap_free e msgs :
  einv e → run_ready e msgs →
  ∃ e' outs, run e msgs = Ret e' ∧ e_sink e' = foldl emit (e_sink e) outs ∧ Forall outbound_ok outs ∧
    outbound_seq <$> outs = seqZ (seq_mark (e_ids e)) (Z.of_nat (length outs)) ∧
    seq_mark (e_ids e') = seq_mark (e_ids e) + Z.of_nat (length outs).
Proof.
  intros Hi Hr. destruct (proj1 (wp_total _ _) (run_ok e msgs Hi Hr)) as (e' & He & _ & outs & k & [] & _).
  by exists e', outs.
Qed.

(** The level-2 feed of such a session, from its start or from a snapshot in it. *)
Lemma ready_l2_feed clock ids sink msgs :
  run_ready (engine_new clock ids sink : Eng) msgs →
  ∃ e' outs, run (engine_new clock ids sink) msgs = Ret e' ∧ e_sink e' = foldl emit sink outs ∧
    (∀ s p, default 0 (integration.apply_deltas outs ∅ !! (s, p)) =
       queue_qty (filter (λ q, q_price q = p) (side_queue (e_book e') s))) ∧
    ∀ before req after, msgs = before ++ In_SnapshotRequest req :: after →
    ∃ missed snap deltas, e_sink e' = foldl emit sink (missed ++ Out_SnapshotResponse snap :: deltas) ∧
      sp_request_id snap = sr_request_id req ∧
      ∀ s p, default 0 (integration.apply_deltas deltas (integration.mirror_of snap) !! (s, p)) =
        queue_qty (filter (λ q, q_price q = p) (side_queue (e_book e') s)).
Proof.
  intros Hr. pose proof (engine_new_inv clock ids sink) as Hnew.
  destruct (proj1 (wp_total _ _) (run_ok _ _ Hnew Hr)) as (e' & He & [Hok _ _ _] & outs & k & [Hs _ _ _ _] & Hl2).
  exists e', outs. split_and!; [done|done| |].
  - intros s p. rewrite apply_deltas_l2. unfold level_map in Hl2 at 1. simpl in Hl2. rewrite Hl2. by apply level_map_queue.
  - intros before req after ->. destruct (run_recovers _ before req after Hnew Hr) as (e2 & missed & snap & deltas & He2 & Hs2 & Hid & Hd).
    replace e' with e2 in * by congruence. exists missed, snap, deltas. split_and!; [done|done|].
    intros s p. rewrite Hd. by apply level_map_queue.
Qed.

(** One [Rejected] report and nothing else. *)
Definition rejected_with e (e' : Eng) (oid : OrderId) (aid : AccountId) (reason : RejectReason) (ts : RecvTs) : Prop :=
  same_core e e' ∧ ∃ emit_ts, e_sink e' = emit (e_sink e) (Out_ExecReport
    (mkExecReport (seq_mark (e_ids e)) oid aid Rejected None None None (Some reason) None ts emit_ts)).

Lemma emit_rejected_with e oid aid reason ts :
  (0 < id_cap (e_ids e))%nat →
  ∃ e', emit_rejected e oid aid reason ts = Ret e' ∧ rejected_with e e' oid aid reason ts.
Proof.
  intros Hc. apply wp_total. eapply wp_conseq; [apply (emit_with_ok (λ _, True) e); [done|by intros]|].
  intros e' [Hs [ts' [Hsink _ _ _ _]]]. split; [done|]. by exists ts'.
Qed.

(** The commands the kill switch blocks, with the ids of their rejection. *)
Definition blocked_as (msg : Inbound) : option (OrderId * AccountId) :=
  match msg with
  | In_NewOrder m => Some (no_order_id m, no_account_id m)
  | In_CancelOrder m => Some (co_order_id m, co_account_id m)
  | In_CancelReplace m => Some (cr_order_id m, cr_account_id m)
  | In_MassCancel m => Some (1, mcl_account_id m)
  | In_KillSwitchSet _ | In_SnapshotRequest _ => None
  end.

(** C19. With the kill switch engaged every order command is answered by one
    [KillSwitched] rejection and leaves the book, the registry, the risk state
    and the buffers as they were. *)
Theorem kill_switch_blocks e msg ts oid aid :
  kill_switch (e_risk e) = true → blocked_as msg = Some (oid, aid) → (0 < id_cap (e_ids e))%nat →
  ∃ e', handle e msg ts = Ret e' ∧ rejected_with e e' oid aid KillSwitched ts.
Proof.
  intros Hk Hb Hc. pose proof (emit_rejected_with e oid aid KillSwitched ts Hc) as Hr.
  destruct msg as [m|m|m|m|m|m]; try discriminate Hb; injection Hb as <- <-; simpl;
    unfold handle_new_order, handle_cancel_order, handle_cancel_replace, handle_mass_cancel,
      check_new_order, check_cancel, check_cancel_replace, check_mass_cancel; by rewrite Hk.
Qed.

(** C20. An order is out of reach of other accounts: cancelling or replacing an
    order registered to another account is answered by one rejection and changes
    nothing. *)
Theorem foreign_order_protected e msg ts oid aid ent :
  (∃ m, msg = In_CancelOrder m ∧ co_order_id m = oid ∧ co_account_id m = aid) ∨
  (∃ m, msg = In_CancelReplace m ∧ cr_order_id m = oid ∧ cr_account_id m = aid) →
  e_registry e !! oid = Some ent → re_account_id ent ≠ aid → (0 < id_cap (e_ids e))%nat →
  ∃ e' reason, handle e msg ts = Ret e' ∧ rejected_with e e' oid aid reason ts.
Proof.
  intros Hmsg Hreg Hne Hc. apply Z.eqb_neq in Hne.
  assert (Hr : ∀ reason, ∃ e' reason', emit_rejected e oid aid reason ts = Ret e' ∧
    rejected_with e e' oid aid reason' ts).
  { intros reason. destruct (emit_rejected_with e oid aid reason ts Hc) as (e' & ? & ?). eauto. }
  destruct Hmsg as [(m & -> & <- & <-)|(m & -> & <- & <-)]; simpl.
  - unfold handle_cancel_order. destruct (check_cancel (e_risk e) m); [|apply Hr].
    destruct (is_kill_switched (e_risk e)); [apply Hr|]. rewrite Hreg. simpl. rewrite Hne. apply Hr.
  - unfold handle_cancel_replace. destruct (check_cancel_replace (e_risk e) m); [|apply Hr].
    destruct (is_kill_switched (e_risk e)); [apply Hr|]. rewrite Hreg. simpl. rewrite Hne. apply Hr.
Qed.

(** C21. An immediate-or-cancel or market order never rests: after it is handled
    the book holds no order it did not hold before. *)
Theorem ioc_never_rests e msg ts :
  einv e → new_order_ok msg → no_tif msg = Ioc ∨ no_order_type msg = Market →
  (handler_budget e <= id_cap (e_ids e))%nat →
  ∃ e', handle_new_order e msg ts = Ret e' ∧ index (e_book e') ⊆ index (e_book e).
Proof.
  intros Hi Hm Htif Hc. unfold handler_budget in Hc.
  destruct (proj1 (wp_total _ _) (handle_new_order_ok e msg ts Hi Hm ltac:(lia))) as (e' & He & _).
  exists e'. split; [done|]. revert e' He.
  assert (Hemit : ∀ e1 mk, index (e_book e1) ⊆ index (e_book e) →
    returns (emit_with e1 mk) (λ e', index (e_book e') ⊆ index (e_book e))).
  { intros e1 mk H1. eapply returns_mono; [apply emit_keeps_book|]. unfold keeps_book. by intros ? ->. }
  change (returns (handle_new_order e msg ts) (λ e', index (e_book e') ⊆ index (e_book e))).
  unfold handle_new_order. destruct (check_new_order _ _ _); [|by apply Hemit].
  destruct (is_kill_switched _); [by apply Hemit|]. apply returns_bind.
  intros [[[[b1 ids1] fills1] stp1] res] Hrun.
  assert (Hidx : index b1 ⊆ index (e_book e)).
  { set (t := mkAggressive _ _ _ _ _ _) in *.
    pose proof (length_book_orders (e_book e) (no_side msg)) as Hlen. unfold order_total in Hc.
    pose proof (match_aggressive_ok False (λ i n, (n <= id_cap i)%nat) (λ i n, next_trade_cap i n) (e_book e)
      t (e_ids e) [] [] (ei_book _ Hi) (proj1 (proj2 (proj2 Hm))) ltac:(simpl; lia)) as Hwp.
    apply (wp_ret_inv _ _ _ _ Hwp) in Hrun as [Hp _]. apply Hp. }
  destruct (mr_taker_post_only_rejected res); [by apply Hemit|].
  apply returns_bind. eapply returns_mono; [apply fills_keep_book|]. intros e2 H2.
  apply returns_bind. eapply returns_mono; [apply stp_keeps_book|]. intros e3 H3.
  assert (H3' : index (e_book e3) ⊆ index (e_book e)) by (unfold keeps_book in *; by rewrite H3, H2).
  destruct (mr_taker_stp_cancelled res); [by apply Hemit|].
  destruct (mr_taker_remaining res) as [rem|]; [|by apply returns_ret].
  destruct Hm as (_ & _ & _ & Hp). destruct Htif as [->|Hmk]; [by apply Hemit|]. rewrite Hmk in Hp. rewrite Hp.
  by destruct (no_tif msg); apply Hemit.
Qed.

(** C22. A snapshot is the whole depth of the book: one level per price of a
    side, best price first and none dropped, each with the total resting at its
    price; answering it changes nothing but the clock, the sequence and the sink. *)
Theorem snapshot_is_complete e msg ts :
  book_ok (e_book e) → (0 < id_cap (e_ids e))%nat →
  ∃ e' emit_ts bs sells, handle e (In_SnapshotRequest msg) ts = Ret e' ∧ same_core e e' ∧
    e_sink e' = emit (e_sink e) (Out_SnapshotResponse
      (mkSnapshotResponse (seq_mark (e_ids e)) (sr_request_id msg) ts emit_ts bs sells)) ∧
    sl_price <$> bs = reverse (bids (e_book e)).*1 ∧ sl_price <$> sells = (asks (e_book e)).*1 ∧
    ∀ s l, l ∈ match s with Bid => bs | Ask => sells end →
      sl_qty l = queue_qty (filter (λ q, q_price q = sl_price l) (side_queue (e_book e) s)).
Proof.
  intros Hok Hc. destruct (snapshot_answer e msg ts Hok Hc) as (e' & ets & He & Hs & Hsink).
  exists e', ets. do 2 eexists. split_and!; [exact He|done|exact Hsink|..].
  - unfold depth_of. rewrite <-list_fmap_compose. simpl. unfold bid_levels. by rewrite <-list_fmap_compose, fmap_reverse.
  - unfold depth_of. rewrite <-list_fmap_compose. simpl. unfold ask_levels. by rewrite <-list_fmap_compose.
  - intros s l Hl. assert (Hin : (sl_price l, sl_qty l) ∈ side_depth (e_book e) s).
    { destruct s; apply list_elem_of_fmap in Hl as ([p n] & -> & Hin); done. }
    by apply side_depth_total.
Qed.

(** [KillSwitchSet] sets the switch to the state it carries, whatever its
    token is; no message is emitted and nothing else changes. *)
Theorem kill_switch_set_effect e msg ts :
  ∃ e', handle e (In_KillSwitchSet msg) ts = Ret e' ∧
    kill_switch (e_risk e') = bool_decide (ks_state msg = Halt) ∧
    per_account (e_risk e') = per_account (e_risk e) ∧ e_book e' = e_book e ∧
    e_registry e' = e_registry e ∧ e_sink e' = e_sink e ∧ e_ids e' = e_ids e.
Proof. eexists. split; [done|]. simpl. by destruct (ks_state msg). Qed.

(** C23. A partial fill lowers the open-order counter of an order that keeps resting.
    In every state that satisfies the invariant, take an accepted order, not post-only,
    whose best opposite order is of another account, within its limit and larger than
    it: the handler returns, that order keeps its place with the quantity that is left,
    so its account rests as many orders as before, and yet the account's [open_orders],
    which the limit on open orders is checked against, went down by one (not below
    zero).  The notional stays that of the resting orders. *)
Theorem partial_fill_undercounts_open_orders e n ts q tail :
  einv e → new_order_ok n → (handler_budget e <= id_cap (e_ids e))%nat →
  check_new_order (e_risk e) n (best_opposite e n) = Ok tt → no_tif n ≠ PostOnly →
  side_queue (e_book e) (Side_opposite (no_side n)) = q :: tail →
  tradable (no_side n) (no_price n) (no_account_id n) q → no_qty n < q_qty q →
  ∃ e', handle e (In_NewOrder n) ts = Ret e' ∧
    side_queue (e_book e') (Side_opposite (no_side n)) = q_with_qty q (q_qty q - no_qty n) :: tail ∧
    open_count (q_account q) (book_orders (e_book e')) = open_count (q_account q) (book_orders (e_book e)) ∧
    open_orders (acct (e_risk e') (q_account q)) = Z.max 0 (open_orders (acct (e_risk e) (q_account q)) - 1) ∧
    notional (acct (e_risk e') (q_account q)) = exposure (q_account q) (book_orders (e_book e')).
Proof.
  intros Hi Hn Hc Hchk Htif Hqu Htr Hlt. unfold handler_budget in Hc.
  destruct (proj1 (wp_total _ _) (handle_new_order_ok e n ts Hi Hn ltac:(lia))) as (e' & He & Hpost).
  pose proof (partial_fill_settled e n q tail ts Hi Hn ltac:(lia) Hchk Htif Hqu Htr Hlt) as Hf. rewrite He in Hf.
  destruct Hf as (Hopp & Hown & Hopen). exists e'. split_and!; [done..| |done|apply (ei_mirror _ (hp_inv _ _ _ Hpost))].
  rewrite !(book_orders_side _ (no_side n)), Hown, Hqu, Hopp. unfold open_count. by rewrite !foldr_app.
Qed.


End Properties.

Section FreshSessions.
Context {L C Snk : Type} `{!PriceLevelOps L} `{!PriceLevelLaws L} `{!SnapshotSucceeds L} `{!Clock C} `{!OutboundSink Snk}.
Context (clock : C) (sink : Snk).
Local Abbreviation fresh := (engine_new clock CounterIdGenerator_new sink : Engine L C CounterIdGenerator Snk).

(** C15. A session of at most 2^27 valid commands from a fresh engine returns, and at
    its end the market is not crossed, the registry holds exactly the resting orders
    with their account, side, quantity and notional, and the notional the risk layer
    counts for every account is that of its resting orders and within the limit. *)
Theorem session_books_agree msgs :
  Forall inbound_ok msgs → Z.of_nat (length msgs) <= MAX_SESSION →
  ∃ e', run fresh msgs = Ret e' ∧ uncrossed (e_book e') ∧
    (∀ id ent, e_registry e' !! id = Some ent ↔
       ∃ so, so ∈ book_orders (e_book e') ∧ q_id so.2 = id ∧ ent = entry_of so) ∧
    (∀ a, notional (acct (e_risk e') a) = exposure a (book_orders (e_book e')) ∧
          exposure a (book_orders (e_book e')) <= MAX_NOTIONAL_PER_ACCT).
Proof. intros Hok Hlen. by apply ready_books_agree, fresh_run_ready. Qed.

(** C17. The level-2 feed is complete.  In a session of at most 2^27 valid commands from
    a fresh engine, a subscriber that starts from nothing and applies every delta holds,
    for each side and price, the total quantity resting there, and nothing else.  So does
    one that joins late: wherever the session has a snapshot request, the answer to it
    carries its id, and the mirror that the recovery test builds from that answer and the
    deltas after it holds at the end of the session what rests in the book. *)
Theorem session_l2_feed msgs :
  Forall inbound_ok msgs → Z.of_nat (length msgs) <= MAX_SESSION →
  ∃ e' outs, run fresh msgs = Ret e' ∧ e_sink e' = foldl emit sink outs ∧
    (∀ s p, default 0 (integration.apply_deltas outs ∅ !! (s, p)) =
       queue_qty (filter (λ q, q_price q = p) (side_queue (e_book e') s))) ∧
    ∀ before req after, msgs = before ++ In_SnapshotRequest req :: after →
    ∃ missed snap deltas, e_sink e' = foldl emit sink (missed ++ Out_SnapshotResponse snap :: deltas) ∧
      sp_request_id snap = sr_request_id req ∧
      ∀ s p, default 0 (integration.apply_deltas deltas (integration.mirror_of snap) !! (s, p)) =
        queue_qty (filter (λ q, q_price q = p) (side_queue (e_book e') s)).
Proof. intros Hok Hlen. by apply ready_l2_feed, fresh_run_ready. Qed.

End FreshSessions.

(** ** The theorems at concrete inputs *)

(** Account 2 offers 4 at 100, account 3 buys 10 at 100 and keeps a remainder of 6
    resting, then moves it to 99. *)
Definition demo_session : list Inbound :=
  [demo_new 1 2 Ask 100 4 Gtc; demo_new 2 3 Bid 100 10 Gtc;
   In_CancelReplace (mkCancelReplace 0 2 3 99 5)].

Lemma replace_session_valid : Forall inbound_ok demo_session.
Proof. repeat constructor; try (apply demo_new_ok; solve_fields); solve_fields. Qed.

Lemma replace_session_short : Z.of_nat (length demo_session) <= MAX_SESSION.
Proof. vm_compute. discriminate. Qed.

Lemma demo_session_ready : run_ready demo_engine demo_session.
Proof. apply fresh_run_ready; [apply replace_session_valid|apply replace_session_short]. Qed.

Lemma step_preserves_invariant_witness :
  ∃ e' outs, step demo_engine (demo_new 1 2 Ask 100 4 Gtc) = Ret e' ∧ einv e' ∧
    outbound_seq <$> outs = seqZ 1 (Z.of_nat (length outs)).
Proof.
  destruct (step_preserves_invariant demo_engine (demo_new 1 2 Ask 100 4 Gtc)) as (e' & outs & He & Hi & _ & _ & _ & Hs).
  - apply demo_engine_inv.
  - split; [apply demo_new_ok; solve_fields|done].
  - apply counter_cap_ok. vm_compute. discriminate.
  - exists e', outs. exact (conj He (conj Hi Hs)).
Defined.

Lemma session_books_agree_witness :
  ∃ e', run demo_engine demo_session = Ret e' ∧ uncrossed (e_book e') ∧
    notional (acct (e_risk e') 3) = exposure 3 (book_orders (e_book e')).
Proof.
  destruct (session_books_agree (L := FifoLevel) (StubClock_new 7) VecSink_new demo_session replace_session_valid replace_session_short)
    as (e' & He & Hu & _ & Hn).
  exists e'. exact (conj He (conj Hu (proj1 (Hn 3)))).
Defined.

Lemma session_stream_gap_free_witness :
  ∃ e' outs, run demo_engine demo_session = Ret e' ∧ e_sink e' = foldl emit VecSink_new outs ∧
    outbound_seq <$> outs = seqZ 1 (Z.of_nat (length outs)).
Proof.
  destruct (session_stream_gap_free demo_engine demo_session demo_engine_inv demo_session_ready)
    as (e' & outs & He & Hs & _ & Hq & _).
  exists e', outs. exact (conj He (conj Hs Hq)).
Defined.

Lemma session_l2_feed_witness :
  ∃ e' outs, run demo_engine demo_session = Ret e' ∧
    default 0 (integration.apply_deltas outs ∅ !! (Bid, 99)) =
      queue_qty (filter (λ q, q_price q = 99) (side_queue (e_book e') Bid)).
Proof.
  destruct (session_l2_feed (L := FifoLevel) (StubClock_new 7) VecSink_new demo_session replace_session_valid replace_session_short)
    as (e' & outs & He & _ & Hl & _).
  exists e', outs. exact (conj He (Hl Bid 99)).
Defined.

(** The engine over [demo_book], with order 1 registered to account 1. *)
Definition demo_live (halted : bool) : DemoEngine :=
  mkEngine demo_book (mkRiskState halted ∅ None) (StubClock_new 7) CounterIdGenerator_new VecSink_new
    {[ 1 := mkEntry 1 Bid 10 980 ]} [] [] [] [] [].

Lemma demo_live_cap h : (0 < id_cap (e_ids (demo_live h)))%nat.
Proof. apply (counter_cap_ok 1). vm_compute. discriminate. Qed.

Lemma kill_switch_blocks_witness :
  ∃ e', handle (demo_live true) (In_MassCancel (mkMassCancel 0 1)) 5 = Ret e' ∧
    rejected_with (demo_live true) e' 1 1 KillSwitched 5.
Proof. exact (kill_switch_blocks (demo_live true) (In_MassCancel (mkMassCancel 0 1)) 5 1 1 eq_refl eq_refl (demo_live_cap true)). Defined.

Lemma foreign_order_protected_witness :
  ∃ e' reason, handle (demo_live false) (In_CancelOrder (mkCancelOrder 0 1 2)) 5 = Ret e' ∧
    rejected_with (demo_live false) e' 1 2 reason 5.
Proof.
  apply (foreign_order_protected (demo_live false) (In_CancelOrder (mkCancelOrder 0 1 2)) 5 1 2 (mkEntry 1 Bid 10 980)).
  - left. by exists (mkCancelOrder 0 1 2).
  - vm_compute. reflexivity.
  - discriminate.
  - apply demo_live_cap.
Defined.

Lemma ioc_never_rests_witness :
  ∃ e', handle_new_order demo_engine (mkNewOrder 0 1 2 Ask Limit Ioc (Some 100) 4) 5 = Ret e' ∧
    index (e_book e') ⊆ index (e_book demo_engine).
Proof.
  apply (ioc_never_rests demo_engine (mkNewOrder 0 1 2 Ask Limit Ioc (Some 100) 4) 5).
  - apply demo_engine_inv.
  - exact (demo_new_ok 1 2 Ask 100 4 Ioc ltac:(solve_fields) ltac:(solve_fields) ltac:(solve_fields) ltac:(solve_fields)).
  - by left.
  - apply counter_cap_ok. vm_compute. discriminate.
Defined.

Lemma snapshot_is_complete_witness :
  ∃ e' emit_ts bs sells, handle (demo_live false) (In_SnapshotRequest (mkSnapshotRequest 9)) 5 = Ret e' ∧
    e_sink e' = emit VecSink_new (Out_SnapshotResponse (mkSnapshotResponse 1 9 5 emit_ts bs sells)) ∧
    sl_price <$> bs = [98; 97] ∧ sl_price <$> sells = [100; 101].
Proof.
  destruct (snapshot_is_complete (demo_live false) (mkSnapshotRequest 9) 5 demo_book_ok (demo_live_cap false))
    as (e' & ets & bs & sells & He & _ & Hs & Hb & Ha & _).
  exists e', ets, bs, sells. split; [exact He|]. split; [exact Hs|]. rewrite Hb, Ha. vm_compute. done.
Defined.

(** ** Behaviours the documentation does not announce *)

(** Account 2 offers 4 at 100 and account 3 bids 5 at 99. *)
Definition demo_prelude : list Inbound := [demo_new 1 2 Ask 100 4 Gtc; demo_new 2 3 Bid 99 5 Gtc].

Lemma demo_prelude_ready : run_ready demo_engine demo_prelude.
Proof.
  apply fresh_run_ready; [|vm_compute; discriminate].
  repeat constructor; apply demo_new_ok; solve_fields.
Qed.

Definition demo_rested : DemoEngine := default demo_engine
  (match run demo_engine demo_prelude with Ret e => Some e | _ => None end).

Lemma demo_rested_inv : einv demo_rested.
Proof.
  destruct (proj1 (wp_total _ _) (run_ok _ _ demo_engine_inv demo_prelude_ready)) as (e' & He & Hi & _).
  unfold demo_rested. by rewrite He.
Qed.

Lemma partial_fill_undercounts_open_orders_witness :
  ∃ e', handle demo_rested (In_NewOrder (mkNewOrder 0 3 4 Bid Limit Gtc (Some 100) 1)) 5 = Ret e' ∧
    open_count 2 (book_orders (e_book e')) = 1 ∧ open_orders (acct (e_risk e') 2) = 0.
Proof.
  destruct (partial_fill_undercounts_open_orders demo_rested (mkNewOrder 0 3 4 Bid Limit Gtc (Some 100) 1) 5
    (mkQ 1 2 100 4) []) as (e' & He & _ & Hn & Ho & _).
  - apply demo_rested_inv.
  - exact (demo_new_ok 3 4 Bid 100 1 Gtc ltac:(solve_fields) ltac:(solve_fields) ltac:(solve_fields) ltac:(solve_fields)).
  - apply counter_cap_ok. vm_compute. discriminate.
  - vm_compute. reflexivity.
  - discriminate.
  - vm_compute. reflexivity.
  - vm_compute. split; [discriminate|reflexivity].
  - reflexivity.
  - exists e'. split; [exact He|]. split; [refine (eq_trans Hn _)|refine (eq_trans Ho _)]; vm_compute; reflexivity.
Defined.


(** The quantities of [BookUpdateTop] are totals of a whole side, not of the
    best level: with bids of 10 at 98 and 5 at 97 the update reports 15 at 98. *)
Theorem book_update_top_reports_side_total :
  ∃ e', emit_book_update_top (demo_live false) = Ret e' ∧
    events (e_sink e') = [Out_BookUpdateTop (mkBookUpdateTop 1 (Some (98, 15)) (Some (100, 17)) 7)] ∧
    qty_at_level demo_book Bid 98 = 10 ∧ qty_at_level demo_book Ask 100 = 10.
Proof. eexists. split; vm_compute; [reflexivity|done]. Qed.
