(* ===== verification/WireProps.v ===== *)
(** * WireProps: what the wire, the gateway and the tools promise

    Round trips of frames and messages, decoding that does not depend on how bytes
    arrive, the ingress log and its replay. *)

From S2P Require Import Prelude BTree Domain PriceLevel FifoLevel Book Messages Ids Engine Bytes Framing WireInbound WireOutbound MarketData Recorder Listener Client Replay Demo.
#[local] Open Scope Z_scope.

(** ** Frames and messages *)

(** A command that is framed, followed by anything, is read back: the frame
    parser takes exactly the bytes that were written and the decoder returns the
    command. *)
Theorem inbound_round_trip m rest :
  inbound_ok m → inbound_width_ok m →
  ∃ frame f, send m = Ok frame ∧ Frame_parse (frame ++ rest) = Ok (f, length frame) ∧
    inbound_parse_frame f = Ok m.
Proof.
  intros Hok Hw. destruct (send_ok m Hok Hw) as (frame & Hs & _).
  destruct (frame_roundtrip _ _ _ _ rest Hs) as (fr & Hfr & Hp & _). rewrite app_nil_l in Hfr. subst fr.
  exists frame. eexists. split; [done|]. unfold Frame_parse. rewrite Hp. cbn [result_bind].
  split; [done|]. by apply inbound_parse_payload.
Qed.

(** C26. Decoding is sound and canonical: any bytes that decode give a command
    whose fields are valid (positive and tick- or lot-aligned prices and
    quantities, non-zero ids), of the kind of the frame; re-encoding the command
    gives the same bytes, except for market orders, whose price bytes are not
    read. *)
Theorem inbound_decode_sound f m :
  bytes_ok (fr_payload f) → inbound_parse_frame f = Ok m →
  inbound_ok m ∧ inbound_width_ok m ∧ inbound_kind m = fr_kind f ∧
  (inbound_canonical m → inbound_payload m = fr_payload f).
Proof. apply inbound_parse_frame_sound. Qed.

(** C27. A feed round trip: encoding a sequence of well-formed messages returns a
    byte stream, and a consumer that decodes it frame by frame reads every message
    in order and then stops; a [Replaced] report loses its remaining quantity on
    the way. *)
Theorem feed_round_trip msgs :
  feed_ok msgs →
  ∃ bytes, encode_all msgs [] = Ret (Ok bytes) ∧
    decode_feed (S (length bytes)) bytes = Ret (Ok (wire_view <$> msgs)).
Proof.
  intros Hms. destruct (encode_all_ok msgs [] Hms) as (bytes & He & Hd). exists bytes.
  split; [done|]. apply Hd. lia.
Qed.

(** A frame is parsed from its own bytes only: appending bytes does not
    change what a parse returns, and every strict prefix is reported truncated,
    never misread. *)
Theorem frame_parse_local buf o total :
  parse_or_skip buf = Ok (o, total) →
  (FRAME_HEADER_BYTES <= total <= length buf)%nat ∧
  (∀ rest, parse_or_skip (buf ++ rest) = Ok (o, total)) ∧
  (∀ n, (n < total)%nat → parse_or_skip (take n buf) = Err Truncated).
Proof.
  intros Hp. split_and!.
  - by eapply parse_or_skip_total.
  - by eapply parse_or_skip_total.
  - intros rest. by apply parse_or_skip_app.
  - intros n. by eapply parse_or_skip_prefix.
Qed.

(** ** The gateway *)

(** C28. The listener does not depend on how the network cuts the stream: for any
    sequence of non-empty reads up to end of stream, the commands forwarded to the
    engine and the reason the connection closed are those of decoding all the
    bytes at once. *)
Theorem listener_chunk_independent try_send chunks chunks' :
  Forall (λ c, c ≠ []) chunks → Forall (λ c, c ≠ []) chunks' → concat chunks = concat chunks' →
  handle_connection try_send ((Some <$> chunks) ++ [Some []]) [] [] =
  handle_connection try_send ((Some <$> chunks') ++ [Some []]) [] [].
Proof. intros H1 H2 Heq. rewrite !handle_connection_chunks by done. by rewrite Heq. Qed.

(** Frames to engine: the frames a client sends for a list of valid
    commands, cut into reads in any way, are forwarded to the ring exactly once
    each and in order, as long as the ring has room, and the connection ends
    with the peer. *)
Lemma frames_to_engine try_send msgs frames chunks :
  Forall (λ m, inbound_ok m ∧ inbound_width_ok m) msgs → sent_frames msgs frames →
  Forall (λ c, c ≠ []) chunks → concat chunks = concat frames → accepted try_send [] msgs →
  handle_connection try_send ((Some <$> chunks) ++ [Some []]) [] [] = Ret (msgs, Some PeerClosed).
Proof.
  intros Hok Hf Hc Heq Hacc. rewrite handle_connection_chunks by done. rewrite app_nil_l, Heq.
  rewrite <-(app_nil_r (concat frames)), (drain_frames _ frames msgs) by (done || by apply sent_frames_carry).
  by rewrite drain_nil.
Qed.

(** C25. Client to engine: a client that connects over a working socket sends any
    list of valid commands without an error, and whatever way the network cuts the
    bytes into reads, the listener forwards exactly these commands, once each and in
    order, as long as the ring has room, and then sees the peer close.  Each command is
    one frame, of which the frame parser takes exactly the bytes, whatever follows, and
    which decodes to the command. *)
Theorem client_to_engine {Stream E} (tcp_connect : String.string → result Stream E)
    (tcp_write_all : Stream → list Z → Stream * result unit E) (written : Stream → list Z) addr s msgs :
  tcp_connect addr = Ok s → written s = [] →
  (∀ s bs, (tcp_write_all s bs).2 = Ok tt ∧ written (tcp_write_all s bs).1 = written s ++ bs) →
  Forall (λ m, inbound_ok m ∧ inbound_width_ok m) msgs →
  ∃ c c', Client_connect tcp_connect addr = Ok c ∧ Client_session tcp_write_all c msgs = (c', Ok tt) ∧
    (∀ try_send chunks, Forall (λ c, c ≠ []) chunks → concat chunks = written (stream c') → accepted try_send [] msgs →
       handle_connection try_send ((Some <$> chunks) ++ [Some []]) [] [] = Ret (msgs, Some PeerClosed)) ∧
    ∀ m rest, m ∈ msgs → ∃ frame f, send m = Ok frame ∧ Frame_parse (frame ++ rest) = Ok (f, length frame) ∧
      inbound_parse_frame f = Ok m.
Proof.
  intros Hs Hw0 Hw Hm. destruct (session_bytes tcp_write_all written (mkClient s []) msgs Hw Hm) as (c' & frames & Hc & Hf & Hb & _).
  cbn [stream] in Hb. rewrite Hw0, app_nil_l in Hb. exists (mkClient s []), c'. split_and!; [|done| |].
  - unfold Client_connect. by rewrite Hs.
  - intros try_send chunks Hne Hch Hacc. apply (frames_to_engine try_send msgs frames); [done..|by rewrite Hch|done].
  - intros m rest Hin. rewrite Forall_forall in Hm. destruct (Hm m Hin). by apply inbound_round_trip.
Qed.

(** Fail-fast backpressure: with room for [n] commands, the first [n] are
    forwarded and the next one closes the connection; nothing behind it is
    decoded or sent. *)
Theorem ring_full_closes before m after frames f chunks :
  Forall (λ m, inbound_ok m ∧ inbound_width_ok m) before → inbound_ok m → inbound_width_ok m →
  sent_frames before frames → send m = Ok f → Forall (λ c, c ≠ []) chunks →
  concat chunks = concat frames ++ f ++ after →
  handle_connection (ring (length before)) ((Some <$> chunks) ++ [Some []]) [] [] = Ret (before, Some RingFull).
Proof.
  intros Hok Hm Hw Hf Hs Hc Heq. rewrite handle_connection_chunks by done. rewrite app_nil_l, Heq.
  rewrite (drain_frames _ frames before); [|by apply sent_frames_carry|].
  - rewrite app_nil_l. destruct (send_ok m Hm Hw) as (f' & Hf' & Hcar).
    assert (f' = f) as -> by congruence. rewrite (drain_ring_full _ f m) by (done || apply Nat.ltb_irrefl). done.
  - intros pre x post ->. apply Nat.ltb_lt. rewrite app_nil_l, length_app. simpl. lia.
Qed.

(** Engine to client: the frames of a feed, whatever way their bytes arrive,
    are returned one per [recv], in order, with nothing left over. *)
Theorem engine_to_client msgs chunks bytes :
  feed_ok msgs → encode_all msgs [] = Ret (Ok bytes) → concat chunks = bytes →
  ∃ left buf', buf' ++ concat left = [] ∧
    recv_n (length msgs) (R_data <$> chunks) [] = (Ok <$> (wire_view <$> msgs), buf', R_data <$> left).
Proof.
  intros Hms He Hb. destruct (encode_all_frames msgs [] Hms) as (frames & Hall & Hfr).
  rewrite He, app_nil_l in Hall. injection Hall as ->.
  destruct (recv_n_feed frames (wire_view <$> msgs) chunks [] Hfr Hb) as (left & buf' & Hl & Hr).
  exists left, buf'. split; [done|]. by rewrite length_fmap in Hr.
Qed.

(** ** The ingress log *)

(** The log reads back: of a log of complete records followed by a torn one
    the reader returns every complete record, byte for byte and with its
    timestamp, and counts the torn bytes; a log cut at a record boundary leaves
    none. *)
Theorem log_round_trip rs torn n :
  Forall record_ok rs → record_ok torn → (n < length (record_bytes torn))%nat →
  read_records (record_all rs [] ++ take n (record_bytes torn)) = Ret (Ok (rs, n)).
Proof. apply read_records_ok. Qed.

(** Replay reproduces the session: from the log of the frames a session
    received, torn last record included, [replay_bytes] steps a fresh engine
    through the same commands at the recorded times and returns the encoding of
    exactly the messages it emits, with zeroed timestamps when asked. *)
Theorem replay_reproduces_session {L} `{!PriceLevelOps L} session rs torn n no_timestamps :
  session_ok session → Forall2 logged session rs → record_ok torn →
  (n < length (record_bytes torn))%nat →
  replay_bytes (L := L) (record_all rs [] ++ take n (record_bytes torn)) no_timestamps =
  (let! e := timed_run (L := L) replay_engine session in
   let! r := encode_all ((if no_timestamps then zero_timestamps else id) <$> events (e_sink e)) [] in
   Ret (map_err BE_Wire r)).
Proof. apply replay_bytes_ok. Qed.

(** The acknowledgement of a replace loses its remaining quantity on the
    wire: the engine's [Replaced] report carries it, and the consumer decodes a
    report without it. *)
Theorem replaced_ack_loses_leaves r q :
  exec_report_ok r → outbound_width_ok (Out_ExecReport r) → er_state r = Replaced →
  er_leaves_qty r = Some q →
  ∃ r', exec_report.parse (exec_report.encode r []) = Ok r' ∧ er_leaves_qty r' = None ∧
    er_order_id r' = er_order_id r ∧ er_cancel_reason r' = er_cancel_reason r.
Proof.
  intros Hok Hw Hst _. rewrite exec_report_parse_encode by done. eexists. split; [done|].
  unfold exec_wire_view. by rewrite Hst.
Qed.

(** ** The theorems at concrete inputs *)

Definition demo_cmd : Inbound := demo_new 1 2 Ask 100 4 Gtc.
Definition demo_frame : list Z := match send demo_cmd with Ok f => f | Err _ => [] end.

Lemma demo_cmd_ok : inbound_ok demo_cmd ∧ inbound_width_ok demo_cmd.
Proof.
  split; [split_and!; [by vm_compute..|solve_fields|eexists; split; [done|solve_fields]]|]. vm_compute. split; discriminate.
Qed.

Lemma inbound_round_trip_witness :
  ∃ frame f, send demo_cmd = Ok frame ∧ Frame_parse (frame ++ [1; 2; 3]) = Ok (f, length frame) ∧
    inbound_parse_frame f = Ok demo_cmd.
Proof. exact (inbound_round_trip demo_cmd [1; 2; 3] (proj1 demo_cmd_ok) (proj2 demo_cmd_ok)). Defined.

Lemma inbound_decode_sound_witness :
  inbound_parse_frame (mkFrame K_NewOrder (inbound_payload demo_cmd)) = Ok demo_cmd ∧
  inbound_kind demo_cmd = K_NewOrder.
Proof.
  assert (Hp : inbound_parse_frame (mkFrame K_NewOrder (inbound_payload demo_cmd)) = Ok demo_cmd)
    by (vm_compute; reflexivity).
  split; [exact Hp|].
  destruct (inbound_decode_sound (mkFrame K_NewOrder (inbound_payload demo_cmd)) demo_cmd) as (_ & _ & Hk & _);
    [apply bytes_ok_inbound_payload|exact Hp|exact Hk].
Defined.

(** An accepted order, a trade, and the acknowledgement of a replace. *)
Definition demo_replaced : ExecReport :=
  mkExecReport 3 2 3 Replaced None None (Some 5) None (Some ReplacedReason) 7 7.

Definition demo_feed : list Outbound :=
  [Out_ExecReport (mkExecReport 1 1 2 Accepted None None (Some 4) None None 7 7);
   Out_TradePrint (mkTradePrint 2 1 100 4 Bid 7);
   Out_ExecReport demo_replaced;
   Out_SnapshotResponse (mkSnapshotResponse 4 9 7 7 [mkSnapshotLevel 98 10] [])].

Lemma demo_replaced_ok : exec_report_ok demo_replaced ∧ outbound_width_ok (Out_ExecReport demo_replaced).
Proof. split; [split_and!; try (by intros ? [= <-]; solve_fields); by vm_compute|vm_compute; repeat split; discriminate]. Qed.

Lemma demo_accepted_ok :
  exec_report_ok (mkExecReport 1 1 2 Accepted None None (Some 4) None None 7 7).
Proof. split_and!; try (by intros ? [= <-]; solve_fields); by vm_compute. Qed.

Lemma demo_feed_ok : feed_ok demo_feed.
Proof.
  apply Forall_cons. split; [split; [exact demo_accepted_ok|by vm_compute]|].
  apply Forall_cons. split; [split; [split; solve_fields|by vm_compute]|].
  apply Forall_cons. split; [split; [apply demo_replaced_ok|by vm_compute]|].
  apply Forall_singleton. split; [|by vm_compute].
  split; [apply Forall_singleton; split; solve_fields|constructor].
Qed.

Lemma feed_round_trip_witness :
  ∃ bytes, encode_all demo_feed [] = Ret (Ok bytes) ∧
    decode_feed (S (length bytes)) bytes = Ret (Ok (wire_view <$> demo_feed)).
Proof. exact (feed_round_trip demo_feed demo_feed_ok). Defined.

Lemma frame_parse_local_witness : parse_or_skip (take 10 demo_frame) = Err Truncated.
Proof.
  destruct (parse_or_skip demo_frame) as [[o total]|err] eqn:E; [|exfalso; vm_compute in E; discriminate E].
  destruct (frame_parse_local demo_frame o total E) as (_ & _ & Hpre). apply Hpre.
  vm_compute in E. injection E as _ <-. lia.
Defined.

(** The frame of the command, whole and cut in two. *)
Lemma listener_chunk_independent_witness :
  handle_connection (ring 8) [Some demo_frame; Some []] [] [] =
  handle_connection (ring 8) [Some (take 10 demo_frame); Some (drop 10 demo_frame); Some []] [] [].
Proof.
  apply (listener_chunk_independent (ring 8) [demo_frame] [take 10 demo_frame; drop 10 demo_frame]).
  - by repeat constructor.
  - by repeat constructor.
  - vm_compute. reflexivity.
Defined.

Lemma demo_cmds_ok n : Forall (λ m, inbound_ok m ∧ inbound_width_ok m) (replicate n demo_cmd).
Proof. apply Forall_replicate, demo_cmd_ok. Qed.

Lemma client_to_engine_witness :
  ∃ c', Client_session (E := unit) (λ (s bs : list Z), (s ++ bs, Ok tt)) (mkClient [] []) [demo_cmd; demo_cmd] = (c', Ok tt) ∧
    ∀ chunks, Forall (λ c, c ≠ []) chunks → concat chunks = stream c' →
      handle_connection (ring 8) ((Some <$> chunks) ++ [Some []]) [] [] = Ret ([demo_cmd; demo_cmd], Some PeerClosed).
Proof.
  destruct (client_to_engine (E := unit) (λ _, Ok []) (λ (s bs : list Z), (s ++ bs, Ok tt)) (λ s, s) String.EmptyString []
    [demo_cmd; demo_cmd] eq_refl eq_refl (λ s bs, conj eq_refl eq_refl) (demo_cmds_ok 2)) as (c & c' & Hcon & Hrun & Hl & _).
  injection Hcon as <-. exists c'. split; [exact Hrun|]. intros chunks Hne Hch. apply (Hl (ring 8) chunks Hne Hch).
  intros pre m post Hs. apply (f_equal length) in Hs. rewrite length_app in Hs. simpl in Hs.
  apply Nat.ltb_lt. simpl. lia.
Defined.

Lemma ring_full_closes_witness :
  handle_connection (ring 1) [Some (demo_frame ++ demo_frame ++ [0; 0]); Some []] [] [] =
  Ret ([demo_cmd], Some RingFull).
Proof.
  apply (ring_full_closes [demo_cmd] demo_cmd [0; 0] [demo_frame] demo_frame [demo_frame ++ demo_frame ++ [0; 0]]).
  - exact (demo_cmds_ok 1).
  - apply demo_cmd_ok.
  - apply demo_cmd_ok.
  - by repeat constructor.
  - reflexivity.
  - by repeat constructor.
  - vm_compute. reflexivity.
Defined.

Definition demo_feed_bytes : list Z :=
  match encode_all demo_feed [] with Ret (Ok bytes) => bytes | _ => [] end.

Lemma engine_to_client_witness :
  ∃ left buf', buf' ++ concat left = [] ∧
    recv_n 4 [R_data (take 80 demo_feed_bytes); R_data (drop 80 demo_feed_bytes)] [] =
      (Ok <$> (wire_view <$> demo_feed), buf', R_data <$> left).
Proof.
  apply (engine_to_client demo_feed [take 80 demo_feed_bytes; drop 80 demo_feed_bytes] demo_feed_bytes demo_feed_ok).
  - vm_compute. reflexivity.
  - vm_compute. reflexivity.
Defined.

Definition demo_record : Record_ := mkRecord demo_frame 7.

Lemma demo_record_ok : record_ok demo_record.
Proof. apply (logged_ok (demo_cmd, 7)); [vm_compute; split; discriminate|by split]. Qed.

Lemma log_round_trip_witness :
  read_records (record_all [demo_record; demo_record] [] ++ take 11 (record_bytes demo_record)) =
  Ret (Ok ([demo_record; demo_record], 11%nat)).
Proof.
  apply (log_round_trip [demo_record; demo_record] demo_record 11).
  - repeat apply Forall_cons_2; try apply demo_record_ok. constructor.
  - apply demo_record_ok.
  - apply Nat.ltb_lt. vm_compute. reflexivity.
Defined.

Lemma replay_reproduces_session_witness :
  ∃ e : Engine FifoLevel StubClock CounterIdGenerator VecSink,
    timed_run replay_engine [(demo_cmd, 7)] = Ret e ∧
    replay_bytes (L := FifoLevel) (record_all [demo_record] [] ++ take 3 (record_bytes demo_record)) true =
    (let! r := encode_all (zero_timestamps <$> events (e_sink e)) [] in Ret (map_err BE_Wire r)).
Proof.
  pose proof (replay_reproduces_session (L := FifoLevel) [(demo_cmd, 7)] [demo_record] demo_record 3 true) as H.
  destruct (timed_run replay_engine [(demo_cmd, 7)]) as [e| |] eqn:E;
    [|exfalso; vm_compute in E; discriminate E..].
  exists e. split; [reflexivity|]. apply H.
  - apply Forall_singleton. split; [apply demo_cmd_ok|]. split; [apply demo_cmd_ok|vm_compute; split; discriminate].
  - by repeat constructor.
  - apply demo_record_ok.
  - apply Nat.ltb_lt. vm_compute. reflexivity.
Defined.

Lemma replaced_ack_loses_leaves_witness :
  ∃ r', exec_report.parse (exec_report.encode demo_replaced []) = Ok r' ∧ er_leaves_qty r' = None.
Proof.
  destruct (replaced_ack_loses_leaves demo_replaced 5 (proj1 demo_replaced_ok) (proj2 demo_replaced_ok) eq_refl eq_refl)
    as (r' & Hp & Hl & _).
  exists r'. exact (conj Hp Hl).
Defined.
