(* ===== verification/SessionProps.v ===== *)
(** * SessionProps: sessions, replay and workloads

    The properties of whole runs: sessions of bounded length, the replay tool, the
    committed fixture and the benchmark programs, and instances of them. *)

From Stdlib Require Import String.
From S2P Require Import Prelude BTree Domain PriceLevel FifoLevel Book BookSpec BookInv BookMatch BookOps Messages Ids Risk Engine EngineInv EngineFills EngineOrders EngineStep EngineRun EngineBounds Bytes Framing WireInbound WireOutbound MarketData EngineFeed EngineAnswers Recorder Client Replay EngineLockstep ReplayTotal Fixture Text Workload Bench Demo.
#[local] Open Scope Z_scope.

Section Sessions.
Context {L C : Type} `{!PriceLevelOps L} `{!PriceLevelLaws L} `{!SnapshotSucceeds L} `{!Clock C} `{!ClockWidth C}.
Context (clock : C).
Local Abbreviation fresh := (engine_new clock CounterIdGenerator_new VecSink_new : Engine L C CounterIdGenerator VecSink).

(** C16. Sessions of bounded length cannot fail: up to 2^27 valid commands, in any
    order, run on a fresh engine without a panic, an exhausted counter or a runaway
    loop; the book ends uncrossed with at most one order per command, and the
    messages carry the sequence numbers 1, 2, 3, ... and all fit the wire format. *)
Theorem session_never_fails msgs :
  clock_ok clock → Forall command_ok msgs → Z.of_nat (length msgs) <= MAX_SESSION →
  ∃ e, run fresh msgs = Ret e ∧ uncrossed (e_book e) ∧ (order_total e <= length msgs)%nat ∧
    feed_ok (events (e_sink e)) ∧
    outbound_seq <$> events (e_sink e) = seqZ 1 (Z.of_nat (length (events (e_sink e)))).
Proof.
  intros Hc Hok Hlen.
  assert (Hin : Forall inbound_ok msgs) by (eapply Forall_impl; [done|]; by intros m [? _]).
  destruct (proj1 (wp_total _ _) (run_live 0 fresh msgs (fresh_live clock Hc) Hok ltac:(done) ltac:(lia))) as (e & He & Hl).
  pose proof (run_ok fresh msgs (engine_new_inv _ _ _) (fresh_run_ready clock VecSink_new msgs Hin Hlen)) as Hr.
  rewrite He in Hr. destruct Hr as (Hi & outs & k & X & _). exists e. pose proof (ext_sink _ _ _ _ _ X) as Hs.
  rewrite VecSink_emit_all in Hs. pose proof (ext_seqs _ _ _ _ _ X) as Hq. split_and!; [done|apply Hi| |by eapply live_feed|].
  - pose proof (sz_total _ _ (lv_sized _ _ Hl)). lia.
  - rewrite Hs. exact Hq.
Qed.

(** C18. The commands of a session of at most 2^27 are answered one by one: the messages
    of the session are the answers to its commands, in order, each given in the state its
    command finds.  A new order gets a report that it was accepted, rejected, cancelled
    or filled, a cancel that it was cancelled or rejected, a replace that it was replaced
    or rejected, each with the order's id and account; a mass cancel gets one cancelled
    report for each order its account rests, in ascending id order, or one rejection when
    the kill switch is set, followed by book updates only; a snapshot request gets
    exactly its snapshot; a kill-switch command gets no message; and every command that
    may change the book ends with the top of the book. *)
Theorem session_answered msgs :
  clock_ok clock → Forall command_ok msgs → Z.of_nat (length msgs) <= MAX_SESSION →
  ∃ e answers, run fresh msgs = Ret e ∧ events (e_sink e) = List.concat answers ∧ answers_in fresh msgs answers.
Proof.
  intros Hc Hok Hlen.
  destruct (proj1 (wp_total _ _) (run_answers 0 fresh msgs (fresh_live clock Hc) Hok ltac:(done) ltac:(lia)))
    as (e & He & answers & Hev & Hall).
  by exists e, answers.
Qed.

(** C30. The log survives a crash: over any disk that appends a prefix of what it is
    given, and all of it when it reports success, whatever reached the disk through
    the buffered recorder reads back as a prefix of the records and a torn rest; and
    when recording and the final flush succeed, as all of them and nothing else. *)
Theorem log_crash_safe {E} (os_write : list Z → list Z → list Z * option E) rs :
  os_append os_write → Forall record_ok rs →
  let w := (Recorder_run os_write (Recorder_open []) rs).1 in
  (∃ k trailing, read_records (disk w) = Ret (Ok (take k rs, trailing))) ∧
  ((Recorder_run os_write (Recorder_open []) rs).2 = None → (Recorder_flush os_write w).2 = None →
    read_records (disk (Recorder_flush os_write w).1) = Ret (Ok (rs, 0%nat))).
Proof. intros Hos. by apply recorder_disk. Qed.

(** C31. Replay equals the live session: take any session of at most 2^27 commands under
    any clock, log each command's frame with any receive time, and tear the last record;
    replaying the log without timestamps returns byte for byte the encoding of the
    messages the live engine emitted, their timestamps zeroed. *)
Theorem replay_of_live_session session rs torn n :
  clock_ok clock → session_ok session → Z.of_nat (length session) <= MAX_SESSION →
  Forall2 logged session rs → record_ok torn → (n < length (record_bytes torn))%nat →
  ∃ e out, run fresh session.*1 = Ret e ∧
    encode_all (zero_timestamps <$> events (e_sink e)) [] = Ret (Ok out) ∧
    replay_bytes (L := L) (record_all rs [] ++ take n (record_bytes torn)) true = Ret (Ok out).
Proof. apply replay_live. Qed.
End Sessions.

(** The exit codes of the replay tool: over any file system whose writes can
    be read back, the tool returns whatever bytes the log holds, up to 2^27 of them; it exits with 0
    only when the outbound file holds the replayed feed, with 3 only when the log
    does not decode, and then nothing was written, and with 2 only for missing
    arguments or a failed read or write. *)
Theorem replay_exit_codes {L E F} `{!PriceLevelOps L} `{!PriceLevelLaws L} `{!SnapshotSucceeds L}
    (fs_read : F → string → result (list Z) E) (fs_write : F → string → list Z → F * result unit E) f args :
  fs_laws fs_read fs_write → (∀ p bs, fs_read f p = Ok bs → Z.of_nat (length bs) <= MAX_SESSION) →
  ∃ f' code, main_cli (L := L) fs_read fs_write f args = Ret (f', code) ∧
    match code with
    | 0 => ∃ prog inp out rest bytes feed, args = prog :: inp :: out :: rest ∧ fs_read f inp = Ok bytes ∧
        replay_bytes (L := L) bytes (existsb (String.eqb "--no-timestamps") args) = Ret (Ok feed) ∧
        fs_read f' out = Ok feed
    | 3 => f' = f ∧ ∃ prog inp out rest bytes err, args = prog :: inp :: out :: rest ∧ fs_read f inp = Ok bytes ∧
        replay_bytes (L := L) bytes (existsb (String.eqb "--no-timestamps") args) = Ret (Err err)
    | 2 => (length args < 3)%nat ∨ (∃ inp e, args !! 1%nat = Some inp ∧ fs_read f inp = Err e) ∨
        ∃ out feed e, args !! 2%nat = Some out ∧ fs_write f out feed = (f', Err e)
    | _ => False
    end.
Proof. apply main_cli_ok. Qed.

(** The benchmark workloads are well-formed: for every length below the width
    of the counter and every seed both generators return that many operations;
    accounts are 1 to 8, quantities 1 to 9, adds rest at 90 or 110, aggressive
    prices lie between 70 and 110, new orders are numbered consecutively from 1, and
    every cancel names an order added before it and not cancelled since. *)
Theorem workload_wellformed n seed :
  0 <= n < u64_max →
  (∃ ops, generate_ops n seed = Ret ops ∧ workload n ops) ∧ (∃ ops, mix_generate_ops n seed = Ret ops ∧ workload n ops).
Proof.
  intros Hn. split; apply generate_with_ok; try done; [apply generate_one_step|apply mix_generate_one_step].
Qed.

(** C39. The benchmark programs run their whole workload without a panic and leave an
    uncrossed book, whatever the clock reads; a reading may depend on how often the clock
    was read and on how many steps the engine has done.  The times they report run from a
    reading before the work to one after it: [throughput_bench] from the start of each run
    to its end, [smoke_bench] from the start to the end, and in [smoke_bench] and
    [add_cancel_mix] the histogram receives one latency per operation, from a reading
    just before its step to one just after it.  [dhat_bench] reports the growth of the
    allocation counters during the measured run.  The paced [co_bench] panics on a target
    rate of zero; on every other, provided the clock does not go back and passes every
    time, its waits end, each at the first reading that shows the operation's due time,
    each of its samples is the time from then to the second reading after the step, and
    the total is the time from the first reading to the one after the last sample. *)
Theorem benchmarks_return {L} `{!PriceLevelOps L} `{!PriceLevelLaws L} `{!SnapshotSucceeds L}
    {H} `{!HistogramOps H} `{!HistogramLaws H} (reading : nat → nat → Z) (stats : nat → nat → Z * Z) :
  (let w := Z.to_nat throughput_bench.N_WARMUP in let m := Z.to_nat throughput_bench.N_MEASURE in
   ∃ e, uncrossed (e_book e) ∧ throughput_bench.main (L := L) reading =
     Ret (e, Z.max 0 (reading 1%nat w - reading 0%nat 0%nat), Z.max 0 (reading 3%nat (w + m)%nat - reading 2%nat w))) ∧
  (let before := stats 0%nat (Z.to_nat dhat_bench.N_WARMUP) in
   let after := stats 1%nat (Z.to_nat dhat_bench.N_WARMUP + Z.to_nat dhat_bench.N_MEASURE)%nat in
   ∃ e, uncrossed (e_book e) ∧ dhat_bench.main (L := L) stats =
     Ret (e, u64_sub after.1 before.1, u64_sub after.2 before.2)) ∧
  (let n := Z.to_nat smoke_bench.N_OPS in
   ∃ e (h : H), bench_histogram = Ret h ∧ uncrossed (e_book e) ∧ smoke_bench.main (L := L) reading =
     Ret (e, recorded h (latencies reading 1 0 n), Z.max 0 (reading (1 + 2 * n)%nat n - reading 0%nat 0%nat))) ∧
  (∃ e (h : H), bench_histogram = Ret h ∧ uncrossed (e_book e) ∧ add_cancel_mix.run_workload (L := L) reading =
     Ret (e, recorded h (latencies reading 0 0 (Z.to_nat add_cancel_mix.N_OPS)))) ∧
  (∀ var, co_bench.target_rate var = 0 → ∀ fuel, co_bench.main (L := L) (H := H) fuel reading var = Panic) ∧
  (∀ var interval, co_bench.interval_ns (co_bench.target_rate var) = Ret interval →
     (∀ a b k, (a <= b)%nat → reading a k <= reading b k) → (∀ k d, ∃ j, d <= reading j k) →
     let w := Z.to_nat co_bench.N_WARMUP in let m := Z.to_nat co_bench.N_MEASURE in
     ∃ e (h : H) fuel vs r, bench_histogram = Ret h ∧ uncrossed (e_book e) ∧
       length vs = m ∧ paced reading (reading 0%nat w) interval 0 1 w vs r ∧
       ∀ fuel', (fuel <= fuel')%nat → co_bench.main (L := L) fuel' reading var =
         Ret (e, recorded_correct interval h vs, Z.max 0 (reading r (w + m)%nat - reading 0%nat w))).
Proof.
  assert (Hu : ∀ k (e : Engine L BenchClock CounterIdGenerator VecSink), live k e → uncrossed (e_book e)).
  { intros k e Hl. apply (live_inv _ _ Hl). }
  split_and!.
  - destruct (throughput_main_ok (L := L) reading) as (e & Hl & He). exists e. split; [by eapply Hu|done].
  - destruct (dhat_main_ok (L := L) stats) as (e & Hl & He). exists e. split; [by eapply Hu|done].
  - destruct (smoke_main_ok (L := L) (H := H) reading) as (e & h & Hh & Hl & He). exists e, h. split; [done|]. split; [by eapply Hu|done].
  - destruct (mix_run_ok (L := L) (H := H) reading) as (e & h & Hh & Hl & He). exists e, h. split; [done|]. split; [by eapply Hu|done].
  - intros var Hz fuel. unfold co_bench.main. by rewrite Hz.
  - intros var interval Hi Hmono Hpass.
    destruct (co_main_ok (L := L) (H := H) reading var interval Hi Hmono Hpass) as (e & h & fuel & vs & r & Hh & Hl & Hlen & Hvs & Hrun).
    exists e, h, fuel, vs, r. split; [done|]. split; [by eapply Hu|done].
Qed.

(** ** The theorems at concrete inputs *)

(** A resting order, an order that takes part of it, and a cancel. *)
Definition demo_session : list Inbound :=
  [demo_new 1 2 Ask 100 5 Gtc; demo_new 2 9 Bid 100 3 Gtc; In_CancelOrder (mkCancelOrder 0 1 2)].

Lemma demo_session_ok : Forall command_ok demo_session.
Proof.
  repeat apply Forall_cons_2; [apply limit_command_ok; solve_fields|apply limit_command_ok; solve_fields| |constructor].
  split; [split; by vm_compute|]. vm_compute. split; discriminate.
Qed.

Lemma demo_clock_ok : clock_ok (StubClock_new 7).
Proof. vm_compute. split; discriminate. Qed.

Lemma demo_session_short : Z.of_nat (length demo_session) <= MAX_SESSION.
Proof. vm_compute. discriminate. Qed.

Lemma session_never_fails_witness :
  ∃ e : DemoEngine, run demo_engine demo_session = Ret e ∧ (order_total e <= 3)%nat ∧
    outbound_seq <$> events (e_sink e) = seqZ 1 (Z.of_nat (length (events (e_sink e)))).
Proof.
  destruct (session_never_fails (L := FifoLevel) (StubClock_new 7) demo_session demo_clock_ok demo_session_ok
    demo_session_short) as (e & He & _ & Ht & _ & Hs).
  exists e. exact (conj He (conj Ht Hs)).
Defined.

(** A clock that advances by a microsecond per reading and three per step; the default
    target rate and a target rate of zero. *)
Definition demo_readings (n k : nat) : Z := 1000 * Z.of_nat n + 3000 * Z.of_nat k.

Lemma benchmarks_return_witness :
  co_bench.main (L := FifoLevel) (H := SampleLog) 5 demo_readings (Some "0"%string) = Panic ∧
  let w := Z.to_nat co_bench.N_WARMUP in let m := Z.to_nat co_bench.N_MEASURE in
  ∃ e (h : SampleLog) fuel vs r, bench_histogram = Ret h ∧ uncrossed (e_book e) ∧
    length vs = m ∧ paced demo_readings (demo_readings 0 w) 5000 0 1 w vs r ∧
    ∀ fuel', (fuel <= fuel')%nat → co_bench.main (L := FifoLevel) fuel' demo_readings None =
      Ret (e, recorded_correct 5000 h vs, Z.max 0 (demo_readings r (w + m) - demo_readings 0 w)).
Proof.
  destruct (benchmarks_return (L := FifoLevel) (H := SampleLog) demo_readings (λ _ _, (0, 0))) as (_ & _ & _ & _ & Hz & Hco).
  split; [exact (Hz (Some "0"%string) eq_refl 5%nat)|]. apply (Hco None 5000); [reflexivity| |].
  - intros a b k Hab. unfold demo_readings. lia.
  - intros k d. exists (Z.to_nat d). unfold demo_readings. lia.
Defined.

Lemma session_answered_witness :
  ∃ (e : DemoEngine) answers, run demo_engine demo_session = Ret e ∧ events (e_sink e) = List.concat answers ∧
    answers_in demo_engine demo_session answers.
Proof.
  exact (session_answered (L := FifoLevel) (StubClock_new 7) demo_session demo_clock_ok demo_session_ok demo_session_short).
Defined.

(** The log of a session of one command. *)
Definition logged_cmd : Inbound := demo_new 1 2 Ask 100 4 Gtc.
Definition logged_record : Record_ := mkRecord (match send logged_cmd with Ok f => f | Err _ => [] end) 1234.

Lemma logged_cmd_ok : session_ok [(logged_cmd, 1234)].
Proof.
  apply Forall_singleton. assert (H : command_ok logged_cmd) by (apply limit_command_ok; solve_fields).
  split; [apply H|]. split; [apply H|]. vm_compute. split; discriminate.
Qed.

Lemma logged_record_ok : record_ok logged_record.
Proof. apply (logged_ok (logged_cmd, 1234)); [vm_compute; split; discriminate|by split]. Qed.

Lemma replay_of_live_session_witness :
  ∃ (e : DemoEngine) out, run demo_engine [logged_cmd] = Ret e ∧
    encode_all (zero_timestamps <$> events (e_sink e)) [] = Ret (Ok out) ∧
    replay_bytes (L := FifoLevel) (record_all [logged_record] [] ++ take 9 (record_bytes logged_record)) true = Ret (Ok out).
Proof.
  apply (replay_of_live_session (L := FifoLevel) (StubClock_new 7) [(logged_cmd, 1234)] [logged_record] logged_record 9).
  - apply demo_clock_ok.
  - apply logged_cmd_ok.
  - vm_compute. discriminate.
  - by repeat constructor.
  - apply logged_record_ok.
  - apply Nat.ltb_lt. vm_compute. reflexivity.
Defined.

(** A file system of one path that always works, holding the fixture. *)
Definition one_read (f : list Z) (_ : string) : result (list Z) unit := if forallb (λ b, (0 <=? b) && (b <? 256)) f then Ok f else Err tt.
Definition one_write (f : list Z) (_ : string) (bs : list Z) : list Z * result unit unit :=
  if forallb (λ b, (0 <=? b) && (b <? 256)) bs then (bs, Ok tt) else (f, Err tt).

Lemma one_file_laws : fs_laws one_read one_write.
Proof.
  split.
  - intros f p bs. unfold one_read. destruct (forallb _ f) eqn:E; [|done]. intros [= <-].
    rewrite forallb_forall in E. apply Forall_forall. intros b Hb. apply list_elem_of_In, E in Hb.
    apply andb_prop in Hb as [H1 H2]. unfold byte_ok. lia.
  - intros f p bs f'. unfold one_write, one_read. destruct (forallb _ bs) eqn:E; intros [= <-]. by rewrite E.
Qed.

Lemma replay_exit_codes_witness :
  main_cli (L := FifoLevel) one_read one_write fixture_inbound ["replay"; "in"; "out"; "--no-timestamps"]%string =
  Ret (fixture_golden, 0) ∧
  ∃ f' code, main_cli (L := FifoLevel) one_read one_write fixture_inbound ["replay"; "in"; "out"; "--no-timestamps"]%string =
    Ret (f', code).
Proof.
  split; [vm_compute; reflexivity|].
  destruct (replay_exit_codes (L := FifoLevel) one_read one_write fixture_inbound ["replay"; "in"; "out"; "--no-timestamps"]%string
    one_file_laws) as (f' & code & H & _).
  - intros p bs Hr. vm_compute in Hr. injection Hr as <-. vm_compute. discriminate.
  - exists f', code. exact H.
Defined.

Lemma workload_wellformed_witness :
  ∃ ops, generate_ops 3 0xc0ffee = Ret ops ∧ workload 3 ops ∧
    take 2 ops = [Aggressive 1 5 Ask 82 3; Aggressive 2 2 Bid 87 8].
Proof.
  destruct (workload_wellformed 3 0xc0ffee) as [(ops & Hg & Hw) _]; [vm_compute; split; [discriminate|reflexivity]|].
  exists ops. split; [exact Hg|]. split; [exact Hw|]. vm_compute in Hg. injection Hg as <-. vm_compute. reflexivity.
Defined.

(** A disk that always has room for four thousand bytes more, and then fails half way. *)
Definition demo_os (d bs : list Z) : list Z * option unit :=
  if decide (length bs <= 4000)%nat then (d ++ bs, None) else (d ++ take 2000 bs, Some tt).

Lemma demo_os_append : os_append demo_os.
Proof.
  intros d bs. unfold demo_os. case_decide; simpl.
  - exists (length bs). by rewrite take_ge.
  - by exists 2000%nat.
Qed.

Lemma log_crash_safe_witness :
  (∃ k trailing, read_records (disk (Recorder_run demo_os (Recorder_open []) [logged_record; logged_record]).1) =
    Ret (Ok (take k [logged_record; logged_record], trailing))) ∧
  read_records (disk (Recorder_flush demo_os (Recorder_run demo_os (Recorder_open []) [logged_record; logged_record]).1).1) =
    Ret (Ok ([logged_record; logged_record], 0%nat)).
Proof.
  destruct (log_crash_safe demo_os [logged_record; logged_record] demo_os_append) as [H1 H2].
  - repeat apply Forall_cons_2; [apply logged_record_ok|apply logged_record_ok|constructor].
  - split; [exact H1|]. apply H2; vm_compute; reflexivity.
Defined.
