(* ===== verification/ServerProps.v ===== *)
(** * ServerProps: the properties of the server and the client

    The theorems about the transition system of [Server] and the client that talks
    to it, and instances of them. *)

From stdpp Require Import relations.
From S2P Require Import Prelude BTree Domain PriceLevel FifoLevel Book BookSpec BookInv Messages Ids Risk Engine EngineInv EngineRun EngineBounds Bytes Framing WireInbound WireOutbound MarketData Channels EngineFeed EngineAnswers Listener Client Recorder Replay EngineLockstep Text Server ServerInv Demo.
#[local] Open Scope Z_scope.

(** A consumer of whole frames reads their messages. *)
Lemma decode_feed_frames frames msgs fuel :
  Forall2 frame_of frames msgs → (length (List.concat frames) < fuel)%nat →
  decode_feed fuel (List.concat frames) = Ret (Ok (wire_view <$> msgs)).
Proof.
  intros Hf. revert fuel. induction Hf as [|f m frames msgs Hf Hfs IH]; intros [|fuel] Hfuel; simpl in Hfuel; try lia; [done|].
  cbn [List.concat] in *. specialize (Hf (List.concat frames)) as Hd.
  assert (Hne : (0 < length f)%nat).
  { pose proof (Hf []) as H0. rewrite app_nil_r in H0. apply decode_len in H0. unfold FRAME_LEN_BYTES in H0. lia. }
  cbn [decode_feed]. destruct (f ++ List.concat frames) as [|x xs] eqn:E; [by destruct f|]. rewrite Hd, <-E.
  rewrite drop_app_length, IH; [done|]. rewrite <-E, length_app in Hfuel. lia.
Qed.

Section Server.
Context {L M B R : Type} `{!PriceLevelOps L} `{!PriceLevelLaws L} `{!SnapshotSucceeds L}
  `{!MpscOps M Inbound} `{!MpscLaws M Inbound} `{!BroadcastOps B R} `{!BroadcastLaws B R}.
Context (time : nat → option Z) (sv : server L WallClock M B R).
Local Abbreviation main_engine := (server_engine (mkWallClock time 0) : Engine L WallClock CounterIdGenerator VecSink).
Local Abbreviation main_ok := (server_ok (mkWallClock time 0) INBOUND_CHANNEL_CAPACITY OUTBOUND_BROADCAST_CAPACITY).
Hypothesis Hreach : reachable (server_main time) sv.
Hypothesis Hmax : Z.of_nat (length (sv_arrivals sv)) <= MAX_SESSION.

Lemma main_reachable_ok : main_ok sv.
Proof. eapply reachable_ok; [exact Hreach|by apply server_new_ok|done]. Qed.

(** C34. As long as at most 2^27 commands have been accepted, the server is a sequential
    engine: whatever the clients send, however the tasks interleave and whatever the
    wall clock shows, the engine thread has not crashed, its state is that of the engine
    run on the commands it took, the broadcast channel carries one decodable frame for
    each message of that run, in order, but for those of the step under way that are
    still to be sent, and the commands accepted so far are, in order, those taken, those
    queued and those in the ring, which never holds more than its capacity. *)
Theorem server_sequential :
  sv_crashed sv = false ∧ run main_engine (sv_done sv) = Ret (sv_engine sv) ∧
  (∃ emitted, events (e_sink (sv_engine sv)) = emitted ++ sv_outbox sv ∧ Forall2 frame_of (sent (sv_tx sv)) emitted) ∧
  (sv_arrivals sv).*2 = sv_done sv ++ sv_queue sv ++ mpsc_items (sv_ring sv) ∧
  (length (mpsc_items (sv_ring sv)) <= INBOUND_CHANNEL_CAPACITY)%nat.
Proof.
  pose proof main_reachable_ok as H. destruct (so_ring _ _ _ _ H) as [Hc Hl].
  split_and!; [apply H|apply H|apply H|apply H|by rewrite <-Hc].
Qed.

(** C35. Each connection's commands are the decoding of its bytes, as long as at most
    2^27 commands have been accepted: while its reader runs, exactly the commands its
    whole input decodes to have been accepted from it, in order, however the bytes were
    split into reads and whatever the other connections did; once the reader has ended,
    a prefix of them. *)
Theorem server_reader_decodes i c :
  sv_conns sv !! i = Some c →
  match cn_reader c with
  | None => drain unbounded (cn_in c) [] = Ret (inl (cn_buf c, from_conn i (sv_arrivals sv)))
  | Some _ => ∃ r, drain unbounded (cn_in c) [] = Ret r ∧ from_conn i (sv_arrivals sv) `prefix_of` drained r
  end.
Proof.
  intros Hi. destruct (so_conns _ _ _ _ main_reachable_ok i c Hi) as [[_ Hr] <-]. exact Hr.
Qed.

(** C36. Each client sees a contiguous piece of the feed, as long as at most 2^27
    commands have been accepted: the bytes written to a connection are whole frames that
    decode, in order and without a gap, to the messages the engine emitted from the
    subscription on, followed by nothing when no write is under way, and otherwise by a
    proper part of the frame of the very next message, whose rest is what the writer
    still has to write.  This holds of writers that run, that failed in the middle of a
    frame, that fell behind and that were aborted with their reader. *)
Theorem server_clients_see_feed i c :
  sv_conns sv !! i = Some c →
  ∃ n whole part, cn_out c = whole ++ part ∧
    decode_feed (S (length whole)) whole =
      Ret (Ok (wire_view <$> take n (drop (position (cn_rx0 c)) (events (e_sink (sv_engine sv)))))) ∧
    (position (cn_rx0 c) + n <= length (sent (sv_tx sv)))%nat ∧
    ((part = [] ∧ cn_pending c = []) ∨
     ∃ m, events (e_sink (sv_engine sv)) !! (position (cn_rx0 c) + n)%nat = Some m ∧
       decode (part ++ cn_pending c) = Ok (wire_view m, length (part ++ cn_pending c)) ∧ cn_pending c ≠ []).
Proof.
  intros Hi. pose proof main_reachable_ok as H. destruct (so_feed _ _ _ _ H) as (emitted & He & Hf).
  destruct (so_writers _ _ _ _ H i c Hi) as (n & part & Ho & Hn & Hp).
  exists n, (List.concat (take n (drop (position (cn_rx0 c)) (sent (sv_tx sv))))), part.
  pose proof (Forall2_length _ _ _ Hf) as Hlen. split_and!; [done| |done|].
  - rewrite He, drop_app_le by lia. rewrite take_app_le by (rewrite length_drop; lia).
    apply decode_feed_frames; [by apply Forall2_take, Forall2_drop|lia].
  - destruct Hp as [(? & ? & _)|(Hs & Hne & _)]; [by left|]. right.
    destruct (Forall2_lookup_l _ _ _ _ _ Hf Hs) as (m & Hm & Hd). exists m. split_and!; [|..|done].
    + rewrite He. by apply lookup_app_l_Some.
    + specialize (Hd []). by rewrite app_nil_r in Hd.
Qed.

(** C37. Accepted commands are processed: from every reachable state in which at most
    2^27 commands have been accepted, some steps of the forwarder and of the engine
    thread, and of no other task, take all the commands accepted so far, in order, and
    send all their frames, leaving the ring, the queue and the outbox empty and the
    connections as they were. *)
Theorem server_drains :
  ∃ sv', rtc (steps_of (λ t, t = Forwarder ∨ t = EngineThread)) sv sv' ∧ sv_done sv' = (sv_arrivals sv).*2 ∧
    sv_queue sv' = [] ∧ mpsc_items (sv_ring sv') = [] ∧ sv_outbox sv' = [] ∧
    Forall2 frame_of (sent (sv_tx sv')) (events (e_sink (sv_engine sv'))) ∧ sv_conns sv' = sv_conns sv.
Proof.
  destruct (server_ok_drains _ _ _ sv main_reachable_ok Hmax) as (sv' & Hs & H & Ho & Hq & Hr & Hc & Ha).
  exists sv'. split_and!; try done.
  - pose proof (so_flow _ _ _ _ H) as Hf. by rewrite Hq, Hr, Ha, !app_nil_r in Hf.
  - destruct (so_feed _ _ _ _ H) as (emitted & He & Hf). rewrite Ho, app_nil_r in He. by rewrite He.
Qed.
End Server.

(** C29. The client collects the feed: over the encoding of any well-formed
    messages, however the bytes are split into reads, [recv_until_timeout] with
    time to spare returns the first [max] of them as the wire carries them, and
    keeps the bytes of the others for later. *)
Theorem client_collects_feed msgs max rounds chunks :
  feed_ok msgs → encode_all msgs [] = Ret (Ok (List.concat chunks)) → (length msgs < rounds)%nat →
  ∃ left buf, recv_until_timeout rounds max (R_data <$> chunks) [] =
      (Ok (take max (wire_view <$> msgs)), buf, R_data <$> left) ∧
    decode_feed (S (length (buf ++ List.concat left))) (buf ++ List.concat left) =
      Ret (Ok (drop max (wire_view <$> msgs))).
Proof.
  intros Hok Henc Hr. destruct (encode_all_frames msgs [] Hok) as (frames & He & Hf). rewrite app_nil_l in He.
  rewrite Henc in He. injection He as He.
  destruct (recv_until_timeout_feed rounds max frames (wire_view <$> msgs) chunks []) as (left & buf & Hl & Hrecv);
    [done|by rewrite He|by rewrite length_fmap|].
  exists left, buf. split; [done|]. rewrite Hl, <-fmap_drop. apply decode_feed_frames; [|lia]. apply Forall2_fmap_r in Hf. by apply Forall2_drop.
Qed.

(** ** The theorems at concrete inputs *)

(** Two clients; the first rests an ask, the second sends half of a buy that the rest
    completes; one command has been processed, its first frame is out, its second frame
    half written to the first client; one command waits. *)
Definition demo_time : nat → option Z := λ n, Some (1700000000000000000 + Z.of_nat n).
Definition demo_bytes (m : Inbound) : list Z := match send m with Ok f => f | Err _ => [] end.
Definition demo_sell : Inbound := demo_new 1 2 Ask 100 5 Gtc.
Definition demo_buy : Inbound := demo_new 2 7 Bid 100 3 Gtc.

Definition demo_actions : list action :=
  [Act_accept; Act_read 0 (demo_bytes demo_sell); Act_accept; Act_read 1 (take 11 (demo_bytes demo_buy)); Act_forward;
   Act_take; Act_emit; Act_recv 0; Act_write 0 40; Act_read 1 (drop 11 (demo_bytes demo_buy)); Act_emit; Act_forward;
   Act_recv 1; Act_fail 1].

Abbreviation DemoServer := (server FifoLevel WallClock (Queue Inbound) FrameLog nat).
Definition demo_server : DemoServer :=
  default (server_main demo_time) (perform_all (server_main demo_time) demo_actions).

Lemma demo_server_reachable : reachable (server_main demo_time) demo_server.
Proof.
  unfold demo_server. destruct (perform_all (server_main demo_time) demo_actions) as [sv|] eqn:E.
  - by apply perform_all_reachable in E.
  - constructor.
Qed.

Lemma demo_server_short : Z.of_nat (length (sv_arrivals demo_server)) <= MAX_SESSION.
Proof. vm_compute. discriminate. Qed.

Lemma server_sequential_witness :
  sv_arrivals demo_server = [(0%nat, demo_sell); (1%nat, demo_buy)] ∧ sv_queue demo_server = [demo_buy] ∧
  run (server_engine (mkWallClock demo_time 0)) [demo_sell] = Ret (sv_engine demo_server).
Proof.
  destruct (server_sequential demo_time demo_server demo_server_reachable demo_server_short) as (_ & Hr & _).
  split; [vm_compute; reflexivity|]. split; [vm_compute; reflexivity|].
  replace [demo_sell] with (sv_done demo_server) by (vm_compute; reflexivity). exact Hr.
Defined.

Lemma server_reader_decodes_witness :
  ∃ c, sv_conns demo_server !! 1%nat = Some c ∧ cn_in c = demo_bytes demo_buy ∧
    drain unbounded (cn_in c) [] = Ret (inl (cn_buf c, from_conn 1 (sv_arrivals demo_server))) ∧
    from_conn 1 (sv_arrivals demo_server) = [demo_buy].
Proof.
  destruct (sv_conns demo_server !! 1%nat) as [c|] eqn:Hi; [|exfalso; vm_compute in Hi; discriminate Hi].
  exists c. pose proof (server_reader_decodes demo_time demo_server demo_server_reachable demo_server_short 1 c Hi) as H.
  assert (Hc : cn_reader c = None ∧ cn_in c = demo_bytes demo_buy).
  { vm_compute in Hi. injection Hi as <-. split; vm_compute; reflexivity. }
  destruct Hc as [Hc Hin]. rewrite Hc in H. split; [reflexivity|]. split; [exact Hin|]. split; [exact H|].
  vm_compute. reflexivity.
Defined.

Lemma server_clients_see_feed_witness :
  ∃ c n whole part, sv_conns demo_server !! 0%nat = Some c ∧ length (cn_out c) = 40%nat ∧ cn_out c = whole ++ part ∧
    decode_feed (S (length whole)) whole =
      Ret (Ok (wire_view <$> take n (drop (position (cn_rx0 c)) (events (e_sink (sv_engine demo_server)))))).
Proof.
  destruct (sv_conns demo_server !! 0%nat) as [c|] eqn:Hi; [|exfalso; vm_compute in Hi; discriminate Hi].
  destruct (server_clients_see_feed demo_time demo_server demo_server_reachable demo_server_short 0 c Hi)
    as (n & whole & part & Ho & Hd & _).
  exists c, n, whole, part. split; [reflexivity|]. split; [|exact (conj Ho Hd)].
  vm_compute in Hi. injection Hi as <-. vm_compute. reflexivity.
Defined.

Lemma server_drains_witness :
  ∃ sv', rtc (steps_of (λ t, t = Forwarder ∨ t = EngineThread)) demo_server sv' ∧ sv_done sv' = [demo_sell; demo_buy] ∧
    sv_queue sv' = [].
Proof.
  destruct (server_drains demo_time demo_server demo_server_reachable demo_server_short) as (sv' & Hs & Hd & Hq & _).
  exists sv'. split; [exact Hs|]. split; [|exact Hq]. rewrite Hd. vm_compute. reflexivity.
Defined.

(** A trade and the top of an empty book, in three reads. *)
Definition demo_client_feed : list Outbound :=
  [Out_TradePrint (mkTradePrint 1 1 100 5 Bid 7); Out_BookUpdateTop (mkBookUpdateTop 2 None None 8)].
Definition demo_client_feed_bytes : list Z := match encode_all demo_client_feed [] with Ret (Ok bs) => bs | _ => [] end.
Definition demo_chunks : list (list Z) := [take 2 demo_client_feed_bytes; take 60 (drop 2 demo_client_feed_bytes); drop 62 demo_client_feed_bytes].

Lemma demo_client_feed_ok : feed_ok demo_client_feed.
Proof.
  repeat apply Forall_cons_2; [| |constructor]; (split; [solve_fields|split; [vm_compute; intuition discriminate|done]]).
Qed.

Lemma client_collects_feed_witness :
  ∃ left buf, recv_until_timeout 9 1 (R_data <$> demo_chunks) [] =
    (Ok [Out_TradePrint (mkTradePrint 1 1 100 5 Bid 7)], buf, R_data <$> left).
Proof.
  destruct (client_collects_feed demo_client_feed 1 9 demo_chunks demo_client_feed_ok) as (left & buf & H & _).
  - vm_compute. reflexivity.
  - apply Nat.ltb_lt. reflexivity.
  - exists left, buf. exact H.
Defined.
