(* ===== verification/SuiteProps.v ===== *)
(** * SuiteProps: properties that hold for every price level, and the test suites

    The independence of the engine from the third-party price level, what follows
    for the committed fixture, and the repository's own tests as theorems: the
    property tests for every input of their generators, the unit tests, the socket
    tests and the client examples in every lawful environment.  Instances of the theorems follow. *)

From S2P Require Import Prelude Script BTree Domain PriceLevel FifoLevel Book BookSpec BookInv BookCanon Messages Ids Risk Engine EngineInv EngineRun EngineBounds Bytes Framing WireInbound WireOutbound MarketData Channels EngineFeed Recorder Listener Client Replay EngineLockstep EngineCanon BookTests BookRuns WireTests DomainTests RiskTests EngineTests IntegrationTests GatewayTests PropTests Fixture Server ServerInv Serving Scenarios TcpTests Demo.
#[local] Open Scope Z_scope.

(** C6. The market is never locked or crossed: driving any list of new orders,
    cancels and replaces of the machine's widths through an empty book, the driver
    of [props_book_not_crossed.rs] returns, and its check that the best bid is below
    the best ask succeeds after every command; it needs at most one trade id per
    pair of commands. *)
Theorem book_never_crossed {L} `{!PriceLevelOps L} `{!PriceLevelLaws L} `{!SnapshotSucceeds L} {I}
    `{!IdGenerator I} `{!IdGeneratorLaws I} (ids : I) commands :
  Forall command_ok commands → (length commands * length commands <= id_cap ids)%nat →
  book_never_crossed_across_add_cancel_replace (L := L) ids commands = Ret tt.
Proof. apply book_never_crossed_passes. Qed.

(** C32. The engine does not depend on which price level implements the crate's
    interface: over two lawful ones, any commands a decoder can produce are
    processed alike.  The runs end the same way, and when they return, the outbound
    messages, the risk state, the registry, the id source and the clock are equal,
    both books show the same levels to a snapshot, and they rest the same orders in
    the same priority. *)
Theorem price_level_irrelevant {L1 L2} `{!PriceLevelOps L1} `{!PriceLevelLaws L1} `{!SnapshotSucceeds L1}
    `{!PriceLevelOps L2} `{!PriceLevelLaws L2} `{!SnapshotSucceeds L2}
    {C I S} `{!Clock C} `{!IdGenerator I} `{!IdsConverge I} `{!OutboundSink S} (clock : C) (ids : I) (sink : S) msgs :
  Forall inbound_ok msgs →
  orel (λ e1 e2, e_sink e1 = e_sink e2 ∧ e_risk e1 = e_risk e2 ∧ e_registry e1 = e_registry e2 ∧
      e_ids e1 = e_ids e2 ∧ e_clock e1 = e_clock e2 ∧ bid_levels (e_book e1) = bid_levels (e_book e2) ∧
      ask_levels (e_book e1) = ask_levels (e_book e2) ∧ canon (e_book e1) = canon (e_book e2))
    (run (engine_new clock ids sink : Engine L1 C I S) msgs) (run (engine_new clock ids sink : Engine L2 C I S) msgs).
Proof.
  intros Hm. pose proof (run_canon _ _ msgs Hm (new_canon (L := L1) clock ids sink)) as H1.
  pose proof (run_canon _ _ msgs Hm (new_canon (L := L2) clock ids sink)) as H2.
  destruct (run (engine_new clock ids sink : Engine L1 C I S) msgs) as [e1| |],
    (run (engine_new clock ids sink : Engine FifoLevel C I S) msgs) as [e| |],
    (run (engine_new clock ids sink : Engine L2 C I S) msgs) as [e2| |]; try done. simpl in *.
  destruct H1 as [[Hok1 Hb1] ? ? ? ? ? ? ? ? ? ?], H2 as [[Hok2 Hb2] ? ? ? ? ? ? ? ? ? ?].
  split_and!; try congruence; [rewrite <-(canon_bid_levels (e_book e1)), <-(canon_bid_levels (e_book e2)) by done|
    rewrite <-(canon_ask_levels (e_book e1)), <-(canon_ask_levels (e_book e2)) by done]; congruence.
Qed.

(** C33. The committed fixture: the generator writes exactly [fixtures/inbound.bin],
    and the replay of it without timestamps is exactly [fixtures/outbound.golden],
    whatever lawful price level the engine runs on. *)
Theorem golden_fixture {L} `{!PriceLevelOps L} `{!PriceLevelLaws L} `{!SnapshotSucceeds L} :
  gen_fixture = Ret fixture_inbound ∧ replay_bytes (L := L) fixture_inbound true = Ret (Ok fixture_golden).
Proof.
  split; [apply gen_fixture_ok|]. rewrite replay_bytes_canon; [apply fixture_replay_ok|].
  apply (replay_tests.gives_bytes_wp (Ret fixture_inbound)). vm_compute. reflexivity.
Qed.

(** C38. The property tests that assert something hold on every input of their
    generators: quantity is conserved when up to fifty orders are added and those that
    rest are cancelled; the fills of a sweep through up to ten asks are at their makers'
    prices, on the ask side and against another order; after any sequence of adds and
    cancels the side totals are those of the orders that rest, each of them of positive
    price and quantity (three of the five tests of [invariants.rs]; the other two only
    read the book); every message the wire generators draw survives encoding and
    decoding; a recording of up to thirty orders can be encoded and its replay without
    timestamps succeeds with the bytes of the feed a live engine emits for those orders,
    so that the test that replays it twice passes, and one of up to twenty replays with
    its timestamps; prices, quantities, ids and timestamps survive a round trip through
    their raw values, and counters advance by one below the maximum. *)
Theorem property_tests_pass {L} `{!PriceLevelOps L} `{!PriceLevelLaws L} `{!SnapshotSucceeds L} :
  (∀ orders, Forall arb_order orders → (length orders <= 50)%nat →
     proptest_qty_conserved_across_add_cancel (L := L) orders = Ret tt) ∧
  (∀ asks taker_qty, Forall arb_ask asks → (length asks <= 10)%nat → 1 <= taker_qty <= 1000 →
     proptest_maker_price_equals_trade_price (L := L) asks taker_qty = Ret tt) ∧
  (∀ asks, Forall arb_ask asks → (length asks <= 10)%nat →
     proptest_fill_has_distinct_maker_and_taker (L := L) asks = Ret tt) ∧
  (∀ commands, invariants.arb_command_sequence commands →
     invariants.inv_qty_conserved_across_add_cancel (L := L) commands = Ret tt ∧
     invariants.inv_all_orders_have_positive_price_and_qty (L := L) commands = Ret tt ∧
     invariants.inv_book_state_consistency (L := L) commands = Ret tt) ∧
  (∀ m, roundtrip.arb_new_order m → roundtrip.new_order_roundtrip m = Ret tt) ∧
  (∀ m, roundtrip.arb_cancel_order m → roundtrip.cancel_order_roundtrip m = Ret tt) ∧
  (∀ m, roundtrip.arb_cancel_replace m → roundtrip.cancel_replace_roundtrip m = Ret tt) ∧
  (∀ m, roundtrip.arb_mass_cancel m → roundtrip.mass_cancel_roundtrip m = Ret tt) ∧
  (∀ m, roundtrip.arb_kill_switch_set m → roundtrip.kill_switch_roundtrip m = Ret tt) ∧
  (∀ m, roundtrip.arb_snapshot_request m → roundtrip.snapshot_request_roundtrip m = Ret tt) ∧
  (∀ r, roundtrip.arb_exec_report r → roundtrip.exec_report_roundtrip r = Ret tt) ∧
  (∀ t, roundtrip.arb_trade_print t → roundtrip.trade_print_roundtrip t = Ret tt) ∧
  (∀ t, roundtrip.arb_book_update_top t → roundtrip.book_update_top_roundtrip t = Ret tt) ∧
  (∀ d, roundtrip.arb_book_update_l2_delta d → roundtrip.book_update_l2_delta_roundtrip d = Ret tt) ∧
  (∀ cases, Forall replay_equality.arb_inbound_case cases → (length cases <= 30)%nat →
     replay_equality.proptest_replay_byte_identical_no_timestamps L cases = Ret tt ∧
     ∃ bytes e out, replay_equality.encode_recording cases = Ret bytes ∧
       run (engine_new (StubClock_new 0) CounterIdGenerator_new VecSink_new : Engine L StubClock CounterIdGenerator VecSink)
         (replay_equality.case_orders cases) = Ret e ∧
       encode_all (zero_timestamps <$> events (e_sink e)) [] = Ret (Ok out) ∧
       replay_bytes (L := L) bytes true = Ret (Ok out)) ∧
  (∀ cases, Forall replay_equality.arb_inbound_case cases → (length cases <= 20)%nat →
     replay_equality.proptest_replay_byte_identical_with_timestamps_under_stub_clock L cases = Ret tt) ∧
  (∀ n, 1 <= n <= 1000000 → passed (price_tests.proptest_price_roundtrip_ticks n) = true ∧
     passed (qty_tests.proptest_qty_roundtrip_lots n) = true) ∧
  (∀ v, 1 <= v <= u64_max → passed (order_id_tests.proptest_order_id_roundtrip v) = true) ∧
  (∀ v, 1 <= v <= u32_max → passed (account_id_tests.proptest_account_id_roundtrip v) = true) ∧
  (∀ n, is_i64 n → passed (client_ts_tests.proptest_client_ts_roundtrip n) = true ∧
     passed (recv_ts_tests.proptest_recv_ts_roundtrip n) = true) ∧
  (∀ seed, 0 <= seed <= u64_max - 1 → passed (engine_seq_tests.proptest_engine_seq_strictly_monotonic seed) = true ∧
     passed (trade_id_tests.proptest_trade_id_strictly_monotonic seed) = true).
Proof.
  destruct roundtrip.inbound_roundtrips_pass as (? & ? & ? & ? & ? & ?), roundtrip.outbound_roundtrips_pass as (? & ? & ? & ?).
  split_and!; try assumption;
    [apply qty_conserved_passes|apply maker_price_passes|apply distinct_maker_taker_passes|..].
  - intros commands Hc. by destruct (invariants.invariants_pass (L := L) commands Hc) as (? & _ & ? & _ & ?).
  - intros cases Hc Hl. split; [by apply replay_equality.replay_passes|].
    destruct (replay_equality.replay_of_cases (L := L) cases Hc Hl) as (bytes & e & out & _ & ? & ? & ? & ? & _). by exists bytes, e, out.
  - intros cases Hc Hl. apply replay_equality.replay_passes; [done|lia].
  - intros n Hn. split; [by apply price_tests.price_proptests|by apply qty_tests.qty_proptests].
  - apply order_id_tests.order_id_proptests.
  - apply account_id_tests.account_id_proptests.
  - intros n _. split; [apply client_ts_tests.client_ts_proptests|apply recv_ts_tests.recv_ts_proptests].
  - intros seed Hs. split; [by apply engine_seq_tests.engine_seq_proptests|by apply trade_id_tests.trade_id_proptests].
Qed.


(** ** The theorems at concrete inputs *)

(** A resting ask, a post-only bid, a reprice through the spread, a cancel. *)
Definition demo_commands : list Command :=
  [C_NewOrder 1 1 Ask 100 5 Gtc; C_NewOrder 2 2 Bid 99 5 PostOnly; C_NewOrder 3 3 Bid 98 7 Gtc;
   C_Replace 3 100 7; C_NewOrder 4 4 Ask 99 2 Ioc; C_Cancel 3].

Lemma TestIds_new_cap n : Z.of_nat n <= u64_max → (n <= id_cap TestIds_new)%nat.
Proof. intros Hn. change (id_cap TestIds_new) with (Z.to_nat (u64_max - 0)). lia. Qed.

Lemma book_never_crossed_witness :
  book_never_crossed_across_add_cancel_replace (L := StackLevel) TestIds_new demo_commands = Ret tt.
Proof.
  apply (book_never_crossed (L := StackLevel) TestIds_new demo_commands).
  - repeat constructor; vm_compute; intuition discriminate.
  - apply TestIds_new_cap. unfold u64_max. simpl. lia.
Defined.

Lemma price_level_irrelevant_witness :
  orel (λ e1 e2, e_sink e1 = e_sink e2)
    (run (engine_new (StubClock_new 5) CounterIdGenerator_new VecSink_new : Engine FifoLevel _ _ _)
       [demo_new 1 2 Ask 100 5 Gtc; demo_new 2 7 Bid 100 3 Gtc])
    (run (engine_new (StubClock_new 5) CounterIdGenerator_new VecSink_new : Engine StackLevel _ _ _)
       [demo_new 1 2 Ask 100 5 Gtc; demo_new 2 7 Bid 100 3 Gtc]).
Proof.
  pose proof (price_level_irrelevant (L1 := FifoLevel) (L2 := StackLevel) (StubClock_new 5) CounterIdGenerator_new VecSink_new
    [demo_new 1 2 Ask 100 5 Gtc; demo_new 2 7 Bid 100 3 Gtc]
    ltac:(repeat apply Forall_cons_2; [apply demo_new_ok; solve_fields..|apply Forall_nil_2])) as H.
  destruct (run _ _) as [e1| |]; destruct (run _ _) as [e2| |]; try exact H. exact (proj1 H).
Defined.

Lemma golden_fixture_witness : replay_bytes (L := StackLevel) fixture_inbound true = Ret (Ok fixture_golden).
Proof. exact (proj2 (golden_fixture (L := StackLevel))). Defined.

Lemma property_tests_pass_witness :
  proptest_qty_conserved_across_add_cancel (L := StackLevel) [(Bid, 10, 5); (Ask, 11, 7); (Bid, 10, 1)] = Ret tt.
Proof.
  apply (proj1 (property_tests_pass (L := StackLevel))).
  - repeat constructor; vm_compute; intuition discriminate.
  - apply Nat.leb_le. reflexivity.
Defined.




